(* ===== verification/_CoqProject ===== *)
-Q . S2P
Prelude.v
Contracts.v
Queries.v
Store.v
Lifecycle.v
GoStrings.v
TypeSyntax.v
GoJson.v
RuntimeText.v
Adapters.v
Graphs.v
AdapterLaws.v
GraphLaws.v
Resolved.v
Harness.v
CppHarness.v
CppClass.v
PyHarness.v
Languages.v
Validate.v
Verdict.v
TestCases.v
Observations.v
Admission.v
Generation.v
Judging.v
Effects.v
Paths.v
Workspace.v
WorkspaceLaws.v
Service.v
ServiceLaws.v
Worker.v
Renewal.v
Pool.v
PoolLaws.v
CompileWorkers.v
Buffers.v
Seccomp.v
GoStruct.v
Docker.v
Wire.v
DockerLaws.v
WireLaws.v
Supervisor.v
SupervisorLaws.v
Protocol.v
GoScanner.v
JobJson.v
Metrics.v
Migrations.v
Http.v
HttpLaws.v
Config.v
Server.v
EndToEnd.v
Samples.v
