(* ===== verification/Prelude.v ===== *)
(** * YexJudge: a verified model of the judge

    YexJudge accepts programs over HTTP, queues them in PostgreSQL, compiles
    and runs each against its test cases in Docker sandboxes and stores a
    verdict.  This library models the Go code of the repository - from the
    request body to the row that holds the verdict, and the supervisor that runs
    inside the sandbox - and proves what that code promises.  Every definition
    is a translation of the Go declaration it is named after; the files below
    say which.

    ** Parts and files

    Foundations:
    - Prelude.v (this file): Go errors ([goerr]: the format and the arguments
      of [fmt.Errorf]), the [(value, error)] pairs as [result], the [for range]
      loops that stop at the first error ([imapM], [iterM], [foldM]), machine
      integers, tactics and hint databases.
    - GoStrings.v, GoJson.v, GoStruct.v, GoScanner.v, Paths.v: what the code uses
      of the Go standard library - UTF-8, [strings], [strconv], [sort],
      [encoding/json] (values, structs, streams, the incremental scanner),
      [path/filepath].
    - Effects.v: calls that change a state and append to a log, with Go's
      [defer] and the clean-up before an early return.
    - Contracts.v: internal/judge/types.go (jobs, results, submissions) and the
      execution modes.

    Queue and store:
    - Queries.v: internal/dbquery/submissions.sql.go, one definition for each
      SQL statement on the submissions table.  Store.v:
      internal/judge/postgres_store.go and postgres_queue.go as transactions on
      that table.  Lifecycle.v: the step relation of concurrent clients, its
      abstract life cycle and the theorems about it.

    Contracts and programs:
    - TypeSyntax.v: internal/judge/harness/cpp/types/ref.go and parser.go.
    - RuntimeText.v: the C++ and Python text constants.  Adapters.v:
      registry.go, scalar.go, vector.go, optional.go and runtime.go of the same
      package.  Graphs.v and GraphLaws.v: graphs of integers and the two graph
      loops.  AdapterLaws.v: the contract of the [Adapter] interface as the
      class [Lawful], and that every adapter fulfils it.  Resolved.v: that
      every type the default registry resolves does.
    - Harness.v: internal/judge/harness/generator.go and mode.go.  CppHarness.v
      and CppClass.v: harness/cpp/function.go and class.go.  PyHarness.v:
      harness/python/types.go, function.go, class.go.  Languages.v:
      internal/judge/languages and cpp_function_harness.go.

    Judging:
    - Validate.v: internal/judge/validate.go.  Verdict.v and TestCases.v:
      internal/judge/testcases.go.  Observations.v, Admission.v, Generation.v:
      what admission establishes and that it suffices for generation and
      judging.  Judging.v: the verdict theorems.
    - Workspace.v, WorkspaceLaws.v: internal/judge/workspace.go.  Service.v,
      ServiceLaws.v: service.go.  Worker.v, Renewal.v: the worker and the lease
      tickers of cmd/server/main.go over the store.
    - Pool.v, PoolLaws.v: internal/judge/pool.go.  CompileWorkers.v:
      compile_workers.go.

    Execution:
    - Buffers.v: the five buffers that bound a process's output, behind the
      interfaces [Capped] and [Reporting].
    - Docker.v, DockerLaws.v: internal/judge/executor.go and
      internal/runner/docker_runner.go.  Wire.v, WireLaws.v:
      internal/judge/supervisor_executor.go and the other end of its stream.
    - Supervisor.v, SupervisorLaws.v: cmd/yexsupervisor/main.go, its cases and
      file system.  Seccomp.v: its system call filter.  Protocol.v: the judge
      and the supervisor together.

    Server:
    - JobJson.v: the struct tags of types.go.  Http.v, HttpLaws.v: the handlers of
      cmd/server.  Config.v: config.go and env.go.  Migrations.v: db/embed.go.
      Metrics.v: internal/observability/metrics.go.  Server.v: [main], start-up
      and shutdown.
    - EndToEnd.v: the server, the queue and a worker together.
    - Samples.v: concrete jobs, environments and requests on which the theorems
      are applied.

    A request reaches [serve]; [decodeAndValidateJudgeJob] decodes its body into
    a [Job] and [ValidateJob] admits it with the adapters of Adapters.v; Store.v
    queues it and a worker claims it; [ProcessSubmission] has
    [generateModeProgram] make the program text, compiles it, takes a sandbox
    from the pool, and [runTestCases] compares what the executor reports with
    [testCaseExpectedOutput]; the store keeps the result while the lease is
    renewed.

    ** State and operations

    A table row is a [row]; the whole database state of Lifecycle.v is the
    table, the admission lock and the history of claims; a step of its relation
    is one transaction of one client, so interleavings are sequences of steps.
    The pools are step relations as well: a goroutine is a point of its code
    between two atomic actions ([Task], [Caller], [CompileWorker]), and any of
    them may move.  Code that talks to one other party is a function of the
    state it changes with a log ([eff]); what the docker command, the file
    system, the database or the clock answers is an argument ([Environment],
    [Disk], [Container], [Exchange], [Boot]), so a theorem holds for every
    answer.  Between two updates of a worker the table may be changed by anyone
    ([Database]).  Methods without state are functions into [result].

    ** What is proved

    - From the request to the answer (C1, EndToEnd.v): a posted job that is
      judged in a healthy environment is answered with the verdict of its cases;
      a verdict that the result column refuses is not stored.
    - Queue and store (C2-C10, Lifecycle.v): refinement of the abstract life
      cycle, fencing of lost claims, attempt numbers, well-formed rows,
      admission bound, recovery, first-in-first-out claims, progress.
    - Declared types (C11-C12, TypeSyntax.v): printing and parsing are inverse,
      the parser terminates within its limits.
    - Values (C13-C18, Resolved.v): validated values have literals and
      canonical forms; canonical forms are fixed points; order-free comparison
      is permutation; C++ string literals are exact; graph acceptance is
      reachability; canonical graph equality is renumbering.
    - Admission and verdicts (C19-C21, Generation.v and Judging.v): accepted
      jobs have programs and expected outputs; their limits; the verdict is the
      first failing case by precedence, and acceptance otherwise.  A supervisor
      stops at the first failing case, so only the cases that are reached need
      a run result ([answered]; [decoded_answered] of Protocol.v shows that what
      the judge decodes from a supervisor is enough).
    - One submission (C22-C27, WorkspaceLaws.v, ServiceLaws.v and Renewal.v):
      archives are bounded and stay inside the workspace, also when an import
      fails; processing refines a list of endings, hides the details of faults
      and releases what it holds; while its lease is renewed a claim settles, or
      its result cannot be stored and the row stays running until the lease ends.
    - Pools (C28-C31, PoolLaws.v and CompileWorkers.v): accounting, exclusive
      use, nothing left after closing, bounded compilation.
    - Execution (C32-C36): bounded output; the filter decides as a policy written
      from the kernel's tables; the protocol returns the results of the cases;
      cases do not see each other's files, nor what others leave running writes;
      what each call of the executor does to its container.
    - Server (C37-C40): each posted submission gets the one answer that is true
      of the table; the settings a start accepts; migrations run once; every end
      of the process gives back what it took, except a failure to listen.

    ** Bounds and fuel

    Fuel appears where Go loops are not structural, and each use has a lemma
    that it suffices: the type parser's argument loop ([parser_fuel], C12), the
    depth-first loop (one turn per edge plus one, [reach_loop_total]), the
    breadth-first loop (one turn per node plus one, [order_loop_total]), the
    JSON scanner's element loops (the length of the text), the descent into a
    workspace directory (the depth of the tree).  Polling loops take
    the list of what each turn sees; a list that ends before the loop does is an
    execution still running.  The nesting limit 10000 of encoding/json is
    [maxNestingDepth].  Integers are [Z] with the wrap-around of Go's types
    written where the code computes with them.

    ** Parameters

    [UnicodeTables] and [PrintTables]: the Unicode categories above Latin-1.
    [Float64]: [strconv] on finite doubles, with the documented round trip.
    [ColumnCodec] (Store.v): the JSON of the stored columns, as the jsonb type
    returns it.  [BPF] (Seccomp.v): the kernel's filter machine.  The [exec]
    of Migrations.v: what a migration script does to a schema.  Each has a
    concrete instance used by the examples.

    ** Not modelled

    The generated plumbing of internal/dbquery around the statements, the
    driver and the log lines.  Docker, the kernel and the submitted program are
    answers of the environment; what a sandbox does to a process beyond the
    files, the processes and the system call filter is not described.  The
    generated C++ and Python programs are modelled as text; they are given no
    semantics here, except for the string literals of C16.  Connections are
    net/http's: a handler starts with a read request, and a response is the calls
    that make it.  A signal is handled once the server listens.
    A replacement goroutine of the pool reaches its [select] before the timer it
    just made fires, and a container that a failed docker run may have left is
    not the pool's.  A Go [map]
    iteration whose order only decides which of several errors is reported
    follows [map_to_list]. *)

From Stdlib Require Export ssreflect ZArith Lia.
From stdpp Require Export base tactics decidable list gmap strings sorting
  fin_maps fin_map_dom pretty.

(** ** Go errors

    [fmt.Errorf] is kept as its format and its arguments: the model says which
    message the code builds without modelling the formatting itself. *)
Inductive goerr : Type :=
  | Errorf (format : string) (args : list farg)
  | LibErr (what : string)
with farg : Type :=
  | FInt (z : Z)
  | FStr (s : string)
  | FErr (e : goerr).

(** ** Results: a Go [(value, error)] pair whose error is checked at once *)
Inductive result (A : Type) : Type :=
  | Ok (a : A)
  | Err (e : goerr).
Arguments Ok {A} a.
Arguments Err {A} e.

#[export] Instance result_ret : MRet result := fun A a => Ok a.
#[export] Instance result_bind : MBind result :=
  fun A B f m => match m with Ok a => f a | Err e => Err e end.
#[export] Instance result_fmap : FMap result :=
  fun A B f m => match m with Ok a => Ok (f a) | Err e => Err e end.

Definition is_ok {A} (r : result A) : bool :=
  match r with Ok _ => true | Err _ => false end.

(** [if err != nil { return wrap(err) }] *)
Definition wrap_err {A} (wrap : goerr -> goerr) (r : result A) : result A :=
  match r with Ok a => Ok a | Err e => Err (wrap e) end.

Declare Scope go_scope.
Delimit Scope go_scope with go.
Open Scope go_scope.
#[export] Set Warnings "-rewrite-rw,-clear-no-such-hyp,-register-all,-abstract-large-number".
#[global] Open Scope general_if_scope.

(** [if c { return err }; k] *)
Notation "'fail_if' c 'with' e ';;' k" := (if (c : bool) then Err e else k)
  (at level 10, c at level 99, e at level 99, k at level 200,
   format "'[v' 'fail_if'  c  'with'  e  ';;' '/' k ']'") : go_scope.

(** [for i, x := range l { y, err := f(i, x); if err != nil { return err };
    out = append(out, y) }], counting from [i]. *)
Fixpoint imapM_from {A B} (i : nat) (f : nat -> A -> result B) (l : list A)
    : result (list B) :=
  match l with
  | [] => Ok []
  | x :: l' => y ← f i x; ys ← imapM_from (S i) f l'; Ok (y :: ys)
  end.
Definition imapM {A B} := @imapM_from A B 0.

(** [for i, x := range l { if err := f(i, x); err != nil { return err } }] *)
Fixpoint iterM_from {A} (i : nat) (f : nat -> A -> result unit) (l : list A)
    : result unit :=
  match l with
  | [] => Ok tt
  | x :: l' => f i x;; iterM_from (S i) f l'
  end.
Definition iterM {A} := @iterM_from A 0.

(** A loop that threads an accumulator and may fail. *)
Fixpoint foldM_from {A S} (i : nat) (f : nat -> S -> A -> result S)
    (s : S) (l : list A) : result S :=
  match l with
  | [] => Ok s
  | x :: l' => s' ← f i s x; foldM_from (Datatypes.S i) f s' l'
  end.
Definition foldM {A S} := @foldM_from A S 0.

Lemma bind_Ok {A B} (f : A -> result B) a : (Ok a ≫= f) = f a.
Proof. done. Qed.

Lemma bind_Ok_inv {A B} (f : A -> result B) m b :
  (m ≫= f) = Ok b -> exists a, m = Ok a /\ f a = Ok b.
Proof. destruct m as [a|e]; [by exists a|done]. Qed.

Lemma ok_inj {A} (a b : A) : Ok a = Ok b -> a = b.
Proof. congruence. Qed.

Lemma wrap_err_Ok {A} w (r : result A) a : wrap_err w r = Ok a <-> r = Ok a.
Proof. by destruct r. Qed.

Lemma fail_if_Ok {A} (c : bool) e (k : result A) a : (fail_if c with e;; k) = Ok a <-> c = false /\ k = Ok a.
Proof. destruct c; naive_solver. Qed.

(** ** Tactics *)

(** Turns [m ≫= f = Ok b] hypotheses into the equations of the steps. *)
Ltac ok_inv :=
  repeat match goal with
  | H : Err _ = Ok _ |- _ => discriminate H
  | H : Ok _ = Err _ |- _ => discriminate H
  | H : Ok _ = Ok _ |- _ => injection H as H; try subst
  | H : mret _ = Ok _ |- _ => injection H as H; try subst
  | H : mbind _ ?m = Ok _ |- _ =>
      let a := fresh "a" in
      let E := fresh "E" in
      apply bind_Ok_inv in H as (a & E & H)
  | H : fmap _ ?m = Ok _ |- _ =>
      let E := fresh "E" in
      destruct m eqn:E; cbn [fmap result_fmap] in H; [|discriminate H]
  | H : (if ?c then Err _ else _) = Ok _ |- _ =>
      let E := fresh "E" in
      lazymatch type of c with bool => idtac end;
      destruct c eqn:E; [discriminate H|]
  | H : wrap_err _ ?m = Ok _ |- _ =>
      let E := fresh "E" in
      destruct m eqn:E; cbn [wrap_err] in H; [|discriminate H]
  end.

(** Boolean facts to propositions, for [lia]. *)
Ltac bool_prop :=
  repeat match goal with
  | H : _ && _ = true |- _ => apply andb_true_iff in H as [? ?]
  | H : _ || _ = false |- _ => apply orb_false_iff in H as [? ?]
  | H : negb _ = true |- _ => apply negb_true_iff in H
  | H : negb _ = false |- _ => apply negb_false_iff in H
  | H : (_ <? _)%Z = true |- _ => apply Z.ltb_lt in H
  | H : (_ <? _)%Z = false |- _ => apply Z.ltb_ge in H
  | H : (_ <=? _)%Z = true |- _ => apply Z.leb_le in H
  | H : (_ <=? _)%Z = false |- _ => apply Z.leb_gt in H
  | H : (_ =? _)%Z = true |- _ => apply Z.eqb_eq in H
  | H : (_ =? _)%Z = false |- _ => apply Z.eqb_neq in H
  | H : bool_decide _ = true |- _ => apply bool_decide_eq_true in H
  | H : bool_decide _ = false |- _ => apply bool_decide_eq_false in H
  end.

(** ** Lemmas about the loops *)

Lemma imapM_from_Ok {A B} (f : nat -> A -> result B) i l k :
  imapM_from i f l = Ok k <->
  length k = length l /\
  forall j x y, l !! j = Some x -> k !! j = Some y -> f (i + j)%nat x = Ok y.
Proof.
  revert i k. induction l as [|a l IH]; intros i k; cbn.
  - split.
    + intros [= <-]. by split.
    + intros [Hlen _]. by destruct k.
  - split.
    + intros H. ok_inv. apply IH in E0 as [Hlen Hall].
      split; [cbn; lia|]. intros [|j] x y; cbn.
      * intros [= <-] [= <-]. by rewrite Nat.add_0_r.
      * intros Hx Hy. replace (i + S j)%nat with (S i + j)%nat by lia. by apply (Hall j).
    + intros [Hlen Hall]. destruct k as [|b k]; [done|].
      pose proof (Hall 0%nat a b eq_refl eq_refl) as H0. rewrite Nat.add_0_r in H0.
      rewrite H0 /=. cbn in Hlen.
      assert (imapM_from (S i) f l = Ok k) as ->; [|done].
      apply IH. split; [lia|]. intros j x y Hx Hy.
      replace (S i + j)%nat with (i + S j)%nat by lia. by apply Hall.
Qed.

Lemma imapM_from_length {A B} (f : nat -> A -> result B) i l k :
  imapM_from i f l = Ok k -> length k = length l.
Proof. by intros [? _]%imapM_from_Ok. Qed.

(** The loop succeeds as soon as each of its steps does. *)
Lemma imapM_from_is_ok {A B} (f : nat -> A -> result B) i l :
  (forall j x, l !! j = Some x -> exists y, f (i + j)%nat x = Ok y) ->
  exists k, imapM_from i f l = Ok k.
Proof.
  revert i. induction l as [|a l IH]; intros i H; cbn; [eauto|].
  destruct (H 0%nat a eq_refl) as [y Hy]. rewrite Nat.add_0_r in Hy. rewrite Hy /=.
  destruct (IH (S i)) as [k Hk].
  - intros j x Hx. destruct (H (S j) x Hx) as [z Hz].
    exists z. by replace (S i + j)%nat with (i + S j)%nat by lia.
  - rewrite Hk /=. eauto.
Qed.

Lemma iterM_from_Ok {A} (f : nat -> A -> result unit) i l :
  iterM_from i f l = Ok tt <->
  forall j x, l !! j = Some x -> f (i + j)%nat x = Ok tt.
Proof.
  revert i. induction l as [|a l IH]; intros i; cbn; [split; [done|by intros]|].
  split.
  - intros H. ok_inv. intros [|j] x; cbn.
    + intros [= <-]. rewrite Nat.add_0_r. by destruct a0.
    + intros Hx. replace (i + S j)%nat with (S i + j)%nat by lia. revert Hx. by apply (proj1 (IH (S i))).
  - intros H. pose proof (H 0%nat a eq_refl) as H0. rewrite Nat.add_0_r in H0.
    rewrite H0 /=. apply IH. intros j x Hx.
    replace (S i + j)%nat with (i + S j)%nat by lia. by apply H.
Qed.

(** An invariant of the accumulator. *)
Lemma foldM_from_inv {A S} (P : S -> Prop) (f : nat -> S -> A -> result S) i s l s' :
  (forall j a x b, x ∈ l -> P a -> f j a x = Ok b -> P b) ->
  P s -> foldM_from i f s l = Ok s' -> P s'.
Proof.
  revert i s. induction l as [|x l IH]; intros i s Hstep Hs; cbn; [by intros [= <-]|].
  intros H. ok_inv. eapply IH; [|eapply (Hstep i s x); [apply elem_of_cons; by left|done|exact E]|done].
  intros j b y c Hy. eapply Hstep. apply elem_of_cons. by right.
Qed.

(** Two loops side by side. *)
Lemma foldM_from_sim {A A' S S'} (R : S -> S' -> Prop) (g : A -> A')
    (f : nat -> S -> A -> result S) (f' : nat -> S' -> A' -> result S') i s s' l t :
  (forall j a b x c, x ∈ l -> R a b -> f j a x = Ok c -> exists d, f' j b (g x) = Ok d /\ R c d) ->
  R s s' -> foldM_from i f s l = Ok t -> exists t', foldM_from i f' s' (map g l) = Ok t' /\ R t t'.
Proof.
  revert i s s'. induction l as [|x l IH]; intros i s s' Hstep Hs; cbn.
  { intros [= <-]. by exists s'. }
  intros (c & Hc & H)%bind_Ok_inv.
  destruct (Hstep i s s' x c) as (d & -> & Hd); [by left|done..|].
  cbn. apply (IH _ c); [|done|done]. intros j a b y e Hy. apply Hstep. by right.
Qed.

(** Every element went through a step that succeeded. *)
Lemma foldM_from_each {A S} (f : nat -> S -> A -> result S) i s l t x :
  foldM_from i f s l = Ok t -> x ∈ l -> exists j a b, f j a x = Ok b.
Proof.
  revert i s. induction l as [|y l IH]; intros i s; [by intros _ ?%elem_of_nil|]. cbn.
  intros (c & Hc & H)%bind_Ok_inv [->|Hx]%elem_of_cons; [eauto|by eapply IH].
Qed.

Lemma imapM_from_map {A B C} (f : nat -> B -> result C) (g : A -> B) i l :
  imapM_from i f (map g l) = imapM_from i (fun j x => f j (g x)) l.
Proof. revert i. induction l as [|x l IH]; intros i; [done|]. cbn. by rewrite IH. Qed.

Lemma iterM_from_map {A B} (f : nat -> B -> result unit) (g : A -> B) i l :
  iterM_from i f (map g l) = iterM_from i (fun j x => f j (g x)) l.
Proof. revert i. induction l as [|x l IH]; intros i; [done|]. cbn. by rewrite IH. Qed.

(** ** Machine integers *)

Definition wrap32 (z : Z) : Z := ((z + 2^31) mod 2^32 - 2^31)%Z.
Definition wrap64 (z : Z) : Z := ((z + 2^63) mod 2^64 - 2^63)%Z.
Definition in_int32 (z : Z) : Prop := (- 2^31 <= z < 2^31)%Z.
Definition in_int64 (z : Z) : Prop := (- 2^63 <= z < 2^63)%Z.

Lemma wrap32_id z : in_int32 z -> wrap32 z = z.
Proof. rewrite /in_int32 /wrap32. intros ?. rewrite Z.mod_small; lia. Qed.

Lemma wrap64_id z : in_int64 z -> wrap64 z = z.
Proof. rewrite /in_int64 /wrap64. intros ?. rewrite Z.mod_small; lia. Qed.

Lemma wrap64_in z : in_int64 (wrap64 z).
Proof.
  rewrite /in_int64 /wrap64. pose proof (Z.mod_pos_bound (z + 2^63) (2^64)). lia.
Qed.

Create HintDb yex discriminated.
Create Rewrite HintDb yex.
#[export] Hint Resolve wrap64_in : yex.
#[export] Hint Rewrite wrap32_id wrap64_id using (rewrite /in_int32 /in_int64; lia) : yex.
