(* ===== verification/Contracts.v ===== *)
(** * Data shared by the judge packages

    [internal/judge/types.go] (jobs, results, submissions),
    [internal/judge/harness/generator.go] (the language independent contract)
    and [internal/judge/harness/mode.go] (execution modes).  A Go pointer field
    is an [option]; [json.RawMessage] is its bytes, [nil] being the empty
    string (the code only ever asks for its length); [int] is [Z]. *)

From S2P Require Import Prelude.

Abbreviation RawMessage := string (only parsing).

(** ** types.go *)

Record OperationCall := mkOperationCall {
  oc_Name : string;
  oc_Args : list RawMessage }.

Record TestCase := mkTestCase {
  tc_ID : Z;
  tc_Input : string;
  tc_ExpectedOutput : string;
  tc_ActualOutput : string;
  tc_Args : list RawMessage;
  tc_Expected : RawMessage;
  tc_ConstructorArgs : list RawMessage;
  tc_Operations : list OperationCall }.

Record FunctionParam := mkFunctionParam {
  fp_Name : string;
  fp_Type : string }.

Record ObservationSpec := mkObservationSpec {
  ob_Kind : string;
  ob_Parameter : Z;
  ob_View : string;
  ob_LengthFromReturn : bool }.

Record PostconditionSpec := mkPostconditionSpec {
  pc_Kind : string;
  pc_Subject : string;
  pc_FromParameter : Z }.

Record FunctionComparisonSpec := mkFunctionComparisonSpec {
  fc_ReturnArrayOrder : string }.

Record FunctionSpec := mkFunctionSpec {
  fn_Name : string;
  fn_ReturnType : string;
  fn_Params : list FunctionParam;
  fn_Observations : list ObservationSpec;
  fn_Postconditions : list PostconditionSpec;
  fn_Comparison : option FunctionComparisonSpec }.

Record ClassOperationSpec := mkClassOperationSpec {
  co_Name : string;
  co_ReturnType : string;
  co_Params : list FunctionParam }.

Record ClassSpec := mkClassSpec {
  cl_Name : string;
  cl_ConstructorParams : list FunctionParam;
  cl_Operations : list ClassOperationSpec }.

Record Limits := mkLimits {
  TimeLimitMs : Z;
  MemoryLimitMb : Z }.

Record Job := mkJob {
  job_Language : string;
  job_Mode : string;
  job_SourceCode : string;
  job_Function : option FunctionSpec;
  job_Class : option ClassSpec;
  job_TestCases : list TestCase;
  job_Limits : Limits }.

Inductive Status :=
  | Accepted | WrongAnswer | TimeLimitExceeded | RuntimeError
  | CompilationError | MemoryLimitExceeded | OutputLimitExceeded
  | InfrastructureError | ValidationError.

Inductive SubmissionStatus :=
  | SubmissionQueued | SubmissionRunning | SubmissionFinished | SubmissionFailed.

#[export] Instance Status_eq_dec : EqDecision Status.
Proof. solve_decision. Defined.
#[export] Instance SubmissionStatus_eq_dec : EqDecision SubmissionStatus.
Proof. solve_decision. Defined.
#[export] Instance OperationCall_eq_dec : EqDecision OperationCall.
Proof. solve_decision. Defined.
#[export] Instance TestCase_eq_dec : EqDecision TestCase.
Proof. solve_decision. Defined.

(** [MemoryMb] is the float64 [float64(maxMemoryBytes) / (1024*1024)]; the
    model keeps the byte count it is computed from. *)
Record Result := mkResult {
  rs_Status : Status;
  rs_PassedTestCases : Z;
  rs_TotalTestCases : Z;
  rs_RuntimeMs : Z;
  rs_MemoryBytes : Z;
  rs_FailedTestCase : option TestCase;
  rs_ErrorMessage : string }.

Record Submission := mkSubmission {
  sub_CreatedAt : option Z;
  sub_ID : string;
  sub_Job : Job;
  sub_Status : SubmissionStatus;
  sub_Result : option Result;
  sub_StartedAt : option Z;
  sub_AttemptCount : Z;
  sub_LeaseExpiresAt : option Z;
  sub_FailureMessage : string }.

(** ** mode.go *)

Definition ModeStdin : string := "stdin".
Definition ModeFunction : string := "function".
Definition ModeClass : string := "class".
Definition ModeInteractive : string := "interactive".
Definition ModeSQL : string := "sql".
Definition ModeShell : string := "shell".

(** [func (m ExecutionMode) Valid() bool] *)
Definition ExecutionMode_Valid (m : string) : bool :=
  bool_decide (m ∈ [ModeStdin; ModeFunction; ModeClass;
                    ModeInteractive; ModeSQL; ModeShell]).

(** [func (j Job) ExecutionMode() harness.ExecutionMode] *)
Definition Job_ExecutionMode (j : Job) : string :=
  if negb (bool_decide (job_Mode j = "")) then job_Mode j
  else match job_Function j with
       | Some _ => ModeFunction
       | None => match job_Class j with
                 | Some _ => ModeClass
                 | None => ModeStdin
                 end
       end.
