(* ===== verification/Queries.v ===== *)
(** * The SQL layer: internal/dbquery/submissions.sql.go

    The [submissions] table is a finite map from the primary key to the other
    columns.  One definition per statement: the statement's WHERE, SET and
    RETURNING clauses are read off the SQL text of the Go constant, executed
    atomically at the transaction time [now] (PostgreSQL's [NOW()], in
    microseconds).  A comparison with a NULL lease is not true, hence the
    [option] tests.  [locked] is the set of rows another transaction holds, the
    ones SKIP LOCKED steps over.  Statements ending in [:execrows] also return
    the number of rows they changed. *)

From S2P Require Import Prelude Contracts.

Record row := mkRow {
  r_status : SubmissionStatus;
  r_job : string;
  r_result : option string;
  r_started_at : option Z;
  r_attempt_count : Z;
  r_lease_expires_at : option Z;
  r_failure_message : option string;
  r_created_at : Z;
  r_updated_at : Z }.

#[export] Instance row_eq_dec : EqDecision row.
Proof. solve_decision. Defined.

Abbreviation table := (gmap string row).

(** [lease_expires_at > NOW()] *)
Definition lease_live (now : Z) (r : row) : bool :=
  match r_lease_expires_at r with Some l => (now <? l)%Z | None => false end.

(** [lease_expires_at IS NOT NULL AND lease_expires_at <= NOW()] *)
Definition lease_expired (now : Z) (r : row) : bool :=
  match r_lease_expires_at r with Some l => (l <=? now)%Z | None => false end.

Definition has_status (s : SubmissionStatus) (r : row) : bool :=
  bool_decide (r_status r = s).

(** [UPDATE submissions SET ... WHERE id = $1 AND cond]: a primary-key update
    touches at most one row. *)
Definition update_by_id (id : string) (cond : row -> bool) (set : row -> row)
    (t : table) : table * Z :=
  match t !! id with
  | Some r => if cond r then (<[id := set r]> t, 1%Z) else (t, 0%Z)
  | None => (t, 0%Z)
  end.

Record InsertSubmissionParams := mkInsertSubmissionParams {
  ip_ID : string;
  ip_Status : SubmissionStatus;
  ip_Job : string;
  ip_Result : option string;
  ip_StartedAt : option Z;
  ip_AttemptCount : Z;
  ip_LeaseExpiresAt : option Z;
  ip_FailureMessage : option string }.

Definition InsertSubmission (now : Z) (arg : InsertSubmissionParams) (t : table)
    : result table :=
  match t !! ip_ID arg with
  | Some _ => Err (LibErr "duplicate key value violates unique constraint")
  | None =>
      Ok (<[ip_ID arg :=
              mkRow (ip_Status arg) (ip_Job arg) (ip_Result arg) (ip_StartedAt arg)
                    (ip_AttemptCount arg) (ip_LeaseExpiresAt arg)
                    (ip_FailureMessage arg) now now]> t)
  end.

Definition GetSubmission (id : string) (t : table) : option row := t !! id.

Record UpdateSubmissionParams := mkUpdateSubmissionParams {
  up_NewStatus : SubmissionStatus;
  up_Result : option string;
  up_StartedAt : option Z;
  up_LeaseExpiresAt : option Z;
  up_FailureMessage : option string;
  up_ID : string;
  up_AttemptCount : Z }.

Definition update_cond (now : Z) (arg : UpdateSubmissionParams) (r : row) : bool :=
  (r_attempt_count r =? up_AttemptCount arg)%Z &&
  (has_status SubmissionRunning r && lease_live now r
   || has_status SubmissionQueued r
      && bool_decide (up_NewStatus arg = SubmissionFailed)
      && (r_attempt_count r =? 0)%Z).

Definition update_set (now : Z) (arg : UpdateSubmissionParams) (r : row) : row :=
  mkRow (up_NewStatus arg) (r_job r) (up_Result arg) (up_StartedAt arg)
        (r_attempt_count r)
        (match up_NewStatus arg with
         | SubmissionFinished | SubmissionFailed => None
         | SubmissionRunning => r_lease_expires_at r
         | SubmissionQueued => up_LeaseExpiresAt arg
         end)
        (up_FailureMessage arg) (r_created_at r) now.

Definition UpdateSubmission (now : Z) (arg : UpdateSubmissionParams) (t : table)
    : table * Z :=
  update_by_id (up_ID arg) (update_cond now arg) (update_set now arg) t.

(** [SELECT COUNT( * ) FROM submissions WHERE status = $1] *)
Definition CountQueuedSubmissions (s : SubmissionStatus) (t : table) : Z :=
  Z.of_nat (size (filter (fun kv => has_status s kv.2 = true) t)).

Definition CountSubmissionsByStatus (queued running failed : SubmissionStatus)
    (t : table) : Z * Z * Z :=
  (CountQueuedSubmissions queued t, CountQueuedSubmissions running t,
   CountQueuedSubmissions failed t).

(** [interval] is [make_interval(secs => lease_seconds)] in microseconds. *)
Definition RenewSubmissionLease (now interval : Z) (id : string)
    (status : SubmissionStatus) (attempt : Z) (t : table) : table * Z :=
  update_by_id id
    (fun r => has_status status r && (r_attempt_count r =? attempt)%Z
              && lease_live now r)
    (fun r => mkRow (r_status r) (r_job r) (r_result r) (r_started_at r)
        (r_attempt_count r)
        (Some (match r_lease_expires_at r with
               | Some l => Z.max l (now + interval)
               | None => now + interval
               end)%Z)
        (r_failure_message r) (r_created_at r) now)
    t.

(** ORDER BY lease_expires_at, created_at *)
Definition expiry_key (kr : string * row) : Z * Z :=
  (default 0%Z (r_lease_expires_at kr.2), r_created_at kr.2).

Definition expiry_le (a b : string * row) : Prop :=
  ((expiry_key a).1 < (expiry_key b).1)%Z \/
  ((expiry_key a).1 = (expiry_key b).1 /\ (expiry_key a).2 <= (expiry_key b).2)%Z.

#[export] Instance expiry_le_dec : RelDecision expiry_le.
Proof. intros a b. unfold expiry_le. apply _. Defined.

Definition LockExpiredSubmissions (now : Z) (locked : gset string)
    (status : SubmissionStatus) (t : table) : list (string * Z) :=
  (fun kr => (kr.1, r_attempt_count kr.2)) <$>
  merge_sort expiry_le
    (filter (fun kr => has_status status kr.2 && lease_expired now kr.2 = true
                       /\ kr.1 ∉ locked)
       (map_to_list t)).

Definition RequeueExpiredSubmission (now : Z) (status : SubmissionStatus)
    (message : option string) (id : string) (t : table) : table * Z :=
  update_by_id id (fun _ => true)
    (fun r => mkRow status (r_job r) None None (r_attempt_count r) None message
                    (r_created_at r) now) t.

Definition FailExpiredSubmission (now : Z) (status : SubmissionStatus)
    (res : string) (message : option string) (id : string) (t : table) : table * Z :=
  update_by_id id (fun _ => true)
    (fun r => mkRow status (r_job r) (Some res) (r_started_at r)
                    (r_attempt_count r) None message (r_created_at r) now) t.

(** The sub-select of ClaimNextSubmission:
    [WHERE status = $3 ORDER BY created_at FOR UPDATE SKIP LOCKED LIMIT 1]. *)
Definition claim_candidates (locked : gset string) (status : SubmissionStatus)
    (t : table) : list (string * row) :=
  filter (fun kr => has_status status kr.2 = true /\ kr.1 ∉ locked) (map_to_list t).

Definition older (a b : string * row) : string * row :=
  if (r_created_at b.2 <? r_created_at a.2)%Z then b else a.

Definition oldest (l : list (string * row)) : option (string * row) :=
  match l with
  | [] => None
  | a :: l' => Some (foldl older a l')
  end.

Definition ClaimNextSubmission (now interval : Z) (locked : gset string)
    (running queued : SubmissionStatus) (t : table)
    : result (option (string * Z * table)) :=
  match oldest (claim_candidates locked queued t) with
  | None => Ok None
  | Some (id, r) =>
      if (r_attempt_count r + 1 <? 2^31)%Z then
        Ok (Some (id, r_attempt_count r + 1,
          <[id := mkRow running (r_job r) (r_result r) (Some now)
                    (r_attempt_count r + 1) (Some (now + interval))
                    (r_failure_message r) (r_created_at r) now]> t))%Z
      else Err (LibErr "integer out of range")
  end.

(** ** Lemmas *)

Lemma update_by_id_other id cond set t j :
  id <> j -> (update_by_id id cond set t).1 !! j = t !! j.
Proof.
  intros Hne. unfold update_by_id.
  destruct (t !! id) as [r|]; [|done]. destruct (cond r); [|done].
  by rewrite lookup_insert_ne.
Qed.

Lemma update_by_id_hit id cond set t r :
  t !! id = Some r -> cond r = true ->
  update_by_id id cond set t = (<[id := set r]> t, 1%Z).
Proof. intros Hr Hc. unfold update_by_id. by rewrite Hr Hc. Qed.

(** One row changed means the row was there and met the condition. *)
Lemma update_by_id_one id cond set t t' :
  update_by_id id cond set t = (t', 1%Z) ->
  exists r, t !! id = Some r /\ cond r = true /\ t' = <[id := set r]> t.
Proof.
  unfold update_by_id. destruct (t !! id) as [r|]; [|done].
  destruct (cond r) eqn:E; [|done]. intros [= <-]. eauto.
Qed.

Lemma update_by_id_rows id cond set t t' n :
  update_by_id id cond set t = (t', n) -> (n = 0%Z /\ t' = t) \/ n = 1%Z.
Proof.
  unfold update_by_id. destruct (t !! id) as [r|]; [destruct (cond r)|];
    intros [= <- <-]; auto.
Qed.

Lemma has_status_spec s r : has_status s r = true <-> r_status r = s.
Proof. apply bool_decide_eq_true. Qed.

Lemma elem_of_claim_candidates locked s t id r :
  (id, r) ∈ claim_candidates locked s t <->
  t !! id = Some r /\ r_status r = s /\ id ∉ locked.
Proof.
  unfold claim_candidates.
  rewrite list_elem_of_filter elem_of_map_to_list has_status_spec /=. tauto.
Qed.

Lemma oldest_fold a l :
  let m := foldl older a l in
  (m = a \/ m ∈ l) /\ (r_created_at m.2 <= r_created_at a.2)%Z /\
  forall b, b ∈ l -> (r_created_at m.2 <= r_created_at b.2)%Z.
Proof.
  revert a. induction l as [|b l IH]; intros a; cbn.
  - split; [by left|]. split; [lia|]. by intros b ?%elem_of_nil.
  - destruct (IH (older a b)) as (Hin & Hle & Hall).
    assert ((r_created_at (older a b).2 <= r_created_at a.2)%Z /\
            (r_created_at (older a b).2 <= r_created_at b.2)%Z) as [Ha Hb].
    { unfold older. destruct (Z.ltb_spec (r_created_at b.2) (r_created_at a.2));
        split; lia. }
    split; [|split; [lia|]].
    + destruct Hin as [->|Hin]; [|right; by apply elem_of_cons; right].
      unfold older. destruct (_ <? _)%Z; [right; apply elem_of_cons|]; auto.
    + intros c [->|Hc]%elem_of_cons; [lia|]. by apply Hall.
Qed.

Lemma oldest_Some l a :
  oldest l = Some a ->
  a ∈ l /\ forall b, b ∈ l -> (r_created_at a.2 <= r_created_at b.2)%Z.
Proof.
  destruct l as [|c l]; [done|]. cbn. intros [= <-].
  destruct (oldest_fold c l) as (Hin & Hle & Hall). split.
  - rewrite elem_of_cons. tauto.
  - intros b [->|Hb]%elem_of_cons; auto.
Qed.

Lemma oldest_None l : oldest l = None <-> l = [].
Proof. by destruct l. Qed.

Lemma elem_of_LockExpired now locked s t id a :
  (id, a) ∈ LockExpiredSubmissions now locked s t <->
  exists r, t !! id = Some r /\ r_status r = s /\ lease_expired now r = true /\
            (id ∉ locked) /\ a = r_attempt_count r.
Proof.
  unfold LockExpiredSubmissions. rewrite list_elem_of_fmap. split.
  - intros ([i r] & [= -> ->] & Hin).
    rewrite merge_sort_Permutation list_elem_of_filter elem_of_map_to_list in Hin.
    destruct Hin as [[Hc Hl] Ht]. cbn in *. apply andb_true_iff in Hc as [Hs He].
    apply has_status_spec in Hs. eauto 10.
  - intros (r & Ht & Hs & He & Hl & ->). exists (id, r). split; [done|].
    rewrite merge_sort_Permutation list_elem_of_filter elem_of_map_to_list /=.
    apply has_status_spec in Hs. rewrite Hs He. auto.
Qed.

Lemma LockExpired_NoDup now locked s t :
  NoDup (LockExpiredSubmissions now locked s t).*1.
Proof.
  unfold LockExpiredSubmissions. rewrite -list_fmap_compose.
  assert (fst ∘ (fun kr : string * row => (kr.1, r_attempt_count kr.2)) = fst) as ->
    by done.
  rewrite merge_sort_Permutation.
  eapply sublist_NoDup; [apply (NoDup_fst_map_to_list t)|].
  apply fmap_sublist, sublist_filter.
Qed.

(** The expired rows are handled in lease order. *)
Lemma LockExpired_sorted now locked s t :
  exists l, (LockExpiredSubmissions now locked s t
            = (fun kr => (kr.1, r_attempt_count kr.2)) <$> l)
            /\ Sorted expiry_le l.
Proof.
  eexists; split; [done|]. apply Sorted_merge_sort.
  intros a b. unfold expiry_le. lia.
Qed.
