(* ===== verification/Store.v ===== *)
(** * Submission store and queue: postgres_store.go and postgres_queue.go

    The operations of [PostgresSubmissionStore] and [PostgresSubmissionQueue]
    as functions on the [submissions] table.  The JSON encodings of the [job]
    and [result] columns ([encoding/json] by reflection) are operations of the
    class [ColumnCodec]; nothing below depends on what they compute.  Encoding
    includes the refusal of the [jsonb] columns, which take no text that holds
    U+0000.  A lost
    connection is not a value here: it is the absence of the step, which the
    step relation of [Lifecycle] allows at any point. *)

From S2P Require Import Prelude Contracts Queries.

Class ColumnCodec := {
  marshalJob : Job -> result string;
  unmarshalJob : string -> result Job;
  marshalRes : Result -> result string;
  unmarshalRes : string -> result Result }.

Definition DefaultMaxQueued : Z := 100.
Definition second : Z := 1000000000.
Definition DefaultQueueLeaseDuration : Z := 60 * second.
Definition DefaultQueueMaxAttempts : Z := 3.

Definition ErrQueueFull : goerr := Errorf "submission queue is full" [].

(** [func NewPostgresSubmissionStoreWithQueueLimit] *)
Definition store_maxQueued (maxQueued : Z) : Z :=
  if (maxQueued <=? 0)%Z then DefaultMaxQueued else maxQueued.

Record SubmissionQueue := mkQueue {
  q_pollInterval : Z;
  q_leaseDuration : Z;
  q_maxAttempts : Z;
  q_closed : bool }.

(** [func NewPostgresSubmissionQueueWithOptions] *)
Definition NewPostgresSubmissionQueueWithOptions
    (pollInterval leaseDuration maxAttempts : Z) : SubmissionQueue :=
  mkQueue
    (if (pollInterval <=? 0)%Z then 100 * 1000000 else pollInterval)%Z
    (if (leaseDuration <=? 0)%Z then DefaultQueueLeaseDuration else leaseDuration)
    (if (maxAttempts <=? 0)%Z then DefaultQueueMaxAttempts else maxAttempts)
    false.

(** [Close]: closing twice is the same as closing once. *)
Definition queue_Close (q : SubmissionQueue) : SubmissionQueue :=
  mkQueue (q_pollInterval q) (q_leaseDuration q) (q_maxAttempts q) true.

Definition queue_Enqueue (q : SubmissionQueue) (submissionID : string) : result unit :=
  fail_if q_closed q with Errorf "submission queue is closed" [];;
  Ok tt.

(** [make_interval(secs => leaseDuration.Seconds())], in microseconds: the
    server rounds to its resolution. *)
Definition lease_interval (q : SubmissionQueue) : Z :=
  ((q_leaseDuration q + 500) / 1000)%Z.

Record SubmissionClaim := mkClaim { clm_ID : string; clm_Attempt : Z }.

#[export] Instance SubmissionClaim_eq_dec : EqDecision SubmissionClaim.
Proof. solve_decision. Defined.

Section Store.
Context `{ColumnCodec}.

Definition nullableText (value : string) : option string := Some value.

Definition marshalResult (r : option Result) : result (option string) :=
  match r with
  | None => Ok None
  | Some r => b ← marshalRes r; Ok (Some b)
  end.

Definition insertSubmission (now : Z) (sub : Submission) (t : table)
    : result table :=
  jobJSON ← marshalJob (sub_Job sub);
  resultJSON ← marshalResult (sub_Result sub);
  InsertSubmission now
    (mkInsertSubmissionParams (sub_ID sub) (sub_Status sub) jobJSON resultJSON
       (sub_StartedAt sub) (wrap32 (sub_AttemptCount sub))
       (sub_LeaseExpiresAt sub) (nullableText (sub_FailureMessage sub))) t.

Definition SaveContext := insertSubmission.

(** [SaveAdmitted] holds the advisory lock from before the count to the
    commit; other transactions commit in between (READ COMMITTED), so the
    count and the insertion are two operations. *)
Definition SaveAdmitted_count (maxQueued : Z) (t : table) : result unit :=
  fail_if (maxQueued <=? CountQueuedSubmissions SubmissionQueued t)%Z
    with ErrQueueFull;;
  Ok tt.

Definition SaveAdmitted (maxQueued now : Z) (others : table -> table)
    (sub : Submission) (t : table) : result table :=
  SaveAdmitted_count maxQueued t;;
  insertSubmission now sub (others t).

Definition GetContext (id : string) (t : table) : result (option Submission) :=
  match GetSubmission id t with
  | None => Ok None
  | Some r =>
      job ← unmarshalJob (r_job r);
      res ← match r_result r with
            | None => Ok None
            | Some b =>
                if (0 <? String.length b)%nat
                then x ← unmarshalRes b; Ok (Some x) else Ok None
            end;
      Ok (Some (mkSubmission (Some (r_created_at r)) id job (r_status r) res
                  (r_started_at r) (r_attempt_count r) (r_lease_expires_at r)
                  (default "" (r_failure_message r))))
  end.

Definition UpdateContext (now : Z) (sub : Submission) (t : table)
    : result table :=
  resultJSON ← marshalResult (sub_Result sub);
  let '(t', rows) := UpdateSubmission now
    (mkUpdateSubmissionParams (sub_Status sub) resultJSON (sub_StartedAt sub)
       (sub_LeaseExpiresAt sub) (nullableText (sub_FailureMessage sub))
       (sub_ID sub) (wrap32 (sub_AttemptCount sub))) t in
  fail_if negb (rows =? 1)%Z with
    Errorf "submission %q lease or attempt is no longer owned" [FStr (sub_ID sub)];;
  Ok t'.

Definition Counts (t : table) : Z * Z * Z :=
  CountSubmissionsByStatus SubmissionQueued SubmissionRunning SubmissionFailed t.

(** ** postgres_queue.go *)

Definition RenewLease (q : SubmissionQueue) (now : Z) (claim : SubmissionClaim)
    (t : table) : result table :=
  let '(t', rows) := RenewSubmissionLease now (lease_interval q) (clm_ID claim)
                       SubmissionRunning (wrap32 (clm_Attempt claim)) t in
  fail_if negb (rows =? 1)%Z with
    Errorf "submission %q lease renewal lost attempt %d"
      [FStr (clm_ID claim); FInt (clm_Attempt claim)];;
  Ok t'.

Definition claimNextSubmission (q : SubmissionQueue) (now : Z)
    (locked : gset string) (t : table) : result (option (SubmissionClaim * table)) :=
  row ← ClaimNextSubmission now (lease_interval q) locked
          SubmissionRunning SubmissionQueued t;
  match row with
  | None => Ok None
  | Some (id, attempt, t') => Ok (Some (mkClaim id attempt, t'))
  end.

Definition retry_message (attempt maxAttempts : Z) : string :=
  "worker lease expired on attempt " +:+ pretty attempt +:+ "; retrying attempt "
  +:+ pretty (attempt + 1)%Z +:+ " of " +:+ pretty maxAttempts.

Definition expired_message : string :=
  "The judge timed out while processing this submission. Please retry.".

Definition expired_result : Result :=
  mkResult InfrastructureError 0 0 0 0 None expired_message.

(** The body of the loop over the locked expired rows. *)
Definition recover_one (maxAttempts now : Z) (_ : nat) (t : table)
    (item : string * Z) : result table :=
  let '(id, attempt) := item in
  '(t', rows) ←
    (if (attempt <? maxAttempts)%Z then
       Ok (RequeueExpiredSubmission now SubmissionQueued
             (nullableText (retry_message attempt maxAttempts)) id t)
     else
       resultJSON ← marshalRes expired_result;
       Ok (FailExpiredSubmission now SubmissionFailed resultJSON
             (nullableText expired_message) id t));
  fail_if negb (rows =? 1)%Z with
    Errorf "locked expired submission %q was not updated" [FStr id];;
  Ok t'.

(** One transaction; an error rolls it back. *)
Definition RecoverExpired (q : SubmissionQueue) (now : Z) (locked : gset string)
    (t : table) : result (Z * table) :=
  let expired := LockExpiredSubmissions now locked SubmissionRunning t in
  t' ← foldM (recover_one (q_maxAttempts q) now) t expired;
  Ok (Z.of_nat (length expired), t').

(** ** Dequeue

    What one turn of the polling loop observes: the context and the queue at
    its top, the claim's view of the table, and what ended the wait. *)
Inductive wake := WakeTimer | WakeCtxDone | WakeClosed.

Record poll := mkPoll {
  poll_ctxDone : bool;
  poll_closed : bool;
  poll_now : Z;
  poll_locked : gset string;
  poll_table : table;
  poll_wake : wake }.

Definition ctx_error : goerr := LibErr "context".
Definition closed_error : goerr := Errorf "submission queue is closed" [].

(** [None]: the observations ran out while the loop was still waiting.  When
    the context is done and the queue closed, [select] may take either case;
    the model takes the first. *)
Fixpoint Dequeue (q : SubmissionQueue) (turns : list poll)
    : option (result (SubmissionClaim * table)) :=
  match turns with
  | [] => None
  | p :: turns' =>
      if poll_ctxDone p then Some (Err ctx_error)
      else if poll_closed p then Some (Err closed_error)
      else match claimNextSubmission q (poll_now p) (poll_locked p) (poll_table p) with
           | Err e => Some (Err e)
           | Ok (Some ct) => Some (Ok ct)
           | Ok None =>
               match poll_wake p with
               | WakeCtxDone => Some (Err ctx_error)
               | WakeClosed => Some (Err closed_error)
               | WakeTimer => Dequeue q turns'
               end
           end
  end.
End Store.

(** ** What each operation does to the table *)

Section StoreLemmas.
Context `{ColumnCodec}.

Definition requeued (maxAttempts now : Z) (r : row) : row :=
  mkRow SubmissionQueued (r_job r) None None (r_attempt_count r) None
    (Some (retry_message (r_attempt_count r) maxAttempts)) (r_created_at r) now.

Definition expired_failed (now : Z) (res : string) (r : row) : row :=
  mkRow SubmissionFailed (r_job r) (Some res) (r_started_at r) (r_attempt_count r)
    None (Some expired_message) (r_created_at r) now.

(** What recovery makes of an expired row, given the encoding of the result
    it stores on exhausted rows. *)
Definition recovered (maxAttempts now : Z) (res : string) (r : row) : row :=
  if (r_attempt_count r <? maxAttempts)%Z
  then requeued maxAttempts now r else expired_failed now res r.

Lemma recover_one_spec maxAttempts now i t id r :
  t !! id = Some r ->
  recover_one maxAttempts now i t (id, r_attempt_count r) =
  if (r_attempt_count r <? maxAttempts)%Z
  then Ok (<[id := requeued maxAttempts now r]> t)
  else res ← marshalRes expired_result;
       Ok (<[id := expired_failed now res r]> t).
Proof.
  intros Hr. unfold recover_one, RequeueExpiredSubmission, FailExpiredSubmission.
  destruct (_ <? _)%Z; [|destruct (marshalRes expired_result); [|done]]; cbn;
    by rewrite (update_by_id_hit _ _ _ _ r).
Qed.

#[local] Arguments recover_one : simpl never.

Lemma recover_loop maxAttempts now i l t t' :
  NoDup l.*1 ->
  (forall id a, (id, a) ∈ l -> exists r, t !! id = Some r /\ r_attempt_count r = a) ->
  foldM_from i (recover_one maxAttempts now) t l = Ok t' ->
  forall id,
    (id ∉ l.*1 -> t' !! id = t !! id) /\
    (id ∈ l.*1 -> exists r res, t !! id = Some r /\
       ((r_attempt_count r < maxAttempts)%Z \/ marshalRes expired_result = Ok res) /\
       t' !! id = Some (recovered maxAttempts now res r)).
Proof.
  revert i t. induction l as [|[i a] l IH]; intros k t Hnd Hrows Hfold id; cbn in *.
  { ok_inv. split; [done|]. by intros ?%elem_of_nil. }
  apply NoDup_cons in Hnd as [Hni Hnd]. ok_inv.
  destruct (Hrows i a) as (r & Hr & Hattempt); [left|]. subst a.
  rewrite (recover_one_spec _ _ _ _ _ _ Hr) in E.
  assert (exists res, ((r_attempt_count r < maxAttempts)%Z
                       \/ marshalRes expired_result = Ok res) /\
            a0 = <[i := recovered maxAttempts now res r]> t) as (res & Hres & ->).
  { unfold recovered. destruct (Z.ltb_spec (r_attempt_count r) maxAttempts).
    - ok_inv. exists ""%string. auto.
    - ok_inv. eauto. }
  assert (forall id' a', (id', a') ∈ l -> exists r0,
    <[i := recovered maxAttempts now res r]> t !! id' = Some r0 /\
    r_attempt_count r0 = a') as Hrows'.
  { intros id' a' Hin'. assert (id' <> i) as Hne.
    { intros ->. apply Hni, list_elem_of_fmap. by exists (i, a'). }
    destruct (Hrows id' a') as (r' & ? & ?); [by right|].
    exists r'. by rewrite lookup_insert_ne. }
  destruct (IH (S k) _ Hnd Hrows' Hfold id) as [Hout Hin].
  split.
  - rewrite not_elem_of_cons. intros [Hne Hnot]. by rewrite Hout // lookup_insert_ne.
  - intros [->|Hl]%elem_of_cons.
    + exists r, res. rewrite Hout // lookup_insert_eq. auto.
    + destruct (Hin Hl) as (r' & res' & Hr' & Ha & Ht').
      assert (id <> i) by (intros ->; done).
      rewrite lookup_insert_ne // in Hr'. eauto.
Qed.

Lemma recover_loop_ok maxAttempts now i l t res :
  marshalRes expired_result = Ok res ->
  NoDup l.*1 ->
  (forall id a, (id, a) ∈ l -> exists r, t !! id = Some r /\ r_attempt_count r = a) ->
  exists t', foldM_from i (recover_one maxAttempts now) t l = Ok t'.
Proof.
  intros Hres. revert i t. induction l as [|[i a] l IH]; intros k t Hnd Hrows; cbn.
  { eauto. }
  apply NoDup_cons in Hnd as [Hni Hnd].
  destruct (Hrows i a) as (r & Hr & Hattempt); [left|]. subst a.
  rewrite recover_one_spec // Hres.
  assert (forall r', exists t', foldM_from (S k) (recover_one maxAttempts now)
                                  (<[i := r']> t) l = Ok t') as Hgo.
  { intros r'. apply IH; [done|]. intros id' a' Hin'. assert (id' <> i) as Hne.
    { intros ->. apply Hni, list_elem_of_fmap. by exists (i, a'). }
    destruct (Hrows id' a') as (r'' & ? & ?); [by right|].
    exists r''. by rewrite lookup_insert_ne. }
  destruct (_ <? _)%Z; apply Hgo.
Qed.

Lemma LockExpired_rows now locked t id a :
  (id, a) ∈ LockExpiredSubmissions now locked SubmissionRunning t ->
  exists r, t !! id = Some r /\ r_attempt_count r = a.
Proof. intros (r & ? & _ & _ & _ & ->)%elem_of_LockExpired. eauto. Qed.

Lemma elem_of_LockExpired_ids now locked t id :
  id ∈ (LockExpiredSubmissions now locked SubmissionRunning t).*1 <->
  exists r, t !! id = Some r /\ r_status r = SubmissionRunning /\
            lease_expired now r = true /\ (id ∉ locked).
Proof.
  rewrite list_elem_of_fmap. split.
  - intros ([i a] & -> & Hin). apply elem_of_LockExpired in Hin.
    destruct Hin as (r & ? & ? & ? & ? & _). eauto 10.
  - intros (r & ? & ? & ? & ?). exists (id, r_attempt_count r). split; [done|].
    apply elem_of_LockExpired. eauto 10.
Qed.

Lemma UpdateContext_Ok now sub t t' :
  UpdateContext now sub t = Ok t' ->
  exists r res, t !! sub_ID sub = Some r /\
    marshalResult (sub_Result sub) = Ok res /\
    r_attempt_count r = wrap32 (sub_AttemptCount sub) /\
    (r_status r = SubmissionRunning /\ lease_live now r = true \/
     r_status r = SubmissionQueued /\ sub_Status sub = SubmissionFailed /\
     r_attempt_count r = 0%Z) /\
    t' = <[sub_ID sub := mkRow (sub_Status sub) (r_job r) res (sub_StartedAt sub)
            (r_attempt_count r)
            (match sub_Status sub with
             | SubmissionFinished | SubmissionFailed => None
             | SubmissionRunning => r_lease_expires_at r
             | SubmissionQueued => sub_LeaseExpiresAt sub
             end)
            (nullableText (sub_FailureMessage sub)) (r_created_at r) now]> t.
Proof.
  unfold UpdateContext. intros Hu. ok_inv. unfold UpdateSubmission in Hu.
  destruct (update_by_id _ _ _ t) as [t1 n] eqn:Ht. ok_inv. bool_prop. subst n.
  apply update_by_id_one in Ht as (r & Hr & Hc & ->).
  unfold update_cond in Hc. apply andb_true_iff in Hc as [Ha Hc].
  apply Z.eqb_eq in Ha. exists r, a. cbn in *. split_and!; try done.
  apply orb_true_iff in Hc as [Hc|Hc]; bool_prop.
  - left. by rewrite -has_status_spec.
  - right. by rewrite -has_status_spec.
Qed.

Lemma claimNext_Ok q now locked t c t' :
  claimNextSubmission q now locked t = Ok (Some (c, t')) ->
  exists r, t !! clm_ID c = Some r /\ r_status r = SubmissionQueued /\
    (clm_ID c ∉ locked) /\
    (forall id' r', t !! id' = Some r' -> r_status r' = SubmissionQueued ->
       id' ∉ locked -> (r_created_at r <= r_created_at r')%Z) /\
    clm_Attempt c = (r_attempt_count r + 1)%Z /\ (clm_Attempt c < 2^31)%Z /\
    t' = <[clm_ID c := mkRow SubmissionRunning (r_job r) (r_result r) (Some now)
             (clm_Attempt c) (Some (now + lease_interval q)%Z)
             (r_failure_message r) (r_created_at r) now]> t.
Proof.
  unfold claimNextSubmission, ClaimNextSubmission. intros Hc.
  destruct (oldest _) as [[id r]|] eqn:Hold; [|by ok_inv].
  destruct (Z.ltb_spec (r_attempt_count r + 1) (2^31)); [|by ok_inv].
  cbn in Hc. injection Hc as <- <-. cbn.
  apply oldest_Some in Hold as [Hin Hmin].
  apply elem_of_claim_candidates in Hin as (? & ? & ?).
  exists r. split_and!; try done.
  intros id' r' ???. apply (Hmin (id', r')). by apply elem_of_claim_candidates.
Qed.

Lemma RenewLease_Ok q now c t t' :
  RenewLease q now c t = Ok t' ->
  exists r l, t !! clm_ID c = Some r /\ r_status r = SubmissionRunning /\
    r_attempt_count r = wrap32 (clm_Attempt c) /\
    r_lease_expires_at r = Some l /\ (now < l)%Z /\
    t' = <[clm_ID c := mkRow SubmissionRunning (r_job r) (r_result r)
             (r_started_at r) (r_attempt_count r)
             (Some (Z.max l (now + lease_interval q)))
             (r_failure_message r) (r_created_at r) now]> t.
Proof.
  unfold RenewLease, RenewSubmissionLease. intros Hu.
  destruct (update_by_id _ _ _ t) as [t1 n] eqn:Ht. ok_inv. bool_prop. subst n.
  apply update_by_id_one in Ht as (r & Hr & Hc & ->). bool_prop.
  apply has_status_spec in H0. unfold lease_live in *.
  destruct (r_lease_expires_at r) as [l|] eqn:El; [|done]. bool_prop.
  exists r, l. rewrite H0. auto 10.
Qed.

Lemma insertSubmission_Ok now sub t t' :
  insertSubmission now sub t = Ok t' ->
  exists job res, t !! sub_ID sub = None /\ marshalJob (sub_Job sub) = Ok job /\
    marshalResult (sub_Result sub) = Ok res /\
    t' = <[sub_ID sub := mkRow (sub_Status sub) job res (sub_StartedAt sub)
             (wrap32 (sub_AttemptCount sub)) (sub_LeaseExpiresAt sub)
             (nullableText (sub_FailureMessage sub)) now now]> t.
Proof.
  unfold insertSubmission, InsertSubmission. intros Hi. ok_inv. cbn in *.
  destruct (t !! sub_ID sub) eqn:Ht; ok_inv. eauto 10.
Qed.
End StoreLemmas.
