(* ===== verification/Lifecycle.v ===== *)
(** * The life of a submission

    The store and the queue as a transition system over the shared table: every
    committed transaction of any server replica, worker, lease renewer or
    recovery loop is one step, in any order.  [phase] is the abstract life
    cycle the queue promises; [lifecycle_refines] says the SQL implements it. *)

From S2P Require Import Prelude Contracts Queries Store.

(** [s_admission]: the submission whose [SaveAdmitted] transaction holds the
    advisory lock, between its count and its commit. *)
Record sys := mkSys {
  s_table : table;
  s_admission : option Submission }.

Definition initial : sys := mkSys ∅ None.

Inductive event :=
  | EvAdmitCount (sub : Submission)
  | EvAdmitCommit (now : Z)
  | EvAdmitAbort
  | EvClaim (now : Z) (c : SubmissionClaim)
  | EvRenew (now : Z) (c : SubmissionClaim)
  | EvUpdate (now : Z) (sub : Submission)
  | EvRecover (now : Z) (count : Z) (retried : gset string).

(** What [createAndQueueSubmission] hands to the store (cmd/server/main.go). *)
Definition new_submission (sub : Submission) : Prop :=
  sub_Status sub = SubmissionQueued /\ sub_Result sub = None /\
  sub_StartedAt sub = None /\ sub_AttemptCount sub = 0%Z /\
  sub_LeaseExpiresAt sub = None.

(** What [ProcessSubmission] and [createAndQueueSubmission] pass to Update:
    never a queued status, and a finished submission carries its result. *)
Definition updated_submission (sub : Submission) : Prop :=
  sub_Status sub <> SubmissionQueued /\
  (sub_Status sub = SubmissionFinished -> is_Some (sub_Result sub)).

Section Lifecycle.
Context `{ColumnCodec}.
Context (maxQueued : Z) (q : SubmissionQueue).

(** The submissions a recovery gives back to the queue: running, their lease
    expired, not held by another transaction, and with attempts left. *)
Definition retryable (now : Z) (locked : gset string) (t : table) : gset string :=
  dom (filter (fun kv : string * row =>
    (has_status SubmissionRunning kv.2 && lease_expired now kv.2 &&
     (r_attempt_count kv.2 <? q_maxAttempts q)%Z && bool_decide (kv.1 ∉ locked)) = true) t).

Inductive step : sys -> event -> sys -> Prop :=
  | step_admit_count t sub :
      new_submission sub ->
      SaveAdmitted_count maxQueued t = Ok tt ->
      step (mkSys t None) (EvAdmitCount sub) (mkSys t (Some sub))
  | step_admit_commit t sub now t' :
      insertSubmission now sub t = Ok t' ->
      step (mkSys t (Some sub)) (EvAdmitCommit now) (mkSys t' None)
  | step_admit_abort t sub :
      step (mkSys t (Some sub)) EvAdmitAbort (mkSys t None)
  | step_claim t adm now locked c t' :
      claimNextSubmission q now locked t = Ok (Some (c, t')) ->
      step (mkSys t adm) (EvClaim now c) (mkSys t' adm)
  | step_renew t adm now c t' :
      RenewLease q now c t = Ok t' ->
      step (mkSys t adm) (EvRenew now c) (mkSys t' adm)
  | step_update t adm now sub t' :
      updated_submission sub ->
      UpdateContext now sub t = Ok t' ->
      step (mkSys t adm) (EvUpdate now sub) (mkSys t' adm)
  | step_recover t adm now locked n t' :
      RecoverExpired q now locked t = Ok (n, t') ->
      step (mkSys t adm) (EvRecover now n (retryable now locked t)) (mkSys t' adm).

(** Executions, with their events in order. *)
Inductive trace : sys -> list event -> sys -> Prop :=
  | trace_nil s : trace s [] s
  | trace_snoc s es s' e s'' :
      trace s es s' -> step s' e s'' -> trace s (es ++ [e]) s''.

Definition reachable (s : sys) : Prop := exists es, trace initial es s.

(** ** The effect of one step on one row *)

Inductive row_change : event -> string -> option row -> option row -> Prop :=
  | rc_same e id o : row_change e id o o
  | rc_inserted now id r :
      r_status r = SubmissionQueued -> r_attempt_count r = 0%Z ->
      r_lease_expires_at r = None -> r_result r = None ->
      row_change (EvAdmitCommit now) id None (Some r)
  | rc_claimed now c r r' :
      r_status r = SubmissionQueued -> r_status r' = SubmissionRunning ->
      r_attempt_count r' = (r_attempt_count r + 1)%Z ->
      clm_Attempt c = r_attempt_count r' -> (r_attempt_count r' < 2^31)%Z ->
      r_lease_expires_at r' = Some (now + lease_interval q)%Z ->
      row_change (EvClaim now c) (clm_ID c) (Some r) (Some r')
  | rc_renewed now c r r' l l' :
      r_status r = SubmissionRunning -> r_status r' = SubmissionRunning ->
      r_attempt_count r' = r_attempt_count r ->
      r_attempt_count r = wrap32 (clm_Attempt c) ->
      r_lease_expires_at r = Some l -> r_lease_expires_at r' = Some l' ->
      (now < l <= l')%Z ->
      row_change (EvRenew now c) (clm_ID c) (Some r) (Some r')
  | rc_progress now sub r r' :
      r_status r = SubmissionRunning -> lease_live now r = true ->
      r_attempt_count r = wrap32 (sub_AttemptCount sub) ->
      sub_Status sub = SubmissionRunning ->
      r_status r' = SubmissionRunning ->
      r_attempt_count r' = r_attempt_count r ->
      r_lease_expires_at r' = r_lease_expires_at r ->
      row_change (EvUpdate now sub) (sub_ID sub) (Some r) (Some r')
  | rc_finished now sub r r' :
      r_status r = SubmissionRunning -> lease_live now r = true ->
      r_attempt_count r = wrap32 (sub_AttemptCount sub) ->
      sub_Status sub = r_status r' ->
      (r_status r' = SubmissionFinished /\ is_Some (r_result r')
       \/ r_status r' = SubmissionFailed) ->
      r_attempt_count r' = r_attempt_count r -> r_lease_expires_at r' = None ->
      row_change (EvUpdate now sub) (sub_ID sub) (Some r) (Some r')
  | rc_enqueue_failed now sub r r' :
      r_status r = SubmissionQueued -> r_attempt_count r = 0%Z ->
      r_status r' = SubmissionFailed -> sub_Status sub = r_status r' ->
      r_attempt_count r' = 0%Z -> r_lease_expires_at r' = None ->
      row_change (EvUpdate now sub) (sub_ID sub) (Some r) (Some r')
  | rc_requeued now n retried id r :
      r_status r = SubmissionRunning -> lease_expired now r = true ->
      (r_attempt_count r < q_maxAttempts q)%Z ->
      row_change (EvRecover now n retried) id (Some r)
        (Some (requeued (q_maxAttempts q) now r))
  | rc_exhausted now n retried id r res :
      r_status r = SubmissionRunning -> lease_expired now r = true ->
      (q_maxAttempts q <= r_attempt_count r)%Z ->
      marshalRes expired_result = Ok res ->
      row_change (EvRecover now n retried) id (Some r) (Some (expired_failed now res r)).

Lemma recover_row_change now locked n retried t t' id :
  RecoverExpired q now locked t = Ok (n, t') ->
  row_change (EvRecover now n retried) id (t !! id) (t' !! id).
Proof.
  unfold RecoverExpired. intros Hr. ok_inv.
  destruct (recover_loop _ _ _ _ _ _ (LockExpired_NoDup _ _ _ _)
              (LockExpired_rows _ _ _) E id) as [Hout Hin].
  destruct (decide (id ∈ (LockExpiredSubmissions now locked SubmissionRunning t).*1))
    as [Hl|Hl]; [|rewrite Hout //; constructor].
  destruct (Hin Hl) as (r & res & Hr & Ha & ->). rewrite Hr.
  apply elem_of_LockExpired_ids in Hl as (r' & Hr' & Hs & He & _).
  rewrite Hr in Hr'. injection Hr' as <-. unfold recovered.
  destruct (Z.ltb_spec (r_attempt_count r) (q_maxAttempts q)).
  - by constructor.
  - apply rc_exhausted; [done..|]. destruct Ha; [lia|done].
Qed.

Lemma update_row_change now sub t t' :
  updated_submission sub -> UpdateContext now sub t = Ok t' ->
  row_change (EvUpdate now sub) (sub_ID sub) (t !! sub_ID sub) (t' !! sub_ID sub).
Proof.
  intros [Hnq Hfin] Hu.
  apply UpdateContext_Ok in Hu as (r & res & Hr & Hres & Ha & Hc & ->).
  rewrite Hr lookup_insert_eq.
  destruct Hc as [[Hs Hl]|(Hs & Hst & H0)].
  - destruct (sub_Status sub) eqn:Est; [done| | |].
    + by apply rc_progress.
    + apply rc_finished; try done. left. split; [done|]. cbn.
      destruct (Hfin eq_refl) as [x Hx]. rewrite Hx /= in Hres. ok_inv. eauto.
    + apply rc_finished; try done. by right.
  - rewrite Hst. by apply rc_enqueue_failed.
Qed.

(** Admissions in flight hold fresh submissions. *)
Definition admission_wf (s : sys) : Prop :=
  forall sub, s_admission s = Some sub -> new_submission sub.

Lemma admission_wf_step s e s' : step s e s' -> admission_wf s -> admission_wf s'.
Proof.
  unfold admission_wf. destruct 1; cbn; naive_solver.
Qed.

Lemma step_row_change s e s' id :
  admission_wf s -> step s e s' ->
  row_change e id (s_table s !! id) (s_table s' !! id).
Proof.
  intros Hwf Hs. destruct Hs; cbn; try constructor.
  - apply insertSubmission_Ok in H0 as (job & res & Hn & _ & Hres & ->).
    destruct (Hwf _ eq_refl) as (Hst & Hr & _ & Hat & Hl). rewrite Hr /= in Hres.
    destruct (decide (sub_ID sub = id)) as [<-|];
      [|rewrite lookup_insert_ne //; constructor].
    rewrite Hn lookup_insert_eq. ok_inv.
    apply rc_inserted; cbn; [done| |done..]. by rewrite Hat.
  - apply claimNext_Ok in H0 as (r & Hr & Hq & _ & _ & Hat & Hmax & ->).
    destruct (decide (clm_ID c = id)) as [<-|];
      [|rewrite lookup_insert_ne //; constructor].
    rewrite Hr lookup_insert_eq. by apply rc_claimed.
  - apply RenewLease_Ok in H0 as (r & l & Hr & Hst & Hat & Hl & Hlt & ->).
    destruct (decide (clm_ID c = id)) as [<-|];
      [|rewrite lookup_insert_ne //; constructor].
    rewrite Hr lookup_insert_eq. eapply rc_renewed; try done. cbn. lia.
  - destruct (decide (sub_ID sub = id)) as [<-|].
    + by apply update_row_change.
    + apply UpdateContext_Ok in H1 as (r & res & _ & _ & _ & _ & ->).
      rewrite lookup_insert_ne //. constructor.
  - by eapply recover_row_change.
Qed.

(** ** The abstract life cycle *)

Inductive phase :=
  | Absent
  | Waiting (attempts : Z)
  | Executing (attempt : Z)
  | Done (attempts : Z) (verdict : SubmissionStatus).

Definition phase_of (o : option row) : phase :=
  match o with
  | None => Absent
  | Some r =>
      match r_status r with
      | SubmissionQueued => Waiting (r_attempt_count r)
      | SubmissionRunning => Executing (r_attempt_count r)
      | s => Done (r_attempt_count r) s
      end
  end.

Inductive phase_step : phase -> phase -> Prop :=
  | ps_submit : phase_step Absent (Waiting 0)
  | ps_claim n : phase_step (Waiting n) (Executing (n + 1))
  | ps_retry n : (n < q_maxAttempts q)%Z -> phase_step (Executing n) (Waiting n)
  | ps_finish n : phase_step (Executing n) (Done n SubmissionFinished)
  | ps_fail n : phase_step (Executing n) (Done n SubmissionFailed)
  | ps_reject : phase_step (Waiting 0) (Done 0 SubmissionFailed).

Lemma row_change_phase e id o o' :
  row_change e id o o' -> phase_of o = phase_of o' \/ phase_step (phase_of o) (phase_of o').
Proof.
  destruct 1; cbn; repeat match goal with
    | H : r_status _ = _ |- _ => rewrite H
    | H : r_attempt_count ?r' = _ |- context [r_attempt_count ?r'] => rewrite H
    end; try (by left); right; try by constructor.
  match goal with H : _ \/ _ |- _ => destruct H as [[-> _]| ->] end; constructor.
Qed.

(** ** Well-formed rows *)

Definition row_wf (r : row) : Prop :=
  (0 <= r_attempt_count r < 2^31)%Z /\
  (r_attempt_count r <= q_maxAttempts q)%Z /\
  match r_status r with
  | SubmissionQueued =>
      (r_attempt_count r < q_maxAttempts q)%Z /\
      r_lease_expires_at r = None /\ r_result r = None
  | SubmissionRunning => (1 <= r_attempt_count r)%Z /\ is_Some (r_lease_expires_at r)
  | SubmissionFinished =>
      (1 <= r_attempt_count r)%Z /\ r_lease_expires_at r = None /\ is_Some (r_result r)
  | SubmissionFailed => r_lease_expires_at r = None
  end.

Definition opt_wf (o : option row) : Prop := forall r, o = Some r -> row_wf r.

Lemma row_change_wf e id o o' :
  (1 <= q_maxAttempts q)%Z -> row_change e id o o' -> opt_wf o -> opt_wf o'.
Proof.
  intros Hmax Hc. destruct Hc; intros Hwf r0 Hr0; [by apply Hwf|..];
    injection Hr0 as <-; unfold row_wf;
    try (pose proof (Hwf _ eq_refl) as Hr; unfold row_wf in Hr); cbn;
    destruct_or?; destruct_and?;
    repeat match goal with
    | H : ?f ?r = _ |- context [?f ?r] => rewrite H
    | H : ?f ?r = _, H' : context [?f ?r] |- _ => rewrite H in H'
    end; destruct_and?; split_and?; eauto; try lia.
Qed.

(** ** Invariants over executions *)

Section Invariants.
Context (Hmax : (1 <= q_maxAttempts q)%Z).

Definition sys_wf (s : sys) : Prop :=
  admission_wf s /\ forall id, opt_wf (s_table s !! id).

Lemma sys_wf_step s e s' : step s e s' -> sys_wf s -> sys_wf s'.
Proof.
  intros Hs [Hadm Hrows]. split; [by eapply admission_wf_step|].
  intros id. eapply row_change_wf; [done| |apply (Hrows id)].
  by apply step_row_change.
Qed.

Lemma sys_wf_trace s es s' : trace s es s' -> sys_wf s -> sys_wf s'.
Proof. induction 1; eauto using sys_wf_step. Qed.

Lemma sys_wf_initial : sys_wf initial.
Proof. split; [by intros ?|]. intros id r. by rewrite lookup_empty. Qed.

Lemma sys_wf_reachable s : reachable s -> sys_wf s.
Proof. intros [es Ht]. eapply sys_wf_trace; [done|apply sys_wf_initial]. Qed.

(** A property of one row closed under the row changes holds along every
    execution. *)
Lemma trace_row_ind (P : option row -> Prop) id s es s' :
  (forall e o o', row_change e id o o' -> opt_wf o -> P o -> P o') ->
  sys_wf s -> trace s es s' -> P (s_table s !! id) -> P (s_table s' !! id).
Proof.
  intros Hstep Hwf Ht. induction Ht as [|s es s' e s'' Ht IH Hs]; [done|].
  intros HP. assert (sys_wf s') as [Hadm Hrows] by by eapply sys_wf_trace.
  eapply Hstep; [by apply step_row_change|done|]. auto.
Qed.
End Invariants.

(** Rows of settled submissions do not change. *)
Definition settled (r : row) : Prop :=
  r_status r = SubmissionFinished \/ r_status r = SubmissionFailed.

Lemma row_change_settled e id r o' :
  row_change e id (Some r) o' -> settled r -> o' = Some r.
Proof.
  unfold settled. inversion 1; subst; [done|..]; intros; destruct_or?; congruence.
Qed.

(** The claim of attempt [a] has ended: a later attempt was claimed, or the
    row left the running state. *)
Definition claim_over (a : Z) (o : option row) : Prop :=
  exists r, o = Some r /\ (a < r_attempt_count r \/
              a = r_attempt_count r /\ r_status r <> SubmissionRunning)%Z.

Lemma row_change_claim_over a e id o o' :
  row_change e id o o' -> claim_over a o -> claim_over a o'.
Proof.
  unfold claim_over. intros Hc (r & -> & Hr).
  inversion Hc; subst; [by eauto|..]; eexists; (split; [done|]); cbn;
    destruct_or?; destruct_and?; first [left; lia | right; split; [lia|congruence] | congruence].
Qed.

Definition claims_for (id : string) (es : list event) : list Z :=
  omap (fun e => match e with
                 | EvClaim _ c => if decide (clm_ID c = id)
                                  then Some (clm_Attempt c) else None
                 | _ => None
                 end) es.

Definition attempts_of (o : option row) : Z :=
  match o with Some r => r_attempt_count r | None => 0 end.

Lemma row_change_attempts e id o o' :
  row_change e id o o' ->
  (claims_for id [e] = [] /\ attempts_of o' = attempts_of o) \/
  (claims_for id [e] = [attempts_of o'] /\ attempts_of o' = attempts_of o + 1)%Z
  \/ o = o'.
Proof.
  destruct 1; cbn; try (by right; right); try (left; split; [done|]; congruence).
  right; left. rewrite decide_True //. split; congruence.
Qed.

(** The number of rows with attempts left that recovery has given back to the
    queue. *)
Definition requeues (es : list event) : Z :=
  foldr Z.add 0%Z ((fun e => match e with EvRecover _ _ retried => Z.of_nat (size retried) | _ => 0%Z end) <$> es).

(** ** An executable scheduler

    Runs a list of attempted operations; an operation that fails leaves the
    system as it is and makes no event. *)

Inductive action :=
  | ActAdmitCount (sub : Submission)
  | ActAdmitCommit (now : Z)
  | ActAdmitAbort
  | ActClaim (now : Z) (locked : gset string)
  | ActRenew (now : Z) (c : SubmissionClaim)
  | ActUpdate (now : Z) (sub : Submission)
  | ActRecover (now : Z) (locked : gset string).

Definition is_new (sub : Submission) : bool :=
  bool_decide (sub_Status sub = SubmissionQueued) &&
  match sub_Result sub, sub_StartedAt sub, sub_LeaseExpiresAt sub with
  | None, None, None => (sub_AttemptCount sub =? 0)%Z
  | _, _, _ => false
  end.

Definition is_updated (sub : Submission) : bool :=
  match sub_Status sub, sub_Result sub with
  | SubmissionQueued, _ => false
  | SubmissionFinished, None => false
  | _, _ => true
  end.

Definition run_action (s : sys) (a : action) : option (event * sys) :=
  let t := s_table s in
  let adm := s_admission s in
  match a with
  | ActAdmitCount sub =>
      match adm, SaveAdmitted_count maxQueued t with
      | None, Ok _ => if is_new sub
                      then Some (EvAdmitCount sub, mkSys t (Some sub)) else None
      | _, _ => None
      end
  | ActAdmitCommit now =>
      match adm with
      | Some sub => match insertSubmission now sub t with
                    | Ok t' => Some (EvAdmitCommit now, mkSys t' None)
                    | Err _ => None
                    end
      | None => None
      end
  | ActAdmitAbort =>
      match adm with Some _ => Some (EvAdmitAbort, mkSys t None) | None => None end
  | ActClaim now locked =>
      match claimNextSubmission q now locked t with
      | Ok (Some (c, t')) => Some (EvClaim now c, mkSys t' adm)
      | _ => None
      end
  | ActRenew now c =>
      match RenewLease q now c t with
      | Ok t' => Some (EvRenew now c, mkSys t' adm)
      | Err _ => None
      end
  | ActUpdate now sub =>
      if is_updated sub
      then match UpdateContext now sub t with
           | Ok t' => Some (EvUpdate now sub, mkSys t' adm)
           | Err _ => None
           end
      else None
  | ActRecover now locked =>
      match RecoverExpired q now locked t with
      | Ok (n, t') => Some (EvRecover now n (retryable now locked t), mkSys t' adm)
      | Err _ => None
      end
  end.

Fixpoint run (s : sys) (acts : list action) : list event * sys :=
  match acts with
  | [] => ([], s)
  | a :: acts' =>
      match run_action s a with
      | None => run s acts'
      | Some (e, s') => let '(es, s'') := run s' acts' in (e :: es, s'')
      end
  end.

Lemma is_new_spec sub : is_new sub = true -> new_submission sub.
Proof.
  unfold is_new, new_submission. intros [Hs H1]%andb_true_iff.
  apply bool_decide_eq_true in Hs.
  destruct (sub_Result sub), (sub_StartedAt sub), (sub_LeaseExpiresAt sub); try done.
  apply Z.eqb_eq in H1. auto 10.
Qed.

Lemma is_updated_spec sub : is_updated sub = true -> updated_submission sub.
Proof.
  unfold is_updated, updated_submission.
  destruct (sub_Status sub), (sub_Result sub); naive_solver.
Qed.

Lemma run_action_step s a e s' : run_action s a = Some (e, s') -> step s e s'.
Proof.
  destruct s as [t adm], a; cbn; intros Hr; repeat case_match; simplify_eq;
    try (econstructor; (done || eauto using is_new_spec, is_updated_spec)).
  by destruct a.
Qed.

Lemma trace_cons s e s' es s'' :
  step s e s' -> trace s' es s'' -> trace s (e :: es) s''.
Proof.
  intros Hs Ht. revert Hs. induction Ht as [|s1 es s2 e' s3 Ht IH Hs']; intros Hs.
  - apply (trace_snoc _ [] s); [constructor|done].
  - rewrite app_comm_cons. eapply trace_snoc; eauto.
Qed.

Lemma run_trace s acts : trace s (run s acts).1 (run s acts).2.
Proof.
  revert s. induction acts as [|a acts IH]; intros s; cbn; [constructor|].
  destruct (run_action s a) as [[e s']|] eqn:Ha; [|done].
  specialize (IH s'). destruct (run s' acts) as [es s'']. cbn in *.
  eapply trace_cons; [by eapply run_action_step|done].
Qed.

(** ** Counting queued rows *)

Lemma count_insert st id r t :
  (CountQueuedSubmissions st (<[id := r]> t)
   + (match t !! id with Some r0 => Z.b2z (has_status st r0) | None => 0 end)
   = CountQueuedSubmissions st t + Z.b2z (has_status st r))%Z.
Proof.
  unfold CountQueuedSubmissions.
  set (P := fun kv : string * row => has_status st kv.2 = true).
  assert (forall m : table, m !! id = None ->
    size (filter P (<[id := r]> m)) = size (filter P m) + Nat.b2n (has_status st r))%nat
    as Hfresh.
  { intros m Hm. destruct (has_status st r) eqn:Hs; cbn.
    - rewrite map_filter_insert_True //. rewrite map_size_insert_None.
      + apply map_lookup_filter_None. by left.
      + lia.
    - rewrite map_filter_insert_False; [unfold P; cbn; congruence|].
      rewrite delete_id //; lia. }
  destruct (t !! id) as [r0|] eqn:Ht.
  - assert (size (filter P t) = size (filter P (delete id t))
              + Nat.b2n (has_status st r0))%nat as H0.
    { rewrite -{1}(insert_delete_id t id r0) //.
      destruct (has_status st r0) eqn:Hs; cbn.
      - rewrite map_filter_insert_True // map_size_insert_None.
        + apply map_lookup_filter_None. left. apply lookup_delete_eq.
        + lia.
      - rewrite map_filter_insert_False; [unfold P; cbn; congruence|].
        rewrite delete_id ?lookup_delete_eq //; lia. }
    rewrite -insert_delete_eq Hfresh; [apply lookup_delete_eq|].
    rewrite H0. destruct (has_status st r), (has_status st r0); cbn; lia.
  - rewrite Hfresh //. destruct (has_status st r); cbn; lia.
Qed.

Abbreviation queued_rows := (CountQueuedSubmissions SubmissionQueued).

Lemma count_insert_le id r t :
  (queued_rows (<[id := r]> t) <= queued_rows t + Z.b2z (has_status SubmissionQueued r))%Z.
Proof.
  pose proof (count_insert SubmissionQueued id r t) as Hc.
  destruct (t !! id) as [r0|]; [destruct (has_status _ r0)|]; cbn in *; lia.
Qed.

Lemma elem_of_retryable now locked t id :
  id ∈ retryable now locked t <-> exists r, t !! id = Some r /\ r_status r = SubmissionRunning /\
    lease_expired now r = true /\ (r_attempt_count r < q_maxAttempts q)%Z /\ (id ∉ locked).
Proof.
  rewrite /retryable elem_of_dom. split.
  - intros [r [Hr Hk]%map_lookup_filter_Some]. cbn in Hk. exists r. bool_prop. by rewrite -has_status_spec.
  - intros (r & Hr & Hs & He & Ha & Hl). exists r. apply map_lookup_filter_Some. split; [done|]. cbn.
    by rewrite (proj2 (has_status_spec SubmissionRunning r) Hs) He (proj2 (Z.ltb_lt _ _) Ha) bool_decide_true.
Qed.

(** Recovery gives back only the rows it may. *)
Lemma recover_queued now locked n t t' id r' :
  RecoverExpired q now locked t = Ok (n, t') -> t' !! id = Some r' -> r_status r' = SubmissionQueued ->
  (exists r, t !! id = Some r /\ r_status r = SubmissionQueued) \/ id ∈ retryable now locked t.
Proof.
  rewrite /RecoverExpired. intros Hr Hr' Hq. ok_inv.
  destruct (recover_loop _ _ _ _ _ _ (LockExpired_NoDup _ _ _ _) (LockExpired_rows _ _ _) E id) as [Hout Hin].
  destruct (decide (id ∈ (LockExpiredSubmissions now locked SubmissionRunning t).*1)) as [Hl|Hl].
  2:{ left. exists r'. by rewrite -Hout. }
  right. destruct (Hin Hl) as (r & res & Hr & _ & E'). rewrite Hr' in E'. injection E' as ->.
  apply elem_of_LockExpired_ids in Hl as (r2 & Hr2 & Hs & He & Hlock). rewrite Hr in Hr2. injection Hr2 as <-.
  apply elem_of_retryable. exists r. split_and!; try done. unfold recovered in Hq.
  destruct (Z.ltb_spec (r_attempt_count r) (q_maxAttempts q)); [done|discriminate Hq].
Qed.

Lemma count_recover now locked n t t' :
  RecoverExpired q now locked t = Ok (n, t') ->
  (queued_rows t' <= queued_rows t + Z.of_nat (size (retryable now locked t)))%Z.
Proof.
  intros Hrec. set (P := fun kv : string * row => has_status SubmissionQueued kv.2 = true).
  assert (dom (filter P t') ⊆ dom (filter P t) ∪ retryable now locked t) as Hsub.
  { intros id [r' [Hr' Hq]%map_lookup_filter_Some]%elem_of_dom. apply has_status_spec in Hq.
    destruct (recover_queued _ _ _ _ _ _ _ Hrec Hr' Hq) as [(r & Hr & Hs)|?]; [|set_solver].
    apply elem_of_union_l, elem_of_dom. exists r. apply map_lookup_filter_Some. split; [done|]. by apply has_status_spec. }
  apply subseteq_size in Hsub. rewrite size_union_alt !size_dom in Hsub.
  pose proof (subseteq_size (retryable now locked t ∖ dom (filter P t)) (retryable now locked t) ltac:(set_solver)).
  rewrite /CountQueuedSubmissions. fold P. lia.
Qed.

(** While the advisory lock is held the queue has room for the admission. *)
Definition queue_bound (es : list event) (s : sys) : Prop :=
  (queued_rows (s_table s) + (if s_admission s is Some _ then 1 else 0)
   <= maxQueued + requeues es)%Z.

Lemma requeues_snoc es e :
  requeues (es ++ [e]) = (requeues es + requeues [e])%Z.
Proof.
  unfold requeues. rewrite fmap_app. induction (_ <$> es) as [|x l IH]; cbn; [lia|].
  rewrite IH /=. lia.
Qed.

Lemma requeues_nonneg es : (0 <= requeues es)%Z.
Proof. unfold requeues. induction es as [|[] es IH]; cbn; lia. Qed.

Lemma count_insert_not_queued id r t :
  r_status r <> SubmissionQueued -> (queued_rows (<[id := r]> t) <= queued_rows t)%Z.
Proof.
  intros Hs. etrans; [apply count_insert_le|].
  unfold has_status. rewrite bool_decide_false //. cbn. lia.
Qed.

Lemma queue_bound_step es s e s' :
  step s e s' -> queue_bound es s -> queue_bound (es ++ [e]) s'.
Proof.
  pose proof (requeues_nonneg es) as Hnn. intros Hs. unfold queue_bound. rewrite requeues_snoc.
  destruct Hs; cbn -[CountQueuedSubmissions].
  - unfold SaveAdmitted_count in *. ok_inv. bool_prop. lia.
  - apply insertSubmission_Ok in H0 as (job & res & Hn & _ & _ & ->).
    pose proof (count_insert_le (sub_ID sub) (mkRow (sub_Status sub) job res (sub_StartedAt sub)
      (wrap32 (sub_AttemptCount sub)) (sub_LeaseExpiresAt sub)
      (nullableText (sub_FailureMessage sub)) now now) t) as Hc.
    destruct (has_status _ _) in Hc; cbn in Hc; lia.
  - lia.
  - apply claimNext_Ok in H0 as (r & _ & _ & _ & _ & _ & _ & ->).
    etrans; [apply Z.add_le_mono_r, count_insert_not_queued; done|]. lia.
  - apply RenewLease_Ok in H0 as (r & l & _ & _ & _ & _ & _ & ->).
    etrans; [apply Z.add_le_mono_r, count_insert_not_queued; done|]. lia.
  - apply UpdateContext_Ok in H1 as (r & res & _ & _ & _ & _ & ->).
    destruct H0 as [Hnq _].
    etrans; [apply Z.add_le_mono_r, count_insert_not_queued; done|]. lia.
  - apply count_recover in H0. destruct adm; lia.
Qed.

(** ** Progress *)

(** How many phase changes a submission has left, at most. *)
Definition phase_rank (p : phase) : Z :=
  match p with
  | Absent => 2 * q_maxAttempts q + 2
  | Waiting n => 2 * (q_maxAttempts q - n) + 1
  | Executing n => 2 * (q_maxAttempts q - n) + 2
  | Done _ _ => 0
  end.

Definition phase_at (s : sys) (id : string) : phase := phase_of (s_table s !! id).

Lemma phase_rank_step o p' :
  opt_wf o -> phase_step (phase_of o) p' -> (phase_rank p' < phase_rank (phase_of o))%Z.
Proof.
  intros Hwf Hs. destruct o as [r|]; cbn in *; [|inversion Hs; cbn; lia].
  pose proof (Hwf _ eq_refl) as Hr. unfold row_wf in Hr.
  destruct (r_status r); inversion Hs; subst; cbn; lia.
Qed.

Lemma claim_enabled t id r now :
  t !! id = Some r -> r_status r = SubmissionQueued ->
  (r_attempt_count r + 1 < 2^31)%Z ->
  exists c t', claimNextSubmission q now (dom t ∖ {[id]}) t = Ok (Some (c, t')) /\
               clm_ID c = id.
Proof.
  intros Ht Hs Ha. unfold claimNextSubmission, ClaimNextSubmission.
  destruct (oldest _) as [[i r']|] eqn:Hold.
  - apply oldest_Some in Hold as [Hin _].
    apply elem_of_claim_candidates in Hin as (Hr' & _ & Hni).
    assert (i = id) as ->.
    { apply elem_of_dom_2 in Hr'. destruct (decide (i = id)) as [|Hne]; [done|].
      destruct Hni. apply elem_of_difference. by rewrite not_elem_of_singleton. }
    rewrite Ht in Hr'. injection Hr' as <-.
    rewrite (proj2 (Z.ltb_lt _ _) Ha) /=. eauto.
  - apply oldest_None in Hold.
    assert ((id, r) ∈ claim_candidates (dom t ∖ {[id]}) SubmissionQueued t) as Hin.
    { apply elem_of_claim_candidates. split_and!; [done..|]. rewrite elem_of_difference elem_of_singleton. tauto. }
    rewrite Hold in Hin. by apply elem_of_nil in Hin.
Qed.

(** Recovery never fails; it returns every expired row that is not locked to
    the queue, or fails it when its attempts are used up, and leaves the
    others alone. *)
Lemma RecoverExpired_spec now locked t res :
  marshalRes expired_result = Ok res ->
  exists n t', RecoverExpired q now locked t = Ok (n, t') /\
    forall id, t' !! id =
      (fun r => if has_status SubmissionRunning r && lease_expired now r
                   && bool_decide (id ∉ locked)
                then recovered (q_maxAttempts q) now res r else r) <$> t !! id.
Proof.
  intros Hres. unfold RecoverExpired, foldM.
  destruct (recover_loop_ok (q_maxAttempts q) now 0
    (LockExpiredSubmissions now locked SubmissionRunning t) t res) as [t' Ht'];
    [done|apply LockExpired_NoDup|apply LockExpired_rows|].
  rewrite Ht' /=. eexists _, t'. split; [done|]. intros id.
  destruct (recover_loop _ _ _ _ _ _ (LockExpired_NoDup _ _ _ _)
              (LockExpired_rows _ _ _) Ht' id) as [Hout Hin].
  destruct (decide (id ∈ (LockExpiredSubmissions now locked SubmissionRunning t).*1))
    as [Hl|Hl].
  - destruct (Hin Hl) as (r & res' & Hr & Ha & ->).
    apply elem_of_LockExpired_ids in Hl as (r' & Hr' & Hs & He & Hlk).
    rewrite Hr in Hr'. injection Hr' as <-. rewrite Hr /=.
    rewrite (proj2 (has_status_spec _ _) Hs) He bool_decide_true //=.
    f_equal. unfold recovered. destruct (Z.ltb_spec (r_attempt_count r) (q_maxAttempts q));
      [done|]. destruct Ha as [|Ha]; [lia|]. congruence.
  - rewrite (Hout Hl). destruct (t !! id) as [r|] eqn:Hr; [|done]. cbn. f_equal.
    destruct (has_status _ r) eqn:Hs; [|done].
    destruct (lease_expired now r) eqn:He; [|done]. cbn.
    destruct (bool_decide_reflect (id ∉ locked)); [|done]. exfalso. apply Hl.
    apply elem_of_LockExpired_ids. apply has_status_spec in Hs. eauto.
Qed.

Lemma recover_enabled t id r l res :
  marshalRes expired_result = Ok res ->
  t !! id = Some r -> r_status r = SubmissionRunning -> r_lease_expires_at r = Some l ->
  exists n t', RecoverExpired q l ∅ t = Ok (n, t') /\
    t' !! id = Some (recovered (q_maxAttempts q) l res r).
Proof.
  intros Hres Ht Hs Hl. destruct (RecoverExpired_spec l ∅ t res Hres) as (n & t' & Hr & Hall).
  exists n, t'. split; [done|]. rewrite Hall Ht /=.
  rewrite (proj2 (has_status_spec _ _) Hs) /lease_expired Hl Z.leb_refl.
  by rewrite bool_decide_true.
Qed.
End Lifecycle.

(** ** Properties *)

Section Properties.
Context `{ColumnCodec} (maxQueued : Z) (q : SubmissionQueue).

(** C2 (refinement): every transaction of the store and the queue either
    leaves the phase of each submission alone or moves it along one edge of
    the life cycle: submitted, claimed with the next attempt number, returned
    to the queue while attempts remain, or settled. *)
Theorem lifecycle_refines s e s' id :
  (1 <= q_maxAttempts q)%Z -> reachable maxQueued q s -> step maxQueued q s e s' ->
  phase_at s id = phase_at s' id \/ phase_step q (phase_at s id) (phase_at s' id).
Proof.
  intros Hmax Hreach Hs. eapply row_change_phase, step_row_change; [|done].
  by apply (sys_wf_reachable maxQueued q Hmax) in Hreach as [].
Qed.

(** C3 (safety): the row of a finished or failed submission never changes
    again, whatever workers, renewals and recoveries still do. *)
Theorem settled_rows_stable s es s' id r :
  (1 <= q_maxAttempts q)%Z -> reachable maxQueued q s ->
  s_table s !! id = Some r -> settled r ->
  trace maxQueued q s es s' -> s_table s' !! id = Some r.
Proof.
  intros Hmax Hreach Hr Hst Ht.
  eapply (trace_row_ind maxQueued q Hmax (fun o => o = Some r) id s es s'); try done.
  - intros e o o' Hc _ ->. by eapply row_change_settled.
  - by apply (sys_wf_reachable maxQueued).
Qed.

(** C4 (safety, fencing): once attempt [a] of a submission is over (the row
    moved to a later attempt or left the running state), no update and no
    lease renewal of that attempt is accepted in any later state. *)
Theorem lost_claim_is_fenced s es s' id a :
  (1 <= q_maxAttempts q)%Z -> reachable maxQueued q s ->
  (1 <= a < 2^31)%Z -> claim_over a (s_table s !! id) ->
  trace maxQueued q s es s' ->
  forall now,
    (forall sub, sub_ID sub = id -> sub_AttemptCount sub = a ->
       is_ok (UpdateContext now sub (s_table s')) = false) /\
    is_ok (RenewLease q now (mkClaim id a) (s_table s')) = false.
Proof.
  intros Hmax Hreach Ha Hover Ht now.
  assert (claim_over a (s_table s' !! id)) as (r & Hr & Hcase).
  { eapply (trace_row_ind maxQueued q Hmax (claim_over a) id s es s');
      [|by apply (sys_wf_reachable maxQueued)|done|done].
    intros e o o' Hc _. by eapply row_change_claim_over. }
  assert (wrap32 a = a) as Hw by (apply wrap32_id; unfold in_int32; lia).
  split.
  - intros sub Hid Hat. destruct (UpdateContext _ _ _) as [t'|e] eqn:Hu; [|done].
    apply UpdateContext_Ok in Hu as (r' & res & Hr' & _ & Heq & Hc & _).
    rewrite Hid Hr in Hr'. injection Hr' as <-. rewrite Hat Hw in Heq.
    destruct Hc as [[Hs _]|(_ & _ & H0)]; [|lia]. destruct Hcase; [lia|]. tauto.
  - destruct (RenewLease _ _ _ _) as [t'|e] eqn:Hu; [|done].
    apply RenewLease_Ok in Hu as (r' & l & Hr' & Hs & Heq & _). cbn in *.
    rewrite Hr in Hr'. injection Hr' as <-. destruct Hcase; [lia|]. tauto.
Qed.

(** C5 (functional): the claims handed out for a submission carry the attempt
    numbers 1, 2, ..., n in this order, n being the row's attempt count; so a
    claim is never given out twice, and never more than [maxAttempts] times. *)
Theorem claims_numbered es s id :
  (1 <= q_maxAttempts q)%Z -> trace maxQueued q initial es s ->
  claims_for id es = seqZ 1 (attempts_of (s_table s !! id)) /\
  (Z.of_nat (length (claims_for id es)) <= q_maxAttempts q)%Z.
Proof.
  intros Hmax Ht.
  assert (sys_wf q s) as [_ Hwf] by (apply (sys_wf_reachable maxQueued q Hmax); by exists es).
  assert (claims_for id es = seqZ 1 (attempts_of (s_table s !! id))) as Heq.
  { clear Hwf. remember initial as s0 eqn:Hs0.
    induction Ht as [|s0 es s e s' Ht IH Hs]; subst.
    { by rewrite lookup_empty. }
    unfold claims_for in *. rewrite omap_app IH //.
    assert (sys_wf q s) as [Hadm Hwf]
      by (apply (sys_wf_reachable maxQueued q Hmax); by exists es).
    destruct (row_change_attempts q e id _ _ (step_row_change maxQueued q s e s' id Hadm Hs))
      as [[Hc ->]|[[Hc Ha]|Heq]].
    - unfold claims_for in Hc. by rewrite Hc app_nil_r.
    - unfold claims_for in Hc. rewrite Hc Ha seqZ_app; [|lia|].
      + destruct (s_table s !! id) as [r|] eqn:Hr; cbn; [|lia].
        pose proof (Hwf id r Hr) as [? _]. lia.
      + f_equal. rewrite /seqZ /=. f_equal. lia.
    - rewrite -Heq. destruct e; cbn; try by rewrite app_nil_r.
      destruct (decide _) as [Hid|]; [|by rewrite app_nil_r].
      (* a claim changes its row *)
      exfalso. inversion Hs as [| | |? ? ? ? ? t' Hcl| | |]; subst.
      apply claimNext_Ok in Hcl as (r & Hr & _ & _ & _ & Hat & _ & ->).
      cbn in Heq. rewrite Hr lookup_insert_eq in Heq. injection Heq as Heq.
      apply (f_equal r_attempt_count) in Heq. cbn in Heq. lia. }
  split; [done|]. rewrite Heq length_seqZ.
  destruct (s_table s !! id) as [r|] eqn:Hr; cbn; [|lia].
  pose proof (Hwf id r Hr) as (? & ? & _). lia.
Qed.

(** C6 (invariant): in every reachable state each row is well formed: the
    attempt count stays within [maxAttempts] and the 32-bit column, a lease is
    present exactly on running rows, queued rows have attempts left and no
    result, finished rows have a result. *)
Theorem rows_well_formed s id r :
  (1 <= q_maxAttempts q)%Z -> reachable maxQueued q s ->
  s_table s !! id = Some r -> row_wf q r.
Proof. 
  intros Hmax Hreach Hr.
  destruct (sys_wf_reachable maxQueued q Hmax s Hreach) as [_ Hwf]. by apply (Hwf id).
Qed.

(** C7 (bounds): admission control keeps the number of queued rows at most
    [maxQueued] plus the number of rows that recoveries gave back to the queue,
    for any interleaving of admissions, claims and recoveries.  Only running
    rows with an expired lease and attempts left count as given back
    ([retryable]); rows that recovery fails for good do not. *)
Theorem admissions_bounded es s :
  (0 <= maxQueued)%Z -> trace maxQueued q initial es s ->
  (CountQueuedSubmissions SubmissionQueued (s_table s) <= maxQueued + requeues es)%Z.
Proof.
  intros Hmax Ht. assert (queue_bound maxQueued es s) as Hb.
  { remember initial as s0 eqn:Hs0. induction Ht as [|s0 es s e s' Ht IH Hs]; subst.
    - unfold queue_bound, CountQueuedSubmissions. rewrite map_filter_empty map_size_empty. cbn. lia.
    - eapply queue_bound_step; [done|by apply IH]. }
  unfold queue_bound in Hb. destruct (s_admission s); lia.
Qed.

(** C8 (functional): recovery is total and exact: it succeeds on every table,
    and the rows it changes are the running ones whose lease has expired and
    that no other transaction holds; each is requeued if attempts remain and
    failed otherwise. *)
Theorem recover_settles_expired now locked t res :
  marshalRes expired_result = Ok res ->
  exists n t', RecoverExpired q now locked t = Ok (n, t') /\
    forall id, t' !! id =
      (fun r => if has_status SubmissionRunning r && lease_expired now r
                   && bool_decide (id ∉ locked)
                then recovered (q_maxAttempts q) now res r else r) <$> t !! id.
Proof. apply RecoverExpired_spec. Qed.

(** C9 (functional): a claim takes a queued row no other transaction holds
    and none such is older; the queue reports itself empty only when there is
    no such row. *)
Theorem claim_is_fifo now locked t :
  match claimNextSubmission q now locked t with
  | Ok (Some (c, t')) =>
      exists r, t !! clm_ID c = Some r /\ r_status r = SubmissionQueued /\
        (clm_ID c ∉ locked) /\
        forall id' r', t !! id' = Some r' -> r_status r' = SubmissionQueued ->
          id' ∉ locked -> (r_created_at r <= r_created_at r')%Z
  | Ok None =>
      forall id r, t !! id = Some r -> r_status r = SubmissionQueued -> id ∈ locked
  | Err _ => exists id r, t !! id = Some r /\ (2^31 <= r_attempt_count r + 1)%Z
  end.
Proof.
  destruct (claimNextSubmission q now locked t) as [[[c t']|]|e] eqn:Hc.
  - apply claimNext_Ok in Hc as (r & ? & ? & ? & ? & _). eauto 10.
  - unfold claimNextSubmission, ClaimNextSubmission in Hc.
    destruct (oldest _) as [[i r]|] eqn:Hold.
    { by destruct (_ <? _)%Z. }
    apply oldest_None in Hold. intros id r Hr Hs.
    destruct (decide (id ∈ locked)) as [|Hni]; [done|].
    assert ((id, r) ∈ claim_candidates locked SubmissionQueued t) as Hin
      by by apply elem_of_claim_candidates.
    rewrite Hold in Hin. by apply elem_of_nil in Hin.
  - unfold claimNextSubmission, ClaimNextSubmission in Hc.
    destruct (oldest _) as [[i r]|] eqn:Hold; [|done].
    apply oldest_Some in Hold as [Hin%elem_of_claim_candidates _].
    destruct (Z.ltb_spec (r_attempt_count r + 1) (2^31)); [done|]. naive_solver.
Qed.

(** C10 (liveness): no reachable state leaves a submission stuck.  Every
    queued or running submission has a transaction (a claim, or a recovery at
    its lease's end) that moves it on, and each phase change lowers
    [phase_rank], so at most [2 * maxAttempts + 2] of them happen before it is
    settled. *)
Theorem submission_progress s id r res :
  (1 <= q_maxAttempts q < 2^31)%Z -> marshalRes expired_result = Ok res ->
  reachable maxQueued q s -> s_table s !! id = Some r -> ~ settled r ->
  (exists e s', step maxQueued q s e s' /\
     phase_step q (phase_at s id) (phase_at s' id)) /\
  (forall e s', step maxQueued q s e s' -> phase_at s' id <> phase_at s id ->
     (0 <= phase_rank q (phase_at s' id) < phase_rank q (phase_at s id))%Z).
Proof.
  intros Hmax Hres Hreach Hr Hns. destruct s as [t adm].
  assert (sys_wf q (mkSys t adm)) as [Hadm Hwf]
    by (apply (sys_wf_reachable maxQueued q); [lia|done]).
  pose proof (Hwf id r Hr) as Hrwf. unfold phase_at. cbn [s_table] in *. split.
  - unfold settled in Hns. unfold row_wf in Hrwf.
    destruct (r_status r) eqn:Hst; [| |naive_solver..].
    + destruct (claim_enabled q t id r 0%Z Hr Hst) as (c & t' & Hc & Hid); [lia|].
      exists (EvClaim 0%Z c), (mkSys t' adm). split; [by eapply step_claim|].
      apply claimNext_Ok in Hc as (r' & Hr' & Hs' & _ & _ & Hat & _ & ->).
      cbn [s_table]. rewrite Hid in Hr' |- *. rewrite Hr in Hr'. injection Hr' as <-.
      rewrite Hr lookup_insert_eq /= Hst Hat. constructor.
    + destruct Hrwf as (_ & _ & _ & [l Hl]).
      destruct (recover_enabled q t id r l res Hres Hr Hst Hl) as (n & t' & Hrec & Ht').
      eexists _, (mkSys t' adm). split; [by eapply step_recover|].
      cbn [s_table]. rewrite Hr Ht' /= Hst. unfold recovered.
      destruct (Z.ltb_spec (r_attempt_count r) (q_maxAttempts q)); cbn; by constructor.
  - intros e s' Hs Hne.
    destruct (row_change_phase q e id _ _ (step_row_change maxQueued q _ e s' id Hadm Hs))
      as [Heq|Hp]; [by rewrite -Heq in Hne|]. split.
    + assert (sys_wf q s') as [_ Hwf'] by (eapply sys_wf_step; [|done|done]; lia).
      pose proof (Hwf' id). destruct (s_table s' !! id) as [r'|]; cbn; [|lia].
      specialize (H0 r' eq_refl) as (? & ? & ?). destruct (r_status r'); cbn; lia.
    + eapply phase_rank_step; [apply (Hwf id)|done].
Qed.
End Properties.

(** ** A run: one submission is admitted, claimed, lost, claimed again and
    finished while the first worker still tries to report. *)

Definition demo_codec : ColumnCodec := {|
  marshalJob j := Ok (job_SourceCode j);
  unmarshalJob s := Ok (mkJob "python" "" s None None [] (mkLimits 1000 64));
  marshalRes r := Ok (rs_ErrorMessage r);
  unmarshalRes s := Ok (mkResult Accepted 1 1 0 0 None s) |}.

Definition demo_queue : SubmissionQueue := NewPostgresSubmissionQueueWithOptions 0 0 2.

Definition demo_job : Job :=
  mkJob "python" "" "print(1)" None None [] (mkLimits 1000 64).

Definition demo_sub (status : SubmissionStatus) (attempt : Z) : Submission :=
  mkSubmission None "s1" demo_job status
    (if bool_decide (status = SubmissionFinished)
     then Some (mkResult Accepted 1 1 0 0 None "ok") else None)
    None attempt None "".

Definition demo_start : list action :=
  [ActAdmitCount (demo_sub SubmissionQueued 0); ActAdmitCommit 10].

Definition demo_lost : list action :=
  [ActClaim 20 ∅; ActUpdate 30 (demo_sub SubmissionRunning 1);
   ActRecover 60000020 ∅].

Definition demo_retry : list action :=
  [ActClaim 60000030 ∅; ActUpdate 60000040 (demo_sub SubmissionFinished 1);
   ActUpdate 60000050 (demo_sub SubmissionFinished 2)].

Definition demo_run (acts : list action) : list event * sys :=
  @run demo_codec 1 demo_queue initial acts.

(** The late report of attempt 1 makes no event. *)
Example demo_events :
  length (demo_run (demo_start ++ demo_lost ++ demo_retry)).1 = 7 /\
  claims_for "s1" (demo_run (demo_start ++ demo_lost ++ demo_retry)).1 = [1; 2]%Z.
Proof. split; reflexivity. Qed.

Lemma demo_reachable acts :
  @reachable demo_codec 1 demo_queue (demo_run acts).2.
Proof. exists (demo_run acts).1. apply (@run_trace demo_codec). Qed.

Lemma demo_step acts a e s' :
  @run_action demo_codec 1 demo_queue (demo_run acts).2 a = Some (e, s') ->
  @step demo_codec 1 demo_queue (demo_run acts).2 e s'.
Proof. apply (@run_action_step demo_codec). Qed.

Example lifecycle_refines_witness :
  phase_at (demo_run demo_start).2 "s1" = Waiting 0 /\
  phase_at (demo_run (demo_start ++ [ActClaim 20 ∅])).2 "s1" = Executing 1 /\
  exists e s', @step demo_codec 1 demo_queue (demo_run demo_start).2 e s' /\
    (phase_at (demo_run demo_start).2 "s1" = phase_at s' "s1" \/
     phase_step demo_queue (phase_at (demo_run demo_start).2 "s1") (phase_at s' "s1")).
Proof.
  split; [reflexivity|]. split; [reflexivity|].
  eexists _, _. assert (@step demo_codec 1 demo_queue (demo_run demo_start).2 _ _) as Hs
    by (apply (demo_step demo_start (ActClaim 20 ∅)); vm_compute; reflexivity).
  split; [exact Hs|].
  exact (@lifecycle_refines demo_codec 1 demo_queue _ _ _ "s1" ltac:(vm_compute; discriminate)
           (demo_reachable demo_start) Hs).
Defined.

Definition demo_final : sys := (demo_run (demo_start ++ demo_lost ++ demo_retry)).2.

Example settled_rows_stable_witness :
  exists r, s_table demo_final !! "s1" = Some r /\ settled r /\
    forall es s', @trace demo_codec 1 demo_queue demo_final es s' ->
      s_table s' !! "s1" = Some r.
Proof.
  eexists. assert (s_table demo_final !! "s1" = Some _) as Hr by (vm_compute; reflexivity).
  split; [exact Hr|].
  match type of Hr with _ = Some ?r => assert (settled r) as Hst by (left; reflexivity) end.
  split; [exact Hst|]. intros es s' Ht.
  exact (@settled_rows_stable demo_codec 1 demo_queue demo_final es s' "s1" _
           ltac:(vm_compute; discriminate) (demo_reachable _) Hr Hst Ht).
Defined.

Example lost_claim_is_fenced_witness :
  claim_over 1 (s_table (demo_run (demo_start ++ demo_lost)).2 !! "s1") /\
  forall es s' now,
    @trace demo_codec 1 demo_queue (demo_run (demo_start ++ demo_lost)).2 es s' ->
    is_ok (@UpdateContext demo_codec now (demo_sub SubmissionFinished 1) (s_table s')) = false.
Proof.
  assert (claim_over 1 (s_table (demo_run (demo_start ++ demo_lost)).2 !! "s1")) as Hover.
  { eexists. split; [vm_compute; reflexivity|]. right. split; [reflexivity|discriminate]. }
  split; [exact Hover|]. intros es s' now Ht.
  exact (proj1 (@lost_claim_is_fenced demo_codec 1 demo_queue _ es s' "s1" 1
    ltac:(vm_compute; discriminate) (demo_reachable _) ltac:(lia) Hover Ht now)
    (demo_sub SubmissionFinished 1) eq_refl eq_refl).
Defined.

Example claims_numbered_witness :
  claims_for "s1" (demo_run (demo_start ++ demo_lost ++ demo_retry)).1 = seqZ 1 2.
Proof.
  exact (proj1 (@claims_numbered demo_codec 1 demo_queue _ _ "s1"
    ltac:(vm_compute; discriminate) (@run_trace demo_codec 1 demo_queue initial
       (demo_start ++ demo_lost ++ demo_retry)))).
Defined.

Example rows_well_formed_witness :
  exists r, s_table demo_final !! "s1" = Some r /\ row_wf demo_queue r.
Proof.
  eexists. assert (s_table demo_final !! "s1" = Some _) as Hr by (vm_compute; reflexivity).
  split; [exact Hr|].
  exact (@rows_well_formed demo_codec 1 demo_queue demo_final "s1" _
           ltac:(vm_compute; discriminate) (demo_reachable _) Hr).
Defined.

Example admissions_bounded_witness :
  CountQueuedSubmissions SubmissionQueued
    (s_table (demo_run (demo_start ++ demo_lost)).2) = 1%Z /\
  (CountQueuedSubmissions SubmissionQueued
     (s_table (demo_run (demo_start ++ demo_lost)).2)
   <= 1 + requeues (demo_run (demo_start ++ demo_lost)).1)%Z.
Proof.
  split; [vm_compute; reflexivity|].
  exact (@admissions_bounded demo_codec 1 demo_queue _ _ ltac:(lia)
    (@run_trace demo_codec 1 demo_queue initial (demo_start ++ demo_lost))).
Defined.

Example recover_settles_expired_witness :
  exists n t', @RecoverExpired demo_codec demo_queue 60000020 ∅
      (s_table (demo_run (demo_start ++ [ActClaim 20 ∅])).2) = Ok (n, t').
Proof.
  destruct (@recover_settles_expired demo_codec demo_queue 60000020 ∅
    (s_table (demo_run (demo_start ++ [ActClaim 20 ∅])).2) expired_message eq_refl)
    as (n & t' & Hr & _).
  exists n, t'. exact Hr.
Defined.

Example submission_progress_witness :
  exists r, s_table (demo_run demo_start).2 !! "s1" = Some r /\ ~ settled r /\
  exists e s', @step demo_codec 1 demo_queue (demo_run demo_start).2 e s' /\
    phase_step demo_queue (phase_at (demo_run demo_start).2 "s1") (phase_at s' "s1").
Proof.
  eexists. assert (s_table (demo_run demo_start).2 !! "s1" = Some _) as Hr
    by (vm_compute; reflexivity).
  split; [exact Hr|].
  match type of Hr with _ = Some ?r =>
    assert (~ settled r) as Hns by (intros [Hs|Hs]; discriminate Hs) end.
  split; [exact Hns|].
  exact (proj1 (@submission_progress demo_codec 1 demo_queue _ "s1" _ expired_message
    ltac:(vm_compute; split; [discriminate|reflexivity]) eq_refl
    (demo_reachable demo_start) Hr Hns)).
Defined.
