(* ===== verification/GoStrings.v ===== *)
(** * Strings and runes of the Go standard library

    The functions of [strings], [strconv], [sort], [unicode] and
    [unicode/utf8] that the program calls.  A Go string is a [string] of
    bytes; a rune is its code point in [Z].  [unicode.IsLetter] and
    [unicode.IsDigit] are exact up to U+00FF; the tables above it are the
    operations of the class [UnicodeTables]. *)

From S2P Require Import Prelude.
From Stdlib Require Import Ascii.

Definition rune : Type := Z.
Definition byte_of (c : ascii) : Z := Z.of_N (N_of_ascii c).
Definition of_byte (b : Z) : ascii := ascii_of_N (Z.to_N b).
Definition newline : string := String "010"%char "".
Definition RuneError : rune := 65533%Z.

Lemma byte_of_range c : (0 <= byte_of c < 256)%Z.
Proof. by destruct c as [[] [] [] [] [] [] [] []]. Qed.
Lemma byte_of_of_byte b : (0 <= b < 256)%Z -> byte_of (of_byte b) = b.
Proof. intros ?. rewrite /byte_of /of_byte N_ascii_embedding; lia. Qed.
Lemma of_byte_byte_of c : of_byte (byte_of c) = c.
Proof. by rewrite /byte_of /of_byte N2Z.id ascii_N_embedding. Qed.

(** [utf8.DecodeRuneInString], by the number of bytes of the encoding. *)
Definition is_cont (b : Z) : bool := (128 <=? b)%Z && (b <=? 191)%Z.
Definition valid2 (b0 b1 : Z) : bool := (194 <=? b0)%Z && (b0 <=? 223)%Z && is_cont b1.
Definition valid3 (b0 b1 b2 : Z) : bool :=
  (224 <=? b0)%Z && (b0 <=? 239)%Z && is_cont b1 && is_cont b2 &&
  (negb (b0 =? 224)%Z || (160 <=? b1)%Z) && (negb (b0 =? 237)%Z || (b1 <=? 159)%Z).
Definition valid4 (b0 b1 b2 b3 : Z) : bool :=
  (240 <=? b0)%Z && (b0 <=? 244)%Z && is_cont b1 && is_cont b2 && is_cont b3 &&
  (negb (b0 =? 240)%Z || (144 <=? b1)%Z) && (negb (b0 =? 244)%Z || (b1 <=? 143)%Z).
Definition rune2 (b0 b1 : Z) : rune := ((b0 - 192) * 64 + (b1 - 128))%Z.
Definition rune3 (b0 b1 b2 : Z) : rune :=
  ((b0 - 224) * 4096 + (b1 - 128) * 64 + (b2 - 128))%Z.
Definition rune4 (b0 b1 b2 b3 : Z) : rune :=
  ((b0 - 240) * 262144 + (b1 - 128) * 4096 + (b2 - 128) * 64 + (b3 - 128))%Z.

(** A string as the sequence of its runes, each with the bytes it was decoded
    from: what [for _, r := range s] visits.  An invalid byte is one
    [RuneError]. *)
Fixpoint segments (s : string) : list (rune * string) :=
  match s with
  | EmptyString => []
  | String c0 s1 =>
      let b0 := byte_of c0 in
      if (b0 <? 128)%Z then (b0, String c0 "") :: segments s1
      else match s1 with
      | EmptyString => (RuneError, String c0 "") :: segments s1
      | String c1 s2 =>
          let b1 := byte_of c1 in
          if valid2 b0 b1 then (rune2 b0 b1, String c0 (String c1 "")) :: segments s2
          else match s2 with
          | EmptyString => (RuneError, String c0 "") :: segments s1
          | String c2 s3 =>
              let b2 := byte_of c2 in
              if valid3 b0 b1 b2
              then (rune3 b0 b1 b2, String c0 (String c1 (String c2 ""))) :: segments s3
              else match s3 with
              | EmptyString => (RuneError, String c0 "") :: segments s1
              | String c3 s4 =>
                  let b3 := byte_of c3 in
                  if valid4 b0 b1 b2 b3
                  then (rune4 b0 b1 b2 b3,
                        String c0 (String c1 (String c2 (String c3 "")))) :: segments s4
                  else (RuneError, String c0 "") :: segments s1
              end
          end
      end
  end.

(** [[]rune(s)] *)
Definition runes (s : string) : list rune := (segments s).*1.

(** The bytes of a list of segments. *)
Fixpoint unsegment (l : list (rune * string)) : string :=
  match l with [] => "" | (_, b) :: l' => b +:+ unsegment l' end.

(** Code points that have an encoding: not a surrogate, not above U+10FFFF. *)
Definition valid_rune (r : rune) : bool :=
  (0 <=? r)%Z && (r <? 55296)%Z || (57344 <=? r)%Z && (r <=? 1114111)%Z.

(** [string(r)]: [utf8.EncodeRune]; an invalid rune is encoded as U+FFFD. *)
Definition encode_rune (r : rune) : string :=
  let r := if valid_rune r then r else RuneError in
  if (r <? 128)%Z then String (of_byte r) ""
  else if (r <? 2048)%Z then
    String (of_byte (192 + r / 64)) (String (of_byte (128 + r mod 64)) "")
  else if (r <? 65536)%Z then
    String (of_byte (224 + r / 4096))
      (String (of_byte (128 + r / 64 mod 64)) (String (of_byte (128 + r mod 64)) ""))
  else
    String (of_byte (240 + r / 262144))
      (String (of_byte (128 + r / 4096 mod 64))
         (String (of_byte (128 + r / 64 mod 64)) (String (of_byte (128 + r mod 64)) ""))).

(** [string(rs)] for a rune slice. *)
Fixpoint string_of_runes (rs : list rune) : string :=
  match rs with [] => "" | r :: rs' => encode_rune r +:+ string_of_runes rs' end.

(** ** [unicode] *)

(** [unicode.IsSpace] *)
Definition IsSpace (r : rune) : bool :=
  (9 <=? r)%Z && (r <=? 13)%Z || (r =? 32)%Z || (r =? 133)%Z || (r =? 160)%Z ||
  (r =? 5760)%Z || (8192 <=? r)%Z && (r <=? 8202)%Z || (r =? 8232)%Z ||
  (r =? 8233)%Z || (r =? 8239)%Z || (r =? 8287)%Z || (r =? 12288)%Z.

(** The categories L and Nd above Latin-1; no white space is in either. *)
Class UnicodeTables := {
  letter_above_latin1 : rune -> bool;
  digit_above_latin1 : rune -> bool;
  tables_no_space r :
    (255 < r)%Z -> IsSpace r = true ->
    letter_above_latin1 r = false /\ digit_above_latin1 r = false }.

Section Letters.
Context `{UnicodeTables}.

Definition IsLetter (r : rune) : bool :=
  if (r <=? 255)%Z then
    (65 <=? r)%Z && (r <=? 90)%Z || (97 <=? r)%Z && (r <=? 122)%Z ||
    (r =? 170)%Z || (r =? 181)%Z || (r =? 186)%Z ||
    (192 <=? r)%Z && (r <=? 255)%Z && negb (r =? 215)%Z && negb (r =? 247)%Z
  else letter_above_latin1 r.

Definition IsDigit (r : rune) : bool :=
  if (r <=? 255)%Z then (48 <=? r)%Z && (r <=? 57)%Z else digit_above_latin1 r.

(** [unicode.IsLetter(r) || unicode.IsDigit(r) || r == '_'] *)
Definition is_word (r : rune) : bool := IsLetter r || IsDigit r || (r =? 95)%Z.

Lemma space_not_word r : IsSpace r = true -> is_word r = false.
Proof.
  intros Hs. rewrite /is_word /IsLetter /IsDigit.
  destruct (Z.leb_spec r 255) as [Hr|Hr].
  - unfold IsSpace in Hs. lia.
  - destruct (tables_no_space r Hr Hs) as [-> ->]. lia.
Qed.
End Letters.

(** Tables without any entry, for closed examples on Latin-1 input. *)
Definition latin1_tables : UnicodeTables.
Proof. by refine {| letter_above_latin1 _ := false; digit_above_latin1 _ := false |}. Defined.

(** ** [strings] *)

Fixpoint drop_space (l : list (rune * string)) : list (rune * string) :=
  match l with
  | (r, b) :: l' => if IsSpace r then drop_space l' else l
  | [] => []
  end.

(** [strings.TrimSpace]: decoding backwards from the end finds the runes that
    decoding forwards does. *)
Definition TrimSpace (s : string) : string :=
  unsegment (rev (drop_space (rev (drop_space (segments s))))).

(** [strings.Fields]: the maximal runs of runes that are not white space. *)
Fixpoint fields_of (word : string) (l : list (rune * string)) : list string :=
  match l with
  | [] => if bool_decide (word = "") then [] else [word]
  | (r, b) :: l' =>
      if IsSpace r then
        if bool_decide (word = "") then fields_of "" l' else word :: fields_of "" l'
      else fields_of (word +:+ b) l'
  end.

Definition Fields (s : string) : list string := fields_of "" (segments s).

Definition HasPrefix (s prefix : string) : bool := String.prefix prefix s.

Fixpoint HasSuffix (s suffix : string) : bool :=
  bool_decide (s = suffix) ||
  match s with EmptyString => false | String _ s' => HasSuffix s' suffix end.

(** [strings.TrimPrefix] *)
Definition TrimPrefix (s prefix : string) : string :=
  if HasPrefix s prefix
  then String.substring (String.length prefix) (String.length s - String.length prefix) s
  else s.

(** [strings.TrimSuffix] *)
Definition TrimSuffix (s suffix : string) : string :=
  if HasSuffix s suffix
  then String.substring 0 (String.length s - String.length suffix) s else s.

(** [s[:n]] and [s[n:]], for [n] within the text. *)
Fixpoint slice_to (n : nat) (s : string) : string :=
  match n, s with S n', String c s' => String c (slice_to n' s') | _, _ => "" end.

Fixpoint slice_from (n : nat) (s : string) : string :=
  match n, s with S n', String _ s' => slice_from n' s' | _, _ => s end.

Lemma slice_append n s : slice_to n s +:+ slice_from n s = s.
Proof.
  revert s. induction n as [|n IH]; intros s; [by destruct s|]. destruct s as [|c s]; [done|].
  change (String c (slice_to n s +:+ slice_from n s) = String c s). by rewrite IH.
Qed.

Lemma length_slice_to n s : String.length (slice_to n s) = Nat.min n (String.length s).
Proof. revert s. induction n as [|n IH]; intros [|c s]; cbn; [done..|]. by rewrite IH. Qed.

Lemma slice_to_all n s : (String.length s <= n)%nat -> slice_to n s = s.
Proof.
  revert s. induction n as [|n IH]; intros [|c s]; cbn; intros H; try done; [lia|]. rewrite IH; [lia|done].
Qed.

Definition Join (elems : list string) (sep : string) : string := String.concat sep elems.

(** [sort.Strings]: byte-wise order; equal strings are indistinguishable, so
    any sorting algorithm gives this list. *)
Definition sort_Strings (l : list string) : list string := merge_sort String.le l.

(** ** [strconv] *)

(** [strconv.Itoa], [strconv.FormatInt(z, 10)] *)
Definition Itoa (z : Z) : string := pretty z.

Fixpoint digits_value (acc : Z) (s : string) : option Z :=
  match s with
  | EmptyString => Some acc
  | String c s' =>
      let b := byte_of c in
      if (48 <=? b)%Z && (b <=? 57)%Z then digits_value (acc * 10 + (b - 48)) s' else None
  end.

Definition unsigned_value (s : string) : option Z :=
  match s with EmptyString => None | _ => digits_value 0 s end.

(** [strconv.ParseInt(s, 10, bits)] *)
Definition ParseInt (s : string) (bits : Z) : result Z :=
  let '(neg, digits) :=
    match s with
    | String "+" s' => (false, s')
    | String "-" s' => (true, s')
    | _ => (false, s)
    end in
  match unsigned_value digits with
  | None => Err (Errorf "parsing %q: invalid syntax" [FStr s])
  | Some v =>
      let v := if neg : bool then (- v)%Z else v in
      fail_if negb ((- 2 ^ (bits - 1) <=? v)%Z && (v <? 2 ^ (bits - 1))%Z)
      with Errorf "parsing %q: value out of range" [FStr s];;
      Ok v
  end.

(** [strconv.Atoi] on a 64-bit [int]. *)
Definition Atoi (s : string) : result Z := ParseInt s 64.

(** ** [strconv.Quote] *)

(** [unicode.IsPrint] above Latin-1. *)
Class PrintTables := { print_above_latin1 : rune -> bool }.

Definition IsPrint `{PrintTables} (r : rune) : bool :=
  if (r <=? 255)%Z then
    (32 <=? r)%Z && (r <=? 126)%Z || (161 <=? r)%Z && negb (r =? 173)%Z
  else print_above_latin1 r.

Definition hex_digit (d : Z) : ascii := of_byte (if (d <? 10)%Z then 48 + d else 87 + d)%Z.

(** The last [n] hexadecimal digits of [z], the most significant first. *)
Fixpoint hex_digits (n : nat) (z : Z) : string :=
  match n with
  | O => ""
  | S n' => String (hex_digit (Z.land (Z.shiftr z (4 * Z.of_nat n')) 15)%Z) (hex_digits n' z)
  end.

Definition backslash (s : string) : string := String "092"%char s.

(** One rune of [Quote], with the bytes it was decoded from. *)
Definition quote_segment `{PrintTables} (seg : rune * string) : string :=
  let '(r, b) := seg in
  if (r =? RuneError)%Z && (String.length b =? 1)%nat then
    backslash (String "x" (match b with
      | String c _ => hex_digits 2 (byte_of c) | EmptyString => "" end))
  else if (r =? 34)%Z || (r =? 92)%Z then backslash b
  else if IsPrint r then b
  else if (r =? 7)%Z then backslash "a"
  else if (r =? 8)%Z then backslash "b"
  else if (r =? 12)%Z then backslash "f"
  else if (r =? 10)%Z then backslash "n"
  else if (r =? 13)%Z then backslash "r"
  else if (r =? 9)%Z then backslash "t"
  else if (r =? 11)%Z then backslash "v"
  else if (r <? 32)%Z || (r =? 127)%Z then backslash (String "x" (hex_digits 2 r))
  else if (r <? 65536)%Z then backslash (String "u" (hex_digits 4 r))
  else backslash (String "U" (hex_digits 8 r)).

Definition Quote `{PrintTables} (s : string) : string :=
  String "034"%char (String.concat "" (map quote_segment (segments s)) +:+ String "034"%char "").

(** Print tables without any entry, for closed examples. *)
Definition latin1_print : PrintTables := {| print_above_latin1 _ := false |}.

(** ** Lemmas: bytes and segments *)

Lemma append_cons c (s t : string) : String c s +:+ t = String c (s +:+ t).
Proof. done. Qed.
Lemma append_empty_l (s : string) : "" +:+ s = s.
Proof. done. Qed.
Lemma append_nil_r (s : string) : s +:+ "" = s.
Proof. induction s as [|c s IH]; [done|]. by rewrite append_cons IH. Qed.
Lemma append_assoc (s t u : string) : s +:+ t +:+ u = (s +:+ t) +:+ u.
Proof. induction s as [|c s IH]; [done|]. by rewrite !append_cons IH. Qed.
Lemma length_append (s t : string) :
  String.length (s +:+ t) = (String.length s + String.length t)%nat.
Proof. induction s as [|c s IH]; [done|]. rewrite append_cons /=. by f_equal. Qed.

#[export] Hint Rewrite append_nil_r append_cons append_empty_l length_append : yex.

Lemma valid_rune2 b0 b1 : valid2 b0 b1 = true -> valid_rune (rune2 b0 b1) = true.
Proof. rewrite /valid2 /is_cont /valid_rune /rune2. lia. Qed.
Lemma valid_rune3 b0 b1 b2 : valid3 b0 b1 b2 = true -> valid_rune (rune3 b0 b1 b2) = true.
Proof. rewrite /valid3 /is_cont /valid_rune /rune3. lia. Qed.
Lemma valid_rune4 b0 b1 b2 b3 :
  valid4 b0 b1 b2 b3 = true -> valid_rune (rune4 b0 b1 b2 b3) = true.
Proof. rewrite /valid4 /is_cont /valid_rune /rune4. lia. Qed.

(** Encoding a decoded rune gives the bytes back. *)
Lemma split64 q m : (0 <= m < 64)%Z -> ((q * 64 + m) / 64 = q /\ (q * 64 + m) mod 64 = m)%Z.
Proof.
  intros ?. split.
  - rewrite Z.div_add_l; [lia|]. rewrite Z.div_small; lia.
  - rewrite Z.add_comm Z.mod_add; [lia|]. by apply Z.mod_small.
Qed.

Lemma encode_rune2 c0 c1 :
  valid2 (byte_of c0) (byte_of c1) = true ->
  encode_rune (rune2 (byte_of c0) (byte_of c1)) = String c0 (String c1 "").
Proof.
  intros Hv. rewrite /encode_rune (valid_rune2 _ _ Hv). unfold valid2, is_cont in Hv.
  unfold rune2. destruct (split64 (byte_of c0 - 192) (byte_of c1 - 128)) as [-> ->]; [lia|].
  destruct (Z.ltb_spec ((byte_of c0 - 192) * 64 + (byte_of c1 - 128)) 128); [lia|].
  destruct (Z.ltb_spec ((byte_of c0 - 192) * 64 + (byte_of c1 - 128)) 2048); [|lia].
  rewrite -[in RHS](of_byte_byte_of c0) -[in RHS](of_byte_byte_of c1). repeat f_equal; lia.
Qed.

Lemma encode_rune3 c0 c1 c2 :
  valid3 (byte_of c0) (byte_of c1) (byte_of c2) = true ->
  encode_rune (rune3 (byte_of c0) (byte_of c1) (byte_of c2)) = String c0 (String c1 (String c2 "")).
Proof.
  intros Hv. rewrite /encode_rune (valid_rune3 _ _ _ Hv). unfold valid3, is_cont in Hv.
  set (q := ((byte_of c0 - 224) * 64 + (byte_of c1 - 128))%Z).
  assert (rune3 (byte_of c0) (byte_of c1) (byte_of c2) = q * 64 + (byte_of c2 - 128))%Z as ->
    by (unfold rune3, q; lia).
  assert (forall z, z / 4096 = z / 64 / 64)%Z as E by (by intros; rewrite Z.div_div).
  rewrite E. destruct (split64 q (byte_of c2 - 128)) as [-> ->]; [lia|].
  destruct (split64 (byte_of c0 - 224) (byte_of c1 - 128)) as [E1 E2]; [lia|]. fold q in E1, E2.
  rewrite E1 E2.
  destruct (Z.ltb_spec (q * 64 + (byte_of c2 - 128)) 128); [lia|].
  destruct (Z.ltb_spec (q * 64 + (byte_of c2 - 128)) 2048); [lia|].
  destruct (Z.ltb_spec (q * 64 + (byte_of c2 - 128)) 65536); [|lia].
  rewrite -[in RHS](of_byte_byte_of c0) -[in RHS](of_byte_byte_of c1) -[in RHS](of_byte_byte_of c2).
  repeat f_equal; lia.
Qed.

Lemma encode_rune4 c0 c1 c2 c3 :
  valid4 (byte_of c0) (byte_of c1) (byte_of c2) (byte_of c3) = true ->
  encode_rune (rune4 (byte_of c0) (byte_of c1) (byte_of c2) (byte_of c3)) =
    String c0 (String c1 (String c2 (String c3 ""))).
Proof.
  intros Hv. rewrite /encode_rune (valid_rune4 _ _ _ _ Hv). unfold valid4, is_cont in Hv.
  set (q := ((byte_of c0 - 240) * 64 + (byte_of c1 - 128))%Z).
  set (q' := (q * 64 + (byte_of c2 - 128))%Z).
  assert (rune4 (byte_of c0) (byte_of c1) (byte_of c2) (byte_of c3) = q' * 64 + (byte_of c3 - 128))%Z
    as -> by (unfold rune4, q', q; lia).
  assert (forall z, z / 4096 = z / 64 / 64)%Z as E by (by intros; rewrite Z.div_div).
  assert (forall z, z / 262144 = z / 64 / 64 / 64)%Z as E' by (by intros; rewrite !Z.div_div).
  rewrite E E'. destruct (split64 q' (byte_of c3 - 128)) as [-> ->]; [lia|].
  destruct (split64 q (byte_of c2 - 128)) as [E1 E2]; [lia|]. fold q' in E1, E2. rewrite E1 E2.
  destruct (split64 (byte_of c0 - 240) (byte_of c1 - 128)) as [E3 E4]; [lia|]. fold q in E3, E4.
  rewrite E3 E4.
  destruct (Z.ltb_spec (q' * 64 + (byte_of c3 - 128)) 128); [lia|].
  destruct (Z.ltb_spec (q' * 64 + (byte_of c3 - 128)) 2048); [lia|].
  destruct (Z.ltb_spec (q' * 64 + (byte_of c3 - 128)) 65536); [lia|].
  rewrite -[in RHS](of_byte_byte_of c0) -[in RHS](of_byte_byte_of c1)
    -[in RHS](of_byte_byte_of c2) -[in RHS](of_byte_byte_of c3).
  repeat f_equal; lia.
Qed.

(** All bytes are outside ASCII. *)
Fixpoint high_bytes (s : string) : bool :=
  match s with EmptyString => true | String c s' => (128 <=? byte_of c)%Z && high_bytes s' end.

(** What a segment is: an ASCII byte, or bytes outside ASCII. *)
Definition seg_ok (r : rune) (b : string) : Prop :=
  valid_rune r = true /\ b <> "" /\
  ((r < 128)%Z /\ b = String (of_byte r) "" \/
   (128 <= r)%Z /\ high_bytes b = true /\
     (r = RuneError /\ String.length b = 1%nat \/ b = encode_rune r)).

Lemma seg_ok_ascii c : (byte_of c < 128)%Z -> seg_ok (byte_of c) (String c "").
Proof.
  intros ?. pose proof (byte_of_range c). split_and!; [rewrite /valid_rune; lia|done|].
  left. by rewrite of_byte_byte_of.
Qed.

(** One decoding step: a segment of at least one byte, then the rest. *)
Lemma segments_cons c s :
  exists r b t, segments (String c s) = (r, b) :: segments t /\
    String c s = b +:+ t /\ seg_ok r b.
Proof.
  cbn -[byte_of valid2 valid3 valid4 rune2 rune3 rune4].
  destruct (_ <? 128)%Z eqn:H1.
  { exists (byte_of c), (String c ""), s. split_and!; [done..|]. apply seg_ok_ascii. lia. }
  assert (exists r b t, (RuneError, String c "") :: segments s = (r, b) :: segments t /\
    String c s = b +:+ t /\ seg_ok r b) as Hbad.
  { exists RuneError, (String c ""), s. split_and!; [done..|]. split_and!; [done..|].
    right. split_and!; [done|cbn; lia|by left]. }
  destruct s as [|c1 s2]; [done|].
  destruct (valid2 _ _) eqn:H2.
  { exists (rune2 (byte_of c) (byte_of c1)), (String c (String c1 "")), s2.
    split_and!; [done..|]. split_and!; [by apply valid_rune2|done|]. right.
    split_and!; [..|right; by rewrite encode_rune2];
      move: H2; rewrite /valid2 /is_cont /rune2 /=; lia. }
  destruct s2 as [|c2 s3]; [done|].
  destruct (valid3 _ _ _) eqn:H3.
  { exists (rune3 (byte_of c) (byte_of c1) (byte_of c2)),
      (String c (String c1 (String c2 ""))), s3.
    split_and!; [done..|]. split_and!; [by apply valid_rune3|done|]. right.
    split_and!; [..|right; by rewrite encode_rune3];
      move: H3; rewrite /valid3 /is_cont /rune3 /=; lia. }
  destruct s3 as [|c3 s4]; [done|].
  destruct (valid4 _ _ _ _) eqn:H4; [|done].
  exists (rune4 (byte_of c) (byte_of c1) (byte_of c2) (byte_of c3)),
    (String c (String c1 (String c2 (String c3 "")))), s4.
  split_and!; [done..|]. split_and!; [by apply valid_rune4|done|]. right.
  split_and!; [..|right; by rewrite encode_rune4];
    move: H4; rewrite /valid4 /is_cont /rune4 /=; lia.
Qed.

Lemma segments_ind (P : string -> list (rune * string) -> Prop) :
  P "" [] ->
  (forall r b t, seg_ok r b -> segments (b +:+ t) = (r, b) :: segments t ->
    P t (segments t) -> P (b +:+ t) ((r, b) :: segments t)) ->
  forall s, P s (segments s).
Proof.
  intros H0 Hs s.
  induction s as [s IH] using (induction_ltof1 _ String.length); rewrite /ltof in IH.
  destruct s as [|c s]; [done|].
  destruct (segments_cons c s) as (r & b & t & E & Et & Hb). rewrite E Et.
  apply Hs; [done|by rewrite -Et|]. apply IH. rewrite Et length_append.
  destruct Hb as (_ & Hb & _), b; [done|]. cbn; lia.
Qed.

Lemma unsegment_segments s : unsegment (segments s) = s.
Proof.
  pattern s, (segments s). apply segments_ind; [done|].
  intros r b t _ _ IH. cbn. by rewrite IH.
Qed.

Lemma unsegment_app l k : unsegment (l ++ k) = unsegment l +:+ unsegment k.
Proof. induction l as [|[r b] l IH]; [done|]. cbn. by rewrite IH append_assoc. Qed.

(** Every segment of a decoded string has at least one byte. *)
Lemma segments_nonempty s r b : (r, b) ∈ segments s -> b <> "".
Proof.
  revert r b. pattern s, (segments s). apply segments_ind.
  - by intros r b ?%elem_of_nil.
  - intros r b t (_ & Hb & _) _ IH r' b' [[= -> ->]|?]%elem_of_cons; eauto.
Qed.

Lemma runes_valid s : Forall (fun r => valid_rune r = true) (runes s).
Proof.
  rewrite /runes. pattern s, (segments s). apply segments_ind; [by constructor|].
  intros r b t [Hr _] _ IH. by constructor.
Qed.

Lemma segments_1 c0 s :
  ((byte_of c0) < 128)%Z -> segments (String c0 s) = ((byte_of c0), String c0 "") :: segments s.
Proof. intros ?. cbn -[byte_of].  by destruct (Z.ltb_spec (byte_of c0) 128); [|lia]. Qed.

Lemma segments_2 c0 c1 s :
  valid2 (byte_of c0) (byte_of c1) = true ->
  segments (String c0 (String c1 s)) = (rune2 (byte_of c0) (byte_of c1), String c0 (String c1 "")) :: segments s.
Proof.
  intros Hv. cbn -[byte_of valid2 valid3 valid4 rune2 rune3 rune4].  rewrite Hv. by destruct (Z.ltb_spec (byte_of c0) 128); [unfold valid2 in Hv; lia|].
Qed.

Lemma segments_3 c0 c1 c2 s :
  valid3 (byte_of c0) (byte_of c1) (byte_of c2) = true ->
  segments (String c0 (String c1 (String c2 s))) =
    (rune3 (byte_of c0) (byte_of c1) (byte_of c2), String c0 (String c1 (String c2 ""))) :: segments s.
Proof.
  intros Hv. cbn -[byte_of valid2 valid3 valid4 rune2 rune3 rune4].  rewrite Hv.
  assert (valid2 (byte_of c0) (byte_of c1) = false) as -> by (unfold valid2, valid3 in *; lia).
  by destruct (Z.ltb_spec (byte_of c0) 128); [unfold valid3 in Hv; lia|].
Qed.

Lemma segments_4 c0 c1 c2 c3 s :
  valid4 (byte_of c0) (byte_of c1) (byte_of c2) (byte_of c3) = true ->
  segments (String c0 (String c1 (String c2 (String c3 s)))) =
    (rune4 (byte_of c0) (byte_of c1) (byte_of c2) (byte_of c3), String c0 (String c1 (String c2 (String c3 "")))) :: segments s.
Proof.
  intros Hv. cbn -[byte_of valid2 valid3 valid4 rune2 rune3 rune4].  rewrite Hv.
  assert (valid2 (byte_of c0) (byte_of c1) = false) as -> by (unfold valid2, valid4 in *; lia).
  assert (valid3 (byte_of c0) (byte_of c1) (byte_of c2) = false) as -> by (unfold valid3, valid4 in *; lia).
  by destruct (Z.ltb_spec (byte_of c0) 128); [unfold valid4 in Hv; lia|].
Qed.

(** Decoding the encoding of a rune gives it back, whatever follows. *)
Lemma segments_encode r s :
  valid_rune r = true -> segments (encode_rune r +:+ s) = (r, encode_rune r) :: segments s.
Proof.
  intros Hr. unfold encode_rune. rewrite Hr. unfold valid_rune in Hr.
  assert (0 <= r <= 1114111)%Z as Hb by lia.
  pose proof (Z.div_mod r 64 ltac:(lia)). pose proof (Z.mod_pos_bound r 64 ltac:(lia)).
  pose proof (Z.div_mod (r / 64) 64 ltac:(lia)).
  pose proof (Z.mod_pos_bound (r / 64) 64 ltac:(lia)).
  pose proof (Z.div_mod (r / 64 / 64) 64 ltac:(lia)).
  pose proof (Z.mod_pos_bound (r / 64 / 64) 64 ltac:(lia)).
  assert (r / 4096 = r / 64 / 64)%Z as E1 by (by rewrite Z.div_div).
  assert (r / 262144 = r / 64 / 64 / 64)%Z as E2 by (by rewrite !Z.div_div).
  rewrite E1 E2. clear E1 E2.
  generalize dependent (r mod 64)%Z. generalize dependent (r / 64 mod 64)%Z.
  generalize dependent (r / 64 / 64 mod 64)%Z. generalize dependent (r / 64 / 64 / 64)%Z.
  generalize dependent (r / 64 / 64)%Z. generalize dependent (r / 64)%Z.
  intros q1 q2 q3 m3 ?? m2 ?? m1 ??.
  destruct (Z.ltb_spec r 128); [|destruct (Z.ltb_spec r 2048); [|destruct (Z.ltb_spec r 65536)]];
    rewrite !append_cons append_empty_l;
    [rewrite segments_1|rewrite segments_2|rewrite segments_3|rewrite segments_4];
    rewrite ?byte_of_of_byte; try (f_equal; f_equal);
    rewrite /valid2 /valid3 /valid4 /is_cont /rune2 /rune3 /rune4; lia.
Qed.

Lemma runes_encode rs s :
  Forall (fun r => valid_rune r = true) rs ->
  runes (string_of_runes rs +:+ s) = rs ++ runes s.
Proof.
  induction 1 as [|r rs Hr _ IH]; [done|].
  cbn [string_of_runes]. rewrite -append_assoc {1}/runes segments_encode // fmap_cons.
  by rewrite -[_.*1]/(runes _) IH.
Qed.

Lemma runes_ascii c s : (byte_of c < 128)%Z -> runes (String c s) = byte_of c :: runes s.
Proof. intros ?. by rewrite /runes segments_1. Qed.

(** ** Lemmas: trimming *)

Lemma drop_space_id l : (forall r b l', l = (r, b) :: l' -> IsSpace r = false) -> drop_space l = l.
Proof. destruct l as [|[r b] l]; [done|]. intros H. cbn. by rewrite (H r b l eq_refl). Qed.

(** A string whose first and last rune are not white space is left alone. *)
Lemma TrimSpace_id s :
  (forall r, head (runes s) = Some r -> IsSpace r = false) ->
  (forall r, last (runes s) = Some r -> IsSpace r = false) ->
  TrimSpace s = s.
Proof.
  intros Hh Hl. rewrite /TrimSpace (drop_space_id (segments s)).
  - intros r b l E. apply Hh. by rewrite /runes E.
  - rewrite drop_space_id; [|by rewrite rev_involutive unsegment_segments].
    intros r b l E. apply Hl. rewrite /runes.
    rewrite -(rev_involutive (segments s)) E /= fmap_app last_app //.
Qed.

(** ** Lemmas: decimal numbers *)

Definition digit_byte (c : ascii) : bool := (48 <=? byte_of c)%Z && (byte_of c <=? 57)%Z.
Fixpoint all_digits (s : string) : bool :=
  match s with EmptyString => true | String c s' => digit_byte c && all_digits s' end.

Lemma pretty_char_digit x :
  (x < 10)%N -> byte_of (pretty_N_char x) = (48 + Z.of_N x)%Z.
Proof.
  intros Hx. assert (x = 0 \/ x = 1 \/ x = 2 \/ x = 3 \/ x = 4 \/ x = 5 \/ x = 6 \/ x = 7 \/
    x = 8 \/ x = 9)%N as Hc by lia.
  by destruct Hc as [->|[->|[->|[->|[->|[->|[->|[->|[->| ->]]]]]]]]].
Qed.

Lemma digits_value_cons acc c s :
  digit_byte c = true -> digits_value acc (String c s) = digits_value (acc * 10 + (byte_of c - 48)) s.
Proof. rewrite /digit_byte => Hc. cbn. by rewrite Hc. Qed.

Lemma pretty_char_is_digit x : (x < 10)%N -> digit_byte (pretty_N_char x) = true.
Proof. intros Hx. rewrite /digit_byte pretty_char_digit //. lia. Qed.

Lemma pretty_go_value x s : digits_value 0 (pretty_N_go x s) = digits_value (Z.of_N x) s.
Proof.
  revert s. induction (N.lt_wf_0 x) as [x _ IH]; intros s.
  destruct (N.eq_0_gt_0_cases x) as [->|Hx]; [done|].
  rewrite pretty_N_go_step // IH; [by apply N.div_lt|].
  pose proof (N.mod_lt x 10 ltac:(done)) as Hm.
  rewrite digits_value_cons; [by apply pretty_char_is_digit|].
  rewrite pretty_char_digit //. pose proof (N.div_mod x 10 ltac:(done)). f_equal. lia.
Qed.

Lemma pretty_go_digits x s :
  all_digits s = true -> all_digits (pretty_N_go x s) = true.
Proof.
  revert s. induction (N.lt_wf_0 x) as [x _ IH]; intros s Hs.
  destruct (N.eq_0_gt_0_cases x) as [->|Hx]; [done|].
  rewrite pretty_N_go_step //. apply IH; [by apply N.div_lt|]. cbn [all_digits].
  rewrite Hs pretty_char_is_digit //. by apply N.mod_lt.
Qed.

Lemma pretty_go_head x s :
  (0 < x)%N -> exists c t, pretty_N_go x s = String c t /\ (48 < byte_of c <= 57)%Z.
Proof.
  revert s. induction (N.lt_wf_0 x) as [x _ IH]; intros s Hx.
  rewrite pretty_N_go_step //. destruct (N.eq_0_gt_0_cases (x `div` 10)) as [E|Hd].
  - rewrite E. eexists _, _. split; [done|].
    assert (x < 10)%N as Hlt by (apply N.div_small_iff in E; [done|done]).
    rewrite N.mod_small // pretty_char_digit //. lia.
  - apply IH; [by apply N.div_lt|done].
Qed.

(** A natural number in decimal: ["0"], or digits of which the first is not
    zero, with its value. *)
Lemma pretty_N_spec n :
  all_digits (pretty n) = true /\ unsigned_value (pretty n) = Some (Z.of_N n) /\
  exists c t, pretty n = String c t /\ digit_byte c = true /\ (byte_of c = 48%Z -> t = "").
Proof.
  unfold pretty, pretty_N. destruct (decide (n = 0)%N) as [->|Hn].
  { split_and!; [done..|]. by exists "0"%char, "". }
  destruct (pretty_go_head n "" ltac:(lia)) as (c & t & E & Hc).
  split_and!; [by apply pretty_go_digits| |].
  - pose proof (pretty_go_value n "") as Hv. rewrite E in Hv |- *. exact Hv.
  - exists c, t. split_and!; [done|rewrite /digit_byte; lia|lia].
Qed.

Lemma Itoa_cases z :
  (0 <= z)%Z /\ Itoa z = pretty (Z.to_N z) \/
  (z < 0)%Z /\ Itoa z = String "-" (pretty (Z.to_N (- z))).
Proof. rewrite /Itoa. destruct z as [|p|p]; [by left|by left|by right]. Qed.

Lemma digit_not_sign c : digit_byte c = true -> c <> "-"%char /\ c <> "+"%char.
Proof. intros Hc. split; intros ->; by vm_compute in Hc. Qed.

(** Printing an integer and parsing it back. *)
(** Reading what [Itoa] printed is checking its range. *)
Lemma ParseInt_Itoa_eq z bits :
  ParseInt (Itoa z) bits =
    (fail_if negb ((- 2 ^ (bits - 1) <=? z)%Z && (z <? 2 ^ (bits - 1))%Z)
     with Errorf "parsing %q: value out of range" [FStr (Itoa z)];; Ok z).
Proof.
  rewrite /ParseInt. destruct (Itoa_cases z) as [[Hs ->]|[Hs ->]].
  - destruct (pretty_N_spec (Z.to_N z)) as (_ & Hv & c & t & E & Hc & _).
    destruct (digit_not_sign _ Hc) as [H1 H2]. rewrite E in Hv |- *.
    rewrite Z2N.id // in Hv.
    destruct c as [b0 b1 b2 b3 b4 b5 b6 b7].
    by destruct b0, b1, b2, b3, b4, b5, b6, b7; try done; rewrite Hv.
  - destruct (pretty_N_spec (Z.to_N (- z))) as (_ & Hv & _). rewrite Hv.
    rewrite Z2N.id ?Z.opp_involutive; [lia|]. done.
Qed.

Lemma ParseInt_Itoa z bits :
  (- 2 ^ (bits - 1) <= z < 2 ^ (bits - 1))%Z -> ParseInt (Itoa z) bits = Ok z.
Proof.
  intros Hz. rewrite ParseInt_Itoa_eq. destruct (negb _) eqn:E; [lia|done].
Qed.

Lemma ParseInt_Itoa_inv z bits v : ParseInt (Itoa z) bits = Ok v -> v = z.
Proof. rewrite ParseInt_Itoa_eq. destruct (negb _); [done|]. by intros [= ->]. Qed.

Lemma ParseInt_range s bits z :
  ParseInt s bits = Ok z -> (- 2 ^ (bits - 1) <= z < 2 ^ (bits - 1))%Z.
Proof.
  rewrite /ParseInt. lazymatch goal with |- (let '(_, _) := ?p in _) = _ -> _ =>
    destruct p as [neg digits] end.
  destruct (unsigned_value digits) as [v|]; [|done].
  destruct (negb _) eqn:Hb; [done|]. intros [= <-]. lia.
Qed.

(** A string built from runes decodes to runes that build it again. *)
Lemma string_of_runes_encoded rs :
  string_of_runes (runes (string_of_runes rs)) = string_of_runes rs.
Proof.
  set (fixed := map (fun r => if valid_rune r then r else RuneError) rs).
  assert (string_of_runes rs = string_of_runes fixed) as ->.
  { unfold fixed. induction rs as [|r rs IH]; [done|]. cbn. rewrite IH. f_equal.
    rewrite /encode_rune. destruct (valid_rune r) eqn:E; by rewrite ?E. }
  pose proof (runes_encode fixed "") as E. rewrite append_nil_r app_nil_r in E. rewrite E //.
  apply Forall_map, Forall_forall. intros r _. by destruct (valid_rune r) eqn:?.
Qed.

(** ** The order of [sort.Strings] *)

Lemma String_le_cons a s b t :
  String.le (String a s) (String b t) <->
  (N_of_ascii a < N_of_ascii b)%N \/ a = b /\ String.le s t.
Proof.
  rewrite /String.le /String.leb. cbn [String.compare]. rewrite /Ascii.compare.
  destruct (N.compare_spec (N_of_ascii a) (N_of_ascii b)) as [E|Hl|Hl].
  - apply (f_equal ascii_of_N) in E. rewrite !ascii_N_embedding in E. subst b.
    split; [by right|]. intros [?|[_ ?]]; [lia|done].
  - split; [by left|done].
  - split; [done|]. intros [?|[-> _]]; lia.
Qed.

#[export] Instance String_le_total : Total String.le.
Proof.
  intros s. induction s as [|a s IH]; intros [|b t]; [by left..|by right|].
  rewrite !String_le_cons. destruct (N.lt_trichotomy (N_of_ascii a) (N_of_ascii b)) as [?|[E|?]];
    [by left; left| |by right; left].
  apply (f_equal ascii_of_N) in E. rewrite !ascii_N_embedding in E. subst b.
  destruct (IH t); [left|right]; by right.
Qed.

#[export] Instance String_le_transitive : Transitive String.le.
Proof.
  intros s. induction s as [|a s IH]; intros [|b t] [|c u]; try done.
  rewrite !String_le_cons. intros [?|[-> Hst]] [?|[-> Htu]].
  - left. lia.
  - by left.
  - by left.
  - right. split; [done|]. by eapply IH.
Qed.

#[export] Instance String_le_antisymm : AntiSymm (=) String.le.
Proof.
  intros s. induction s as [|a s IH]; intros [|b t]; try done.
  rewrite !String_le_cons. intros [?|[-> Hst]] [?|[E Hts]]; try lia; [subst; lia|].
  f_equal. by apply IH.
Qed.

Lemma sort_Strings_perm l : sort_Strings l ≡ₚ l.
Proof. apply merge_sort_Permutation. Qed.

(** Sorting forgets the order and nothing else. *)
Lemma sort_Strings_permutation l k : sort_Strings l = sort_Strings k <-> l ≡ₚ k.
Proof.
  split.
  - intros E. rewrite -(sort_Strings_perm l) E. apply sort_Strings_perm.
  - intros Hp. apply (StronglySorted_unique String.le).
    + apply StronglySorted_merge_sort; apply _.
    + apply StronglySorted_merge_sort; apply _.
    + by rewrite !sort_Strings_perm.
Qed.
