(* ===== verification/TypeSyntax.v ===== *)
(** * C++ type syntax: types/ref.go and types/parser.go

    The recursive-descent parser of declared types, on the runes of the
    input.  The position of [typeParser] is the list of the runes left, so a
    reset of [p.pos] is keeping the old list. *)

From S2P Require Import Prelude GoStrings.

Inductive ReferenceKind := NoReference | LValueReference | RValueReference.

Inductive TypeRef := mkTypeRef {
  tr_Name : string;
  tr_Arguments : list TypeRef;
  tr_Const : bool;
  tr_Reference : ReferenceKind;
  tr_Pointer : bool }.

(** [TypeRef.ValueName] *)
Fixpoint ValueName (t : TypeRef) : string :=
  let '(mkTypeRef name arguments _ _ pointer) := t in
  name +:+
  (match arguments with
   | [] => ""
   | _ => "<" +:+ Join (map ValueName arguments) "," +:+ ">"
   end) +:+
  (if pointer then "*" else "").

(** [TypeRef.CanonicalName] *)
Definition CanonicalName (t : TypeRef) : string := ValueName t.

Definition maxTypeLength : Z := 4096.
Definition maxTypeDepth : nat := 64.

Section Parser.
Context `{UnicodeTables}.

Fixpoint skipSpace (p : list rune) : list rune :=
  match p with r :: p' => if IsSpace r then skipSpace p' else p | [] => [] end.

Definition consumeByte (value : rune) (p : list rune) : option (list rune) :=
  match p with r :: p' => if (r =? value)%Z then Some p' else None | [] => None end.

Fixpoint consumeRunes (value : list rune) (p : list rune) : option (list rune) :=
  match value, p with
  | [], _ => Some p
  | v :: value', r :: p' => if (r =? v)%Z then consumeRunes value' p' else None
  | _, [] => None
  end.

Definition consumeString (value : string) : list rune -> option (list rune) :=
  consumeRunes (runes value).

Definition consumeWord (word : string) (p : list rune) : option (list rune) :=
  match consumeString word p with
  | Some (next :: p') => if is_word next then None else Some (next :: p')
  | other => other
  end.

(** The runes of a name and what follows them. *)
Fixpoint span_word (p : list rune) : list rune * list rune :=
  match p with
  | r :: p' => if is_word r then let '(w, q) := span_word p' in (r :: w, q) else ([], p)
  | [] => ([], [])
  end.

Definition parseName (p : list rune) : result (string * list rune) :=
  let p := skipSpace p in
  match span_word p with
  | ([], _) => Err (Errorf "expected type name at %q" [FStr (string_of_runes p)])
  | (w, q) => Ok (string_of_runes w, q)
  end.

(** [if p.consumeWord("const") { ref.Const = true; p.skipSpace() }] *)
Definition parse_const (p : list rune) : bool * list rune :=
  match consumeWord "const" p with Some p' => (true, skipSpace p') | None => (false, p) end.

(** [parseType] up to the name: the leading [const], [std::], [long long]. *)
Definition parse_head (p : list rune) : result (bool * string * list rune) :=
  let '(const, p) := parse_const (skipSpace p) in
  '(name, p) ← parseName p;
  '(name, p) ←
    (if bool_decide (name = "std") then
       match consumeString "::" (skipSpace p) with
       | None => Err (Errorf "expected :: after std" [])
       | Some p' => parseName p'
       end
     else Ok (name, p));
  Ok (if bool_decide (name = "long") then
        match consumeWord "long" (skipSpace p) with
        | Some p' => (const, "long long", p')
        | None => (const, name, skipSpace p)
        end
      else (const, name, p)).

(** [parseType] after the arguments: the trailing [const], [&&], [&], [*]. *)
Definition parse_tail (p : list rune) : bool * ReferenceKind * bool * list rune :=
  let '(const, p) := parse_const (skipSpace p) in
  match consumeString "&&" p with
  | Some p' => (const, RValueReference, false, p')
  | None =>
      match consumeByte 38%Z p with
      | Some p' => (const, LValueReference, false, p')
      | None =>
          match consumeByte 42%Z p with
          | Some p' => (const, NoReference, true, p')
          | None => (const, NoReference, false, p)
          end
      end
  end.

Definition too_deep : goerr :=
  Errorf "type exceeds maximum template nesting depth of %d" [FInt (Z.of_nat maxTypeDepth)].
Definition parser_fuel : goerr := LibErr "parseType loop".

(** The argument loop of [parseType], after the [<].  Each turn consumes at
    least the rune that ends it: the number of runes left bounds the turns. *)
Fixpoint parse_args (parse : list rune -> result (TypeRef * list rune)) (fuel : nat)
    (ref : list TypeRef -> TypeRef) (args : list TypeRef) (p : list rune)
    : result (list TypeRef * list rune) :=
  match fuel with
  | O => Err parser_fuel
  | S fuel' =>
      '(argument, p) ← parse p;
      let args := args ++ [argument] in
      let p := skipSpace p in
      match consumeByte 62%Z p with
      | Some p' => Ok (args, p')
      | None =>
          match consumeByte 44%Z p with
          | Some p' => parse_args parse fuel' ref args p'
          | None => Err (Errorf "expected , or > in %s" [FStr (ValueName (ref args))])
          end
      end
  end.

(** [parseType(depth)], by the number [levels] of depths still allowed:
    [depth = maxTypeDepth + 1 - levels]. *)
Fixpoint parseType (levels : nat) (p : list rune) : result (TypeRef * list rune) :=
  match levels with
  | O => Err too_deep
  | S levels' =>
      '(const, name, p) ← parse_head p;
      let p := skipSpace p in
      '(args, p) ←
        match consumeByte 60%Z p with
        | None => Ok ([], p)
        | Some p' =>
            match levels' with
            | O => Err too_deep
            | _ => parse_args (parseType levels') (S (length p'))
                     (fun args => mkTypeRef name args const NoReference false) [] p'
            end
        end;
      let '(const', reference, pointer, p) := parse_tail p in
      Ok (mkTypeRef name args (const || const') reference pointer, p)
  end.

Definition Parse (declaredType : string) : result TypeRef :=
  fail_if (maxTypeLength <? Z.of_nat (String.length declaredType))%Z
  with Errorf "type exceeds maximum length of %d bytes" [FInt maxTypeLength];;
  let input := runes (TrimSpace declaredType) in
  fail_if bool_decide (input = []) with Errorf "type is empty" [];;
  '(ref, p) ← parseType (S maxTypeDepth) input;
  let p := skipSpace p in
  fail_if negb (bool_decide (p = []))
  with Errorf "unexpected type suffix %q" [FStr (string_of_runes p)];;
  Ok ref.

(** [Normalize] of registry.go. *)
Definition Normalize (declaredType : string) : string :=
  match Parse declaredType with
  | Err _ => declaredType
  | Ok ref => CanonicalName ref
  end.
End Parser.

(** ** What the parser promises *)

(** A reference without the qualifiers that [ValueName] omits. *)
Fixpoint strip (t : TypeRef) : TypeRef :=
  let '(mkTypeRef name arguments _ _ pointer) := t in
  mkTypeRef name (map strip arguments) false NoReference pointer.

(** Levels of template nesting. *)
Fixpoint type_depth (t : TypeRef) : nat :=
  match tr_Arguments t with
  | [] => 0
  | args => S (list_max (map type_depth args))
  end.

Lemma TypeRef_ind' (P : TypeRef -> Prop) :
  (forall name args const ref ptr,
    Forall P args -> P (mkTypeRef name args const ref ptr)) ->
  forall t, P t.
Proof.
  intros Hs. fix IH 1. intros [name args const ref ptr]. apply Hs.
  induction args as [|t args IHargs]; constructor; [apply IH|apply IHargs].
Qed.

(** ** The parser consumes its input: the loop bound is never reached *)

Section Termination.
Context `{UnicodeTables}.

(** A parsing step leaves a suffix, a name or a type a strict one. *)
Definition shorter (p q : list rune) : Prop := suffix q p /\ (length q < length p)%nat.

Lemma shorter_l p q r : suffix q p -> shorter q r -> shorter p r.
Proof.
  intros Hs [Hr Hl]. split; [by etrans|]. apply suffix_length in Hs. lia.
Qed.
Lemma shorter_r p q r : shorter p q -> suffix r q -> shorter p r.
Proof.
  intros [Hr Hl] Hs. split; [by etrans|]. apply suffix_length in Hs. lia.
Qed.
Lemma shorter_suffix p q : shorter p q -> suffix q p.
Proof. by intros []. Qed.

Lemma skipSpace_suffix p : suffix (skipSpace p) p.
Proof. induction p as [|r p IH]; [done|]. cbn. destruct (IsSpace r); [|done]. by apply suffix_cons_r. Qed.

Lemma consumeRunes_app v p q : consumeRunes v p = Some q <-> p = v ++ q.
Proof.
  revert p. induction v as [|r v IH]; intros [|x p]; cbn; try (by split; intros; simplify_eq).
  destruct (Z.eqb_spec x r) as [->|]; [rewrite IH|]; split; intros; simplify_eq/=; done.
Qed.

Lemma consumeRunes_suffix v p q : consumeRunes v p = Some q -> suffix q p.
Proof. intros ->%consumeRunes_app. by apply suffix_app_r. Qed.

Lemma consumeWord_suffix w p q : consumeWord w p = Some q -> suffix q p.
Proof.
  rewrite /consumeWord /consumeString. destruct (consumeRunes _ p) as [[|r q']|] eqn:E;
    [| |done]; apply consumeRunes_suffix in E.
  - by intros [= <-].
  - destruct (is_word r); [done|]. by intros [= <-].
Qed.

Lemma consumeByte_shorter b p q : consumeByte b p = Some q -> shorter p q.
Proof.
  destruct p as [|r p]; [done|]. cbn. destruct (_ =? _)%Z; [|done]. intros [= <-].
  split; [by apply suffix_cons_r|cbn; lia].
Qed.

Lemma span_word_app p w q :
  span_word p = (w, q) -> p = w ++ q /\ Forall (fun r => is_word r = true) w.
Proof.
  revert w q. induction p as [|r p IH]; cbn; intros w q; [by intros [= <- <-]|].
  destruct (is_word r) eqn:Hr; [|by intros [= <- <-]].
  destruct (span_word p) as [w' q'] eqn:E. intros [= <- <-].
  destruct (IH _ _ eq_refl) as [-> ?]. split; [done|]. by constructor.
Qed.

(** What a name is: some word runes, re-encoded. *)
Lemma parseName_Ok p name q :
  parseName p = Ok (name, q) ->
  exists w, w <> [] /\ skipSpace p = w ++ q /\ name = string_of_runes w /\
    Forall (fun r => is_word r = true) w.
Proof.
  rewrite /parseName. destruct (span_word _) as [[|r w] q'] eqn:E; [done|].
  intros [= <- <-]. apply span_word_app in E as [-> ?]. by exists (r :: w).
Qed.

Lemma parseName_shorter p name q : parseName p = Ok (name, q) -> shorter p q.
Proof.
  intros (w & Hw & E & _)%parseName_Ok. apply shorter_l with (skipSpace p).
  - apply skipSpace_suffix.
  - rewrite E. split; [by apply suffix_app_r|]. destruct w; [done|].
    rewrite length_app /=. lia.
Qed.

Lemma parse_const_suffix p c q : parse_const p = (c, q) -> suffix q p.
Proof.
  rewrite /parse_const. destruct (consumeWord _ _) as [p'|] eqn:E; intros [= <- <-]; [|done].
  etrans; [apply skipSpace_suffix|by eapply consumeWord_suffix].
Qed.

Lemma parse_tail_suffix p c r ptr q : parse_tail p = (c, r, ptr, q) -> suffix q p.
Proof.
  rewrite /parse_tail. destruct (parse_const _) as [c1 p1] eqn:E1.
  apply parse_const_suffix in E1.
  assert (suffix p1 p) by (etrans; [exact E1|apply skipSpace_suffix]).
  destruct (consumeString _ p1) eqn:E2; [|destruct (consumeByte 38%Z p1) eqn:E3;
    [|destruct (consumeByte 42%Z p1) eqn:E4]]; intros; simplify_eq.
  - etrans; [by eapply consumeRunes_suffix|done].
  - etrans; [by eapply shorter_suffix, consumeByte_shorter|done].
  - etrans; [by eapply shorter_suffix, consumeByte_shorter|done].
  - done.
Qed.

(** The names that [parse_head] returns. *)
Definition name_wf (name : string) : Prop :=
  name = "long long" \/
  string_of_runes (runes name) = name /\ runes name <> [] /\
  Forall (fun r => is_word r = true) (runes name).

Definition valid_runes (p : list rune) : Prop := Forall (fun r => valid_rune r = true) p.

Lemma valid_runes_suffix p q : valid_runes p -> suffix q p -> valid_runes q.
Proof.
  rewrite /valid_runes. intros Hp [k ->]. by apply Forall_app in Hp as [_ Hq].
Qed.

Lemma parseName_wf p name q : valid_runes p -> parseName p = Ok (name, q) -> name_wf name.
Proof.
  intros Hp (w & Hw & E & -> & Hall)%parseName_Ok. right.
  assert (valid_runes w) as Hv.
  { eapply valid_runes_suffix in Hp; [|apply skipSpace_suffix].
    rewrite E in Hp. by apply Forall_app in Hp as [? _]. }
  pose proof (runes_encode w "" Hv) as Er. rewrite append_nil_r app_nil_r in Er.
  by rewrite Er.
Qed.

Lemma parse_head_spec p const name q :
  parse_head p = Ok (const, name, q) ->
  shorter p q /\ (valid_runes p -> name_wf name).
Proof.
  rewrite /parse_head. destruct (parse_const _) as [c1 p1] eqn:E1.
  apply parse_const_suffix in E1.
  assert (suffix p1 p) as Hs1 by (etrans; [exact E1|apply skipSpace_suffix]).
  destruct (parseName p1) as [[n1 p2]|] eqn:E2; cbn [mbind result_bind]; [|done].
  destruct (if bool_decide (n1 = "std") then _ else _) as [[n2 p3]|] eqn:E3;
    cbn [mbind result_bind]; [|done].
  assert (shorter p p3 /\ (valid_runes p -> name_wf n2)) as [Hp3 Hn2].
  { pose proof (parseName_shorter _ _ _ E2) as Hs2.
    case_bool_decide; [|simplify_eq; split; [by eapply shorter_l|]].
    - destruct (consumeString _ _) as [p4|] eqn:E4; [|done].
      assert (suffix p4 p1) as Hs4.
      { etrans; [by eapply consumeRunes_suffix|]. etrans; [apply skipSpace_suffix|].
        by apply shorter_suffix. }
      split; [eapply shorter_l; [by etrans|by eapply parseName_shorter]|].
      intros Hp. eapply parseName_wf, E3. eapply valid_runes_suffix; [exact Hp|by etrans].
    - intros Hp. eapply parseName_wf, E2. by eapply valid_runes_suffix. }
  clear E3.
  case_bool_decide; [destruct (consumeWord "long" _) eqn:E5|]; intros; simplify_eq.
  - split; [|by intros _; left]. eapply shorter_r; [exact Hp3|].
    etrans; [by eapply consumeWord_suffix|apply skipSpace_suffix].
  - split; [|done]. eapply shorter_r; [exact Hp3|apply skipSpace_suffix].
  - done.
Qed.

(** All the names of a reference. *)
Fixpoint type_names (t : TypeRef) : list string :=
  tr_Name t :: flat_map type_names (tr_Arguments t).

Definition type_wf (t : TypeRef) : Prop := Forall name_wf (type_names t).

Lemma type_wf_intro name args const ref ptr :
  name_wf name -> Forall type_wf args -> type_wf (mkTypeRef name args const ref ptr).
Proof.
  intros Hn Ha. constructor; [done|].
  induction Ha; cbn; [constructor|]. by apply Forall_app.
Qed.

Lemma type_wf_name t : type_wf t -> name_wf (tr_Name t).
Proof. destruct t. by intros [? _]%Forall_cons. Qed.

Lemma type_wf_args t : type_wf t -> Forall type_wf (tr_Arguments t).
Proof.
  destruct t as [name args const ref ptr]. intros [_ Ha]%Forall_cons. revert Ha. cbn.
  induction args as [|a args IH]; constructor; cbn in Ha; apply Forall_app in Ha as [??]; auto.
Qed.

(** What one parser call promises: the bound of the argument loop is not the
    reason it fails; what it returns is shorter, nested at most that deep and
    made of names. *)
Definition parse_spec (levels : nat) (p : list rune) (r : result (TypeRef * list rune)) : Prop :=
  match r with
  | Err e => e <> parser_fuel
  | Ok (t, q) => shorter p q /\ (type_depth t < levels)%nat /\ (valid_runes p -> type_wf t)
  end.

Lemma parse_args_spec levels parse fuel ref args p :
  (forall p, parse_spec levels p (parse p)) ->
  (length p < fuel)%nat ->
  match parse_args parse fuel ref args p with
  | Err e => e <> parser_fuel
  | Ok (args', q) => exists new, args' = args ++ new /\ new <> [] /\ shorter p q /\
      Forall (fun t => type_depth t < levels)%nat new /\
      (valid_runes p -> Forall type_wf new)
  end.
Proof.
  intros Hparse. revert args p. induction fuel as [|fuel IH]; intros args p Hf; [lia|].
  cbn [parse_args]. specialize (Hparse p) as Hp.
  destruct (parse p) as [[t q]|e]; cbn [mbind result_bind]; [|exact Hp].
  destruct Hp as (Hs & Hd & Hw).
  pose proof (shorter_r _ _ _ Hs (skipSpace_suffix q)) as Hs1.
  destruct (consumeByte 62%Z _) as [p1|] eqn:E1.
  { apply consumeByte_shorter in E1. exists [t].
    split; [done|]. split; [done|]. split; [|by repeat constructor; auto].
    eapply shorter_l, E1. by apply shorter_suffix. }
  destruct (consumeByte 44%Z _) as [p2|] eqn:E2; [|done].
  apply consumeByte_shorter in E2.
  assert (shorter p p2) as Hs2 by (eapply shorter_l, E2; by apply shorter_suffix).
  specialize (IH (args ++ [t]) p2). destruct (parse_args _ _ _ _ _) as [[args' q']|e].
  - destruct IH as (new & -> & _ & Hs' & Hd' & Hw'); [destruct Hs2; lia|].
    exists (t :: new). rewrite -app_assoc. split; [done|]. split; [done|].
    split; [by eapply shorter_l, Hs'; apply shorter_suffix|]. split; [by constructor|].
    intros Hv. constructor; [by apply Hw|]. apply Hw'.
    eapply valid_runes_suffix; [exact Hv|]. by apply shorter_suffix.
  - apply IH. destruct Hs2. lia.
Qed.

Lemma parse_head_fuel p : parse_head p <> Err parser_fuel.
Proof.
  rewrite /parse_head /parseName.
  destruct (parse_const _) as [c p1].
  destruct (span_word (skipSpace p1)) as [[|] q1]; cbn [mbind result_bind]; [done|].
  destruct (bool_decide _); cbn [mbind result_bind]; [|by destruct (bool_decide _)].
  destruct (consumeString _ _) as [p2|]; cbn [mbind result_bind]; [|done].
  destruct (span_word (skipSpace p2)) as [[|] q2]; cbn [mbind result_bind]; [done|].
  by destruct (bool_decide _).
Qed.

Lemma parseType_spec levels p : parse_spec levels p (parseType levels p).
Proof.
  revert p. induction levels as [|levels IH]; intros p; [done|].
  cbn [parseType]. pose proof (parse_head_fuel p) as Hfuel.
  destruct (parse_head p) as [[[const name] p1]|e] eqn:E1; cbn [mbind result_bind];
    [|by intros ->].
  apply parse_head_spec in E1 as [Hs1 Hn].
  pose proof (shorter_r _ _ _ Hs1 (skipSpace_suffix p1)) as Hs2.
  destruct (match consumeByte 60%Z (skipSpace p1) with None => _ | Some p' => _ end)
    as [[args p3]|e] eqn:E2; cbn [mbind result_bind].
  - assert (suffix p3 (skipSpace p1) /\
      Forall (fun t => type_depth t < levels)%nat args /\ (valid_runes p -> Forall type_wf args))
      as (Hs3 & Hd & Hw).
    { destruct (consumeByte _ _) as [p2|] eqn:E3; [|simplify_eq; auto].
      apply consumeByte_shorter, shorter_suffix in E3.
      destruct levels as [|levels]; [done|].
      pose proof (parse_args_spec (S levels) (parseType (S levels)) (S (length p2))
        (fun args => mkTypeRef name args const NoReference false) [] p2 IH ltac:(lia)) as Ha.
      rewrite E2 in Ha. destruct Ha as (new & -> & _ & Hs & Hd & Hw).
      split; [by etrans; [apply shorter_suffix|]|]. split; [done|].
      intros Hv. apply Hw. eapply valid_runes_suffix; [exact Hv|].
      etrans; [done|by apply shorter_suffix]. }
    destruct (parse_tail p3) as [[[c r] ptr] q] eqn:E4. apply parse_tail_suffix in E4.
    split; [by eapply shorter_r; [|etrans]|]. split.
    + destruct args as [|a args]; [cbn; lia|].
      assert (list_max (map type_depth (a :: args)) < levels)%nat; [|cbn in *; lia].
      apply list_max_lt; [done|]. by apply Forall_map.
    + intros Hv. apply type_wf_intro; auto.
  - destruct (consumeByte _ _) as [p2|] eqn:E3; [|done].
    destruct levels as [|levels]; [by simplify_eq|].
    pose proof (parse_args_spec (S levels) (parseType (S levels)) (S (length p2))
      (fun args => mkTypeRef name args const NoReference false) [] p2 IH ltac:(lia)) as Ha.
    by rewrite E2 in Ha.
Qed.
End Termination.

(** ** Parsing what [ValueName] prints *)

Section RoundTrip.
Context `{UnicodeTables}.

(** Names that the parser reads as a keyword. *)
Definition reserved (name : string) : bool := bool_decide (name ∈ ["const"; "std"]).
Definition reserved_free (t : TypeRef) : bool := negb (existsb reserved (type_names t)).

(** The runes that can follow a name, and a whole type, in printed text. *)
Definition stop (p : list rune) : Prop :=
  match p with [] => True | r :: _ => r ∈ [44; 62; 60; 42]%Z end.
Definition delim (p : list rune) : Prop :=
  match p with [] => True | r :: _ => r ∈ [44; 62]%Z end.

Lemma delim_stop p : delim p -> stop p.
Proof. destruct p; [done|]. cbn. rewrite !elem_of_cons. tauto. Qed.

Lemma stop_head r p : stop (r :: p) -> IsSpace r = false /\ is_word r = false.
Proof. cbn. rewrite !elem_of_cons elem_of_nil. by intros [->|[->|[->|[->|[]]]]]. Qed.

Lemma stop_skip p : stop p -> skipSpace p = p.
Proof. destruct p as [|r p]; [done|]. intros [Hr _]%stop_head. cbn. by rewrite Hr. Qed.

Lemma word_not_space r : is_word r = true -> IsSpace r = false.
Proof. intros Hr. destruct (IsSpace r) eqn:E; [|done]. by rewrite space_not_word in Hr. Qed.

Lemma word_skip w p : w <> [] -> Forall (fun r => is_word r = true) w ->
  skipSpace (w ++ p) = w ++ p.
Proof. destruct 2 as [|r w Hr]; [done|]. cbn. by rewrite word_not_space. Qed.

Lemma span_word_stop w p :
  Forall (fun r => is_word r = true) w -> stop p -> span_word (w ++ p) = (w, p).
Proof.
  intros Hw Hp. induction Hw as [|r w Hr _ IH]; cbn.
  - destruct p as [|r p]; [done|]. cbn. by apply stop_head in Hp as [_ ->].
  - by rewrite Hr IH.
Qed.

Lemma parseName_stop w p :
  w <> [] -> Forall (fun r => is_word r = true) w -> stop p ->
  parseName (w ++ p) = Ok (string_of_runes w, p).
Proof.
  intros Hne Hw Hp. rewrite /parseName word_skip // span_word_stop //. by destruct w.
Qed.

(** Two words followed by text that cannot continue them. *)
Lemma consumeWord_stop word w p :
  Forall (fun r => is_word r = true) (runes word) ->
  Forall (fun r => is_word r = true) w -> stop p ->
  consumeWord word (w ++ p) = if bool_decide (runes word = w) then Some p else None.
Proof.
  intros Hv Hw Hp. rewrite /consumeWord /consumeString.
  generalize dependent (runes word). intros v Hv. revert w Hw.
  induction Hv as [|r v Hr _ IH]; intros w Hw.
  - destruct Hw as [|x w Hx Hw]; cbn; [|by rewrite Hx].
    destruct p as [|x p]; [done|]. by apply stop_head in Hp as [_ ->].
  - destruct Hw as [|x w Hx Hw]; cbn.
    + destruct p as [|x p]; [done|]. destruct (Z.eqb_spec x r) as [->|]; [|done].
      apply stop_head in Hp as [_ ?]. congruence.
    + destruct (Z.eqb_spec x r) as [->|].
      * rewrite IH //. repeat case_bool_decide; congruence.
      * case_bool_decide; congruence.
Qed.

Lemma consumeString_colons p : stop p -> consumeString "::" p = None.
Proof.
  destruct p as [|r p]; [done|]. cbn. rewrite !elem_of_cons elem_of_nil.
  by intros [->|[->|[->|[->|[]]]]].
Qed.

(** A printed name is read back, unless it is reserved. *)
Lemma parse_head_name name p :
  name_wf name -> stop p ->
  reserved name = false /\ parse_head (runes name ++ p) = Ok (false, name, p) \/
  reserved name = true /\ exists e, parse_head (runes name ++ p) = Err e.
Proof.
  intros [->|(Henc & Hne & Hw)] Hp.
  { left. split; [done|]. rewrite /parse_head /=.
    assert (Forall (fun r => is_word r = true) (runes "long")) as Hl by (by repeat constructor).
    pose proof (consumeWord_stop "long" (runes "long") p Hl Hl Hp) as E.
    rewrite bool_decide_eq_true_2 // in E. cbn in E. by rewrite E. }
  rewrite /parse_head word_skip // /parse_const consumeWord_stop //; [by repeat constructor|].
  case_bool_decide as Hconst.
  { right. assert (name = "const") as -> by (rewrite -Henc -Hconst //). split; [done|].
    rewrite stop_skip //. rewrite /parseName stop_skip //.
    assert (span_word p = ([], p)) as ->; [exact (span_word_stop [] p ltac:(constructor) Hp)|].
    eexists. done. }
  rewrite parseName_stop //= Henc. case_bool_decide as Hstd.
  { right. split; [by rewrite Hstd|]. rewrite stop_skip // consumeString_colons //. by eexists. }
  left. split.
  { apply bool_decide_eq_false. intros [->|[->|[]%elem_of_nil]%elem_of_cons]%elem_of_cons; done. }
  cbn. rewrite stop_skip //.
  rewrite -{1}[p]app_nil_l (consumeWord_stop "long" [] p) //; [by repeat constructor|].
  by case_bool_decide.
Qed.

Lemma parse_tail_delim (ptr : bool) p :
  delim p ->
  parse_tail ((if ptr then [42%Z] else []) ++ p) = (false, NoReference, ptr, p).
Proof.
  intros Hp. rewrite /parse_tail.
  assert (stop ((if ptr then [42%Z] else []) ++ p)) as Hs.
  { destruct ptr; [|by apply delim_stop]. by repeat constructor. }
  rewrite stop_skip // /parse_const -[x in consumeWord _ x]app_nil_l consumeWord_stop //;
    [by repeat constructor|].
  destruct ptr; [done|]. cbn.
  destruct p as [|r p]; [done|]. cbn in Hp. rewrite !elem_of_cons elem_of_nil in Hp.
  by destruct Hp as [->|[->|[]]].
Qed.

(** *** The runes of the printed text *)

Definition encoded (s : string) : Prop := string_of_runes (runes s) = s.

Lemma runes_append s t : encoded s -> runes (s +:+ t) = runes s ++ runes t.
Proof. intros Hs. rewrite -{1}Hs. apply runes_encode, runes_valid. Qed.

Lemma string_of_runes_app rs qs :
  string_of_runes (rs ++ qs) = string_of_runes rs +:+ string_of_runes qs.
Proof. induction rs as [|r rs IH]; [done|]. cbn. by rewrite IH append_assoc. Qed.

Lemma encoded_append s t : encoded s -> encoded t -> encoded (s +:+ t).
Proof.
  intros Hs Ht. by rewrite /encoded runes_append // string_of_runes_app Hs Ht.
Qed.

Lemma name_wf_encoded name : name_wf name -> encoded name.
Proof. by intros [->|[? _]]. Qed.

(** [Join] on runes. *)
Fixpoint sep_runes (ls : list (list rune)) : list rune :=
  match ls with
  | [] => []
  | [x] => x
  | x :: ls' => x ++ 44%Z :: sep_runes ls'
  end.

Lemma runes_Join l :
  Forall encoded l ->
  encoded (Join l ",") /\ runes (Join l ",") = sep_runes (map runes l).
Proof.
  induction 1 as [|s l Hs Hl [IHe IHr]]; [done|].
  destruct l as [|t l]; [done|].
  change (Join (s :: t :: l) ",") with (s +:+ "," +:+ Join (t :: l) ",").
  change (sep_runes (map runes (s :: t :: l)))
    with (runes s ++ 44%Z :: sep_runes (map runes (t :: l))).
  split; [by repeat apply encoded_append|]. by rewrite !runes_append // IHr.
Qed.

Definition args_runes (args : list TypeRef) : list rune :=
  match args with
  | [] => []
  | _ => 60%Z :: sep_runes (map (fun t => runes (ValueName t)) args) ++ [62%Z]
  end.

Lemma runes_ValueName t :
  type_wf t ->
  encoded (ValueName t) /\
  runes (ValueName t) = runes (tr_Name t) ++ args_runes (tr_Arguments t) ++
    (if tr_Pointer t then [42%Z] else []).
Proof.
  induction t as [name args const ref ptr IH] using TypeRef_ind'. intros Hwf.
  pose proof (type_wf_args _ Hwf) as Hargs. apply Forall_cons in Hwf as [Hn _].
  apply name_wf_encoded in Hn.
  cbn [tr_Arguments tr_Name tr_Pointer] in Hargs, Hn |- *.
  assert (Forall encoded (map ValueName args)) as Henc.
  { apply Forall_map. apply Forall_forall. intros t Ht. rewrite Forall_forall in IH.
    rewrite Forall_forall in Hargs. by apply IH; [|apply Hargs]. }
  destruct (runes_Join _ Henc) as [Hje Hjr].
  set (mid := match args with [] => "" | _ => "<" +:+ Join (map ValueName args) "," +:+ ">" end).
  change (ValueName _) with (name +:+ mid +:+ (if ptr then "*" else "")).
  assert (encoded mid /\ runes mid = args_runes args) as [Hme Hmr].
  { unfold mid. destruct args as [|a args]; [done|].
    split; [by repeat apply encoded_append|].
    rewrite !runes_append // Hjr map_map /=. done. }
  assert (encoded (if ptr then "*" else "")) as Hp by (by destruct ptr).
  split; [by repeat apply encoded_append|].
  rewrite !runes_append // Hmr. by destruct ptr.
Qed.

Lemma reserved_free_args name args const ref ptr :
  reserved_free (mkTypeRef name args const ref ptr) =
    negb (reserved name) && forallb reserved_free args.
Proof.
  rewrite /reserved_free /= negb_orb. f_equal.
  induction args as [|a args IH]; [done|]. cbn [flat_map forallb].
  by rewrite existsb_app negb_orb IH.
Qed.

(** The outcome of reading one printed type. *)
Definition reads (t : TypeRef) (rest : list rune) (r : result (TypeRef * list rune)) : Prop :=
  if reserved_free t then r = Ok (strip t, rest) else exists e, r = Err e.

Lemma parse_args_reads parse ref rest fuel acc a args :
  Forall (fun t => forall rest, delim rest ->
    reads t rest (parse (runes (ValueName t) ++ rest))) (a :: args) ->
  (length args < fuel)%nat ->
  let text := sep_runes (map (fun t => runes (ValueName t)) (a :: args)) ++ 62%Z :: rest in
  if forallb reserved_free (a :: args)
  then parse_args parse fuel ref acc text = Ok (acc ++ map strip (a :: args), rest)
  else exists e, parse_args parse fuel ref acc text = Err e.
Proof.
  revert acc a fuel. induction args as [|b args IH]; intros acc a fuel Hall Hf text;
    (destruct fuel as [|fuel]; [cbn in Hf; lia|]); apply Forall_cons in Hall as [Ha Hall];
    unfold text; cbn [map].
  - cbn. rewrite andb_true_r.
    assert (delim (62%Z :: rest)) as Hd by (by repeat constructor).
    specialize (Ha _ Hd). rewrite /reads in Ha.
    destruct (reserved_free a); [by rewrite Ha|destruct Ha as [e ->]; by eexists].
  - set (more := sep_runes (map (fun t => runes (ValueName t)) (b :: args)) ++ 62%Z :: rest).
    assert (delim (44%Z :: more)) as Hd by (by repeat constructor).
    specialize (Ha _ Hd). rewrite /reads in Ha.
    replace (sep_runes _ ++ 62%Z :: rest) with (runes (ValueName a) ++ 44%Z :: more)
      by (by rewrite -app_assoc).
    specialize (IH (acc ++ [strip a]) b fuel Hall ltac:(cbn in Hf; lia)). fold more in IH.
    cbn [forallb parse_args] in IH |- *.
    destruct (reserved_free a); [rewrite Ha|destruct Ha as [e ->]; by eexists].
    cbn [mbind result_bind skipSpace consumeByte IsSpace Z.eqb Pos.eqb].
    cbn -[parse_args more map]. rewrite -app_assoc in IH. exact IH.
Qed.

Lemma sep_runes_length l : l <> [] -> (length l <= S (length (sep_runes l)))%nat.
Proof.
  induction l as [|x l IH]; [done|]. intros _. destruct l as [|y l]; [cbn; lia|].
  specialize (IH ltac:(done)). change (sep_runes (x :: y :: l)) with (x ++ 44%Z :: sep_runes (y :: l)).
  rewrite length_app. cbn [length] in IH |- *. lia.
Qed.

Lemma parseType_reads levels t rest :
  type_wf t -> (type_depth t < levels)%nat -> delim rest ->
  reads t rest (parseType levels (runes (ValueName t) ++ rest)).
Proof.
  revert t rest. induction levels as [|levels IH]; intros t rest Hwf Hd Hr; [lia|].
  destruct t as [name args const ref ptr]. destruct (runes_ValueName _ Hwf) as [_ ->].
  pose proof (type_wf_args _ Hwf) as Hargs. apply Forall_cons in Hwf as [Hn _].
  cbn [tr_Arguments tr_Name tr_Pointer] in Hargs, Hn |- *.
  rewrite /reads reserved_free_args -!app_assoc. cbn [parseType].
  set (tail := (if ptr then [42%Z] else []) ++ rest).
  assert (stop (args_runes args ++ tail)) as Hs.
  { destruct args; [|by repeat constructor]. unfold tail.
    destruct ptr; [by repeat constructor|by apply delim_stop]. }
  destruct (parse_head_name name _ Hn Hs) as [[-> E]|[-> [e E]]]; rewrite E; [|by eexists].
  cbn [mbind result_bind negb andb]. rewrite stop_skip //.
  destruct args as [|a args].
  - cbn [args_runes app forallb]. assert (consumeByte 60%Z tail = None) as ->.
    { unfold tail. destruct ptr; [done|]. destruct rest as [|r rest]; [done|].
      cbn in Hr. rewrite !elem_of_cons elem_of_nil in Hr. by destruct Hr as [->|[->|[]]]. }
    cbn [mbind result_bind]. by rewrite /tail parse_tail_delim.
  - cbn [args_runes app consumeByte]. rewrite Z.eqb_refl -app_assoc.
    change ([62%Z] ++ tail) with (62%Z :: tail).
    set (texts := map (fun t => runes (ValueName t)) (a :: args)).
    assert (Forall (fun t => type_depth t < levels)%nat (a :: args)) as Hdep.
    { apply (Forall_map type_depth (fun k => k < levels)%nat), list_max_lt; [done|]. cbn in Hd |- *. lia. }
    destruct levels as [|levels]; [by apply Forall_cons in Hdep as [? _]; lia|].
    pose proof (parse_args_reads (parseType (S levels))
      (fun args => mkTypeRef name args false NoReference false) tail
      (S (length (sep_runes texts ++ 62%Z :: tail))) [] a args) as Hread.
    fold texts in Hread. cbv zeta in Hread.
    assert (length args < S (length (sep_runes texts ++ 62%Z :: tail)))%nat as Hfuel.
    { pose proof (sep_runes_length texts ltac:(done)) as Hlen. unfold texts in Hlen at 1.
      rewrite length_map in Hlen. rewrite length_app. cbn [length] in Hlen |- *. lia. }
    rewrite Forall_forall in Hargs. rewrite Forall_forall in Hdep.
    specialize (Hread ltac:(apply Forall_forall; intros t Ht rest' Hr'; apply IH; auto) Hfuel).
    destruct (forallb reserved_free (a :: args)); [rewrite Hread|destruct Hread as [e ->]; by eexists].
    cbn [mbind result_bind]. by rewrite /tail parse_tail_delim.
Qed.

(** The head and the last rune of a printed type are not white space. *)
Lemma TrimSpace_ValueName t : type_wf t -> TrimSpace (ValueName t) = ValueName t.
Proof.
  intros Hwf. destruct (runes_ValueName _ Hwf) as [_ E]. apply type_wf_name in Hwf as Hn.
  assert (exists r w r' w', runes (tr_Name t) = r :: w /\ runes (tr_Name t) = w' ++ [r'] /\
    IsSpace r = false /\ IsSpace r' = false) as (r & w & r' & w' & Er & Er' & Hr & Hr').
  { destruct Hn as [->|(_ & Hne & Hw)].
    - by exists 108%Z, (runes "ong long"), 103%Z, (runes "long lon").
    - destruct (runes (tr_Name t)) as [|r w] eqn:Er; [done|].
      destruct (exists_last Hne) as (w' & r' & Er'). exists r, w, r', w'.
      split; [done|]. split; [done|]. split; [by apply Forall_cons in Hw as [? _]; apply word_not_space|].
      rewrite Er' in Hw. apply Forall_app in Hw as [_ [? _]%Forall_cons]. by apply word_not_space. }
  apply TrimSpace_id; rewrite E.
  - by rewrite Er /= => ? [= <-].
  - rewrite !last_app. destruct (tr_Pointer t); [by intros ? [= <-]|]. cbn [last].
    destruct (tr_Arguments t) as [|a args]; [by rewrite Er' last_app => ? [= <-]|].
    cbn [args_runes]. rewrite app_comm_cons last_app. by intros ? [= <-].
Qed.

(** Parsing printed text. *)
Lemma Parse_ValueName t :
  type_wf t -> (type_depth t <= maxTypeDepth)%nat ->
  (Z.of_nat (String.length (ValueName t)) <= maxTypeLength)%Z ->
  if reserved_free t then Parse (ValueName t) = Ok (strip t)
  else exists e, Parse (ValueName t) = Err e.
Proof.
  intros Hwf Hd Hl. rewrite /Parse.
  destruct (Z.ltb_spec maxTypeLength (Z.of_nat (String.length (ValueName t)))); [lia|].
  rewrite TrimSpace_ValueName // bool_decide_eq_false_2.
  { destruct (runes_ValueName _ Hwf) as [_ ->]. apply type_wf_name in Hwf as Hn.
    destruct Hn as [->|(_ & Hne & _)]; [done|]. by destruct (runes (tr_Name t)). }
  pose proof (parseType_reads (S maxTypeDepth) t [] Hwf ltac:(lia) I) as Hread.
  rewrite app_nil_r /reads in Hread.
  destruct (reserved_free t); [by rewrite Hread|destruct Hread as [e ->]; by eexists].
Qed.

Lemma ValueName_strip t : ValueName (strip t) = ValueName t.
Proof.
  induction t as [name args const ref ptr IH] using TypeRef_ind'. cbn.
  rewrite map_map. assert (map (fun t => ValueName (strip t)) args = map ValueName args) as ->.
  { induction IH as [|t l Ht _ IHl]; [done|]. cbn. by rewrite Ht IHl. }
  by destruct args.
Qed.

Lemma Parse_inv s t :
  Parse s = Ok t ->
  (Z.of_nat (String.length s) <= maxTypeLength)%Z /\ type_wf t /\ (type_depth t <= maxTypeDepth)%nat.
Proof.
  rewrite /Parse. destruct (Z.ltb_spec maxTypeLength (Z.of_nat (String.length s))); [done|].
  case_bool_decide; [done|].
  pose proof (parseType_spec (S maxTypeDepth) (runes (TrimSpace s))) as Hspec.
  destruct (parseType _ _) as [[t' q]|e]; [|done]. cbn [mbind result_bind].
  case_bool_decide; [|done]. intros [= <-]. destruct Hspec as (_ & Hd & Hw).
  split; [done|]. split; [apply Hw, runes_valid|lia].
Qed.
End RoundTrip.

(** ** Properties *)

Section Properties.
Context `{UnicodeTables}.

(** C11: printing a type reference and parsing it gives the reference back,
    without the qualifiers that the canonical name omits: no name the parser
    can produce, except the keywords [const] and [std], is lost or merged with
    another, whatever the nesting up to the parser's limits. *)
Theorem type_print_parse t :
  type_wf t -> reserved_free t = true -> (type_depth t <= maxTypeDepth)%nat ->
  (Z.of_nat (String.length (CanonicalName t)) <= maxTypeLength)%Z ->
  Parse (CanonicalName t) = Ok (strip t).
Proof.
  intros Hwf Hres Hd Hl. pose proof (Parse_ValueName t Hwf Hd Hl) as Hp. by rewrite Hres in Hp.
Qed.

(** Normalising a declared type twice is normalising it once, for every
    string, accepted or not. *)
Theorem Normalize_idempotent s : Normalize (Normalize s) = Normalize s.
Proof.
  rewrite {2 3}/Normalize. destruct (Parse s) as [t|e] eqn:E; [|by rewrite /Normalize E].
  rewrite /Normalize /CanonicalName. destruct (Parse (ValueName t)) as [t'|e'] eqn:E'; [|done].
  destruct (Parse_inv _ _ E) as (_ & Hwf & Hd), (Parse_inv _ _ E') as (Hl & _ & _).
  pose proof (Parse_ValueName t Hwf Hd Hl) as Hp.
  destruct (reserved_free t); [|destruct Hp; congruence].
  rewrite Hp in E'. injection E' as <-. by rewrite ValueName_strip.
Qed.

(** C12: the parser terminates on every input, within its loop bound, and what
    it accepts respects the declared limits: length at most 4096 bytes, template
    nesting at most 64, every name made of letters, digits and underscores. *)
Theorem Parse_bounded s :
  Parse s <> Err parser_fuel /\
  forall t, Parse s = Ok t ->
    (Z.of_nat (String.length s) <= maxTypeLength)%Z /\
    (type_depth t <= maxTypeDepth)%nat /\ type_wf t.
Proof.
  split.
  - rewrite /Parse. destruct (_ <? _)%Z; [done|]. case_bool_decide; [done|].
    pose proof (parseType_spec (S maxTypeDepth) (runes (TrimSpace s))) as Hspec.
    destruct (parseType _ _) as [[t q]|e]; cbn [mbind result_bind].
    + by case_bool_decide.
    + intros [= ->]. by apply Hspec.
  - intros t Ht. by apply Parse_inv in Ht as (? & ? & ?).
Qed.
End Properties.

(** ** Closed examples, with ASCII names *)

Section Examples.
#[local] Existing Instance latin1_tables.

Definition nested_example : TypeRef :=
  mkTypeRef "vector"
    [mkTypeRef "optional" [mkTypeRef "long long" [] true LValueReference false] false NoReference false;
     mkTypeRef "ListNode" [] false NoReference true] false NoReference false.

Example parse_qualified :
  Parse " const std::vector < std::optional<long   long const&>, ListNode * > && " =
  Ok (mkTypeRef "vector"
    [mkTypeRef "optional" [mkTypeRef "long long" [] true LValueReference false] false NoReference false;
     mkTypeRef "ListNode" [] false NoReference true] true RValueReference false).
Proof. vm_compute. reflexivity. Qed.

Example parse_missing_close :
  Parse "vector<int" = Err (Errorf "expected , or > in %s" [FStr "vector<int>"]).
Proof. vm_compute. reflexivity. Qed.

Example type_print_parse_witness :
  Parse (CanonicalName nested_example) = Ok (strip nested_example).
Proof.
  apply (type_print_parse nested_example).
  - assert (forall s, string_of_runes (runes s) = s /\ runes s <> [] /\
      forallb is_word (runes s) = true -> name_wf s) as Hn.
    { intros s (? & ? & Hf). right. repeat split; [done..|].
      apply Forall_forall. intros r Hr. by apply (proj1 (forallb_forall _ _) Hf), list_elem_of_In. }
    rewrite /type_wf /=. repeat (apply Forall_cons; split); [..|by apply Forall_nil];
      try (by left); apply Hn; repeat split; by vm_compute.
  - by vm_compute.
  - apply Nat.leb_le. by vm_compute.
  - by vm_compute.
Defined.
End Examples.
