(* ===== verification/GoJson.v ===== *)
(** * The JSON of the Go standard library

    What the program uses of [encoding/json]: [Valid], [Unmarshal] into the
    types it decodes, and the encoding of a string and of an object of raw
    values.  A text is scanned into a [json] tree whose nodes keep the exact
    text they came from, which is what a [json.RawMessage] receives. *)

From S2P Require Import Prelude GoStrings Contracts.
From Stdlib Require Import Ascii.

Inductive json :=
  | JNull
  | JBool (b : bool)
  | JNum (text : string)
  | JStr (body : string)
  | JArr (text : string) (elems : list json)
  | JObj (text : string) (members : list (string * json)).

(** The double quote and the backslash. *)
Definition dq : ascii := "034"%char.
Definition bs : ascii := "\"%char.
Definition quoted (body : string) : string := String dq (body +:+ String dq "").

(** The text of a node. *)
Definition raw_of (v : json) : string :=
  match v with
  | JNull => "null"
  | JBool true => "true"
  | JBool false => "false"
  | JNum text => text
  | JStr body => quoted body
  | JArr text _ | JObj text _ => text
  end.

(** ** Scanner *)

Definition json_space (c : ascii) : bool :=
  (byte_of c =? 32)%Z || (byte_of c =? 9)%Z || (byte_of c =? 10)%Z || (byte_of c =? 13)%Z.
Definition json_digit (c : ascii) : bool := (48 <=? byte_of c)%Z && (byte_of c <=? 57)%Z.
Definition hex_value (r : Z) : option Z :=
  if (48 <=? r)%Z && (r <=? 57)%Z then Some (r - 48)%Z
  else if (97 <=? r)%Z && (r <=? 102)%Z then Some (r - 87)%Z
  else if (65 <=? r)%Z && (r <=? 70)%Z then Some (r - 55)%Z
  else None.
Definition json_hex (c : ascii) : bool := if hex_value (byte_of c) is Some _ then true else false.

Fixpoint skip_ws (s : string) : string :=
  match s with
  | String c s' => if json_space c then skip_ws s' else s
  | EmptyString => s
  end.

(** The first byte is [c]: what follows it. *)
Definition eat (c : ascii) (s : string) : option string :=
  match s with String d s' => if Ascii.eqb d c then Some s' else None | EmptyString => None end.

Fixpoint eat_text (text s : string) : option string :=
  match text with
  | EmptyString => Some s
  | String c text' => s' ← eat c s; eat_text text' s'
  end.

Fixpoint span_digits (s : string) : string * string :=
  match s with
  | String c s' =>
      if json_digit c then let '(d, r) := span_digits s' in (String c d, r) else ("", s)
  | EmptyString => ("", "")
  end.

(** An optional sign: one of two bytes. *)
Definition opt_sign (s : string) : string * string :=
  match eat "-" s with
  | Some s' => ("-", s')
  | None => match eat "+" s with Some s' => ("+", s') | None => ("", s) end
  end.

Definition scan_int (s : string) : option (string * string) :=
  match span_digits s with
  | (EmptyString, _) => None
  | (String c d, r) => if Ascii.eqb c "0" then Some ("0", d +:+ r) else Some (String c d, r)
  end.

Definition scan_frac (s : string) : option (string * string) :=
  match eat "." s with
  | None => Some ("", s)
  | Some s' => match span_digits s' with
               | (EmptyString, _) => None
               | (d, r) => Some (String "." d, r)
               end
  end.

Definition scan_exp (s : string) : option (string * string) :=
  match s with
  | EmptyString => Some ("", s)
  | String c s' =>
      if Ascii.eqb c "e" || Ascii.eqb c "E" then
        let '(sign, s'') := opt_sign s' in
        match span_digits s'' with
        | (EmptyString, _) => None
        | (d, r) => Some (String c (sign +:+ d), r)
        end
      else Some ("", s)
  end.

Definition scan_minus (s : string) : option (string * string) :=
  match eat "-" s with Some s' => Some ("-", s') | None => Some ("", s) end.

(** One text after the other. *)
Definition seq_scan (f g : string -> option (string * string)) (s : string)
    : option (string * string) :=
  '(a, s1) ← f s; '(b, s2) ← g s1; Some (a +:+ b, s2).

Definition scan_number : string -> option (string * string) :=
  seq_scan scan_minus (seq_scan scan_int (seq_scan scan_frac scan_exp)).

(** After the opening quote: the body and what follows the closing one. *)
Fixpoint scan_string (s : string) : option (string * string) :=
  match s with
  | EmptyString => None
  | String c s1 =>
      if Ascii.eqb c dq then Some ("", s1)
      else if Ascii.eqb c "\" then
        match s1 with
        | EmptyString => None
        | String e s2 =>
            if existsb (Ascii.eqb e) ["b"; "f"; "n"; "r"; "t"; "\"; "/"; dq]%char then
              '(b, r) ← scan_string s2; Some (String c (String e b), r)
            else if Ascii.eqb e "u" then
              match s2 with
              | String h1 (String h2 (String h3 (String h4 s3))) =>
                  if json_hex h1 && json_hex h2 && json_hex h3 && json_hex h4 then
                    '(b, r) ← scan_string s3;
                    Some (String c (String e (String h1 (String h2 (String h3 (String h4 b))))), r)
                  else None
              | _ => None
              end
            else None
        end
      else if (byte_of c <? 32)%Z then None
      else '(b, r) ← scan_string s1; Some (String c b, r)
  end.

(** The text that was read from [s] when [rest] is left. *)
Definition consumed (s rest : string) : string :=
  String.substring 0 (String.length s - String.length rest) s.

Section Loops.
Context (scan : string -> option (json * string)).

(** The elements of an array, after its [\[]; each turn consumes the byte that
    ends it. *)
Fixpoint scan_elems (fuel : nat) (s : string) : option (list json * string) :=
  match fuel with
  | O => None
  | S fuel' =>
      '(v, s1) ← scan (skip_ws s);
      let s2 := skip_ws s1 in
      match eat "]" s2 with
      | Some s3 => Some ([v], s3)
      | None => s3 ← eat "," s2; '(vs, r) ← scan_elems fuel' s3; Some (v :: vs, r)
      end
  end.

Definition scan_key (s : string) : option (string * string) :=
  s1 ← eat dq (skip_ws s);
  '(k, s2) ← scan_string s1;
  s3 ← eat ":" (skip_ws s2);
  Some (k, s3).

Fixpoint scan_members (fuel : nat) (s : string) : option (list (string * json) * string) :=
  match fuel with
  | O => None
  | S fuel' =>
      '(k, s1) ← scan_key s;
      '(v, s2) ← scan (skip_ws s1);
      let s3 := skip_ws s2 in
      match eat "}" s3 with
      | Some s4 => Some ([(k, v)], s4)
      | None => s4 ← eat "," s3; '(ms, r) ← scan_members fuel' s4; Some ((k, v) :: ms, r)
      end
  end.

(** An array whose [\[] is the first byte of [s] and [s'] the rest. *)
Definition scan_array (s s' : string) : option (json * string) :=
  match eat "]" (skip_ws s') with
  | Some r => Some (JArr (consumed s r) [], r)
  | None =>
      '(vs, r) ← scan_elems (String.length s') s'; Some (JArr (consumed s r) vs, r)
  end.

Definition scan_object (s s' : string) : option (json * string) :=
  match eat "}" (skip_ws s') with
  | Some r => Some (JObj (consumed s r) [], r)
  | None =>
      '(ms, r) ← scan_members (String.length s') s'; Some (JObj (consumed s r) ms, r)
  end.
End Loops.

(** A value that is not an array or an object. *)
Definition scan_scalar (s : string) : option (json * string) :=
  match s with
  | EmptyString => None
  | String c s' =>
      if Ascii.eqb c dq then '(b, r) ← scan_string s'; Some (JStr b, r)
      else if Ascii.eqb c "n" then r ← eat_text "null" s; Some (JNull, r)
      else if Ascii.eqb c "t" then r ← eat_text "true" s; Some (JBool true, r)
      else if Ascii.eqb c "f" then r ← eat_text "false" s; Some (JBool false, r)
      else '(n, r) ← scan_number s; Some (JNum n, r)
  end.

(** A value at the head of [s], nested at most [levels] deep. *)
Fixpoint scan_value (levels : nat) (s : string) : option (json * string) :=
  match s with
  | EmptyString => None
  | String c s' =>
      if Ascii.eqb c "[" then
        match levels with O => None | S levels' => scan_array (scan_value levels') s s' end
      else if Ascii.eqb c "{" then
        match levels with O => None | S levels' => scan_object (scan_value levels') s s' end
      else scan_scalar s
  end.

(** [maxNestingDepth] of the scanner. *)
Definition maxNestingDepth : nat := Z.to_nat 10000.
#[global] Opaque maxNestingDepth.

(** A whole text: one value, with white space around it. *)
Definition parse_json (s : string) : option json :=
  '(v, r) ← scan_value maxNestingDepth (skip_ws s);
  if bool_decide (skip_ws r = "") then Some v else None.

Definition syntax_error : goerr := LibErr "json: syntax error".
Definition type_error (target : string) : goerr :=
  Errorf "json: cannot unmarshal value into Go value of type %s" [FStr target].

(** [json.Valid] *)
Definition Valid (s : string) : bool := if parse_json s is Some _ then true else false.

Definition checked (s : string) : result json :=
  match parse_json s with Some v => Ok v | None => Err syntax_error end.

(** ** Strings *)

Definition u4 (h1 h2 h3 h4 : rune) : option rune :=
  a ← hex_value h1; b ← hex_value h2; c ← hex_value h3; d ← hex_value h4;
  Some (((a * 16 + b) * 16 + c) * 16 + d)%Z.

Definition is_surrogate (r : rune) : bool := (55296 <=? r)%Z && (r <? 57344)%Z.

(** [utf16.DecodeRune], when the pair is valid. *)
Definition decode_pair (r1 r2 : rune) : option rune :=
  if (55296 <=? r1)%Z && (r1 <? 56320)%Z && (56320 <=? r2)%Z && (r2 <? 57344)%Z
  then Some ((r1 - 55296) * 1024 + (r2 - 56320) + 65536)%Z else None.

Definition simple_escape (e : rune) : option rune :=
  if existsb (Z.eqb e) [34; 92; 47; 39]%Z then Some e
  else if (e =? 98)%Z then Some 8%Z
  else if (e =? 102)%Z then Some 12%Z
  else if (e =? 110)%Z then Some 10%Z
  else if (e =? 114)%Z then Some 13%Z
  else if (e =? 116)%Z then Some 9%Z
  else None.

(** [unquoteBytes] between the quotes, on runes: an invalid byte has already
    become [RuneError]. *)
Fixpoint unescape (rs : list rune) : option (list rune) :=
  match rs with
  | [] => Some []
  | c :: rs1 =>
      if (c =? 92)%Z then
        match rs1 with
        | [] => None
        | e :: rs2 =>
            if (e =? 117)%Z then
              match rs2 with
              | h1 :: h2 :: h3 :: h4 :: rs3 =>
                  match u4 h1 h2 h3 h4 with
                  | None => None
                  | Some r =>
                      if is_surrogate r then
                        match rs3 with
                        | b :: u :: k1 :: k2 :: k3 :: k4 :: rs4 =>
                            match (if (b =? 92)%Z && (u =? 117)%Z then u4 k1 k2 k3 k4 else None)
                                    ≫= decode_pair r with
                            | Some dec => cons dec <$> unescape rs4
                            | None => cons RuneError <$> unescape rs3
                            end
                        | _ => cons RuneError <$> unescape rs3
                        end
                      else cons r <$> unescape rs3
                  end
              | _ => None
              end
            else match simple_escape e with
                 | Some x => cons x <$> unescape rs2
                 | None => None
                 end
        end
      else if (c =? 34)%Z || (c <? 32)%Z then None
      else cons c <$> unescape rs1
  end.

Definition unquote (body : string) : option string := string_of_runes <$> unescape (runes body).

Definition hex_digit (z : Z) : string :=
  String (of_byte (if (z <? 10)%Z then 48 + z else 87 + z)%Z) "".
Definition u00 (r : rune) : string := "\u00" +:+ hex_digit (r / 16) +:+ hex_digit (r mod 16).

(** [appendString], one rune. *)
Definition escape_segment (escapeHTML : bool) (seg : rune * string) : string :=
  let '(r, b) := seg in
  if (r <? 128)%Z then
    if (r =? 34)%Z || (r =? 92)%Z then String "\" b
    else if (r =? 8)%Z then "\b"
    else if (r =? 12)%Z then "\f"
    else if (r =? 10)%Z then "\n"
    else if (r =? 13)%Z then "\r"
    else if (r =? 9)%Z then "\t"
    else if (r <? 32)%Z then u00 r
    else if escapeHTML && existsb (Z.eqb r) [60; 62; 38]%Z then u00 r
    else b
  else if (r =? RuneError)%Z && (String.length b =? 1)%nat then "\ufffd"
  else if (r =? 8232)%Z then "\u2028"
  else if (r =? 8233)%Z then "\u2029"
  else b.

Fixpoint escape_segments (escapeHTML : bool) (l : list (rune * string)) : string :=
  match l with
  | [] => ""
  | seg :: l' => escape_segment escapeHTML seg +:+ escape_segments escapeHTML l'
  end.

(** The encoding of a string value. *)
Definition encode_string (escapeHTML : bool) (s : string) : string :=
  quoted (escape_segments escapeHTML (segments s)).

(** ** [Unmarshal] into the types the program decodes *)

(** [[]json.RawMessage]; [null] leaves the nil slice. *)
Definition Unmarshal_array (raw : string) : result (list string) :=
  v ← checked raw;
  match v with
  | JNull => Ok []
  | JArr _ l => Ok (map raw_of l)
  | _ => Err (type_error "[]json.RawMessage")
  end.

(** [[][]json.RawMessage] *)
Definition Unmarshal_matrix (raw : string) : result (list (list string)) :=
  v ← checked raw;
  match v with
  | JNull => Ok []
  | JArr _ l =>
      imapM (fun _ x =>
        match x with
        | JNull => Ok []
        | JArr _ l' => Ok (map raw_of l')
        | _ => Err (type_error "[]json.RawMessage")
        end) l
  | _ => Err (type_error "[][]json.RawMessage")
  end.

(** [map[string]json.RawMessage]: [None] is the nil map that [null] leaves; a
    repeated key keeps its last value. *)
Definition Unmarshal_object (raw : string) : result (option (gmap string string)) :=
  v ← checked raw;
  match v with
  | JNull => Ok None
  | JObj _ ms =>
      m ← foldM (fun _ (m : gmap string string) '(k, x) =>
            match unquote k with
            | Some key => Ok (<[key := raw_of x]> m)
            | None => Err syntax_error
            end) ∅ ms;
      Ok (Some m)
  | _ => Err (type_error "map[string]json.RawMessage")
  end.

(** [json.Number]: a quoted number is accepted; [null] leaves the empty string. *)
Definition Unmarshal_number (raw : string) : result string :=
  v ← checked raw;
  match v with
  | JNull => Ok ""
  | JNum text => Ok text
  | JStr body =>
      match unquote body with
      | Some t =>
          fail_if negb (bool_decide (scan_number t = Some (t, "")))
          with Errorf "json: invalid number literal, trying to unmarshal %q into Number" [FStr (quoted body)];;
          Ok t
      | None => Err syntax_error
      end
  | _ => Err (type_error "json.Number")
  end.

(** [bool]; [null] leaves [false]. *)
Definition Unmarshal_bool (raw : string) : result bool :=
  v ← checked raw;
  match v with
  | JNull => Ok false
  | JBool b => Ok b
  | _ => Err (type_error "bool")
  end.

(** [string]; [null] leaves the empty string. *)
Definition Unmarshal_string (raw : string) : result string :=
  v ← checked raw;
  match v with
  | JNull => Ok ""
  | JStr body => match unquote body with Some t => Ok t | None => Err syntax_error end
  | _ => Err (type_error "string")
  end.

(** ** Scanning is local: what was read is read again before any other rest *)

Lemma eat_Some c s r : eat c s = Some r <-> s = String c r.
Proof.
  destruct s as [|d s]; cbn; [done|].
  destruct (Ascii.eqb_spec d c) as [->|]; split; intros; simplify_eq; done.
Qed.

Lemma eat_cons c s : eat c (String c s) = Some s.
Proof. by apply eat_Some. Qed.

Lemma eat_text_Some t s r : eat_text t s = Some r <-> s = t +:+ r.
Proof.
  revert s. induction t as [|c t IH]; intros s; cbn.
  - rewrite append_empty_l. split; congruence.
  - rewrite append_cons. split.
    + destruct (eat c s) as [s'|] eqn:E; [|done]. cbn. rewrite IH. apply eat_Some in E. congruence.
    + intros ->. rewrite eat_cons /=. by apply IH.
Qed.

Lemma substring_0_app c s : String.substring 0 (String.length c) (c +:+ s) = c.
Proof. induction c as [|a c IH]; [by destruct s|]. rewrite append_cons /= IH //. Qed.

Lemma consumed_app c r : consumed (c +:+ r) r = c.
Proof.
  rewrite /consumed length_append.
  replace (_ + _ - _)%nat with (String.length c) by lia. apply substring_0_app.
Qed.

(** The first byte of [r], if any, satisfies [p]. *)
Definition head_is (p : ascii -> bool) (r : string) : bool :=
  match r with EmptyString => true | String c _ => p c end.

Lemma head_is_app p c r :
  (forall a, p a = true -> p a = true) -> head_is p c = true -> head_is p r = true ->
  head_is p (c +:+ r) = true.
Proof. by destruct c. Qed.

Lemma head_is_weaken p q r :
  (forall a, p a = true -> q a = true) -> head_is p r = true -> head_is q r = true.
Proof. destruct r; cbn; auto. Qed.

Definition no_digit (c : ascii) : bool := negb (json_digit c).
(** A byte that cannot continue a number. *)
Definition num_stop (c : ascii) : bool :=
  negb (json_digit c || Ascii.eqb c "." || Ascii.eqb c "e" || Ascii.eqb c "E").

Lemma span_digits_local s d r :
  span_digits s = (d, r) ->
  s = d +:+ r /\ head_is no_digit r = true /\
  forall r', head_is no_digit r' = true -> span_digits (d +:+ r') = (d, r').
Proof.
  revert d r. induction s as [|c s IH]; cbn; intros d r.
  - intros [= <- <-]. split_and!; [done..|]. intros [|c r']; [done|].
    rewrite append_empty_l /= /no_digit. by destruct (json_digit c).
  - destruct (json_digit c) eqn:Hc.
    + destruct (span_digits s) as [d' r''] eqn:E. intros [= <- <-].
      destruct (IH _ _ eq_refl) as (-> & Hr & Hl). split_and!; [done..|].
      intros r' Hr'. rewrite append_cons /= Hc Hl //.
    + intros [= <- <-]. split_and!; [done|by rewrite /= /no_digit Hc|].
      intros [|c' r']; [done|]. rewrite append_empty_l /= /no_digit. by destruct (json_digit c').
Qed.

(** A scanner whose value is the text it read. *)
Definition reads_text (f : string -> option (string * string)) (p : ascii -> bool) : Prop :=
  forall s t r, f s = Some (t, r) ->
    s = t +:+ r /\ forall r', head_is p r' = true -> f (t +:+ r') = Some (t, r').

Lemma scan_int_local : reads_text scan_int no_digit.
Proof.
  intros s t r. rewrite /scan_int. destruct (span_digits s) as [[|c d] r0] eqn:E; [done|].
  apply span_digits_local in E as (-> & Hr0 & Hl).
  destruct (Ascii.eqb_spec c "0") as [->|Hc]; intros [= <- <-]; split; [done| |done|].
  - intros [|c' r'] Hr'; [done|]. cbn in Hr'.
    rewrite append_cons append_empty_l /=. apply negb_true_iff in Hr'. by rewrite Hr'.
  - intros r' Hr'. rewrite Hl //. by destruct (Ascii.eqb_spec c "0").
Qed.

Lemma scan_frac_local :
  reads_text scan_frac (fun c => no_digit c && negb (Ascii.eqb c ".")).
Proof.
  intros s t r. rewrite /scan_frac. destruct (eat "." s) as [s'|] eqn:E.
  - apply eat_Some in E as ->. destruct (span_digits s') as [[|c d] r0] eqn:E; [done|].
    apply span_digits_local in E as (-> & _ & Hl). intros [= <- <-]. split; [done|].
    intros r' Hr'. rewrite append_cons eat_cons Hl //.
    by eapply head_is_weaken, Hr'; intros a [? _]%andb_true_iff.
  - intros [= <- <-]. split; [done|]. intros r' Hr'. rewrite append_empty_l.
    assert (eat "." r' = None) as ->; [|done].
    destruct r' as [|c r']; [done|]. cbn in *. by destruct (Ascii.eqb c "."); [rewrite andb_false_r in Hr'|].
Qed.

Lemma opt_sign_local s t r :
  opt_sign s = (t, r) -> s = t +:+ r /\
  forall r', (t = "" -> head_is json_digit r' = true) -> opt_sign (t +:+ r') = (t, r').
Proof.
  rewrite /opt_sign. destruct (eat "-" s) as [s'|] eqn:E.
  { apply eat_Some in E as ->. by intros [= <- <-]. }
  destruct (eat "+" s) as [s'|] eqn:E'.
  { apply eat_Some in E' as ->. by intros [= <- <-]. }
  intros [= <- <-]. split; [done|]. intros [|c r'] Hr'; [done|]. specialize (Hr' eq_refl).
  rewrite append_empty_l. cbn in *. destruct (Ascii.eqb_spec c "-") as [->|]; [done|].
  by destruct (Ascii.eqb_spec c "+") as [->|].
Qed.

Lemma scan_exp_local :
  reads_text scan_exp (fun c => no_digit c && negb (Ascii.eqb c "e" || Ascii.eqb c "E")).
Proof.
  intros s t r. rewrite /scan_exp. destruct s as [|c s].
  { intros [= <- <-]. split; [done|]. intros [|c r'] Hr'; [done|]. rewrite append_empty_l. cbn in Hr'.
    by apply andb_true_iff in Hr' as [_ ->%negb_true_iff]. }
  destruct (Ascii.eqb c "e" || Ascii.eqb c "E") eqn:Hc.
  - destruct (opt_sign s) as [sign s'] eqn:E1. apply opt_sign_local in E1 as [-> Hs].
    destruct (span_digits s') as [[|x d] r0] eqn:E2; [done|].
    assert (json_digit x = true) as Hx.
    { destruct s' as [|y s']; [done|]. cbn in E2. destruct (json_digit y) eqn:Hy; [|done].
      destruct (span_digits s'). by simplify_eq. }
    apply span_digits_local in E2 as (-> & _ & Hl). intros [= <- <-].
    rewrite (append_cons c) -append_assoc. split; [done|]. intros r' Hr'.
    rewrite (append_cons c) -append_assoc Hc Hs; [by intros _; rewrite append_cons|].
    rewrite Hl //. by eapply head_is_weaken, Hr'; intros a [? _]%andb_true_iff.
  - intros [= <- <-]. split; [done|]. intros [|y r'] Hr'; [done|]. rewrite append_empty_l. cbn in Hr'.
    by apply andb_true_iff in Hr' as [_ ->%negb_true_iff].
Qed.

Lemma scan_minus_local : reads_text scan_minus (fun c => negb (Ascii.eqb c "-")).
Proof.
  intros s t r. rewrite /scan_minus. destruct (eat "-" s) as [s'|] eqn:E.
  - apply eat_Some in E as ->. by intros [= <- <-].
  - intros [= <- <-]. split; [done|]. intros [|c r'] Hr'; [done|]. rewrite append_empty_l.
    cbn in Hr' |- *. by apply negb_true_iff in Hr' as ->.
Qed.

(** The second scanner's texts keep the first one from reading on. *)
Lemma seq_scan_local f g p q :
  reads_text f p -> reads_text g q ->
  (forall s t r r', g s = Some (t, r) -> head_is q r' = true -> head_is p (t +:+ r') = true) ->
  reads_text (seq_scan f g) q.
Proof.
  intros Hf Hg Hpq s t r. rewrite /seq_scan.
  destruct (f s) as [[a s1]|] eqn:E1; [|done]. cbn [mbind option_bind].
  destruct (g s1) as [[b s2]|] eqn:E2; [|done]. cbn [mbind option_bind].
  intros [= <- <-]. destruct (Hf _ _ _ E1) as [-> Hl1], (Hg _ _ _ E2) as [-> Hl2].
  split; [by rewrite append_assoc|]. intros r' Hr'.
  rewrite -append_assoc Hl1 /=; [by eapply Hpq|]. by rewrite Hl2.
Qed.

Lemma span_digits_head s c d r : span_digits s = (String c d, r) -> json_digit c = true.
Proof.
  destruct s as [|x s]; [done|]. cbn. destruct (json_digit x) eqn:Hx; [|done].
  destruct (span_digits s). by intros [= <- _ _].
Qed.

Definition exp_head (c : ascii) : bool := Ascii.eqb c "e" || Ascii.eqb c "E".

Lemma scan_int_head s t r : scan_int s = Some (t, r) -> t <> "" /\ head_is json_digit t = true.
Proof.
  rewrite /scan_int. destruct (span_digits s) as [[|c d] r0] eqn:E; [done|].
  apply span_digits_head in E. by destruct (Ascii.eqb c "0"); intros [= <- _].
Qed.
Lemma scan_frac_head s t r : scan_frac s = Some (t, r) -> head_is (Ascii.eqb ".") t = true.
Proof.
  rewrite /scan_frac. destruct (eat "." s); [|by intros [= <- _]].
  destruct (span_digits _) as [[|] ?]; [done|]. by intros [= <- _].
Qed.
Lemma scan_exp_head s t r : scan_exp s = Some (t, r) -> head_is exp_head t = true.
Proof.
  rewrite /scan_exp. destruct s as [|c s]; [by intros [= <- _]|].
  destruct (_ || _) eqn:Hc; [|by intros [= <- _]].
  destruct (opt_sign s). destruct (span_digits _) as [[|] ?]; [done|]. by intros [= <- _].
Qed.

Lemma scan_number_local : reads_text scan_number num_stop.
Proof.
  assert (forall c, num_stop c = true -> no_digit c = true) as Hnd.
  { intros c. rewrite /num_stop /no_digit. by destruct (json_digit c). }
  assert (forall c, Ascii.eqb "." c = true -> no_digit c = true) as Hdot
    by (by intros c <-%Ascii.eqb_eq).
  assert (forall c, exp_head c = true -> no_digit c && negb (Ascii.eqb c ".") = true) as Hexph.
  { intros c. rewrite /exp_head orb_true_iff !Ascii.eqb_eq. by intros [->| ->]. }
  eapply seq_scan_local; [exact scan_minus_local|eapply seq_scan_local;
    [exact scan_int_local|eapply seq_scan_local; [exact scan_frac_local| |]|]|].
  - intros s t r (-> & Hl)%scan_exp_local. split; [done|]. intros r' Hr'. apply Hl.
    eapply head_is_weaken, Hr'. intros c. rewrite /num_stop /no_digit.
    by destruct (json_digit c), (Ascii.eqb c "."), (Ascii.eqb c "e"), (Ascii.eqb c "E").
  - intros s t r r' Et%scan_exp_head Hr'. destruct t as [|c t].
    + rewrite append_empty_l. eapply head_is_weaken, Hr'. intros a. rewrite /num_stop /no_digit.
      by destruct (json_digit a), (Ascii.eqb a ".").
    + by apply Hexph.
  - intros s t r r'. rewrite /seq_scan. destruct (scan_frac s) as [[f s1]|] eqn:E1; [|done].
    cbn [mbind option_bind]. destruct (scan_exp s1) as [[e s2]|] eqn:E2; [|done].
    intros [= <- <-] Hr'. apply scan_frac_head in E1. apply scan_exp_head in E2.
    destruct f as [|c f]; [|by apply Hdot]. destruct e as [|c e].
    + rewrite !append_empty_l. by eapply head_is_weaken, Hr'.
    + cbn in E2 |- *. apply Hexph in E2. by apply andb_true_iff in E2 as [? _].
  - intros s t r r'. rewrite {1}/seq_scan. destruct (scan_int s) as [[i s1]|] eqn:E1; [|done].
    cbn [mbind option_bind]. destruct (seq_scan _ _ s1) as [[e s2]|]; [|done].
    intros [= <- <-] _. apply scan_int_head in E1 as [Hne Hi]. destruct i as [|c i]; [done|].
    rewrite -append_assoc (append_cons c). cbn [head_is] in Hi |- *.
    by destruct (Ascii.eqb_spec c "-") as [->|].
Qed.

Lemma scan_string_local s b r :
  scan_string s = Some (b, r) ->
  s = b +:+ String dq r /\ forall r', scan_string (b +:+ String dq r') = Some (b, r').
Proof.
  revert b r. induction s as [s IH] using (induction_ltof1 _ String.length). rewrite /ltof in IH.
  intros b r. destruct s as [|c s1]; [done|]. cbn [scan_string].
  destruct (Ascii.eqb_spec c dq) as [->|Hdq]; [by intros [= <- <-]|].
  assert (Ascii.eqb c dq = false) as Hc by (by destruct (Ascii.eqb_spec c dq)).
  destruct (Ascii.eqb c "\") eqn:Hbs.
  - destruct s1 as [|e s2]; [done|].
    destruct (existsb (Ascii.eqb e) _) eqn:He.
    + destruct (scan_string s2) as [[b' r0]|] eqn:E; [|done]. intros [= <- <-].
      apply IH in E as [-> Hl]; [|cbn; lia]. split; [done|]. intros r'.
      rewrite !append_cons. cbn [scan_string]. by rewrite Hc Hbs He Hl.
    + destruct (Ascii.eqb e "u") eqn:Hu; [|done].
      destruct s2 as [|h1 [|h2 [|h3 [|h4 s3]]]]; try done.
      destruct (_ && _) eqn:Hh; [|done].
      destruct (scan_string s3) as [[b' r0]|] eqn:E; [|done]. intros [= <- <-].
      apply IH in E as [-> Hl]; [|cbn; lia]. split; [done|]. intros r'.
      rewrite !append_cons. cbn [scan_string]. by rewrite Hc Hbs He Hu Hh Hl.
  - destruct (byte_of c <? 32)%Z eqn:Hctl; [done|].
    destruct (scan_string s1) as [[b' r0]|] eqn:E; [|done]. intros [= <- <-].
    apply IH in E as [-> Hl]; [|cbn; lia]. split; [done|]. intros r'.
    rewrite !append_cons. cbn [scan_string]. by rewrite Hc Hbs Hctl Hl.
Qed.

Lemma head_app p a b : a <> "" -> head_is p (a +:+ b) = head_is p a.
Proof. by destruct a. Qed.

Definition no_space (c : ascii) : bool := negb (json_space c).

Lemma space_num_stop c : json_space c = true -> num_stop c = true.
Proof.
  rewrite /json_space !orb_true_iff !Z.eqb_eq => H.
  assert (c = of_byte (byte_of c)) as -> by (by rewrite of_byte_byte_of).
  by destruct H as [[[->| ->]| ->]| ->].
Qed.

(** White space is skipped again before any text. *)
Lemma skip_ws_local s :
  exists w, s = w +:+ skip_ws s /\ head_is no_space (skip_ws s) = true /\
    (forall x, head_is num_stop x = true -> head_is num_stop (w +:+ x) = true) /\
    (forall x, head_is no_space x = true -> skip_ws (w +:+ x) = x).
Proof.
  induction s as [|c s (w & E & Hh & Hn & Hl)].
  { exists "". split_and!; [done..|]. intros [|c x]; [done|]. rewrite append_empty_l /= /no_space.
    by destruct (json_space c). }
  cbn [skip_ws]. destruct (json_space c) eqn:Hc.
  - exists (String c w). rewrite append_cons -E. split_and!; [done..| |].
    + intros x _. rewrite append_cons /=. by apply space_num_stop.
    + intros x Hx. rewrite append_cons /= Hc. by apply Hl.
  - exists "". split_and!; [done|by rewrite /= /no_space Hc|done|].
    intros [|d x]; [done|]. rewrite append_empty_l /= /no_space. by destruct (json_space d).
Qed.

(** What a scanner of values promises; [scan'] is the one that reads again. *)
Definition local_value (scan scan' : string -> option (json * string)) : Prop :=
  forall s v r, scan s = Some (v, r) ->
    s = raw_of v +:+ r /\ raw_of v <> "" /\
    forall r', head_is num_stop r' = true -> scan' (raw_of v +:+ r') = Some (v, r').

(** A value after white space. *)
Lemma local_value_ws scan scan' s v r :
  local_value scan scan' -> scan (skip_ws s) = Some (v, r) ->
  exists c, s = c +:+ r /\ c <> "" /\
    (forall d r', eat d (skip_ws s) = None -> eat d (skip_ws (c +:+ r')) = None) /\
    forall r', head_is num_stop r' = true -> scan' (skip_ws (c +:+ r')) = Some (v, r').
Proof.
  intros Hscan Hv. destruct (skip_ws_local s) as (w & E & Hh & _ & Hl).
  destruct (Hscan _ _ _ Hv) as (Er & Hne & Hagain). rewrite Er in E, Hh.
  exists (w +:+ raw_of v). split_and!.
  - by rewrite -append_assoc.
  - intros Hn. apply Hne. destruct w; [by rewrite append_empty_l in Hn|done].
  - intros d r'. rewrite Er -append_assoc.
    rewrite head_app // in Hh. rewrite Hl; [by rewrite head_app|].
    destruct (raw_of v) as [|x t]; [done|]. rewrite !append_cons /=. by destruct (Ascii.eqb x d).
  - intros r' Hr'. rewrite -append_assoc Hl; [|by apply Hagain].
    rewrite head_app // in Hh. by rewrite head_app.
Qed.

(** A delimiter after white space. *)
Lemma skip_eat_local d s r :
  no_space d = true -> num_stop d = true -> eat d (skip_ws s) = Some r ->
  exists c, s = c +:+ r /\ c <> "" /\ forall r',
    head_is num_stop (c +:+ r') = true /\ skip_ws (c +:+ r') = String d r'.
Proof.
  intros Hd Hn He%eat_Some. destruct (skip_ws_local s) as (w & E & _ & Hs & Hl).
  rewrite He in E. exists (w +:+ String d ""). rewrite -append_assoc.
  split_and!; [done|by destruct w|]. intros r'. rewrite -append_assoc. split.
  - by apply Hs.
  - by apply Hl.
Qed.

Lemma scan_elems_local scan scan' fuel s vs r :
  local_value scan scan' ->
  scan_elems scan fuel s = Some (vs, r) ->
  exists c, s = c +:+ r /\
    (forall d r', eat d (skip_ws s) = None -> eat d (skip_ws (c +:+ r')) = None) /\
    forall fuel' r', (String.length c <= fuel')%nat ->
    scan_elems scan' fuel' (c +:+ r') = Some (vs, r').
Proof.
  intros Hscan. revert s vs r. induction fuel as [|fuel IH]; intros s vs r; [done|].
  cbn [scan_elems]. destruct (scan (skip_ws s)) as [[v s1]|] eqn:Ev; [|done].
  cbn [mbind option_bind].
  destruct (local_value_ws _ _ _ _ _ Hscan Ev) as (c1 & -> & Hc1 & Hd1 & Hl1).
  destruct (eat "]" (skip_ws s1)) as [s3|] eqn:E2.
  - intros [= <- <-]. apply skip_eat_local in E2 as (c2 & -> & Hc2 & Hl2); [|done..].
    exists (c1 +:+ c2). split_and!; [by rewrite append_assoc| |].
    { intros d r' Hd. rewrite -append_assoc. by apply Hd1. }
    intros fuel' r' Hf.
    rewrite length_append in Hf. destruct c1; [done|]. destruct fuel' as [|fuel']; [cbn in Hf; lia|].
    destruct (Hl2 r') as [Hn Hw]. cbn [scan_elems].
    by rewrite -append_assoc Hl1 //= Hw eat_cons.
  - destruct (eat "," (skip_ws s1)) as [s3|] eqn:E3; [|done]. cbn [mbind option_bind].
    destruct (scan_elems scan fuel s3) as [[vs' r0]|] eqn:E4; [|done]. intros [= <- <-].
    apply skip_eat_local in E3 as (c2 & -> & Hc2 & Hl2); [|done..].
    apply IH in E4 as (c3 & -> & _ & Hl3).
    exists (c1 +:+ c2 +:+ c3). split_and!; [by rewrite -!append_assoc| |].
    { intros d r' Hd. rewrite -append_assoc. by apply Hd1. }
    intros fuel' r' Hf.
    rewrite !length_append in Hf. destruct c1; [done|]. destruct fuel' as [|fuel']; [cbn in Hf; lia|].
    destruct (Hl2 (c3 +:+ r')) as [Hn Hw]. cbn [scan_elems].
    rewrite -!append_assoc Hl1 //= Hw /= Hl3 //. cbn in Hf. lia.
Qed.

Lemma scan_key_local s k s1 :
  scan_key s = Some (k, s1) ->
  exists c, s = c +:+ s1 /\ c <> "" /\
    (forall r', eat "}" (skip_ws (c +:+ r')) = None) /\
    forall r', scan_key (c +:+ r') = Some (k, r').
Proof.
  rewrite /scan_key. destruct (eat dq (skip_ws s)) as [s2|] eqn:E1; [|done]. cbn [mbind option_bind].
  destruct (scan_string s2) as [[b s3]|] eqn:E2; [|done]. cbn [mbind option_bind].
  destruct (eat ":" (skip_ws s3)) as [s4|] eqn:E3; [|done]. intros [= <- <-].
  apply skip_eat_local in E1 as (c1 & -> & Hc1 & Hl1); [|done..].
  apply scan_string_local in E2 as [-> Hl2].
  apply skip_eat_local in E3 as (c3 & -> & _ & Hl3); [|done..].
  exists (c1 +:+ b +:+ String dq c3). split_and!.
  - by rewrite -!append_assoc append_cons.
  - by destruct c1.
  - intros r'. rewrite -!append_assoc. by destruct (Hl1 (b +:+ String dq c3 +:+ r')) as [_ ->].
  - intros r'. rewrite -!append_assoc append_cons.
    destruct (Hl1 (b +:+ String dq (c3 +:+ r'))) as [_ ->]. rewrite eat_cons /= Hl2 /=.
    destruct (Hl3 r') as [_ ->]. by rewrite eat_cons.
Qed.

Lemma scan_members_local scan scan' fuel s ms r :
  local_value scan scan' ->
  scan_members scan fuel s = Some (ms, r) ->
  exists c, s = c +:+ r /\ (forall r', eat "}" (skip_ws (c +:+ r')) = None) /\
    forall fuel' r', (String.length c <= fuel')%nat ->
    scan_members scan' fuel' (c +:+ r') = Some (ms, r').
Proof.
  intros Hscan. revert s ms r. induction fuel as [|fuel IH]; intros s ms r; [done|].
  cbn [scan_members]. destruct (scan_key s) as [[k s0]|] eqn:Ek; [|done]. cbn [mbind option_bind].
  apply scan_key_local in Ek as (c0 & -> & Hc0 & Hb0 & Hl0).
  destruct (scan (skip_ws s0)) as [[v s1]|] eqn:Ev; [|done]. cbn [mbind option_bind].
  destruct (local_value_ws _ _ _ _ _ Hscan Ev) as (c1 & -> & Hc1 & _ & Hl1).
  destruct (eat "}" (skip_ws s1)) as [s3|] eqn:E2.
  - intros [= <- <-]. apply skip_eat_local in E2 as (c2 & -> & Hc2 & Hl2); [|done..].
    exists (c0 +:+ c1 +:+ c2). split_and!; [by rewrite -!append_assoc| |].
    { intros r'. rewrite -append_assoc. apply Hb0. }
    intros fuel' r' Hf.
    rewrite !length_append in Hf. destruct c0; [done|]. destruct fuel' as [|fuel']; [cbn in Hf; lia|].
    destruct (Hl2 r') as [Hn Hw]. cbn [scan_members].
    rewrite -!append_assoc Hl0 /= Hl1 //= Hw eat_cons. done.
  - destruct (eat "," (skip_ws s1)) as [s3|] eqn:E3; [|done]. cbn [mbind option_bind].
    destruct (scan_members scan fuel s3) as [[ms' r0]|] eqn:E4; [|done]. intros [= <- <-].
    apply skip_eat_local in E3 as (c2 & -> & Hc2 & Hl2); [|done..].
    apply IH in E4 as (c3 & -> & _ & Hl3).
    exists (c0 +:+ c1 +:+ c2 +:+ c3). split_and!; [by rewrite -!append_assoc| |].
    { intros r'. rewrite -append_assoc. apply Hb0. }
    intros fuel' r' Hf.
    rewrite !length_append in Hf. destruct c0; [done|]. destruct fuel' as [|fuel']; [cbn in Hf; lia|].
    destruct (Hl2 (c3 +:+ r')) as [Hn Hw]. cbn [scan_members].
    rewrite -!append_assoc Hl0 /= Hl1 //= Hw /= Hl3 //. cbn in Hf. lia.
Qed.

Lemma scan_number_nonempty s t r : scan_number s = Some (t, r) -> t <> "".
Proof.
  rewrite /scan_number /seq_scan. destruct (scan_minus s) as [[m s0]|]; [|done].
  cbn [mbind option_bind].
  destruct (scan_int s0) as [[i s1]|] eqn:E; [|done]. cbn [mbind option_bind].
  destruct (scan_frac s1) as [[f s2]|]; [|done]. cbn [mbind option_bind].
  destruct (scan_exp s2) as [[e s3]|]; [|done]. intros [= <- _].
  apply scan_int_head in E as [Hne _]. by destruct m; [destruct i|].
Qed.

Lemma scan_array_local scan scan' s' v r :
  local_value scan scan' ->
  scan_array scan (String "[" s') s' = Some (v, r) ->
  String "[" s' = raw_of v +:+ r /\ raw_of v <> "" /\
  forall r', exists t, raw_of v +:+ r' = String "[" t /\
    scan_array scan' (String "[" t) t = Some (v, r').
Proof.
  intros Hscan. rewrite /scan_array. destruct (eat "]" (skip_ws s')) as [r0|] eqn:E1.
  - intros [= <- <-]. apply skip_eat_local in E1 as (c & -> & _ & Hl); [|done..].
    rewrite -append_cons consumed_app. split_and!; [done..|]. intros r'. exists (c +:+ r').
    split; [done|]. destruct (Hl r') as [_ ->]. by rewrite eat_cons -append_cons consumed_app.
  - destruct (scan_elems scan _ s') as [[vs r0]|] eqn:E2; [|done]. intros [= <- <-].
    eapply scan_elems_local in E2 as (c & -> & Hd & Hl); [|exact Hscan].
    rewrite -append_cons consumed_app. split_and!; [done..|]. intros r'. exists (c +:+ r').
    split; [done|]. rewrite Hd // Hl /=; [rewrite length_append; lia|].
    by rewrite -append_cons consumed_app.
Qed.

Lemma scan_object_local scan scan' s' v r :
  local_value scan scan' ->
  scan_object scan (String "{" s') s' = Some (v, r) ->
  String "{" s' = raw_of v +:+ r /\ raw_of v <> "" /\
  forall r', exists t, raw_of v +:+ r' = String "{" t /\
    scan_object scan' (String "{" t) t = Some (v, r').
Proof.
  intros Hscan. rewrite /scan_object. destruct (eat "}" (skip_ws s')) as [r0|] eqn:E1.
  - intros [= <- <-]. apply skip_eat_local in E1 as (c & -> & _ & Hl); [|done..].
    rewrite -append_cons consumed_app. split_and!; [done..|]. intros r'. exists (c +:+ r').
    split; [done|]. destruct (Hl r') as [_ ->]. by rewrite eat_cons -append_cons consumed_app.
  - destruct (scan_members scan _ s') as [[ms r0]|] eqn:E2; [|done]. intros [= <- <-].
    eapply scan_members_local in E2 as (c & -> & Hd & Hl); [|exact Hscan].
    rewrite -append_cons consumed_app. split_and!; [done..|]. intros r'. exists (c +:+ r').
    split; [done|]. rewrite Hd Hl /=; [rewrite length_append; lia|].
    by rewrite -append_cons consumed_app.
Qed.

Lemma scan_literal_local text w s v r :
  (r' ← eat_text text s; Some (w, r')) = Some (v, r) -> raw_of w = text -> text <> "" ->
  v = w /\ s = raw_of v +:+ r /\ raw_of v <> "" /\
  forall r', (r'' ← eat_text text (raw_of v +:+ r'); Some (w, r'')) = Some (v, r').
Proof.
  destruct (eat_text text s) as [r0|] eqn:E; [|done]. intros [= <- <-] <- Hne.
  apply eat_text_Some in E as ->. split_and!; [done..|]. intros r'.
  assert (eat_text (raw_of w) (raw_of w +:+ r') = Some r') as -> by (by apply eat_text_Some). done.
Qed.

Lemma scan_scalar_local s v r :
  scan_scalar s = Some (v, r) ->
  s = raw_of v +:+ r /\ raw_of v <> "" /\
  (forall r', head_is num_stop r' = true -> scan_scalar (raw_of v +:+ r') = Some (v, r')).
Proof.
  destruct s as [|c s']; [done|]. cbn [scan_scalar]. intros Hv.
  destruct (Ascii.eqb_spec c dq) as [->|].
  { destruct (scan_string s') as [[b r0]|] eqn:E; [|done]. cbn in Hv. simplify_eq.
    apply scan_string_local in E as [-> Hl]. cbn [raw_of]. rewrite /quoted.
    split_and!; [by rewrite append_cons -append_assoc|done|]. intros r' _.
    by rewrite append_cons -append_assoc /= Hl. }
  destruct (Ascii.eqb_spec c "n") as [->|].
  { apply scan_literal_local in Hv as (-> & ? & ? & Hl); [|done..].
    split_and!; [done..|]. intros r' _. exact (Hl r'). }
  destruct (Ascii.eqb_spec c "t") as [->|].
  { apply scan_literal_local in Hv as (-> & ? & ? & Hl); [|done..].
    split_and!; [done..|]. intros r' _. exact (Hl r'). }
  destruct (Ascii.eqb_spec c "f") as [->|].
  { apply scan_literal_local in Hv as (-> & ? & ? & Hl); [|done..].
    split_and!; [done..|]. intros r' _. exact (Hl r'). }
  destruct (scan_number _) as [[t r0]|] eqn:E; [|done]. cbn in Hv. simplify_eq.
  pose proof (scan_number_nonempty _ _ _ E) as Hne. apply scan_number_local in E as [Et Hl].
  split_and!; [done..|]. intros r' Hr'. cbn [raw_of].
  destruct t as [|d t]; [done|]. rewrite append_cons in Et. injection Et as -> ->.
  rewrite append_cons. cbn [scan_scalar]. rewrite -append_cons Hl //.
  by repeat match goal with H : d <> ?x |- context [Ascii.eqb d ?x] =>
    destruct (Ascii.eqb_spec d x); [done|] end.
Qed.

Lemma scan_scalar_leaf s v r : scan_scalar s = Some (v, r) ->
  match v with JArr _ _ | JObj _ _ => False | _ => True end.
Proof.
  destruct s as [|c s']; [done|]. cbn [scan_scalar].
  destruct (Ascii.eqb c dq); [by destruct (scan_string s') as [[??]|]; intros; simplify_eq/=|].
  destruct (Ascii.eqb c "n"); [by destruct (eat_text _ _); intros; simplify_eq/=|].
  destruct (Ascii.eqb c "t"); [by destruct (eat_text _ _); intros; simplify_eq/=|].
  destruct (Ascii.eqb c "f"); [by destruct (eat_text _ _); intros; simplify_eq/=|].
  by destruct (scan_number _) as [[??]|]; intros; simplify_eq/=.
Qed.

Lemma scan_scalar_head s v r : scan_scalar s = Some (v, r) ->
  eat "[" (raw_of v) = None /\ eat "{" (raw_of v) = None.
Proof.
  intros Hv. pose proof (scan_scalar_local _ _ _ Hv) as (E & Hne & _). revert Hv E.
  destruct (raw_of v) as [|c t]; [done|]. rewrite append_cons. intros Hv ->. cbn.
  destruct (Ascii.eqb_spec c "[") as [->|]; [discriminate Hv|].
  by destruct (Ascii.eqb_spec c "{") as [->|]; [discriminate Hv|].
Qed.

Lemma scan_scalar_space c t x : scan_scalar (String c t) = Some x -> json_space c = false.
Proof.
  destruct (json_space c) eqn:Hc; [|done]. rewrite /json_space !orb_true_iff !Z.eqb_eq in Hc.
  assert (c = of_byte (byte_of c)) as -> by (by rewrite of_byte_byte_of).
  by destruct Hc as [[[->| ->]| ->]| ->].
Qed.

Lemma scan_value_local levels levels' :
  (levels <= levels')%nat -> local_value (scan_value levels) (scan_value levels').
Proof.
  revert levels'. induction levels as [levels IH] using lt_wf_ind.
  intros levels' Hle s v r Hv. destruct s as [|c s']; [by destruct levels|].
  assert (forall k c t, scan_value k (String c t) =
    if Ascii.eqb c "[" then
      match k with O => None | S k' => scan_array (scan_value k') (String c t) t end
    else if Ascii.eqb c "{" then
      match k with O => None | S k' => scan_object (scan_value k') (String c t) t end
    else scan_scalar (String c t)) as Hunf by (by intros [|]).
  rewrite Hunf in Hv. destruct (Ascii.eqb_spec c "[") as [->|].
  { destruct levels as [|levels]; [done|]. destruct levels' as [|levels']; [lia|].
    eapply scan_array_local in Hv as (E & Hne & Hl);
      [|apply (IH levels); [lia|exact (le_S_n _ _ Hle)]].
    split_and!; [done..|]. intros r' _. destruct (Hl r') as (t & -> & Ht). by rewrite Hunf. }
  destruct (Ascii.eqb_spec c "{") as [->|].
  { destruct levels as [|levels]; [done|]. destruct levels' as [|levels']; [lia|].
    eapply scan_object_local in Hv as (E & Hne & Hl);
      [|apply (IH levels); [lia|exact (le_S_n _ _ Hle)]].
    split_and!; [done..|]. intros r' _. destruct (Hl r') as (t & -> & Ht). by rewrite Hunf. }
  destruct (scan_scalar_head _ _ _ Hv) as [Ha Ho].
  apply scan_scalar_local in Hv as (E & Hne & Hl). split_and!; [done..|]. intros r' Hr'.
  specialize (Hl r' Hr'). destruct (raw_of v) as [|d t]; [done|].
  rewrite append_cons in Hl |- *. rewrite Hunf Hl. cbn in Ha, Ho.
  by destruct (Ascii.eqb d "["), (Ascii.eqb d "{").
Qed.

(** *** Consequences for whole texts *)

(** The text of a value parses to the value. *)
Lemma scanned_parses levels s v r :
  (levels <= maxNestingDepth)%nat -> scan_value levels (skip_ws s) = Some (v, r) ->
  parse_json (raw_of v) = Some v.
Proof.
  intros Hle Hv. destruct (skip_ws_local s) as (w & _ & Hh & _ & _).
  destruct (scan_value_local _ _ Hle _ _ _ Hv) as (E & Hne & Hl).
  rewrite E head_app // in Hh. rewrite /parse_json.
  assert (skip_ws (raw_of v) = raw_of v) as ->.
  { destruct (raw_of v) as [|c t]; [done|]. cbn in Hh |- *.
    apply negb_true_iff in Hh. by rewrite Hh. }
  specialize (Hl "" eq_refl). rewrite append_nil_r in Hl. by rewrite Hl.
Qed.

Lemma scan_elems_elems scan fuel s vs r v :
  scan_elems scan fuel s = Some (vs, r) -> v ∈ vs -> exists s1 r1, scan (skip_ws s1) = Some (v, r1).
Proof.
  revert s vs r. induction fuel as [|fuel IH]; intros s vs r; [done|]. cbn [scan_elems].
  destruct (scan (skip_ws s)) as [[v0 s1]|] eqn:E; [|done]. cbn [mbind option_bind].
  destruct (eat "]" _); [intros [= <- <-] ->%list_elem_of_singleton; eauto|].
  destruct (eat "," _) as [s3|]; [|done]. cbn [mbind option_bind].
  destruct (scan_elems scan fuel s3) as [[vs0 r0]|] eqn:E1; [|done].
  intros [= <- <-] [->|Hin]%elem_of_cons; eauto.
Qed.

Lemma scan_members_elems scan fuel s ms r k v :
  scan_members scan fuel s = Some (ms, r) -> (k, v) ∈ ms ->
  exists s1 r1, scan (skip_ws s1) = Some (v, r1).
Proof.
  revert s ms r. induction fuel as [|fuel IH]; intros s ms r; [done|]. cbn [scan_members].
  destruct (scan_key s) as [[k0 s0]|]; [|done]. cbn [mbind option_bind].
  destruct (scan (skip_ws s0)) as [[v0 s1]|] eqn:E; [|done]. cbn [mbind option_bind].
  destruct (eat "}" _); [intros [= <- <-] [= -> ->]%list_elem_of_singleton; eauto|].
  destruct (eat "," _) as [s3|]; [|done]. cbn [mbind option_bind].
  destruct (scan_members scan fuel s3) as [[ms0 r0]|] eqn:E1; [|done].
  intros [= <- <-] [[= -> ->]|Hin]%elem_of_cons; eauto.
Qed.

(** The values directly below a node. *)
Definition children (v : json) : list json :=
  match v with JArr _ l => l | JObj _ ms => ms.*2 | _ => [] end.

Lemma scan_children levels s v r x :
  scan_value levels s = Some (v, r) -> x ∈ children v ->
  exists levels' s1 r1, (levels' < levels)%nat /\ scan_value levels' (skip_ws s1) = Some (x, r1).
Proof.
  destruct s as [|c s]; [by destruct levels|].
  assert (forall Q : Prop, scan_scalar (String c s) = Some (v, r) -> x ∈ children v -> Q) as Hleaf.
  { intros Q Hs Hx. apply scan_scalar_leaf in Hs. destruct v; try done; by apply not_elem_of_nil in Hx. }
  destruct levels as [|levels]; cbn [scan_value];
    (destruct (Ascii.eqb c "["); [try done|destruct (Ascii.eqb c "{"); [try done|by apply Hleaf]]).
  - rewrite /scan_array. destruct (eat "]" _); [by intros [= <- <-] ?%not_elem_of_nil|].
    destruct (scan_elems _ _ _) as [[vs r0]|] eqn:E; [|done]. intros [= <- <-] Hx.
    destruct (scan_elems_elems _ _ _ _ _ _ E Hx) as (s1 & r1 & ?). exists levels, s1, r1. auto.
  - rewrite /scan_object. destruct (eat "}" _); [by intros [= <- <-] ?%not_elem_of_nil|].
    destruct (scan_members _ _ _) as [[ms r0]|] eqn:E; [|done].
    intros [= <- <-] ([k y] & -> & Hx)%list_elem_of_fmap.
    destruct (scan_members_elems _ _ _ _ _ _ _ E Hx) as (s1 & r1 & ?). exists levels, s1, r1. auto.
Qed.

(** The text of a parsed value, and of each value below it, parses to it. *)
Lemma parse_json_raw s v :
  parse_json s = Some v ->
  parse_json (raw_of v) = Some v /\
  forall x, x ∈ children v -> parse_json (raw_of x) = Some x.
Proof.
  rewrite {1}/parse_json. destruct (scan_value _ _) as [[w r]|] eqn:E; [|done].
  cbn. case_bool_decide; [|done]. intros [= ->]. split; [by eapply scanned_parses|].
  intros x Hx. destruct (scan_children _ _ _ _ _ E Hx) as (l & s1 & r1 & Hlt & Hs).
  eapply scanned_parses; [|exact Hs]. lia.
Qed.

(** ** Strings: encoding then scanning and unquoting *)

(** Text that the string scanner passes over unchanged. *)
Definition transparent (b : string) : Prop :=
  forall x, scan_string (b +:+ x) = (fun '(t, r) => (b +:+ t, r)) <$> scan_string x.

Lemma transparent_nil : transparent "".
Proof. intros x. rewrite append_empty_l. by destruct (scan_string x) as [[t r]|]. Qed.

Lemma transparent_app a b : transparent a -> transparent b -> transparent (a +:+ b).
Proof.
  intros Ha Hb x. rewrite -append_assoc Ha Hb.
  destruct (scan_string x) as [[t r]|]; [|done]. cbn. by rewrite append_assoc.
Qed.

(** A byte that a string may hold as it is. *)
Definition plain_byte (c : ascii) : bool :=
  negb (Ascii.eqb c dq || Ascii.eqb c "\" || (byte_of c <? 32)%Z).

Lemma transparent_cons c b : plain_byte c = true -> transparent b -> transparent (String c b).
Proof.
  rewrite /plain_byte negb_true_iff !orb_false_iff. intros [[H1 H2] H3] Hb x.
  rewrite append_cons. cbn [scan_string]. rewrite H1 H2 H3 Hb.
  by destruct (scan_string x) as [[t r]|].
Qed.

Lemma transparent_high b : high_bytes b = true -> transparent b.
Proof.
  induction b as [|c b IH]; [by intros; apply transparent_nil|]. cbn [high_bytes].
  rewrite andb_true_iff. intros [Hc Hb]. apply transparent_cons; [|by apply IH].
  rewrite /plain_byte negb_true_iff !orb_false_iff.
  split_and!; [..|lia]; apply Ascii.eqb_neq; intros ->; by vm_compute in Hc.
Qed.

Lemma transparent_simple e :
  existsb (Ascii.eqb e) ["b"; "f"; "n"; "r"; "t"; "\"; "/"; dq]%char = true ->
  transparent (String "\" (String e "")).
Proof.
  intros He x. rewrite !append_cons append_empty_l. cbn [scan_string].
  change (Ascii.eqb "\" dq) with false. change (Ascii.eqb "\" "\") with true. cbn iota.
  rewrite He. by destruct (scan_string x) as [[t r]|].
Qed.

Lemma transparent_u h1 h2 h3 h4 :
  json_hex h1 && json_hex h2 && json_hex h3 && json_hex h4 = true ->
  transparent (String "\" (String "u" (String h1 (String h2 (String h3 (String h4 "")))))).
Proof.
  intros Hh x. rewrite !append_cons append_empty_l. cbn [scan_string].
  change (Ascii.eqb "\" dq) with false. change (Ascii.eqb "\" "\") with true.
  change (existsb (Ascii.eqb "u") _) with false. change (Ascii.eqb "u" "u") with true. cbn iota.
  rewrite Hh. by destruct (scan_string x) as [[t r]|].
Qed.

Lemma hex_value_digit z :
  (0 <= z < 16)%Z -> hex_value (if (z <? 10)%Z then 48 + z else 87 + z)%Z = Some z.
Proof.
  intros ?. rewrite /hex_value. destruct (Z.ltb_spec z 10);
    repeat match goal with |- context [if ?b then _ else _] => destruct b eqn:?; [f_equal; lia|] end; lia.
Qed.

Lemma hex_digit_byte z : (0 <= z < 16)%Z ->
  byte_of (of_byte (if (z <? 10)%Z then 48 + z else 87 + z)%Z) =
  (if (z <? 10)%Z then 48 + z else 87 + z)%Z.
Proof. intros ?. apply byte_of_of_byte. destruct (Z.ltb_spec z 10); lia. Qed.

Lemma json_hex_digit z : (0 <= z < 16)%Z ->
  json_hex (of_byte (if (z <? 10)%Z then 48 + z else 87 + z)%Z) = true.
Proof. intros ?. by rewrite /json_hex hex_digit_byte // hex_value_digit. Qed.

Section Escape.
Context (html : bool).

(** The two facts about one escaped rune. *)
Definition escape_ok (r : rune) (b : string) : Prop :=
  transparent (escape_segment html (r, b)) /\
  forall rest, unescape (runes (escape_segment html (r, b) +:+ rest)) =
    cons r <$> unescape (runes rest).

Lemma u00_ok r rest :
  (0 <= r < 128)%Z ->
  transparent (u00 r) /\ unescape (runes (u00 r +:+ rest)) = cons r <$> unescape (runes rest).
Proof.
  intros Hr. assert (0 <= r / 16 < 16)%Z as H1.
  { split; [apply Z.div_pos; lia|apply Z.div_lt_upper_bound; lia]. }
  pose proof (Z.mod_pos_bound r 16 ltac:(lia)) as H2.
  rewrite /u00 /hex_digit.
  set (c1 := of_byte (if (r / 16 <? 10)%Z then _ else _)).
  set (c2 := of_byte (if (r mod 16 <? 10)%Z then _ else _)).
  change ("\u00" +:+ String c1 "" +:+ String c2 "") with
    (String "\" (String "u" (String "0" (String "0" (String c1 (String c2 "")))))).
  split.
  - apply transparent_u. unfold c1, c2. rewrite !json_hex_digit //.
  - assert (forall z, (0 <= z < 16)%Z ->
      byte_of (of_byte (if (z <? 10)%Z then 48 + z else 87 + z)%Z) < 128)%Z as Hlt.
    { intros z Hz. rewrite hex_digit_byte //. destruct (Z.ltb_spec z 10); lia. }
    rewrite !append_cons append_empty_l !runes_ascii //; try (by apply Hlt).
    cbn -[u4 runes byte_of]. change (byte_of "0") with 48%Z.
    assert (u4 48%Z 48%Z (byte_of c1) (byte_of c2) = Some r) as ->.
    { unfold c1, c2. rewrite /u4 !hex_digit_byte // !hex_value_digit //.
      cbn -[Z.div Z.modulo Z.mul]. f_equal. pose proof (Z.div_mod r 16 ltac:(lia)). lia. }
    assert (is_surrogate r = false) as -> by (rewrite /is_surrogate; lia). done.
Qed.

Lemma escape_segment_ok r b :
  seg_ok r b -> (r < 128)%Z -> escape_ok r b.
Proof.
  intros (Hv & _ & [[_ ->]|[? _]]) Hr; [|lia].
  assert (0 <= r)%Z as H0 by (rewrite /valid_rune in Hv; lia).
  rewrite /escape_ok /escape_segment. destruct (Z.ltb_spec r 128); [|lia].
  assert (forall e x, (byte_of e <? 128) = true -> simple_escape (byte_of e) = Some x ->
    byte_of e <> 117 -> forall rest,
    unescape (runes (String "\" (String e "") +:+ rest)) = cons x <$> unescape (runes rest))%Z
    as Hsimple.
  { intros e x He Hx Hu rest. rewrite !append_cons append_empty_l !runes_ascii //; [lia|].
    cbn -[simple_escape runes byte_of]. change (byte_of "\") with 92%Z. cbn -[simple_escape runes byte_of].
    destruct (Z.eqb_spec (byte_of e) 117); [done|]. by rewrite Hx. }
  assert (forall e, existsb (Ascii.eqb e) ["b"; "f"; "n"; "r"; "t"; "\"; "/"; dq]%char = true ->
    simple_escape (byte_of e) = Some r ->
    transparent (String "\" (String e "")) /\
    forall rest, unescape (runes (String "\" (String e "") +:+ rest)) = cons r <$> unescape (runes rest))
    as Hesc.
  { intros e He Hs. split; [by apply transparent_simple|].
    cbn in He. rewrite !orb_true_iff !Ascii.eqb_eq in He.
    destruct He as [->|[->|[->|[->|[->|[->|[->|[->|He]]]]]]]]; [by apply Hsimple..|done]. }
  destruct (Z.eqb_spec r 34) as [->|]; [by apply (Hesc dq)|].
  destruct (Z.eqb_spec r 92) as [->|]; [by apply (Hesc "\"%char)|]. cbn [orb].
  destruct (Z.eqb_spec r 8) as [->|]; [by apply (Hesc "b"%char)|].
  destruct (Z.eqb_spec r 12) as [->|]; [by apply (Hesc "f"%char)|].
  destruct (Z.eqb_spec r 10) as [->|]; [by apply (Hesc "n"%char)|].
  destruct (Z.eqb_spec r 13) as [->|]; [by apply (Hesc "r"%char)|].
  destruct (Z.eqb_spec r 9) as [->|]; [by apply (Hesc "t"%char)|].
  destruct (Z.ltb_spec r 32).
  { split; [by apply (u00_ok r "")|]. intros rest. by apply u00_ok. }
  destruct (html && _).
  { split; [by apply (u00_ok r "")|]. intros rest. by apply u00_ok. }
  assert (byte_of (of_byte r) = r) as Hb by (apply byte_of_of_byte; lia).
  split.
  - apply transparent_cons; [|apply transparent_nil].
    rewrite /plain_byte Hb negb_true_iff !orb_false_iff.
    split_and!; [apply Ascii.eqb_neq; intros E; rewrite E in Hb; by vm_compute in Hb; lia..|lia].
  - intros rest. rewrite append_cons append_empty_l runes_ascii Hb //. cbn.
    destruct (Z.eqb_spec r 92); [done|]. destruct (Z.eqb_spec r 34); [done|].
    by destruct (Z.ltb_spec r 32); [lia|].
Qed.

Lemma escape_segment_high r b :
  seg_ok r b -> (128 <= r)%Z -> escape_ok r b.
Proof.
  intros (Hv & _ & [[? _]|(_ & Hb & He)]) Hr; [lia|].
  rewrite /escape_ok /escape_segment. destruct (Z.ltb_spec r 128); [lia|].
  assert (forall rest, b = encode_rune r ->
    unescape (runes (b +:+ rest)) = cons r <$> unescape (runes rest)) as Hplain.
  { intros rest ->. rewrite /runes segments_encode // fmap_cons. cbn.
    destruct (Z.eqb_spec r 92); [lia|]. destruct (Z.eqb_spec r 34); [lia|].
    by destruct (Z.ltb_spec r 32); [lia|]. }
  destruct (_ && _) eqn:Hbad.
  { apply andb_true_iff in Hbad as [->%Z.eqb_eq _].
    split; [by apply transparent_u|]. intros rest. by rewrite !append_cons append_empty_l !runes_ascii. }
  destruct (Z.eqb_spec r 8232) as [->|].
  { split; [by apply transparent_u|]. intros rest. by rewrite !append_cons append_empty_l !runes_ascii. }
  destruct (Z.eqb_spec r 8233) as [->|].
  { split; [by apply transparent_u|]. intros rest. by rewrite !append_cons append_empty_l !runes_ascii. }
  split; [by apply transparent_high|]. intros rest. apply Hplain.
  destruct He as [[-> Hl]|]; [|done]. by rewrite Hl Z.eqb_refl in Hbad.
Qed.

Lemma escape_segments_ok s :
  transparent (escape_segments html (segments s)) /\
  forall rest, unescape (runes (escape_segments html (segments s) +:+ rest)) =
    app (runes s) <$> unescape (runes rest).
Proof.
  rewrite /runes -/(runes _). pattern s, (segments s). apply segments_ind.
  - split; [apply transparent_nil|]. intros rest. rewrite append_empty_l.
    by destruct (unescape (segments rest).*1).
  - intros r b t Hok Hseg [IHt IHu].
    assert (escape_ok r b) as [Ht Hu].
    { destruct (Z.lt_ge_cases r 128); [by apply escape_segment_ok|by apply escape_segment_high]. }
    cbn [escape_segments]. split; [by apply transparent_app|]. intros rest.
    rewrite -append_assoc -[(segments _).*1]/(runes _) Hu. rewrite /runes IHu Hseg.
    by destruct (unescape (segments rest).*1).
Qed.

(** The scanner reads an encoded string as one value, and unquoting its body
    gives the runes that were encoded. *)
Lemma encode_string_scans s r :
  scan_string (escape_segments html (segments s) +:+ String dq r) =
    Some (escape_segments html (segments s), r).
Proof.
  destruct (escape_segments_ok s) as [Ht _]. rewrite Ht /=. by rewrite append_nil_r.
Qed.

Lemma unquote_encoded s :
  unquote (escape_segments html (segments s)) = Some (string_of_runes (runes s)).
Proof.
  destruct (escape_segments_ok s) as [_ Hu]. specialize (Hu ""). rewrite append_nil_r in Hu.
  by rewrite /unquote Hu /= app_nil_r.
Qed.
End Escape.

Lemma parse_json_encoded html s :
  parse_json (encode_string html s) = Some (JStr (escape_segments html (segments s))).
Proof.
  rewrite /parse_json /encode_string /quoted. cbn [skip_ws]. change (json_space dq) with false.
  cbn iota. assert (forall k x, scan_value k (String dq x) = scan_scalar (String dq x)) as ->
    by (by intros [|]).
  cbn [scan_scalar]. rewrite encode_string_scans. by cbn.
Qed.

(** Encoding a string and decoding it: invalid bytes become U+FFFD, everything
    else comes back. *)
Lemma Unmarshal_string_encoded html s :
  Unmarshal_string (encode_string html s) = Ok (string_of_runes (runes s)).
Proof. by rewrite /Unmarshal_string /checked parse_json_encoded /= unquote_encoded. Qed.

Lemma Unmarshal_string_encoded_value raw t :
  Unmarshal_string raw = Ok t -> string_of_runes (runes t) = t.
Proof.
  rewrite /Unmarshal_string. intros H. ok_inv. destruct a; try done; ok_inv; [done|].
  rewrite /unquote in H. destruct (unescape _) as [rs|]; [|done]. injection H as <-.
  apply string_of_runes_encoded.
Qed.

(** ** What [Unmarshal] returns *)

Lemma checked_Ok s v : checked s = Ok v <-> parse_json s = Some v.
Proof. rewrite /checked. destruct (parse_json s); split; intros; simplify_eq; done. Qed.

Lemma checked_valid s : is_ok (checked s) = Valid s.
Proof. rewrite /checked /Valid. by destruct (parse_json s). Qed.

(** A text that is a value with no white space around it. *)
Definition raw_value (x : string) : Prop := exists v, parse_json x = Some v /\ raw_of v = x.

Lemma raw_value_child s v x : parse_json s = Some v -> x ∈ children v -> raw_value (raw_of x).
Proof. intros Hv Hx. destruct (parse_json_raw _ _ Hv) as [_ Hc]. exists x. auto. Qed.

Lemma Unmarshal_array_raw raw l : Unmarshal_array raw = Ok l -> Forall raw_value l.
Proof.
  rewrite /Unmarshal_array. destruct (checked raw) as [v|] eqn:E; [|done]. apply checked_Ok in E.
  cbn. destruct v; try done; intros [= <-]; [constructor|].
  apply Forall_map, Forall_forall. intros x Hx. by eapply raw_value_child.
Qed.

Lemma Unmarshal_object_raw raw m :
  Unmarshal_object raw = Ok (Some m) -> map_Forall (fun _ => raw_value) m.
Proof.
  rewrite /Unmarshal_object. destruct (checked raw) as [v|] eqn:E; [|done]. apply checked_Ok in E.
  cbn. destruct v as [| | | | |text ms]; try done.
  intros H. ok_inv. rename E0 into Hf. eapply foldM_from_inv; [|apply map_Forall_empty|exact Hf].
  intros j a [k x] b Hin Ha Hb. cbn in Hb. destruct (unquote k); [|done]. injection Hb as <-.
  apply map_Forall_insert_2; [|done]. eapply (raw_value_child _ (JObj text ms)); [exact E|].
  apply list_elem_of_fmap. by exists (k, x).
Qed.

Lemma imapM_from_Forall2 {A B} (P : A -> B -> Prop) (f : nat -> A -> result B) i l k :
  (forall j x y, x ∈ l -> f j x = Ok y -> P x y) -> imapM_from i f l = Ok k -> Forall2 P l k.
Proof.
  revert i k. induction l as [|x l IH]; intros i k Hf; cbn; [by intros [= <-]|].
  intros H. ok_inv. constructor.
  - eapply Hf; [|exact E]. apply elem_of_cons. by left.
  - eapply IH; [|done]. intros j y z Hy. apply Hf. apply elem_of_cons. by right.
Qed.

(** A raw value is what it is: trimming white space does not change it. *)
Lemma raw_value_nonempty x : raw_value x -> x <> "".
Proof. by intros (v & Hv & <-) E; rewrite E in Hv. Qed.

(** ** Texts that the program builds *)

(** [c] is the text of one value, nested at most [levels] deep. *)
Definition value_text (levels : nat) (c : string) : Prop :=
  exists v, scan_value levels c = Some (v, "") /\ raw_of v = c.

Lemma value_text_weaken l l' c : (l <= l')%nat -> value_text l c -> value_text l' c.
Proof.
  intros Hle (v & Hv & <-). exists v. split; [|done].
  destruct (scan_value_local _ _ Hle _ _ _ Hv) as (_ & _ & Hl).
  specialize (Hl "" eq_refl). by rewrite append_nil_r in Hl.
Qed.

Lemma value_text_scan l c r :
  value_text l c -> head_is num_stop r = true ->
  exists v, raw_of v = c /\ scan_value l (c +:+ r) = Some (v, r).
Proof.
  intros (v & Hv & <-) Hr. exists v. split; [done|].
  by apply (scan_value_local _ _ (le_n l) _ _ _ Hv).
Qed.

Lemma value_text_head l c x :
  value_text l c ->
  c <> "" /\ skip_ws (c +:+ x) = c +:+ x /\ eat "]" (c +:+ x) = None /\ eat "}" (c +:+ x) = None.
Proof.
  intros (v & Hv & <-). destruct (scan_value_local _ _ (le_n l) _ _ _ Hv) as (_ & Hne & _).
  destruct (raw_of v) as [|c t]; [done|]. rewrite append_cons. cbn [skip_ws eat].
  assert (json_space c = false /\ Ascii.eqb c "]" = false /\ Ascii.eqb c "}" = false) as (-> & -> & ->);
    [|done].
  destruct l; cbn [scan_value] in Hv;
    (destruct (Ascii.eqb_spec c "[") as [->|]; [done|];
     destruct (Ascii.eqb_spec c "{") as [->|]; [done|]);
    (split; [by eapply scan_scalar_space|]);
    by split; apply Ascii.eqb_neq; intros ->.
Qed.

Definition array_text (cs : list string) : string := "[" +:+ Join cs "," +:+ "]".

Lemma Join_cons2 x y l sep : Join (x :: y :: l) sep = x +:+ sep +:+ Join (y :: l) sep.
Proof. done. Qed.

Lemma scan_elems_join l cs fuel r :
  cs <> [] -> Forall (value_text l) cs -> (length cs <= fuel)%nat ->
  exists vs, map raw_of vs = cs /\
    scan_elems (scan_value l) fuel (Join cs "," +:+ String "]" r) = Some (vs, r).
Proof.
  intros Hne Hall. revert fuel Hne. induction Hall as [|c cs Hc Hall IH]; intros fuel Hne Hf; [done|].
  destruct fuel as [|fuel]; [cbn in Hf; lia|].
  assert (forall x, skip_ws (c +:+ x) = c +:+ x) as Hskip
    by (intros x; by apply (value_text_head l)).
  destruct cs as [|d cs].
  - change (Join [c] ",") with c. cbn [scan_elems]. rewrite Hskip.
    destruct (value_text_scan l c (String "]" r) Hc eq_refl) as (v & Hv & ->).
    exists [v]. cbn. by rewrite Hv.
  - destruct (IH fuel) as (vs & Hvs & Hscan); [done|cbn in Hf |- *; lia|].
    rewrite Join_cons2 -!append_assoc. cbn [scan_elems]. rewrite Hskip.
    destruct (value_text_scan l c ("," +:+ Join (d :: cs) "," +:+ String "]" r) Hc eq_refl)
      as (v & Hv & ->). cbn [mbind option_bind].
    exists (v :: vs). cbn [map]. rewrite Hv Hvs. split; [done|].
    rewrite append_cons append_empty_l. cbn [skip_ws]. change (json_space ",") with false. cbn iota.
    change (eat "]" (String "," ?x)) with (@None string). cbn [eat Ascii.eqb Bool.eqb].
    cbn [mbind option_bind]. by rewrite Hscan.
Qed.

Lemma Join_head l cs x :
  cs <> [] -> Forall (value_text l) cs ->
  exists c y, value_text l c /\ Join cs "," +:+ x = c +:+ y.
Proof.
  intros Hne Hall. destruct Hall as [|c cs Hc _]; [done|]. exists c.
  destruct cs as [|d cs]; [by exists x|]. exists ("," +:+ Join (d :: cs) "," +:+ x).
  by rewrite Join_cons2 -!append_assoc.
Qed.

Lemma Join_length l cs : Forall (value_text l) cs -> (length cs <= String.length (Join cs ","))%nat.
Proof.
  induction 1 as [|c cs Hc Hall IH]; [done|].
  destruct (value_text_head _ _ "" Hc) as (Hne & _). destruct c as [|a c]; [done|].
  destruct cs as [|d cs]; [cbn; lia|]. rewrite Join_cons2 !length_append. cbn [length String.length] in *. lia.
Qed.

Lemma scan_array_join l cs r :
  Forall (value_text l) cs ->
  exists vs, map raw_of vs = cs /\
    scan_value (S l) (array_text cs +:+ r) = Some (JArr (array_text cs) vs, r).
Proof.
  intros Hall. rewrite /array_text -!append_assoc append_cons append_empty_l.
  cbn [scan_value]. change (Ascii.eqb "[" "[") with true. cbn iota. rewrite /scan_array.
  set (s' := Join cs "," +:+ "]" +:+ r).
  assert (consumed (String "[" s') r = "[" +:+ Join cs "," +:+ "]") as Ec.
  { rewrite -(consumed_app ("[" +:+ Join cs "," +:+ "]") r). f_equal. unfold s'.
    by rewrite -!append_assoc append_cons append_empty_l. }
  destruct cs as [|c cs].
  { exists []. split; [done|]. unfold s'. rewrite append_empty_l append_cons append_empty_l.
    cbn [skip_ws]. change (json_space "]") with false. cbn iota. rewrite eat_cons.
    unfold s' in Ec. by rewrite append_empty_l append_cons append_empty_l in Ec *; rewrite Ec. }
  destruct (Join_head l (c :: cs) ("]" +:+ r)) as (c0 & y & Hc0 & E0); [done..|].
  destruct (value_text_head l c0 y Hc0) as (_ & Hskip & Heat & _).
  destruct (scan_elems_join l (c :: cs) (String.length s') r) as (vs & Hvs & Hscan); [done..| |].
  { unfold s'. rewrite length_append. pose proof (Join_length _ _ Hall). lia. }
  exists vs. split; [done|]. change (Join (c :: cs) "," +:+ String "]" r) with s' in Hscan.
  fold s' in E0. rewrite {1}E0 Hskip Heat. by rewrite Hscan /= Ec.
Qed.

Lemma value_text_array l cs : Forall (value_text l) cs -> value_text (S l) (array_text cs).
Proof.
  intros Hall. destruct (scan_array_join l cs "" Hall) as (vs & _ & Hs).
  rewrite append_nil_r in Hs. by exists (JArr (array_text cs) vs).
Qed.

Lemma value_text_parse l c : (l <= maxNestingDepth)%nat -> value_text l c ->
  exists v, parse_json c = Some v /\ raw_of v = c.
Proof.
  intros Hle Hc. destruct (value_text_head l c "" Hc) as (_ & Hskip & _).
  rewrite append_nil_r in Hskip. apply (value_text_weaken _ _ _ Hle) in Hc as (v & Hv & Hr).
  exists v. split; [|done]. by rewrite /parse_json Hskip Hv.
Qed.

(** A printed array parses to an array of the texts it was printed from. *)
Lemma parse_array_text l cs :
  (S l <= maxNestingDepth)%nat -> Forall (value_text l) cs ->
  exists vs, map raw_of vs = cs /\ parse_json (array_text cs) = Some (JArr (array_text cs) vs).
Proof.
  intros Hle Hall. destruct (value_text_head (S l) (array_text cs) "" (value_text_array _ _ Hall))
    as (_ & Hskip & _). rewrite append_nil_r in Hskip.
  destruct (scan_array_join l cs "" Hall) as (vs & Hvs & Hs). rewrite append_nil_r in Hs.
  destruct (scan_value_local _ _ Hle _ _ _ Hs) as (_ & _ & Hl). specialize (Hl "" eq_refl).
  rewrite append_nil_r in Hl. cbn [raw_of] in Hl.
  exists vs. split; [done|]. by rewrite /parse_json Hskip Hl.
Qed.

(** Decoding an array that was printed gives the texts it was printed from. *)
Lemma Unmarshal_array_text l cs :
  (S l <= maxNestingDepth)%nat -> Forall (value_text l) cs ->
  Unmarshal_array (array_text cs) = Ok cs.
Proof.
  intros Hle Hall. destruct (parse_array_text l cs Hle Hall) as (vs & <- & Hp).
  by rewrite /Unmarshal_array /checked Hp.
Qed.

(** And so does decoding an array of arrays. *)
Lemma Unmarshal_matrix_text l rows :
  (S (S l) <= maxNestingDepth)%nat -> Forall (Forall (value_text l)) rows ->
  Unmarshal_matrix (array_text (map array_text rows)) = Ok rows.
Proof.
  intros Hle Hall. assert (Forall (value_text (S l)) (map array_text rows)) as Hrows
    by (apply Forall_map; eapply Forall_impl; [exact Hall|apply value_text_array]).
  destruct (parse_array_text (S l) _ Hle Hrows) as (vs & Hvs & Hp).
  rewrite /Unmarshal_matrix /checked Hp bind_Ok. apply parse_json_raw in Hp as [_ Hc].
  cbn [children] in Hc. apply imapM_from_Ok. split.
  { by rewrite -(length_map array_text) -Hvs length_map. }
  intros j x row Hx Hrow. assert (raw_of x = array_text row) as Ex.
  { apply (f_equal (fun l => l !! j)) in Hvs. rewrite !list_lookup_fmap Hx Hrow in Hvs.
    by injection Hvs. }
  apply list_elem_of_lookup_2, Hc in Hx. rewrite Ex in Hx.
  destruct (parse_array_text l row) as (vs' & Hvs' & Hp'); [lia|by eapply Forall_lookup_1|].
  rewrite Hp' in Hx. injection Hx as <-. by rewrite Hvs'.
Qed.

(** A key that needs no escape. *)
Definition plain_key (k : string) : Prop := transparent k /\ unquote k = Some k.

Definition member_text (m : string * string) : string := quoted m.1 +:+ ":" +:+ m.2.
Definition object_text (ms : list (string * string)) : string :=
  "{" +:+ Join (map member_text ms) "," +:+ "}".

Lemma scan_key_member k c x : plain_key k -> scan_key (member_text (k, c) +:+ x) = Some (k, c +:+ x).
Proof.
  intros [Ht _]. rewrite /member_text /quoted /= -!append_assoc append_cons.
  rewrite /scan_key. cbn [skip_ws]. change (json_space dq) with false. cbn iota. rewrite eat_cons.
  cbn [mbind option_bind]. rewrite -append_assoc Ht. rewrite append_cons append_empty_l /=.
  rewrite append_nil_r. done.
Qed.

Definition member_ok (l : nat) (m : string * string) : Prop := plain_key m.1 /\ value_text l m.2.

Lemma scan_members_join l ms fuel r :
  ms <> [] -> Forall (member_ok l) ms -> (length ms <= fuel)%nat ->
  exists vs, vs.*1 = ms.*1 /\ map raw_of vs.*2 = ms.*2 /\
    scan_members (scan_value l) fuel (Join (map member_text ms) "," +:+ String "}" r) = Some (vs, r).
Proof.
  intros Hne Hall. revert fuel Hne. induction Hall as [|[k c] ms [Hk Hc] Hall IH];
    intros fuel Hne Hf; [done|]. cbn in Hk, Hc.
  destruct fuel as [|fuel]; [cbn in Hf; lia|].
  assert (forall x, skip_ws (c +:+ x) = c +:+ x) as Hskip
    by (intros x; by apply (value_text_head l)).
  destruct ms as [|m ms].
  - change (Join (map member_text [(k, c)]) ",") with (member_text (k, c)). cbn [scan_members].
    rewrite scan_key_member //. cbn [mbind option_bind]. rewrite Hskip.
    destruct (value_text_scan l c (String "}" r) Hc eq_refl) as (v & Hv & ->).
    exists [(k, v)]. cbn. by rewrite Hv.
  - destruct (IH fuel) as (vs & Hvk & Hvs & Hscan); [done|cbn in Hf |- *; lia|].
    change (map member_text ((k, c) :: m :: ms))
      with (member_text (k, c) :: member_text m :: map member_text ms).
    rewrite Join_cons2 -(append_assoc (member_text (k, c))) -(append_assoc ",").
    cbn [scan_members]. rewrite scan_key_member //. cbn [mbind option_bind]. rewrite Hskip.
    change (member_text m :: map member_text ms) with (map member_text (m :: ms)).
    destruct (value_text_scan l c ("," +:+ Join (map member_text (m :: ms)) "," +:+ String "}" r)
      Hc eq_refl) as (v & Hv & ->). cbn [mbind option_bind].
    exists ((k, v) :: vs). cbn [map fmap list_fmap fst snd]. rewrite Hv.
    split_and!; [by f_equal|by f_equal|].
    rewrite append_cons append_empty_l. cbn [skip_ws]. change (json_space ",") with false. cbn iota.
    cbn [eat Ascii.eqb Bool.eqb mbind option_bind]. by rewrite Hscan.
Qed.

Lemma Join_members_length ms : (length ms <= String.length (Join (map member_text ms) ","))%nat.
Proof.
  assert (forall m, 1 <= String.length (member_text m))%nat as Hm.
  { intros m. rewrite /member_text /quoted append_cons. cbn [String.length]. lia. }
  induction ms as [|m ms IH]; [cbn; lia|]. specialize (Hm m). destruct ms as [|m' ms]; [exact Hm|].
  cbn [map] in IH |- *. rewrite Join_cons2 !length_append.
  change (String.length ",") with 1%nat. cbn [length] in *. lia.
Qed.

Lemma scan_object_join l ms r :
  Forall (member_ok l) ms ->
  exists vs, vs.*1 = ms.*1 /\ map raw_of vs.*2 = ms.*2 /\
    scan_value (S l) (object_text ms +:+ r) = Some (JObj (object_text ms) vs, r).
Proof.
  intros Hall. rewrite /object_text -!append_assoc append_cons append_empty_l.
  cbn [scan_value]. change (Ascii.eqb "{" "[") with false. change (Ascii.eqb "{" "{") with true.
  cbn iota. rewrite /scan_object.
  set (s' := Join (map member_text ms) "," +:+ "}" +:+ r).
  assert (consumed (String "{" s') r = "{" +:+ Join (map member_text ms) "," +:+ "}") as Ec.
  { rewrite -(consumed_app ("{" +:+ Join (map member_text ms) "," +:+ "}") r). f_equal. unfold s'.
    by rewrite -!append_assoc append_cons append_empty_l. }
  destruct ms as [|m ms].
  { exists []. split_and!; [done..|]. unfold s'. rewrite append_empty_l append_cons append_empty_l.
    cbn [skip_ws]. change (json_space "}") with false. cbn iota. rewrite eat_cons.
    unfold s' in Ec. by rewrite append_empty_l append_cons append_empty_l in Ec *; rewrite Ec. }
  assert (exists y, s' = String dq y) as [y Ey].
  { unfold s'. destruct ms as [|m' ms]; [by eexists|]. cbn [map]. rewrite Join_cons2. by eexists. }
  assert (eat "}" (skip_ws s') = None) as -> by (by rewrite Ey).
  destruct (scan_members_join l (m :: ms) (String.length s') r) as (vs & Hvk & Hvs & Hscan); [done..| |].
  { unfold s'. rewrite length_append. pose proof (Join_members_length (m :: ms)). lia. }
  exists vs. split_and!; [done..|].
  change (Join (map member_text (m :: ms)) "," +:+ String "}" r) with s' in Hscan.
  by rewrite Hscan /= Ec.
Qed.

Lemma value_text_object l ms : Forall (member_ok l) ms -> value_text (S l) (object_text ms).
Proof.
  intros Hall. destruct (scan_object_join l ms "" Hall) as (vs & _ & _ & Hs).
  rewrite append_nil_r in Hs. by exists (JObj (object_text ms) vs).
Qed.

(** Decoding an object that was printed. *)
Lemma Unmarshal_object_text l ms :
  (S l <= maxNestingDepth)%nat -> Forall (member_ok l) ms ->
  Unmarshal_object (object_text ms) = Ok (Some (foldl (fun m '(k, c) => <[k := c]> m) ∅ ms)).
Proof.
  intros Hle Hall. destruct (value_text_head (S l) (object_text ms) "" (value_text_object _ _ Hall))
    as (_ & Hskip & _). rewrite append_nil_r in Hskip.
  destruct (scan_object_join l ms "" Hall) as (vs & Hvk & Hvs & Hs). rewrite append_nil_r in Hs.
  destruct (scan_value_local _ _ Hle _ _ _ Hs) as (_ & _ & Hl). specialize (Hl "" eq_refl).
  rewrite append_nil_r in Hl. cbn [raw_of] in Hl.
  rewrite /Unmarshal_object /checked /parse_json Hskip Hl /=. rewrite /foldM.
  generalize 0%nat. generalize (∅ : gmap string string). clear Hl Hs Hskip.
  revert vs Hvk Hvs. induction Hall as [|[k c] ms [[_ Hk] _] _ IH]; intros [|[k' v] vs] Hvk Hvs m n;
    simplify_eq/=; [done|]. rewrite Hk /=. by apply IH.
Qed.

(** A printed integer is a JSON number, and decodes to its digits. *)
Lemma span_all_digits s r :
  all_digits s = true -> head_is no_digit r = true -> span_digits (s +:+ r) = (s, r).
Proof.
  intros Hs Hr. induction s as [|c s IH].
  - rewrite append_empty_l. destruct r as [|d r]; [done|]. cbn in Hr |- *.
    apply negb_true_iff in Hr. by rewrite Hr.
  - cbn [all_digits] in Hs. apply andb_true_iff in Hs as [Hc Hs]. rewrite append_cons.
    cbn [span_digits]. change (json_digit c) with (digit_byte c). by rewrite Hc IH.
Qed.

Lemma scan_int_pretty (n : N) r :
  head_is no_digit r = true -> scan_int (pretty n +:+ r) = Some (pretty n, r).
Proof.
  intros Hr. destruct (pretty_N_spec n) as (Hd & _ & c & t & E & _ & Hz). rewrite /scan_int.
  rewrite span_all_digits // E. destruct (Ascii.eqb_spec c "0") as [->|]; [|done].
  by rewrite (Hz eq_refl).
Qed.

Lemma scan_number_Itoa z : scan_number (Itoa z) = Some (Itoa z, "").
Proof.
  rewrite /scan_number /seq_scan. destruct (Itoa_cases z) as [[_ ->]|[_ ->]].
  - destruct (pretty_N_spec (Z.to_N z)) as (_ & _ & c & t & E & Hc & _).
    destruct (digit_not_sign _ Hc) as [Hm _].
    assert (scan_minus (pretty (Z.to_N z)) = Some ("", pretty (Z.to_N z))) as ->.
    { rewrite /scan_minus E. cbn [eat]. by destruct (Ascii.eqb_spec c "-"). }
    cbn [mbind option_bind]. rewrite -{1}(append_nil_r (pretty (Z.to_N z))) scan_int_pretty //=.
    by rewrite !append_nil_r.
  - cbn [scan_minus eat Ascii.eqb Bool.eqb mbind option_bind].
    rewrite -{1}(append_nil_r (pretty (Z.to_N (- z)))) scan_int_pretty //=.
    by rewrite append_cons !append_empty_l append_nil_r.
Qed.

(** The scanner reads a JSON number as a value. *)
Lemma scan_value_number l n :
  scan_number n = Some (n, "") -> scan_value l n = Some (JNum n, "").
Proof.
  intros Hn. pose proof (scan_number_nonempty _ _ _ Hn) as Hne. destruct n as [|c t]; [done|].
  assert (forall d, json_digit d = false -> d <> "-"%char -> Ascii.eqb c d = false) as Hc.
  { intros d Hd Hm. apply Ascii.eqb_neq. intros ->. rewrite /scan_number /seq_scan in Hn.
    assert (scan_minus (String d t) = Some ("", String d t)) as E.
    { rewrite /scan_minus. cbn [eat]. by destruct (Ascii.eqb_spec d "-"). }
    rewrite E in Hn. cbn [mbind option_bind] in Hn. rewrite /scan_int in Hn.
    cbn [span_digits] in Hn. by rewrite Hd in Hn. }
  assert (scan_value l (String c t) = scan_scalar (String c t)) as ->
    by (destruct l; cbn [scan_value]; rewrite !Hc //).
  cbn [scan_scalar]. rewrite !Hc // Hn. done.
Qed.

Lemma value_text_number l n : scan_number n = Some (n, "") -> value_text l n.
Proof. intros Hn. exists (JNum n). split; [by apply scan_value_number|done]. Qed.

Lemma value_text_Itoa l z : value_text l (Itoa z).
Proof. apply value_text_number, scan_number_Itoa. Qed.

Lemma value_text_scanned c v :
  scan_value maxNestingDepth c = Some (v, "") -> raw_of v = c -> parse_json c = Some v.
Proof.
  intros Hs Hr. destruct (value_text_head maxNestingDepth c "") as (_ & Hskip & _); [by exists v|].
  rewrite append_nil_r in Hskip. by rewrite /parse_json Hskip Hs.
Qed.

Lemma Unmarshal_number_text n : scan_number n = Some (n, "") -> Unmarshal_number n = Ok n.
Proof.
  intros Hn. rewrite /Unmarshal_number /checked (value_text_scanned n (JNum n)) //.
  by apply scan_value_number.
Qed.

(** The first byte of a value. *)
Lemma scan_number_first c t x :
  scan_number (String c t) = Some x -> c = "-"%char \/ json_digit c = true.
Proof.
  rewrite /scan_number /seq_scan /scan_minus. cbn [eat].
  destruct (Ascii.eqb_spec c "-"); [by left|]. cbn [mbind option_bind].
  rewrite /scan_int. cbn [span_digits]. destruct (json_digit c); [by right|done].
Qed.

Lemma value_text_first l c t :
  value_text l (String c t) -> (byte_of c < 128)%Z /\ IsSpace (byte_of c) = false.
Proof.
  intros (v & Hv & _).
  assert (c ∈ ["["; "{"; dq; "n"; "t"; "f"; "-"]%char \/ json_digit c = true) as Hc.
  { assert (forall d : ascii, c = d -> d ∈ ["["; "{"; dq; "n"; "t"; "f"; "-"]%char ->
      c ∈ ["["; "{"; dq; "n"; "t"; "f"; "-"]%char \/ json_digit c = true) as Hd by (intros d -> ?; by left).
    destruct l; cbn [scan_value scan_scalar] in Hv;
      (destruct (Ascii.eqb_spec c "[") as [E|_]; [apply (Hd _ E); rewrite !elem_of_cons; tauto|]);
      (destruct (Ascii.eqb_spec c "{") as [E|_]; [apply (Hd _ E); rewrite !elem_of_cons; tauto|]);
      (destruct (Ascii.eqb_spec c dq) as [E|_]; [apply (Hd _ E); rewrite !elem_of_cons; tauto|]);
      (destruct (Ascii.eqb_spec c "n") as [E|_]; [apply (Hd _ E); rewrite !elem_of_cons; tauto|]);
      (destruct (Ascii.eqb_spec c "t") as [E|_]; [apply (Hd _ E); rewrite !elem_of_cons; tauto|]);
      (destruct (Ascii.eqb_spec c "f") as [E|_]; [apply (Hd _ E); rewrite !elem_of_cons; tauto|]);
      (destruct (scan_number _) as [x|] eqn:En; [|done]);
      (apply scan_number_first in En as [E|]; [apply (Hd _ E); rewrite !elem_of_cons; tauto|by right]). }
  destruct Hc as [Hc|Hc].
  - rewrite !elem_of_cons elem_of_nil in Hc. by destruct Hc as [->|[->|[->|[->|[->|[->|[->|[]]]]]]]].
  - unfold json_digit in Hc. unfold IsSpace. lia.
Qed.

(** A text that starts like [null] is [null]. *)
Lemma value_text_null l rest : value_text l ("null" +:+ rest) -> rest = "".
Proof.
  intros (v & Hv & _). rewrite !append_cons append_empty_l in Hv.
  destruct l; cbn in Hv; by simplify_eq.
Qed.
