(* ===== verification/RuntimeText.v ===== *)
(** * The driver sources the harnesses prepend

    The text constants of cpp/types/runtime.go, cpp/serializer.go and
    python/runtime.go, byte for byte.  A backquote cannot occur in a Go raw
    string: it stands for the double quote here. *)

From S2P Require Import Prelude.
From Stdlib Require Import Ascii.

(** The text with its double quotes. *)
Fixpoint raw_text (s : string) : string :=
  match s with
  | EmptyString => EmptyString
  | String c s' => String (if Ascii.eqb c "`" then "034"%char else c) (raw_text s')
  end.

(** [listNodeSupportSource] *)
Definition listNodeSupportSource : string := Eval vm_compute in raw_text "
struct ListNode {
    int val;
    ListNode* next;
    ListNode() : val(0), next(nullptr) {}
    ListNode(int value) : val(value), next(nullptr) {}
    ListNode(int value, ListNode* nextNode) : val(value), next(nextNode) {}
};

static ListNode* __build_list(const vector<int>& values) {
    ListNode dummy(0);
    ListNode* tail = &dummy;
    for (int value : values) {
        tail->next = new ListNode(value);
        tail = tail->next;
    }
    return dummy.next;
}

static string __serialize(ListNode* head) {
    if (head == nullptr) return `null`;
    string out = `[`;
    bool first = true;
    unordered_set<ListNode*> seen;
    for (ListNode* node = head; node != nullptr && !seen.count(node); node = node->next) {
        seen.insert(node);
        if (!first) out += `,`;
        first = false;
        out += to_string(node->val);
    }
    out += `]`;
    return out;
}

static bool __disjoint(ListNode* first, ListNode* second) {
    unordered_set<ListNode*> nodes;
    for (ListNode* node = first; node != nullptr && !nodes.count(node); node = node->next) {
        nodes.insert(node);
    }
    unordered_set<ListNode*> checked;
    for (ListNode* node = second; node != nullptr && !checked.count(node); node = node->next) {
        if (nodes.count(node)) return false;
        checked.insert(node);
    }
    return true;
}
".

(** [randomListSupportSource] *)
Definition randomListSupportSource : string := Eval vm_compute in raw_text "
struct RandomListNode {
    int val;
    RandomListNode* next;
    RandomListNode* random;
    RandomListNode() : val(0), next(nullptr), random(nullptr) {}
    RandomListNode(int value) : val(value), next(nullptr), random(nullptr) {}
};

struct Node {
    int val;
    Node* next;
    Node* random;
    Node() : val(0), next(nullptr), random(nullptr) {}
    Node(int value) : val(value), next(nullptr), random(nullptr) {}
};

template <typename NodeType>
static NodeType* __build_random_list_typed(const vector<int>& values, const vector<int>& randomIndices) {
    vector<NodeType*> nodes;
    nodes.reserve(values.size());
    for (int value : values) nodes.push_back(new NodeType(value));
    for (size_t i = 1; i < nodes.size(); i++) nodes[i - 1]->next = nodes[i];
    for (size_t i = 0; i < nodes.size(); i++) {
        int index = randomIndices[i];
        nodes[i]->random = (index < 0 ? nullptr : nodes[static_cast<size_t>(index)]);
    }
    return nodes.empty() ? nullptr : nodes[0];
}

static RandomListNode* __build_random_list(const vector<int>& values, const vector<int>& randomIndices) {
    return __build_random_list_typed<RandomListNode>(values, randomIndices);
}

static Node* __build_random_list_node(const vector<int>& values, const vector<int>& randomIndices) {
    return __build_random_list_typed<Node>(values, randomIndices);
}

template <typename NodeType>
static string __serialize_random_list_typed(NodeType* head) {
    if (head == nullptr) return `null`;
    vector<NodeType*> nodes;
    unordered_map<NodeType*, int> indexes;
    for (NodeType* node = head; node != nullptr && !indexes.count(node); node = node->next) {
        indexes[node] = static_cast<int>(nodes.size());
        nodes.push_back(node);
    }
    string out = `{\`values\`:[`;
    for (size_t i = 0; i < nodes.size(); i++) {
        if (i > 0) out += `,`;
        out += to_string(nodes[i]->val);
    }
    out += `],\`random\`:[`;
    for (size_t i = 0; i < nodes.size(); i++) {
        if (i > 0) out += `,`;
        if (nodes[i]->random == nullptr) out += `null`;
        else {
            auto it = indexes.find(nodes[i]->random);
            out += (it == indexes.end() ? `null` : to_string(it->second));
        }
    }
    out += `]}`;
    return out;
}

static string __serialize(RandomListNode* head) {
    return __serialize_random_list_typed(head);
}

static string __serialize(Node* head) {
    return __serialize_random_list_typed(head);
}

template <typename NodeType>
static bool __disjoint_random_list_typed(NodeType* first, NodeType* second) {
    unordered_set<NodeType*> nodes;
    vector<NodeType*> pending;
    if (first != nullptr) pending.push_back(first);
    while (!pending.empty()) {
        NodeType* node = pending.back();
        pending.pop_back();
        if (node == nullptr || nodes.count(node)) continue;
        nodes.insert(node);
        pending.push_back(node->next);
        pending.push_back(node->random);
    }
    unordered_set<NodeType*> visited;
    pending.clear();
    if (second != nullptr) pending.push_back(second);
    while (!pending.empty()) {
        NodeType* node = pending.back();
        pending.pop_back();
        if (node == nullptr || visited.count(node)) continue;
        if (nodes.count(node)) return false;
        visited.insert(node);
        pending.push_back(node->next);
        pending.push_back(node->random);
    }
    return true;
}

static bool __disjoint(RandomListNode* first, RandomListNode* second) {
    return __disjoint_random_list_typed(first, second);
}

static bool __disjoint(Node* first, Node* second) {
    return __disjoint_random_list_typed(first, second);
}
".

(** [graphNodeSupportSource] *)
Definition graphNodeSupportSource : string := Eval vm_compute in raw_text "
struct GraphNode {
    int val;
    vector<GraphNode*> neighbors;
    GraphNode() : val(0), neighbors() {}
    GraphNode(int value) : val(value), neighbors() {}
};

static GraphNode* __build_graph(const vector<int>& values, const vector<vector<int>>& neighborIndices) {
    if (values.empty()) return nullptr;
    vector<GraphNode*> nodes;
    nodes.reserve(values.size());
    for (int value : values) nodes.push_back(new GraphNode(value));
    for (size_t i = 0; i < nodes.size(); i++) {
        for (int neighbor : neighborIndices[i]) {
            nodes[i]->neighbors.push_back(nodes[static_cast<size_t>(neighbor)]);
        }
    }
    return nodes[0];
}

static string __serialize(GraphNode* root) {
    if (root == nullptr) return `null`;
    vector<GraphNode*> nodes;
    unordered_map<GraphNode*, int> indexes;
    vector<GraphNode*> pending{root};
    size_t pendingIndex = 0;
    while (pendingIndex < pending.size()) {
        GraphNode* node = pending[pendingIndex++];
        if (node == nullptr || indexes.count(node)) continue;
        indexes[node] = static_cast<int>(nodes.size());
        nodes.push_back(node);
        for (GraphNode* neighbor : node->neighbors) pending.push_back(neighbor);
    }
    string out = `{\`values\`:[`;
    for (size_t i = 0; i < nodes.size(); i++) {
        if (i > 0) out += `,`;
        out += to_string(nodes[i]->val);
    }
    out += `],\`neighbors\`:[`;
    for (size_t i = 0; i < nodes.size(); i++) {
        if (i > 0) out += `,`;
        out += `[`;
        for (size_t j = 0; j < nodes[i]->neighbors.size(); j++) {
            if (j > 0) out += `,`;
            out += to_string(indexes[nodes[i]->neighbors[j]]);
        }
        out += `]`;
    }
    out += `]}`;
    return out;
}

static bool __disjoint(GraphNode* first, GraphNode* second) {
    unordered_set<GraphNode*> nodes;
    vector<GraphNode*> pending;
    if (first != nullptr) pending.push_back(first);
    while (!pending.empty()) {
        GraphNode* node = pending.back();
        pending.pop_back();
        if (node == nullptr || nodes.count(node)) continue;
        nodes.insert(node);
        for (GraphNode* neighbor : node->neighbors) pending.push_back(neighbor);
    }
    unordered_set<GraphNode*> visited;
    if (second != nullptr) pending.push_back(second);
    while (!pending.empty()) {
        GraphNode* node = pending.back();
        pending.pop_back();
        if (node == nullptr || visited.count(node)) continue;
        if (nodes.count(node)) return false;
        visited.insert(node);
        for (GraphNode* neighbor : node->neighbors) pending.push_back(neighbor);
    }
    return true;
}
".

(** [treeNodeSupportSource] *)
Definition treeNodeSupportSource : string := Eval vm_compute in raw_text "
struct TreeNode {
    int val;
    TreeNode* left;
    TreeNode* right;
    TreeNode() : val(0), left(nullptr), right(nullptr) {}
    TreeNode(int value) : val(value), left(nullptr), right(nullptr) {}
    TreeNode(int value, TreeNode* leftNode, TreeNode* rightNode)
        : val(value), left(leftNode), right(rightNode) {}
};

static TreeNode* __build_tree(const vector<optional<int>>& values) {
    if (values.empty() || !values[0].has_value()) return nullptr;
    vector<TreeNode*> nodes(values.size(), nullptr);
    for (size_t i = 0; i < values.size(); i++) {
        if (values[i].has_value()) nodes[i] = new TreeNode(*values[i]);
    }
    size_t child = 1;
    for (size_t i = 0; i < values.size() && child < values.size(); i++) {
        if (nodes[i] == nullptr) continue;
        if (child < values.size()) nodes[i]->left = nodes[child++];
        if (child < values.size()) nodes[i]->right = nodes[child++];
    }
    return nodes[0];
}

static string __serialize(TreeNode* root) {
    if (root == nullptr) return `null`;
    vector<TreeNode*> queue{root};
    unordered_set<TreeNode*> seen;
    size_t index = 0;
    while (index < queue.size() && queue.size() <= 200000) {
        TreeNode* node = queue[index++];
        if (node == nullptr || seen.count(node)) continue;
        seen.insert(node);
        queue.push_back(node->left);
        queue.push_back(node->right);
    }
    size_t outputCount = 0;
    for (size_t i = 0; i < queue.size(); i++) {
        if (queue[i] != nullptr) outputCount = i + 1;
    }
    string out = `[`;
    for (size_t i = 0; i < outputCount; i++) {
        if (i > 0) out += `,`;
        out += (queue[i] == nullptr ? `null` : to_string(queue[i]->val));
    }
    out += `]`;
    return out;
}

static bool __disjoint(TreeNode* first, TreeNode* second) {
    unordered_set<TreeNode*> nodes;
    vector<TreeNode*> pending;
    if (first != nullptr) pending.push_back(first);
    while (!pending.empty()) {
        TreeNode* node = pending.back();
        pending.pop_back();
        if (node == nullptr || nodes.count(node)) continue;
        nodes.insert(node);
        pending.push_back(node->left);
        pending.push_back(node->right);
    }
    unordered_set<TreeNode*> visited;
    if (second != nullptr) pending.push_back(second);
    while (!pending.empty()) {
        TreeNode* node = pending.back();
        pending.pop_back();
        if (node == nullptr || visited.count(node)) continue;
        if (nodes.count(node)) return false;
        visited.insert(node);
        pending.push_back(node->left);
        pending.push_back(node->right);
    }
    return true;
}
".

(** [serializerSource] of cpp/serializer.go *)
Definition serializerSource : string := Eval vm_compute in raw_text "
static string __escape_json_string(const string& value) {
    string out = `\``;
    for (unsigned char ch : value) {
        if (ch == '\\') out += `\\\\`;
        else if (ch == '\`') out += `\\\``;
        else if (ch == '\n') out += `\\n`;
        else if (ch == '\r') out += `\\r`;
        else if (ch == '\t') out += `\\t`;
        else if (ch == '\b') out += `\\b`;
        else if (ch == '\f') out += `\\f`;
        else if (ch < 0x20) {
            const char* hex = `0123456789abcdef`;
            out += `\\u00`;
            out += hex[(ch >> 4) & 0x0f];
            out += hex[ch & 0x0f];
        } else out += static_cast<char>(ch);
    }
    out += `\``;
    return out;
}

static string __serialize(int value) {
    return to_string(value);
}

static string __serialize(long long value) {
    return to_string(value);
}

static string __serialize(double value) {
    char buffer[64];
    auto result = to_chars(buffer, buffer + sizeof(buffer), value);
    if (result.ec == errc()) return string(buffer, result.ptr);
    ostringstream fallback;
    fallback << setprecision(numeric_limits<double>::max_digits10) << value;
    return fallback.str();
}

static string __serialize(bool value) {
    return value ? `true` : `false`;
}

static string __serialize(const string& value) {
    return __escape_json_string(value);
}

template <typename T>
static string __serialize(const optional<T>& value) {
    if (!value.has_value()) return `null`;
    return __serialize(*value);
}

static string __serialize(const vector<bool>& values) {
    string out = `[`;
    for (size_t i = 0; i < values.size(); i++) {
        if (i > 0) out += `,`;
        out += (values[i] ? `true` : `false`);
    }
    out += `]`;
    return out;
}

template <typename T>
static string __serialize(const vector<T>& values) {
    string out = `[`;
    for (size_t i = 0; i < values.size(); i++) {
        if (i > 0) out += `,`;
        out += __serialize(values[i]);
    }
    out += `]`;
    return out;
}

template <typename T>
static string __serialize_prefix(const vector<T>& values, long long length) {
    if (length < 0) return `[]`;
    size_t count = min(values.size(), static_cast<size_t>(length));
    string out = `[`;
    for (size_t i = 0; i < count; i++) {
        if (i > 0) out += `,`;
        out += __serialize(values[i]);
    }
    out += `]`;
    return out;
}
".

(** [runtimeSource] of python/runtime.go *)
Definition runtimeSource : string := Eval vm_compute in raw_text "
from typing import *
from collections import *
from functools import *
import bisect
import heapq
import itertools
import math
import re
import string

import contextlib as __yexjudge_contextlib
import io as __yexjudge_io
import json as __yexjudge_json
import sys as __yexjudge_sys

class ListNode:
    def __init__(self, val=0, next=None):
        self.val, self.next = val, next

class TreeNode:
    def __init__(self, val=0, left=None, right=None):
        self.val, self.left, self.right = val, left, right

class RandomListNode:
    def __init__(self, val=0, next=None, random=None):
        self.val, self.next, self.random = val, next, random

class Node:
    def __init__(self, val=0, next=None, random=None, neighbors=None):
        self.val, self.next, self.random = val, next, random
        self.neighbors = [] if neighbors is None else neighbors

class GraphNode:
    def __init__(self, val=0, neighbors=None):
        self.val = val
        self.neighbors = [] if neighbors is None else neighbors

def __yexjudge_build_value(type_name, value):
    if value is None:
        return None
    if type_name.startswith(`vector<`):
        if not isinstance(value, list):
            raise TypeError(`vector metadata requires a JSON array`)
        item_type = type_name[7:-1]
        return [__yexjudge_build_value(item_type, item) for item in value]
    if type_name.startswith(`optional<`):
        return __yexjudge_build_value(type_name[9:-1], value)
    if type_name == `ListNode*`:
        head = tail = None
        for item in value:
            node = ListNode(item)
            if head is None:
                head = node
            else:
                tail.next = node
            tail = node
        return head
    if type_name == `TreeNode*`:
        if not value:
            return None
        nodes = [None if item is None else TreeNode(item) for item in value]
        root = nodes[0]
        pending = [root] if root is not None else []
        index = 1
        while pending and index < len(nodes):
            node = pending.pop(0)
            if node is None:
                continue
            node.left = nodes[index]
            index += 1
            if node.left is not None:
                pending.append(node.left)
            if index < len(nodes):
                node.right = nodes[index]
                index += 1
                if node.right is not None:
                    pending.append(node.right)
        if any(node is not None for node in nodes[index:]):
            raise ValueError(`tree input contains unreachable nodes`)
        return root
    if type_name in (`RandomListNode*`, `Node*`):
        if not isinstance(value, dict) or not isinstance(value.get(`values`), list) or not isinstance(value.get(`random`), list):
            raise TypeError(`random-list metadata requires values and random arrays`)
        values, random = value[`values`], value[`random`]
        if len(values) != len(random):
            raise ValueError(`random-list values and random lengths must match`)
        node_type = RandomListNode if type_name == `RandomListNode*` else Node
        nodes = [node_type(item) for item in values]
        for index, node in enumerate(nodes):
            if index:
                nodes[index - 1].next = node
            random_index = random[index]
            if random_index is not None:
                node.random = nodes[random_index]
        return nodes[0] if nodes else None
    if type_name in (`GraphNode*`,):
        if not isinstance(value, dict) or not isinstance(value.get(`values`), list) or not isinstance(value.get(`neighbors`), list):
            raise TypeError(`graph metadata requires values and neighbors arrays`)
        values, neighbors = value[`values`], value[`neighbors`]
        if len(values) != len(neighbors):
            raise ValueError(`graph values and neighbors lengths must match`)
        nodes = [GraphNode(item) for item in values]
        for index, row in enumerate(neighbors):
            nodes[index].neighbors = [nodes[neighbor] for neighbor in row]
        return nodes[0] if nodes else None
    return value

def __yexjudge_serialize_value(type_name, value):
    if value is None:
        return None
    if type_name.startswith(`vector<`):
        item_type = type_name[7:-1]
        return [__yexjudge_serialize_value(item_type, item) for item in value]
    if type_name.startswith(`optional<`):
        return __yexjudge_serialize_value(type_name[9:-1], value)
    if type_name == `ListNode*`:
        result, seen = [], set()
        node = value
        while node is not None:
            if id(node) in seen:
                raise ValueError(`cannot serialize a cyclic ListNode chain`)
            seen.add(id(node))
            result.append(node.val)
            node = node.next
        return result or None
    if type_name == `TreeNode*`:
        result, pending, seen = [], [value], set()
        while pending:
            node = pending.pop(0)
            if node is None:
                result.append(None)
                continue
            if id(node) in seen:
                raise ValueError(`cannot serialize a cyclic or shared TreeNode structure`)
            seen.add(id(node))
            result.append(node.val)
            pending.extend((node.left, node.right))
        while result and result[-1] is None:
            result.pop()
        return result or None
    if type_name in (`RandomListNode*`, `Node*`):
        values, random, indices, seen = [], [], {}, set()
        node = value
        while node is not None:
            if id(node) in seen:
                raise ValueError(`cannot serialize a cyclic random-list chain`)
            seen.add(id(node))
            indices[id(node)] = len(values)
            values.append(node.val)
            random.append(node.random)
            node = node.next
        random_indices = []
        for item in random:
            if item is None:
                random_indices.append(None)
            elif id(item) not in indices:
                raise ValueError(`random pointer references a node outside the list`)
            else:
                random_indices.append(indices[id(item)])
        return {`values`: values, `random`: random_indices}
    if type_name == `GraphNode*`:
        nodes, indices = [value], {id(value): 0}
        for node in nodes:
            for neighbor in node.neighbors:
                if id(neighbor) not in indices:
                    indices[id(neighbor)] = len(nodes)
                    nodes.append(neighbor)
        return {`values`: [node.val for node in nodes], `neighbors`: [[indices[id(neighbor)] for neighbor in node.neighbors] for node in nodes]}
    if type_name == `int` or type_name == `long long`:
        return int(value)
    if type_name == `double`:
        return float(value)
    if type_name == `bool`:
        return bool(value)
    if type_name == `string`:
        return str(value)
    return value

def __yexjudge_objects(type_name, value):
    if value is None:
        return set()
    if type_name.startswith(`vector<`):
        result = set()
        item_type = type_name[7:-1]
        for item in value:
            result.update(__yexjudge_objects(item_type, item))
        return result
    if type_name.startswith(`optional<`):
        return __yexjudge_objects(type_name[9:-1], value)
    if type_name in (`ListNode*`, `TreeNode*`, `RandomListNode*`, `Node*`, `GraphNode*`):
        pending, result = [value], set()
        while pending:
            node = pending.pop()
            if node is None or id(node) in result:
                continue
            result.add(id(node))
            if type_name == `ListNode*`:
                pending.append(node.next)
            elif type_name == `TreeNode*`:
                pending.extend((node.left, node.right))
            elif type_name in (`RandomListNode*`, `Node*`):
                pending.extend((node.next, node.random))
            else:
                pending.extend(node.neighbors)
        return result
    return set()

def __yexjudge_postcondition(kind, result, other, type_name):
    if kind == `same_as`:
        return result is other
    return __yexjudge_objects(type_name, result).isdisjoint(__yexjudge_objects(type_name, other))
".

