(* ===== verification/Adapters.v ===== *)
(** * Value adapters: the types package (registry.go, scalar.go, vector.go,
    optional.go, runtime.go)

    An [Adapter] is a value of the interface: its constructors are the types
    that implement it, with the closures they hold.  [strconv.ParseFloat] and
    [strconv.FormatFloat] on finite doubles are the class [Float64]. *)

From S2P Require Import Prelude GoStrings GoJson TypeSyntax Contracts RuntimeText.

(** Finite IEEE doubles as [strconv] reads and prints them: [ParseFloat]
    fails on what overflows or is not a number; printing in shortest form
    gives a JSON number that reads back as the same double. *)
Class Float64 := {
  float64 : Type;
  ParseFloat : string -> option float64;
  FormatFloat : float64 -> string;
  FormatFloat_json v : scan_number (FormatFloat v) = Some (FormatFloat v, "");
  ParseFloat_Format v : ParseFloat (FormatFloat v) = Some v }.

Record RuntimeAdapter := mkRuntime {
  ra_name : string;
  ra_cppType : string;
  ra_literal : RawMessage -> result string;
  ra_serialize : string;
  ra_deserialize : option (string -> string);
  ra_validate : RawMessage -> result unit;
  ra_canonical : RawMessage -> result string;
  ra_support : string;
  ra_postcondition : option (string -> string -> string -> result string) }.

Inductive Adapter :=
  | scalarAdapter (name cppType : string) (literal canonical : RawMessage -> result string)
  | voidAdapter
  | vectorAdapter (element : Adapter)
  | optionalAdapter (element : Adapter)
  | runtimeAdapter (a : RuntimeAdapter).

(** [strings.TrimSpace(string(raw)) == "null"] *)
Definition is_null (raw : RawMessage) : bool := bool_decide (TrimSpace raw = "null").

Fixpoint Adapter_CanonicalName (a : Adapter) : string :=
  match a with
  | scalarAdapter name _ _ _ => name
  | voidAdapter => "void"
  | vectorAdapter e => "vector<" +:+ Adapter_CanonicalName e +:+ ">"
  | optionalAdapter e => "optional<" +:+ Adapter_CanonicalName e +:+ ">"
  | runtimeAdapter r => ra_name r
  end.

Definition CppType (a : Adapter) : string :=
  match a with
  | scalarAdapter _ cppType _ _ => cppType
  | voidAdapter => "void"
  | vectorAdapter _ | optionalAdapter _ => Adapter_CanonicalName a
  | runtimeAdapter r => ra_cppType r
  end.

(** [fmt.Errorf("element %d: %w", i, err)] *)
Definition at_element (i : nat) (e : goerr) : goerr :=
  Errorf "element %d: %w" [FInt (Z.of_nat i); FErr e].

Definition arrayValues (raw : RawMessage) : result (list RawMessage) :=
  wrap_err (fun e => Errorf "expected array: %w" [FErr e]) (Unmarshal_array raw).

Fixpoint GenerateLiteral (a : Adapter) (raw : RawMessage) : result string :=
  match a with
  | scalarAdapter _ _ literal _ => literal raw
  | voidAdapter => Err (Errorf "void cannot be used as a parameter type" [])
  | vectorAdapter e =>
      values ← arrayValues raw;
      literals ← imapM (fun i value => wrap_err (at_element i) (GenerateLiteral e value)) values;
      Ok (CppType a +:+ "{" +:+ Join literals ", " +:+ "}")
  | optionalAdapter e =>
      if is_null raw then Ok (CppType a +:+ "{}")
      else literal ← GenerateLiteral e raw; Ok (CppType a +:+ "{" +:+ literal +:+ "}")
  | runtimeAdapter r => ra_literal r raw
  end.

Definition SerializeExpression (a : Adapter) (valueExpression : string) : string :=
  match a with
  | voidAdapter => ""
  | runtimeAdapter r => ra_serialize r +:+ "(" +:+ valueExpression +:+ ")"
  | _ => "__serialize(" +:+ valueExpression +:+ ")"
  end.

Definition DeserializeExpression (a : Adapter) (inputExpression : string) : string :=
  match a with
  | runtimeAdapter r =>
      match ra_deserialize r with None => inputExpression | Some f => f inputExpression end
  | _ => inputExpression
  end.

Fixpoint CanonicalJSON (a : Adapter) (raw : RawMessage) : result string :=
  match a with
  | scalarAdapter _ _ _ canonical => canonical raw
  | voidAdapter => Err (Errorf "void does not have a JSON value" [])
  | vectorAdapter e =>
      values ← arrayValues raw;
      canonical ← imapM (fun i value => wrap_err (at_element i) (CanonicalJSON e value)) values;
      Ok ("[" +:+ Join canonical "," +:+ "]")
  | optionalAdapter e => if is_null raw then Ok "null" else CanonicalJSON e raw
  | runtimeAdapter r => ra_canonical r raw
  end.

(** [_, err := f(raw); return err] *)
Definition only_error {A} (r : result A) : result unit :=
  match r with Ok _ => Ok tt | Err e => Err e end.

Fixpoint ValidateJSON (a : Adapter) (raw : RawMessage) : result unit :=
  match a with
  | scalarAdapter _ _ _ canonical => only_error (canonical raw)
  | voidAdapter => Err (Errorf "void does not have a JSON value" [])
  | vectorAdapter _ => only_error (CanonicalJSON a raw)
  | optionalAdapter e => if is_null raw then Ok tt else ValidateJSON e raw
  | runtimeAdapter r => ra_validate r raw
  end.

(** [vectorAdapter.CanonicalUnorderedJSON] *)
Definition CanonicalUnorderedJSON (element : Adapter) (raw : RawMessage) : result string :=
  values ← arrayValues raw;
  canonical ← imapM (fun i value => wrap_err (at_element i) (CanonicalJSON element value)) values;
  Ok ("[" +:+ Join (sort_Strings canonical) "," +:+ "]").

(** The [SupportSourceAdapter] interface: [None] for the types without it. *)
Fixpoint Adapter_SupportSource (a : Adapter) : option string :=
  match a with
  | scalarAdapter _ _ _ _ | voidAdapter => None
  | vectorAdapter e | optionalAdapter e => Some (default "" (Adapter_SupportSource e))
  | runtimeAdapter r => Some (ra_support r)
  end.

(** The [PostconditionAdapter] interface, which only runtime types implement. *)
Definition is_PostconditionAdapter (a : Adapter) : bool :=
  match a with runtimeAdapter _ => true | _ => false end.

Definition PostconditionExpression (a : RuntimeAdapter)
    (kind valueExpression otherExpression : string) : result string :=
  match ra_postcondition a with
  | None => Err (Errorf "type %q does not support postcondition %q" [FStr (ra_name a); FStr kind])
  | Some f => f kind valueExpression otherExpression
  end.

(** [NewRuntimeAdapter]: the closures a specification may leave nil. *)
Record RuntimeTypeSpec := mkSpec {
  rt_CanonicalName : string;
  rt_CppType : string;
  rt_GenerateLiteral : option (RawMessage -> result string);
  rt_SerializeFunction : string;
  rt_DeserializeExpression : option (string -> string);
  rt_ValidateJSON : option (RawMessage -> result unit);
  rt_CanonicalJSON : option (RawMessage -> result string);
  rt_SupportSource : string;
  rt_PostconditionExpression : option (string -> string -> string -> result string) }.

Definition NewRuntimeAdapter (spec : RuntimeTypeSpec) : result RuntimeAdapter :=
  fail_if bool_decide (rt_CanonicalName spec = "") || bool_decide (rt_CppType spec = "")
  with Errorf "runtime type canonical name and C++ type are required" [];;
  match rt_GenerateLiteral spec, rt_ValidateJSON spec, rt_CanonicalJSON spec with
  | Some literal, Some validate, Some canonical =>
      fail_if bool_decide (rt_SerializeFunction spec = "")
      with Errorf "runtime type %q requires a serializer" [FStr (rt_CanonicalName spec)];;
      Ok (mkRuntime (rt_CanonicalName spec) (rt_CppType spec) literal
        (rt_SerializeFunction spec) (rt_DeserializeExpression spec) validate canonical
        (rt_SupportSource spec) (rt_PostconditionExpression spec))
  | _, _, _ =>
      Err (Errorf "runtime type %q requires literal and JSON handlers"
        [FStr (rt_CanonicalName spec)])
  end.

(** ** scalar.go *)

Section Scalars.
Context `{Float64}.

Definition parseInteger (raw : RawMessage) (bits : Z) : result Z :=
  value ← wrap_err (fun e => Errorf "expected integer: %w" [FErr e]) (Unmarshal_number raw);
  wrap_err (fun e => Errorf "expected %d-bit integer: %w" [FInt bits; FErr e]) (ParseInt value bits).

Definition integerLiteral (bits : Z) (raw : RawMessage) : result string :=
  value ← parseInteger raw bits; Ok (Itoa value).

Definition integerCanonical (bits : Z) : RawMessage -> result string := integerLiteral bits.

Definition parseFloat (raw : RawMessage) : result float64 :=
  value ← wrap_err (fun e => Errorf "expected number: %w" [FErr e]) (Unmarshal_number raw);
  match ParseFloat value with
  | Some parsed => Ok parsed
  | None => Err (Errorf "expected finite number" [])
  end.

Definition floatingLiteral (raw : RawMessage) : result string :=
  value ← parseFloat raw; Ok (FormatFloat value).

Definition floatingCanonical (raw : RawMessage) : result string := floatingLiteral raw.

Definition booleanLiteral (raw : RawMessage) : result string :=
  value ← wrap_err (fun e => Errorf "expected boolean: %w" [FErr e]) (Unmarshal_bool raw);
  Ok (if value : bool then "true" else "false").

Definition booleanCanonical (raw : RawMessage) : result string := booleanLiteral raw.

(** One byte of [stringLiteral]: itself, or a C++ escape. *)
Definition escape_byte (c : Ascii.ascii) : string :=
  let b := byte_of c in
  if (b =? 34)%Z then String bs (String dq "")
  else if (b =? 92)%Z then "\\"
  else if (32 <=? b)%Z && (b <=? 126)%Z then String c ""
  else String bs (String (of_byte (48 + Z.shiftr b 6)) (String (of_byte (48 + Z.land (Z.shiftr b 3) 7))
    (String (of_byte (48 + Z.land b 7)) ""))).

Fixpoint escape_bytes (s : string) : string :=
  match s with EmptyString => "" | String c s' => escape_byte c +:+ escape_bytes s' end.

Definition stringLiteral (raw : RawMessage) : result string :=
  value ← wrap_err (fun e => Errorf "expected string: %w" [FErr e]) (Unmarshal_string raw);
  Ok ("std::string(" +:+ quoted (escape_bytes value) +:+ ", " +:+
      Itoa (Z.of_nat (String.length value)) +:+ ")").

Definition stringCanonical (raw : RawMessage) : result string :=
  value ← wrap_err (fun e => Errorf "expected string: %w" [FErr e]) (Unmarshal_string raw);
  Ok (encode_string false value).
End Scalars.

(** ** runtime.go: lists *)

(** [x, _ := f(...)]: the zero value when it fails. *)
Definition or_zero {A} (zero : A) (r : result A) : A := match r with Ok a => a | Err _ => zero end.

Definition at_value (what : string) (i : nat) (e : goerr) : goerr :=
  Errorf (what +:+ " %d: %w") [FInt (Z.of_nat i); FErr e].

(** [integerCanonical(32)(item)] and [parseInteger(item, 32)], error dropped. *)
Definition int_text (item : RawMessage) : string := or_zero "" (integerCanonical 32 item).
Definition int_value (item : RawMessage) : Z := or_zero 0%Z (parseInteger item 32).

Definition listLiteral (raw : RawMessage) : result string :=
  if is_null raw then Ok "nullptr"
  else
    values ← arrayValues raw;
    literals ← imapM (fun i value =>
      wrap_err (at_value "list value" i) (integerLiteral 32 value)) values;
    Ok ("__build_list(vector<int>{" +:+ Join literals "," +:+ "})").

Definition canonicalListJSON (raw : RawMessage) : result string :=
  if is_null raw then Ok "null"
  else
    values ← arrayValues raw;
    if bool_decide (values = []) then Ok "null"
    else
      canonical ← imapM (fun i value =>
        wrap_err (at_value "list value" i) (integerCanonical 32 value)) values;
      Ok ("[" +:+ Join canonical "," +:+ "]").

Definition validateListJSON (raw : RawMessage) : result unit := only_error (canonicalListJSON raw).

(** ** runtime.go: lists with random pointers *)

Record randomListJSON := mkRandomList {
  rl_Values : list RawMessage;
  rl_Random : list RawMessage }.

(** [if err := json.Unmarshal(raw, &object); err != nil || object == nil] *)
Definition required_object (message : string) (raw : RawMessage)
    : result (gmap string RawMessage) :=
  match Unmarshal_object raw with
  | Ok (Some object) => Ok object
  | _ => Err (Errorf message [])
  end.

Definition required_field (message key : string) (object : gmap string RawMessage)
    : result RawMessage :=
  match object !! key with Some raw => Ok raw | None => Err (Errorf message []) end.

Definition in_range (n : nat) (index : Z) : bool := (0 <=? index)%Z && (index <? Z.of_nat n)%Z.

Definition parseRandomListJSON (raw : RawMessage) : result randomListJSON :=
  if is_null raw then Ok (mkRandomList [] [])
  else
    object ← required_object "expected random-list object" raw;
    valuesRaw ← required_field "random-list values are required" "values" object;
    randomRaw ← required_field "random-list random indices are required" "random" object;
    values ← wrap_err (fun _ => Errorf "random-list values must be an array" [])
      (Unmarshal_array valuesRaw);
    random ← wrap_err (fun _ => Errorf "random-list random must be an array" [])
      (Unmarshal_array randomRaw);
    fail_if negb (length values =? length random)%nat
    with Errorf "random-list values and random lengths must match" [];;
    if bool_decide (values = []) then Ok (mkRandomList values random)
    else
      iterM (fun i value =>
        wrap_err (at_value "random-list value" i) (only_error (integerCanonical 32 value))) values;;
      iterM (fun i value =>
        if is_null value then Ok tt
        else match parseInteger value 32 with
             | Ok index =>
                 if in_range (length values) index then Ok tt
                 else Err (Errorf "random-list index %d is out of range" [FInt (Z.of_nat i)])
             | Err _ => Err (Errorf "random-list index %d is out of range" [FInt (Z.of_nat i)])
             end) random;;
      Ok (mkRandomList values random).

Definition validateRandomListJSON (raw : RawMessage) : result unit :=
  only_error (parseRandomListJSON raw).

Definition randomListLiteral (nodeType : string) (raw : RawMessage) : result string :=
  if is_null raw then Ok "nullptr"
  else
    value ← parseRandomListJSON raw;
    let values := map int_text (rl_Values value) in
    let indices := map (fun item =>
      if is_null item then "-1" else Itoa (int_value item)) (rl_Random value) in
    let builder :=
      if bool_decide (nodeType = "Node*") then "__build_random_list_node"
      else "__build_random_list" in
    Ok (builder +:+ "(vector<int>{" +:+ Join values "," +:+ "}, vector<int>{" +:+
        Join indices "," +:+ "})").

(** The object text of two arrays. *)
Definition two_arrays (k1 : string) (l1 : list string) (k2 : string) (l2 : list string) : string :=
  "{" +:+ quoted k1 +:+ ":[" +:+ Join l1 "," +:+ "]," +:+
  quoted k2 +:+ ":[" +:+ Join l2 "," +:+ "]}".

Definition canonicalRandomListJSON (raw : RawMessage) : result string :=
  if is_null raw then Ok "null"
  else
    value ← parseRandomListJSON raw;
    if bool_decide (rl_Values value = []) then Ok "null"
    else
      let values := map int_text (rl_Values value) in
      let indices := map (fun item =>
        if is_null item then "null" else Itoa (int_value item)) (rl_Random value) in
      Ok (two_arrays "values" values "random" indices).

(** ** runtime.go: trees *)

Definition treeLiteral (raw : RawMessage) : result string :=
  if is_null raw then Ok "nullptr"
  else
    values ← arrayValues raw;
    literals ← imapM (fun i value =>
      if is_null value then Ok "nullopt"
      else
        literal ← wrap_err (at_value "tree value" i) (integerLiteral 32 value);
        Ok ("optional<int>(" +:+ literal +:+ ")")) values;
    Ok ("__build_tree(vector<optional<int>>{" +:+ Join literals "," +:+ "})").

(** [values[:last+1]]: the values without the trailing nulls. *)
Fixpoint drop_last_nulls (values : list RawMessage) : list RawMessage :=
  match values with
  | [] => []
  | v :: values' =>
      match drop_last_nulls values' with
      | [] => if is_null v then [] else [v]
      | kept => v :: kept
      end
  end.

Definition canonicalTreeJSON (raw : RawMessage) : result string :=
  if is_null raw then Ok "null"
  else
    values ← arrayValues raw;
    let kept := drop_last_nulls values in
    if bool_decide (kept = []) then Ok "null"
    else
      canonical ← imapM (fun i value =>
        if is_null value then Ok "null"
        else wrap_err (at_value "tree value" i) (integerCanonical 32 value)) kept;
      Ok ("[" +:+ Join canonical "," +:+ "]").

Definition validateTreeJSON (raw : RawMessage) : result unit := only_error (canonicalTreeJSON raw).

(** ** runtime.go: graphs *)

Record graphJSON := mkGraph {
  gr_Values : list RawMessage;
  gr_Neighbors : list (list RawMessage) }.

(** The neighbours of a node, as the loops read them. *)
Definition neighbors_of (rows : list (list RawMessage)) (index : Z) : list Z :=
  map int_value (default [] (rows !! Z.to_nat index)).

(** The depth-first loop of [parseGraphJSON].  [pending] is the stack, its top
    first; every turn pops an entry and a row is pushed once, so the number of
    edges plus one bounds the turns. *)
Fixpoint reach_loop (neighbors : Z -> list Z) (fuel : nat) (reachable : list bool)
    (pending : list Z) : option (list bool) :=
  match pending with
  | [] => Some reachable
  | index :: pending =>
      match fuel with
      | O => None
      | S fuel' =>
          if default false (reachable !! Z.to_nat index)
          then reach_loop neighbors fuel' reachable pending
          else reach_loop neighbors fuel' (<[Z.to_nat index := true]> reachable)
                 (rev (neighbors index) ++ pending)
      end
  end.

Definition edge_count (rows : list (list RawMessage)) : nat := sum_list_with length rows.

Definition loop_fuel_error : goerr := LibErr "graph loop".

Definition check_reachable (graph : graphJSON) : result unit :=
  match reach_loop (neighbors_of (gr_Neighbors graph)) (S (edge_count (gr_Neighbors graph)))
          (replicate (length (gr_Values graph)) false) [0%Z] with
  | None => Err loop_fuel_error
  | Some reachable =>
      iterM (fun i (isReachable : bool) =>
        fail_if negb isReachable
        with Errorf "graph node %d is unreachable from root" [FInt (Z.of_nat i)];; Ok tt) reachable
  end.

Definition check_neighbors (n : nat) (rows : list (list RawMessage)) : result unit :=
  iterM (fun i neighbors => iterM (fun j neighbor =>
    let out := Errorf "graph neighbor %d.%d is out of range" [FInt (Z.of_nat i); FInt (Z.of_nat j)] in
    match parseInteger neighbor 32 with
    | Ok index => if in_range n index then Ok tt else Err out
    | Err _ => Err out
    end) neighbors) rows.

Definition parseGraphJSON (raw : RawMessage) : result graphJSON :=
  if is_null raw then Ok (mkGraph [] [])
  else
    object ← required_object "expected graph object" raw;
    valuesRaw ← required_field "graph values are required" "values" object;
    neighborsRaw ← required_field "graph neighbors are required" "neighbors" object;
    values ← wrap_err (fun _ => Errorf "graph values must be an array" [])
      (Unmarshal_array valuesRaw);
    neighbors ← wrap_err (fun _ => Errorf "graph neighbors must be an array" [])
      (Unmarshal_matrix neighborsRaw);
    fail_if negb (length values =? length neighbors)%nat
    with Errorf "graph values and neighbors lengths must match" [];;
    iterM (fun i value =>
      wrap_err (at_value "graph value" i) (only_error (integerCanonical 32 value))) values;;
    check_neighbors (length values) neighbors;;
    let graph := mkGraph values neighbors in
    if bool_decide (values = []) then Ok graph else check_reachable graph;; Ok graph.

Definition validateGraphJSON (raw : RawMessage) : result unit := only_error (parseGraphJSON raw).

Definition graphLiteral (nodeType : string) (raw : RawMessage) : result string :=
  if is_null raw then Ok "nullptr"
  else
    graph ← parseGraphJSON raw;
    let values := map int_text (gr_Values graph) in
    let neighborRows := map (fun neighbors =>
      "vector<int>{" +:+ Join (map (fun x => Itoa (int_value x)) neighbors) "," +:+ "}")
      (gr_Neighbors graph) in
    let builder :=
      if bool_decide (nodeType = "GraphNode*") then "__build_graph"
      else "__build_graph_" +:+ TrimSuffix nodeType "*" in
    Ok (builder +:+ "(vector<int>{" +:+ Join values "," +:+ "}, vector<vector<int>>{" +:+
        Join neighborRows "," +:+ "})").

(** One neighbour of the breadth-first loop of [canonicalGraphJSON]. *)
Definition visit (state : list Z * gmap Z Z) (index : Z) : list Z * gmap Z Z :=
  let '(order, canonicalIndexes) := state in
  match canonicalIndexes !! index with
  | Some _ => state
  | None => (order ++ [index], <[index := Z.of_nat (length order)]> canonicalIndexes)
  end.

(** The loop over [cursor]; each node enters [order] once, so the number of
    nodes plus one bounds the turns. *)
Fixpoint order_loop (neighbors : Z -> list Z) (fuel : nat) (state : list Z * gmap Z Z)
    (cursor : nat) : option (list Z * gmap Z Z) :=
  match fst state !! cursor with
  | None => Some state
  | Some node =>
      match fuel with
      | O => None
      | S fuel' => order_loop neighbors fuel' (foldl visit state (neighbors node)) (S cursor)
      end
  end.

Definition canonical_order (graph : graphJSON) : option (list Z * gmap Z Z) :=
  order_loop (neighbors_of (gr_Neighbors graph)) (S (length (gr_Values graph)))
    ([0%Z], {[0%Z := 0%Z]}) 0.

Definition canonicalGraphJSON (raw : RawMessage) : result string :=
  if is_null raw then Ok "null"
  else
    graph ← parseGraphJSON raw;
    if bool_decide (gr_Values graph = []) then Ok "null"
    else
      match canonical_order graph with
      | None => Err loop_fuel_error
      | Some (order, canonicalIndexes) =>
          let values := map (fun originalIndex =>
            int_text (default "" (gr_Values graph !! Z.to_nat originalIndex))) order in
          let rows := map (fun originalIndex =>
            "[" +:+ Join (map (fun neighbor =>
              Itoa (default 0%Z (canonicalIndexes !! neighbor)))
              (neighbors_of (gr_Neighbors graph) originalIndex)) "," +:+ "]") order in
          Ok (two_arrays "values" values "neighbors" rows)
      end.

(** ** The built-in runtime types and the registry *)

Definition identityPostcondition (functionName kind valueExpression otherExpression : string)
    : result string :=
  if bool_decide (kind = "disjoint") then
    Ok (functionName +:+ "(" +:+ valueExpression +:+ ", " +:+ otherExpression +:+ ")")
  else if bool_decide (kind = "same_as") then
    Ok ("(" +:+ valueExpression +:+ " == " +:+ otherExpression +:+ ")")
  else Err (Errorf "unsupported postcondition %q" [FStr kind]).

Definition listNodeAdapter : RuntimeAdapter :=
  mkRuntime "ListNode*" "ListNode*" listLiteral "__serialize" None
    validateListJSON canonicalListJSON listNodeSupportSource
    (Some (identityPostcondition "__disjoint")).

Definition randomListNodeAdapter (name : string) : RuntimeAdapter :=
  mkRuntime name name (randomListLiteral name) "__serialize" None
    validateRandomListJSON canonicalRandomListJSON randomListSupportSource
    (Some (identityPostcondition "__disjoint")).

Definition treeNodeAdapter : RuntimeAdapter :=
  mkRuntime "TreeNode*" "TreeNode*" treeLiteral "__serialize" None
    validateTreeJSON canonicalTreeJSON treeNodeSupportSource
    (Some (identityPostcondition "__disjoint")).

Definition graphNodeAdapter (name : string) : RuntimeAdapter :=
  mkRuntime name name (graphLiteral name) "__serialize" None
    validateGraphJSON canonicalGraphJSON graphNodeSupportSource
    (Some (identityPostcondition "__disjoint")).

Definition AdapterFactory : Type := list Adapter -> result Adapter.

Record Registry := mkRegistry {
  reg_adapters : gmap string Adapter;
  reg_factories : gmap string AdapterFactory }.

Definition NewRegistry (adapters : list Adapter) : Registry :=
  mkRegistry (foldl (fun m a => <[Adapter_CanonicalName a := a]> m) ∅ adapters) ∅.

Definition RegisterAdapter (r : Registry) (adapter : Adapter) : result Registry :=
  let name := Adapter_CanonicalName adapter in
  fail_if bool_decide (name = "")
  with Errorf "type adapter and canonical name are required" [];;
  match reg_adapters r !! name with
  | Some _ => Err (Errorf "type adapter %q is already registered" [FStr name])
  | None => Ok (mkRegistry (<[name := adapter]> (reg_adapters r)) (reg_factories r))
  end.

Definition RegisterFactory (r : Registry) (name : string) (factory : AdapterFactory)
    : result Registry :=
  fail_if bool_decide (name = "")
  with Errorf "type factory name and factory are required" [];;
  match reg_factories r !! name with
  | Some _ => Err (Errorf "type factory %q is already registered" [FStr name])
  | None => Ok (mkRegistry (reg_adapters r) (<[name := factory]> (reg_factories r)))
  end.

Definition vectorFactory : AdapterFactory := fun arguments =>
  match arguments with
  | [element] => Ok (vectorAdapter element)
  | _ => Err (Errorf "vector requires exactly one type argument" [])
  end.

Definition optionalFactory : AdapterFactory := fun arguments =>
  match arguments with
  | [element] => Ok (optionalAdapter element)
  | _ => Err (Errorf "optional requires exactly one type argument" [])
  end.

Section Registry.
Context `{Float64} `{UnicodeTables}.

Definition builtin_adapters : list Adapter :=
  [scalarAdapter "int" "int" (integerLiteral 32) (integerCanonical 32);
   scalarAdapter "long long" "long long" (integerLiteral 64) (integerCanonical 64);
   scalarAdapter "double" "double" floatingLiteral floatingCanonical;
   scalarAdapter "bool" "bool" booleanLiteral booleanCanonical;
   scalarAdapter "string" "string" stringLiteral stringCanonical;
   voidAdapter;
   runtimeAdapter listNodeAdapter;
   runtimeAdapter (randomListNodeAdapter "RandomListNode*");
   runtimeAdapter (randomListNodeAdapter "Node*");
   runtimeAdapter treeNodeAdapter;
   runtimeAdapter (graphNodeAdapter "GraphNode*")].

(** [DefaultRegistry]; an error of [RegisterFactory] is a panic. *)
Definition DefaultRegistry : result Registry :=
  registry ← RegisterFactory (NewRegistry builtin_adapters) "vector" vectorFactory;
  RegisterFactory registry "optional" optionalFactory.

(** The registry of a caller of [DefaultRegistry]; that it is not the error
    branch is [DefaultRegistry_default] of Resolved.v. *)
Definition default_registry : Registry := or_zero (mkRegistry ∅ ∅) DefaultRegistry.

Definition unsupported_type (ref : TypeRef) : goerr :=
  Errorf "unsupported C++ type %q" [FStr (CanonicalName ref)].

Fixpoint resolveRef (r : Registry) (ref : TypeRef) : result Adapter :=
  match tr_Arguments ref with
  | [] =>
      match reg_adapters r !! CanonicalName ref with
      | Some adapter => Ok adapter
      | None => Err (unsupported_type ref)
      end
  | args =>
      match reg_factories r !! tr_Name ref with
      | None => Err (unsupported_type ref)
      | Some factory =>
          arguments ←
            (fix resolve_all (l : list TypeRef) : result (list Adapter) :=
               match l with
               | [] => Ok []
               | a :: l' => x ← resolveRef r a; xs ← resolve_all l'; Ok (x :: xs)
               end) args;
          factory arguments
      end
  end.

Definition Resolve (r : Registry) (declaredType : string) : result Adapter :=
  ref ← wrap_err (fun e => Errorf "invalid C++ type %q: %w" [FStr declaredType; FErr e])
    (Parse declaredType);
  resolveRef r ref.

Definition Registry_CanonicalJSON (r : Registry) (declaredType : string) (raw : RawMessage)
    : result string :=
  adapter ← Resolve r declaredType; CanonicalJSON adapter raw.

Definition CanonicalUnorderedArrayJSON (r : Registry) (declaredType : string) (raw : RawMessage)
    : result string :=
  adapter ← Resolve r declaredType;
  match adapter with
  | vectorAdapter element => CanonicalUnorderedJSON element raw
  | _ => Err (Errorf "C++ type %q is not a vector" [FStr declaredType])
  end.
End Registry.

(** The loop of [SupportSource]: each non-empty source once, in order. *)
Fixpoint support_sources (seen : gset string) (adapters : list Adapter) : list string :=
  match adapters with
  | [] => []
  | adapter :: adapters' =>
      match Adapter_SupportSource adapter with
      | None => support_sources seen adapters'
      | Some source =>
          if bool_decide (source = "") || bool_decide (source ∈ seen)
          then support_sources seen adapters'
          else source :: support_sources ({[source]} ∪ seen) adapters'
      end
  end.

(** [Registry.SupportSource]: of the registered adapters, by name, when none
    is selected. *)
Definition SupportSource (r : Registry) (selected : list Adapter) : string :=
  let adapters :=
    if bool_decide (length selected = 0)%nat then
      omap (fun key => reg_adapters r !! key) (sort_Strings (map_to_list (reg_adapters r)).*1)
    else selected in
  Join (support_sources ∅ adapters) newline.
