(* ===== verification/Graphs.v ===== *)
(** * Graph canonicalisation: the two loops of parseGraphJSON and
    canonicalGraphJSON

    The depth-first loop finds exactly the nodes reachable from node 0, and
    the breadth-first loop numbers the nodes of a reachable graph one by one.
    A graph here is its values and its rows of neighbours as integers. *)

From S2P Require Import Prelude Adapters.

(** Nodes are [0 .. n-1]. *)
Definition node (n : nat) (i : Z) : Prop := (0 <= i < Z.of_nat n)%Z.

Lemma elem_of_rev {A} (x : A) l : x ∈ rev l <-> x ∈ l.
Proof. rewrite !list_elem_of_In. symmetry. apply in_rev. Qed.

Section Traversal.
Context (neighbors : Z -> list Z) (n : nat).
Hypothesis closed : forall i j, node n i -> j ∈ neighbors i -> node n j.

Definition edge (i j : Z) : Prop := j ∈ neighbors i.
Definition reaches (i : Z) : Prop := rtc edge 0%Z i.

(** ** The depth-first loop *)

Definition visited (reachable : list bool) (i : Z) : Prop :=
  reachable !! Z.to_nat i = Some true.

(** Edges out of nodes that are not visited yet. *)
Fixpoint weight_from (i : Z) (reachable : list bool) : nat :=
  match reachable with
  | [] => 0
  | b :: l => (if b then 0 else length (neighbors i)) + weight_from (i + 1) l
  end.

Lemma weight_visit reachable k i :
  reachable !! k = Some false ->
  weight_from i reachable =
    (length (neighbors (i + Z.of_nat k)) + weight_from i (<[k := true]> reachable))%nat.
Proof.
  revert k i. induction reachable as [|b l IH]; intros k i; [done|].
  destruct k as [|k]; cbn.
  - intros [= ->]. by rewrite Z.add_0_r.
  - intros Hk. rewrite (IH k (i + 1)%Z Hk).
    replace (i + 1 + Z.of_nat k)%Z with (i + Z.of_nat (S k))%Z by lia. apply Nat.add_shuffle3.
Qed.

Record reach_inv (reachable : list bool) (pending : list Z) : Prop := {
  ri_length : length reachable = n;
  ri_pending : Forall (node n) pending;
  ri_sound : forall i, node n i -> visited reachable i \/ i ∈ pending -> reaches i;
  ri_closed : forall i j, node n i -> visited reachable i -> edge i j ->
    visited reachable j \/ j ∈ pending;
  ri_root : visited reachable 0%Z \/ 0%Z ∈ pending }.

Lemma visited_insert reachable i j :
  node n i -> node n j -> length reachable = n ->
  visited (<[Z.to_nat i := true]> reachable) j <-> j = i \/ visited reachable j.
Proof.
  intros Hi Hj Hl. unfold node in Hi, Hj. rewrite /visited.
  destruct (decide (j = i)) as [->|Hne].
  - rewrite list_lookup_insert_eq; [lia|]. split; auto.
  - rewrite list_lookup_insert_ne; [lia|]. split; [auto|by intros [|]].
Qed.

Lemma reach_loop_total fuel reachable pending :
  reach_inv reachable pending ->
  (length pending + weight_from 0 reachable <= fuel)%nat ->
  exists reachable', reach_loop neighbors fuel reachable pending = Some reachable' /\
    reach_inv reachable' [].
Proof.
  revert reachable pending. induction fuel as [|fuel IH]; intros reachable pending Hinv Hf.
  { destruct pending; [|cbn in Hf; lia]. by eexists. }
  destruct pending as [|index pending]; cbn [reach_loop]; [by eexists|].
  destruct Hinv as [Hl Hp Hs Hc Hr]. apply Forall_cons in Hp as [Hi Hp].
  destruct (reachable !! Z.to_nat index) as [b|] eqn:Hb.
  2:{ exfalso. apply lookup_ge_None in Hb. unfold node in Hi. lia. }
  destruct b; cbn [default].
  - apply IH; [|cbn in Hf; lia].
    assert (visited reachable index) as Hv by done.
    split; [done|done| | |].
    + intros i Hni [Hvi|Hin]; apply Hs; auto. right. by right.
    + intros i j Hni Hvi He. destruct (Hc i j Hni Hvi He) as [|[->|]%elem_of_cons]; auto.
    + destruct Hr as [|[->|]%elem_of_cons]; auto.
  - assert (reaches index) as Hreach by (apply Hs; [done|]; right; by left).
    pose proof (fun j Hj => visited_insert reachable index j Hi Hj Hl) as Hvis.
    apply IH.
    + split.
      * by rewrite length_insert.
      * apply Forall_app. split; [|done]. apply Forall_forall. intros j Hj.
        rewrite elem_of_rev in Hj. by apply (closed index).
      * intros i Hni [Hv|[Hin|Hin]%elem_of_app].
        -- apply Hvis in Hv as [->|]; [done| |done]. apply Hs; auto.
        -- rewrite elem_of_rev in Hin. by apply rtc_r with index.
        -- apply Hs; [done|]. right. by right.
      * intros i j Hni Hv He. assert (node n j) as Hnj by (by apply (closed i)).
        apply Hvis in Hv as [->|Hv]; [| |done].
        -- right. apply elem_of_app. left. by rewrite elem_of_rev.
        -- destruct (Hc i j Hni Hv He) as [|[->|]%elem_of_cons].
           ++ left. apply Hvis; auto.
           ++ left. apply Hvis; auto.
           ++ right. apply elem_of_app. by right.
      * assert (node n 0%Z) as H0 by (unfold node in *; lia).
        destruct Hr as [|[->|]%elem_of_cons].
        -- left. apply Hvis; auto.
        -- left. apply Hvis; auto.
        -- right. apply elem_of_app. by right.
    + pose proof (weight_visit reachable (Z.to_nat index) 0 Hb) as Hw.
      rewrite Z2Nat.id in Hw; [unfold node in Hi; lia|].
      rewrite length_app length_rev. cbn in Hf. replace (0 + index)%Z with index in Hw by lia. lia.
Qed.

Lemma reach_inv_end reachable :
  reach_inv reachable [] -> forall i, node n i -> (visited reachable i <-> reaches i).
Proof.
  intros [Hl _ Hs Hc Hr] i Hi. split; [intros; apply Hs; auto|].
  intros Hreach. assert (node n 0%Z) as H0 by (unfold node in *; lia).
  assert (forall j, rtc edge 0%Z j -> node n j /\ visited reachable j) as Hall; [|by apply Hall].
  apply (rtc_ind_r (fun j => node n j /\ visited reachable j)).
  - split; [done|]. by destruct Hr as [|?%elem_of_nil].
  - intros j k _ He [Hj Hv]. split; [by apply (closed j)|].
    by destruct (Hc j k Hj Hv He) as [|?%elem_of_nil].
Qed.

(** ** The breadth-first loop *)

Record numbering (order : list Z) (index : gmap Z Z) : Prop := {
  nb_nodes : Forall (node n) order;
  nb_nodup : NoDup order;
  nb_index : forall x k, index !! x = Some k <-> (0 <= k)%Z /\ order !! Z.to_nat k = Some x;
  nb_root : order !! 0%nat = Some 0%Z;
  nb_sound : Forall reaches order }.

Lemma numbering_mem order index x :
  numbering order index -> (is_Some (index !! x) <-> x ∈ order).
Proof.
  intros Hnb. split.
  - intros [k Hk]. apply (nb_index _ _ Hnb) in Hk as [_ Hk]. by apply list_elem_of_lookup_2 in Hk.
  - intros [k Hk]%list_elem_of_lookup_1. exists (Z.of_nat k). apply (nb_index _ _ Hnb).
    split; [lia|by rewrite Nat2Z.id].
Qed.

Lemma visit_numbering order index x :
  numbering order index -> node n x -> reaches x ->
  exists new, fst (visit (order, index) x) = order ++ new /\
    numbering (fst (visit (order, index) x)) (snd (visit (order, index) x)) /\
    x ∈ fst (visit (order, index) x).
Proof.
  intros Hnb Hx Hr. rewrite /visit. destruct (index !! x) as [k|] eqn:Ek; cbn [fst snd].
  - exists []. rewrite app_nil_r. split_and!; [done..|]. by eapply numbering_mem; eauto.
  - assert (x ∉ order) as Hnew.
    { intros Hin. apply (numbering_mem _ _ x Hnb) in Hin as [k Hk]. congruence. }
    exists [x]. split_and!; [done| |apply elem_of_app; right; by left].
    destruct Hnb as [Hn Hd Hi H0 Hs]. split.
    + apply Forall_app. split; [done|by apply Forall_singleton].
    + apply NoDup_app. split_and!; [done| |by apply NoDup_singleton].
      by intros y Hy ->%list_elem_of_singleton.
    + intros y k. rewrite lookup_insert. case_decide as Hxy.
      * subst y. split.
        -- intros [= <-]. split; [lia|]. rewrite Nat2Z.id lookup_app_r // Nat.sub_diag //.
        -- intros [Hk Hl]. f_equal. apply lookup_app_Some in Hl as [Hl|[Hge Hl]].
           ++ by apply list_elem_of_lookup_2 in Hl.
           ++ apply lookup_lt_Some in Hl. cbn in Hl. lia.
      * rewrite Hi. split; intros [Hk Hl]; (split; [done|]).
        -- by apply lookup_app_l_Some.
        -- apply lookup_app_Some in Hl as [|[_ Hl]]; [done|].
           destruct (_ - _)%nat; cbn in Hl; [congruence|done].
    + by apply lookup_app_l_Some.
    + apply Forall_app. split; [done|by apply Forall_singleton].
Qed.

Lemma visits_numbering ns order index :
  numbering order index -> Forall (node n) ns -> Forall reaches ns ->
  exists new, fst (foldl visit (order, index) ns) = order ++ new /\
    numbering (fst (foldl visit (order, index) ns)) (snd (foldl visit (order, index) ns)) /\
    forall x, x ∈ ns -> x ∈ fst (foldl visit (order, index) ns).
Proof.
  revert order index. induction ns as [|x ns IH]; intros order index Hnb Hn Hr.
  { exists []. rewrite app_nil_r. split_and!; [done..|]. by intros x ?%elem_of_nil. }
  apply Forall_cons in Hn as [Hx Hn]. apply Forall_cons in Hr as [Hrx Hr]. cbn [foldl].
  destruct (visit_numbering order index x Hnb Hx Hrx) as (new1 & E1 & Hnb1 & Hin1).
  destruct (visit (order, index) x) as [order1 index1]. cbn [fst snd] in *.
  destruct (IH order1 index1 Hnb1 Hn Hr) as (new2 & E2 & Hnb2 & Hin2).
  exists (new1 ++ new2). rewrite E2 E1 app_assoc. split_and!; [done|by rewrite -E1 -E2|].
  intros y [->|Hy]%elem_of_cons.
  - rewrite -E1. apply elem_of_app. by left.
  - rewrite -E1 -E2. by apply Hin2.
Qed.

(** The nodes before the cursor have their neighbours in the order. *)
Definition expanded (order : list Z) (cursor : nat) : Prop :=
  forall c x y, (c < cursor)%nat -> order !! c = Some x -> edge x y -> y ∈ order.

Lemma numbering_length order index : numbering order index -> (length order <= n)%nat.
Proof.
  intros [Hn Hd _ _ _]. assert (order ⊆+ seqZ 0 (Z.of_nat n)) as Hsub.
  { apply NoDup_submseteq; [done|]. intros x Hx. rewrite Forall_forall in Hn.
    apply elem_of_seqZ. specialize (Hn x Hx). unfold node in Hn. lia. }
  apply submseteq_length in Hsub. rewrite length_seqZ in Hsub. lia.
Qed.

Lemma order_loop_total fuel order index cursor :
  numbering order index -> expanded order cursor -> (cursor <= length order)%nat ->
  (n < fuel + cursor)%nat ->
  exists order' index', order_loop neighbors fuel (order, index) cursor = Some (order', index') /\
    numbering order' index' /\ expanded order' (length order').
Proof.
  revert order index cursor. induction fuel as [|fuel IH]; intros order index cursor Hnb He Hc Hf.
  { pose proof (numbering_length _ _ Hnb). lia. }
  cbn [order_loop fst]. destruct (order !! cursor) as [x|] eqn:Ex.
  - assert (x ∈ order) as Hxin by (by apply list_elem_of_lookup_2 in Ex).
    assert (node n x /\ reaches x) as [Hx Hrx].
    { split; [by eapply Forall_forall, Hxin; apply (nb_nodes _ _ Hnb)|].
      by eapply Forall_forall, Hxin; apply (nb_sound _ _ Hnb). }
    assert (Forall (node n) (neighbors x)) as Hns
      by (apply Forall_forall; intros y Hy; by apply (closed x)).
    assert (Forall reaches (neighbors x)) as Hrs
      by (apply Forall_forall; intros y Hy; by apply rtc_r with x).
    destruct (visits_numbering _ _ _ Hnb Hns Hrs) as (new & Enew & Hnb' & Hin).
    destruct (foldl visit (order, index) (neighbors x)) as [order1 index1]. cbn [fst snd] in *.
    apply lookup_lt_Some in Ex as Hlt. apply IH; [done| |rewrite Enew length_app; lia|lia].
    intros c y z Hcc Hy Hyz. rewrite Enew in Hy. destruct (decide (c = cursor)) as [->|].
    + rewrite lookup_app_l // Ex in Hy. injection Hy as <-. by apply Hin.
    + rewrite lookup_app_l in Hy; [lia|]. rewrite Enew. apply elem_of_app. left.
      by apply (He c y z); [lia| |].
  - apply lookup_ge_None in Ex. exists order, index. split_and!; [done..|].
    intros c x y Hcc. apply He. lia.
Qed.

Lemma numbering_start : node n 0%Z -> numbering [0%Z] {[0%Z := 0%Z]}.
Proof.
  intros H0. split.
  - by apply Forall_singleton.
  - apply NoDup_singleton.
  - intros x k. rewrite lookup_singleton. case_decide as Hx.
    + subst x. split; [intros [= <-]; by split|]. intros [Hk Hl]. f_equal.
      apply lookup_lt_Some in Hl. cbn in Hl. lia.
    + split; [done|]. intros [Hk Hl]. destruct (Z.to_nat k); [cbn in Hl; congruence|done].
  - done.
  - by repeat constructor.
Qed.

(** A reachable graph: the order is the nodes, each once, root first. *)
Lemma order_loop_spec :
  node n 0%Z -> (forall i, node n i -> reaches i) ->
  exists order index,
    order_loop neighbors (S n) ([0%Z], {[0%Z := 0%Z]}) 0 = Some (order, index) /\
    numbering order index /\ (forall i, node n i -> i ∈ order) /\ length order = n.
Proof.
  intros H0 Hreach.
  destruct (order_loop_total (S n) [0%Z] {[0%Z := 0%Z]} 0) as (order & index & E & Hnb & Hexp);
    [by apply numbering_start|intros c x y Hc; lia|cbn; lia|lia|].
  assert (forall i, node n i -> i ∈ order) as Hall.
  { intros i Hi. specialize (Hreach i Hi). clear Hi. revert i Hreach.
    apply (rtc_ind_r (fun i => i ∈ order)).
    - eapply list_elem_of_lookup_2, (nb_root _ _ Hnb).
    - intros j k _ He [c Hc]%list_elem_of_lookup_1. eapply Hexp, He; [|exact Hc].
      by apply lookup_lt_Some in Hc. }
  exists order, index. split_and!; [done..|].
  apply Nat.le_antisymm; [by eapply numbering_length|].
  assert (seqZ 0 (Z.of_nat n) ⊆+ order) as Hsub.
  { apply NoDup_submseteq; [apply NoDup_seqZ|]. intros x Hx%elem_of_seqZ. apply Hall. unfold node. lia. }
  apply submseteq_length in Hsub. rewrite length_seqZ in Hsub. lia.
Qed.
End Traversal.

(** ** Renumbering *)

Section Relabel.
Context (neighbors1 neighbors2 : Z -> list Z) (n : nat) (f : Z -> Z).
Hypothesis closed1 : forall i j, node n i -> j ∈ neighbors1 i -> node n j.
Hypothesis f_inj : forall i j, node n i -> node n j -> f i = f j -> i = j.
Hypothesis f_neighbors : forall i, node n i -> neighbors2 (f i) = map f (neighbors1 i).

(** Two states of the loop, one the image of the other. *)
Definition image (s1 s2 : list Z * gmap Z Z) : Prop :=
  fst s2 = map f (fst s1) /\ Forall (node n) (fst s1) /\
  forall x, node n x -> snd s2 !! f x = snd s1 !! x.

Lemma visit_image s1 s2 x :
  image s1 s2 -> node n x -> image (visit s1 x) (visit s2 (f x)).
Proof.
  destruct s1 as [o1 i1], s2 as [o2 i2]. intros (E & Hn & Hi) Hx. cbn in E, Hn, Hi.
  rewrite /visit Hi //. destruct (i1 !! x); [done|]. subst o2. rewrite length_map.
  split_and!; cbn.
  - by rewrite map_app.
  - apply Forall_app. split; [done|by apply Forall_singleton].
  - intros y Hy. rewrite !lookup_insert.
    case_decide as Hf; case_decide as Hxy; [done| |congruence|by apply Hi].
    by apply f_inj in Hf.
Qed.

Lemma visits_image s1 s2 xs :
  image s1 s2 -> Forall (node n) xs -> image (foldl visit s1 xs) (foldl visit s2 (map f xs)).
Proof.
  intros Hi Hxs. revert s1 s2 Hi. induction Hxs as [|x xs Hx _ IH]; intros s1 s2 Hi; [done|].
  by apply IH, visit_image.
Qed.

Lemma order_loop_image fuel s1 s2 cursor t1 :
  image s1 s2 -> order_loop neighbors1 fuel s1 cursor = Some t1 ->
  exists t2, order_loop neighbors2 fuel s2 cursor = Some t2 /\ image t1 t2.
Proof.
  revert s1 s2 cursor. induction fuel as [|fuel IH]; intros s1 s2 cursor Hi; cbn [order_loop];
    pose proof Hi as (E & Hn & _); rewrite E list_lookup_fmap;
    (destruct (fst s1 !! cursor) as [x|] eqn:Ex; [|intros [= <-]; by exists s2]); [done|].
  cbn [fmap option_fmap option_map]. intros Hl.
  assert (node n x) as Hx by (by eapply Forall_lookup_1).
  rewrite f_neighbors //. eapply IH, Hl. apply visits_image; [done|].
  apply Forall_forall. intros y Hy. by apply (closed1 x).
Qed.
End Relabel.

(** ** Graphs of integers *)

Record igraph := mkIGraph { ig_values : list Z; ig_rows : list (list Z) }.

Definition ig_size (g : igraph) : nat := length (ig_values g).
Definition ig_neighbors (g : igraph) (i : Z) : list Z := default [] (ig_rows g !! Z.to_nat i).

(** What [parseGraphJSON] accepts, as a graph: rows for every node, edges to
    nodes, every node reachable from the root. *)
Record ig_valid (g : igraph) : Prop := {
  iv_rows : length (ig_rows g) = ig_size g;
  iv_edges : Forall (Forall (node (ig_size g))) (ig_rows g);
  iv_reach : forall i, node (ig_size g) i -> reaches (ig_neighbors g) i }.

(** [f] renumbers [g1] into [g2], keeping the root, the values and the order of
    the neighbours. *)
Record ig_iso (f : Z -> Z) (g1 g2 : igraph) : Prop := {
  ii_size : ig_size g2 = ig_size g1;
  ii_root : f 0%Z = 0%Z;
  ii_node : forall i, node (ig_size g1) i -> node (ig_size g1) (f i);
  ii_inj : forall i j, node (ig_size g1) i -> node (ig_size g1) j -> f i = f j -> i = j;
  ii_values : forall i, node (ig_size g1) i ->
    ig_values g2 !! Z.to_nat (f i) = ig_values g1 !! Z.to_nat i;
  ii_neighbors : forall i, node (ig_size g1) i ->
    ig_neighbors g2 (f i) = map f (ig_neighbors g1 i) }.

Definition ig_order (g : igraph) : option (list Z * gmap Z Z) :=
  order_loop (ig_neighbors g) (S (ig_size g)) ([0%Z], {[0%Z := 0%Z]}) 0.

(** The graph whose text [canonicalGraphJSON] prints. *)
Definition ig_canonical (g : igraph) : igraph :=
  match ig_order g with
  | None => g
  | Some (order, index) =>
      mkIGraph (map (fun o => default 0%Z (ig_values g !! Z.to_nat o)) order)
        (map (fun o => map (fun x => default 0%Z (index !! x)) (ig_neighbors g o)) order)
  end.

Lemma ig_closed g : ig_valid g ->
  forall i j, node (ig_size g) i -> j ∈ ig_neighbors g i -> node (ig_size g) j.
Proof.
  intros Hg i j Hi Hj. rewrite /ig_neighbors in Hj.
  destruct (ig_rows g !! Z.to_nat i) as [row|] eqn:E; [|by apply elem_of_nil in Hj].
  eapply Forall_lookup_1 in E; [|apply (iv_edges _ Hg)]. by eapply Forall_forall.
Qed.

Section Canonical.
Context (g : igraph) (Hvalid : ig_valid g) (Hsize : ig_size g <> 0%nat).

Lemma ig_root_node : node (ig_size g) 0%Z.
Proof. unfold node. lia. Qed.

Lemma ig_order_spec :
  exists order index, ig_order g = Some (order, index) /\
    numbering (ig_neighbors g) (ig_size g) order index /\
    (forall i, node (ig_size g) i -> i ∈ order) /\ length order = ig_size g.
Proof.
  apply order_loop_spec; [by apply ig_closed|apply ig_root_node|apply (iv_reach _ Hvalid)].
Qed.

(** A numbering of all the nodes, and the graph renumbered by it. *)
Section Numbered.
Context (order : list Z) (index : gmap Z Z).
Context (Hnb : numbering (ig_neighbors g) (ig_size g) order index).
Context (Hall : forall i, node (ig_size g) i -> i ∈ order) (Hlen : length order = ig_size g).
Context (Hcanonical : ig_order g = Some (order, index)).

Definition number_of (x : Z) : Z := default 0%Z (index !! x).
Definition old_of (k : Z) : Z := default 0%Z (order !! Z.to_nat k).

Lemma number_of_node x :
  node (ig_size g) x -> node (ig_size g) (number_of x) /\ order !! Z.to_nat (number_of x) = Some x.
Proof.
  intros Hx. destruct (proj2 (numbering_mem _ _ _ _ x Hnb) (Hall x Hx)) as [k Hk].
  unfold number_of. rewrite Hk. apply (nb_index _ _ _ _ Hnb) in Hk as [Hk0 Hk].
  split; [|done]. apply lookup_lt_Some in Hk. unfold node. cbn. lia.
Qed.

Lemma old_of_node k :
  node (ig_size g) k -> node (ig_size g) (old_of k) /\ number_of (old_of k) = k /\
    order !! Z.to_nat k = Some (old_of k).
Proof.
  intros Hk. destruct (order !! Z.to_nat k) as [x|] eqn:Ex.
  - unfold old_of. rewrite Ex. cbn. split_and!; [|unfold number_of|done].
    + eapply Forall_lookup_1; [apply (nb_nodes _ _ _ _ Hnb)|exact Ex].
    + assert (index !! x = Some k) as ->; [|done].
      apply (nb_index _ _ _ _ Hnb). unfold node in Hk. split; [lia|done].
  - apply lookup_ge_None in Ex. unfold node in Hk. lia.
Qed.

Lemma canonical_data x :
  node (ig_size g) x ->
  ig_values (ig_canonical g) !! Z.to_nat (number_of x) = ig_values g !! Z.to_nat x /\
  ig_neighbors (ig_canonical g) (number_of x) = map number_of (ig_neighbors g x).
Proof.
  intros Hx. destruct (number_of_node x Hx) as [_ Ho]. rewrite /ig_canonical Hcanonical /ig_neighbors /=.
  rewrite !list_lookup_fmap Ho /=. split; [|done].
  destruct (ig_values g !! Z.to_nat x) eqn:Ev; [done|].
  apply lookup_ge_None in Ev. unfold node, ig_size in Hx. lia.
Qed.

Lemma canonical_size : ig_size (ig_canonical g) = ig_size g.
Proof. by rewrite /ig_canonical Hcanonical /ig_size length_map. Qed.

Lemma number_of_iso : ig_iso number_of g (ig_canonical g).
Proof.
  split; [apply canonical_size| | | | |].
  - unfold number_of. assert (index !! 0%Z = Some 0%Z) as ->; [|done].
    apply (nb_index _ _ _ _ Hnb). split; [lia|]. apply (nb_root _ _ _ _ Hnb).
  - intros i Hi. by apply number_of_node.
  - intros i j Hi Hj Hij. destruct (number_of_node i Hi) as [_ Ei], (number_of_node j Hj) as [_ Ej].
    rewrite Hij Ej in Ei. congruence.
  - intros i Hi. by apply canonical_data.
  - intros i Hi. by apply canonical_data.
Qed.

Lemma old_of_iso : ig_iso old_of (ig_canonical g) g.
Proof.
  split; rewrite ?canonical_size; [done| | | | |].
  - unfold old_of. by rewrite (nb_root _ _ _ _ Hnb).
  - intros k Hk. by apply old_of_node.
  - intros i j Hi Hj. destruct (old_of_node i Hi) as (_ & Ei & _), (old_of_node j Hj) as (_ & Ej & _).
    congruence.
  - intros k Hk. destruct (old_of_node k Hk) as (Ho & Ek & _). rewrite -{2}Ek. symmetry. by apply canonical_data.
  - intros k Hk. destruct (old_of_node k Hk) as (Ho & Ek & _).
    destruct (canonical_data (old_of k) Ho) as [_ Hn]. rewrite Ek in Hn. rewrite Hn map_map.
    rewrite -[LHS]map_id. apply map_ext_in. intros y Hy%list_elem_of_In.
    apply (ig_closed g Hvalid (old_of k)) in Hy; [|done].
    destruct (number_of_node y Hy) as [_ Hoy]. unfold old_of. by rewrite Hoy.
Qed.
End Numbered.

(** The new number of a node and the node of a new number. *)
Lemma ig_canonical_numbers :
  exists (number old : Z -> Z),
    ig_iso number g (ig_canonical g) /\ ig_iso old (ig_canonical g) g /\
    (forall k, node (ig_size g) k -> node (ig_size g) (old k) /\ number (old k) = k).
Proof.
  destruct ig_order_spec as (order & index & E & Hnb & Hall & Hlen). exists (number_of index), (old_of order).
  split_and!; [by eapply number_of_iso|by eapply old_of_iso|].
  intros k Hk. by destruct (old_of_node order index Hnb Hlen k Hk) as (? & ? & _).
Qed.
End Canonical.

(** ** Canonical forms *)

Lemma ig_iso_trans f h g1 g2 g3 :
  ig_valid g1 -> ig_iso f g1 g2 -> ig_iso h g2 g3 -> ig_iso (fun i => h (f i)) g1 g3.
Proof.
  intros Hg [Hs Hr Hn Hi Hv Hnb] [Hs' Hr' Hn' Hi' Hv' Hnb']. rewrite Hs in Hn', Hi', Hv', Hnb'. split.
  - congruence.
  - by rewrite Hr.
  - auto.
  - intros i j Hni Hnj E. apply Hi; [done..|]. apply Hi'; auto.
  - intros i Hni. rewrite Hv'; [auto|]. by apply Hv.
  - intros i Hni. rewrite Hnb'; [auto|]. rewrite Hnb // map_map //.
Qed.

(** The canonical graph is a valid graph. *)
Lemma ig_canonical_valid g :
  ig_valid g -> ig_size g <> 0%nat -> ig_valid (ig_canonical g) /\ ig_size (ig_canonical g) = ig_size g.
Proof.
  intros Hg Hne. destruct (ig_canonical_numbers g Hg Hne) as (number & old & Hi & Ho & Hon).
  destruct (ig_order_spec g Hg Hne) as (order & index & E & Hnb & Hall & Hlen).
  pose proof (ii_size _ _ _ Hi) as Es. split; [|done]. split; rewrite Es.
  - rewrite /ig_canonical E /= length_map. done.
  - apply Forall_forall. intros row [k Hk]%list_elem_of_lookup_1.
    assert (node (ig_size g) (Z.of_nat k)) as Hnk.
    { apply lookup_lt_Some in Hk. rewrite /ig_canonical E /= length_map Hlen in Hk. unfold node. lia. }
    destruct (Hon _ Hnk) as [Hold Enum].
    pose proof (ii_neighbors _ _ _ Hi _ Hold) as Hrow. rewrite Enum in Hrow.
    rewrite /ig_neighbors Nat2Z.id Hk /= in Hrow. rewrite Hrow.
    apply Forall_map, Forall_forall. intros y Hy. apply (ii_node _ _ _ Hi).
    by eapply ig_closed, Hy.
  - intros i Hni. destruct (Hon i Hni) as [Hold <-].
    assert (forall x, reaches (ig_neighbors g) x ->
      node (ig_size g) x /\ reaches (ig_neighbors (ig_canonical g)) (number x)) as Hr.
    { apply (rtc_ind_r (fun x => node (ig_size g) x /\ _)).
      - split; [by apply ig_root_node|]. rewrite (ii_root _ _ _ Hi). apply rtc_refl.
      - intros x y _ He [Hx Hrx]. split; [by eapply ig_closed|]. apply rtc_r with (number x); [done|].
        rewrite /edge (ii_neighbors _ _ _ Hi) //. by apply list_elem_of_fmap_2. }
    by apply Hr, (iv_reach _ Hg).
Qed.

(** Renumbering does not change the canonical graph. *)
Lemma ig_canonical_iso f g1 g2 :
  ig_valid g1 -> ig_size g1 <> 0%nat -> ig_iso f g1 g2 -> ig_canonical g1 = ig_canonical g2.
Proof.
  intros Hg Hne Hiso. destruct (ig_order_spec g1 Hg Hne) as (order & index & E & Hnb & Hall & Hlen).
  assert (image (ig_size g1) f ([0%Z], {[0%Z := 0%Z]}) ([0%Z], {[0%Z := 0%Z]})) as Hstart.
  { assert (node (ig_size g1) 0%Z) as H0 by (by apply ig_root_node). split_and!; cbn.
    - by rewrite (ii_root _ _ _ Hiso).
    - by apply Forall_singleton.
    - intros x Hx. rewrite !lookup_singleton. case_decide as Hf; case_decide as Hx0; try done.
      + destruct Hx0. apply (ii_inj _ _ _ Hiso); [done..|]. by rewrite (ii_root _ _ _ Hiso).
      + destruct Hf. rewrite -Hx0. symmetry. apply (ii_root _ _ _ Hiso). }
  unfold ig_order in E.
  destruct (order_loop_image (ig_neighbors g1) (ig_neighbors g2) (ig_size g1) f
    (ig_closed g1 Hg) (ii_inj _ _ _ Hiso) (ii_neighbors _ _ _ Hiso) _ _ _ _ _ Hstart E)
    as ([order2 index2] & E2 & Ho & Hon & Hidx). cbn in Ho, Hon, Hidx.
  rewrite /ig_canonical {1}/ig_order E /ig_order (ii_size _ _ _ Hiso) E2 Ho. rewrite Forall_forall in Hon.
  f_equal; rewrite map_map; apply map_ext_in; intros x Hx%list_elem_of_In; specialize (Hon x Hx).
  - by rewrite (ii_values _ _ _ Hiso).
  - rewrite (ii_neighbors _ _ _ Hiso) // map_map. apply map_ext_in. intros y Hy%list_elem_of_In.
    rewrite Hidx //. by eapply ig_closed.
Qed.

(** Two graphs have the same canonical graph exactly when one is a renumbering
    of the other. *)
Lemma ig_canonical_complete g1 g2 :
  ig_valid g1 -> ig_valid g2 -> ig_size g1 <> 0%nat -> ig_size g2 <> 0%nat ->
  (ig_canonical g1 = ig_canonical g2 <-> exists f, ig_iso f g1 g2).
Proof.
  intros H1 H2 N1 N2. split.
  - intros E. destruct (ig_canonical_numbers g1 H1 N1) as (f1 & _ & Hf1 & _).
    destruct (ig_canonical_numbers g2 H2 N2) as (_ & f2 & _ & Hf2 & _).
    rewrite -E in Hf2. eexists. by eapply ig_iso_trans.
  - intros [f Hf]. by eapply ig_canonical_iso.
Qed.

(** Canonicalising twice is canonicalising once. *)
Lemma ig_canonical_idem g :
  ig_valid g -> ig_size g <> 0%nat -> ig_canonical (ig_canonical g) = ig_canonical g.
Proof.
  intros Hg Hne. destruct (ig_canonical_numbers g Hg Hne) as (number & _ & Hi & _).
  symmetry. by eapply ig_canonical_iso.
Qed.
