(* ===== verification/AdapterLaws.v ===== *)
(** * What the adapters promise

    The contract of the [Adapter] interface as a class, and that every adapter
    the default registry resolves fulfils it; the string literal of the C++
    driver; the graphs. *)

From S2P Require Import Prelude GoStrings GoJson TypeSyntax Contracts Adapters Graphs.

(** ** The null test *)

Lemma drop_space_suffix l : exists k, l = k ++ drop_space l.
Proof.
  induction l as [|[r b] l [k IH]]; [by exists []|]. cbn.
  destruct (IsSpace r); [|by exists []]. exists ((r, b) :: k). cbn. by f_equal.
Qed.

(** Trimming keeps the start of a text that does not start with white space. *)
Lemma TrimSpace_prefix c t :
  (byte_of c < 128)%Z -> IsSpace (byte_of c) = false ->
  exists rest, String c t = TrimSpace (String c t) +:+ rest.
Proof.
  intros Hc Hs. rewrite /TrimSpace segments_1 //. cbn [drop_space]. rewrite Hs.
  set (l := (byte_of c, String c "") :: segments t).
  destruct (drop_space_suffix (rev l)) as [k Hk].
  exists (unsegment (rev k)). rewrite -unsegment_app -rev_app_distr -Hk rev_involutive.
  unfold l. rewrite -segments_1 // unsegment_segments //.
Qed.

Lemma value_text_is_null l c : value_text l c -> is_null c = true -> c = "null".
Proof.
  intros Hc Hn%bool_decide_eq_true. destruct c as [|a t].
  { by destruct (value_text_head l "" "" Hc). }
  destruct (value_text_first _ _ _ Hc) as [Ha Hs].
  destruct (TrimSpace_prefix a t Ha Hs) as [rest E]. rewrite Hn in E. rewrite E in Hc |- *.
  by rewrite (value_text_null _ _ Hc).
Qed.

(** ** The contract of an adapter *)

(** [l] is how deep its canonical texts nest. *)
Class Lawful (l : nat) (a : Adapter) : Prop := {
  lawful_literal raw : ValidateJSON a raw = Ok tt -> exists text, GenerateLiteral a raw = Ok text;
  lawful_validated raw :
    ValidateJSON a raw = Ok tt <-> exists c, CanonicalJSON a raw = Ok c;
  lawful_text raw c : CanonicalJSON a raw = Ok c -> value_text l c;
  lawful_fixed raw c :
    (l < maxNestingDepth)%nat -> CanonicalJSON a raw = Ok c -> CanonicalJSON a c = Ok c }.

Lemma only_error_Ok {A} (r : result A) : only_error r = Ok tt <-> exists a, r = Ok a.
Proof. destruct r; split; intros H; try done; [by eexists|by destruct H]. Qed.

Lemma value_text_null_intro l : value_text l "null".
Proof. exists JNull. by destruct l. Qed.

Section Laws.
Context `{Float64}.

Lemma parseInteger_range bits raw z :
  parseInteger raw bits = Ok z -> (- 2 ^ (bits - 1) <= z < 2 ^ (bits - 1))%Z.
Proof.
  rewrite /parseInteger. destruct (Unmarshal_number raw) as [s|]; [|done]. cbn.
  destruct (ParseInt s bits) eqn:E; [|done]. intros [= <-]. by eapply ParseInt_range.
Qed.

Lemma integerLiteral_Ok bits raw s :
  integerLiteral bits raw = Ok s ->
  exists z, parseInteger raw bits = Ok z /\ s = Itoa z /\ (- 2 ^ (bits - 1) <= z < 2 ^ (bits - 1))%Z.
Proof.
  rewrite /integerLiteral. intros (z & Hz & [= <-])%bind_Ok_inv. exists z.
  split_and!; [done..| |]; by apply parseInteger_range in Hz as [? ?].
Qed.

Lemma parseInteger_Itoa bits z :
  (- 2 ^ (bits - 1) <= z < 2 ^ (bits - 1))%Z -> parseInteger (Itoa z) bits = Ok z.
Proof.
  intros Hz. rewrite /parseInteger (Unmarshal_number_text _ (scan_number_Itoa z)) /=.
  by rewrite ParseInt_Itoa.
Qed.

Lemma integer_lawful bits name cppType :
  Lawful 0 (scalarAdapter name cppType (integerLiteral bits) (integerCanonical bits)).
Proof.
  split; cbn.
  - by intros raw [s Hs]%only_error_Ok; exists s.
  - intros raw. apply only_error_Ok.
  - intros raw c (z & _ & -> & _)%integerLiteral_Ok. apply value_text_Itoa.
  - intros raw c _ (z & _ & -> & Hz)%integerLiteral_Ok.
    by rewrite /integerCanonical /integerLiteral parseInteger_Itoa.
Qed.

Lemma floating_lawful name cppType :
  Lawful 0 (scalarAdapter name cppType floatingLiteral floatingCanonical).
Proof.
  assert (forall raw c, floatingLiteral raw = Ok c -> exists v, c = FormatFloat v) as Hf.
  { intros raw c. rewrite /floatingLiteral. intros Hc. ok_inv. by eexists. }
  split; cbn.
  - by intros raw [s Hs]%only_error_Ok; exists s.
  - intros raw. apply only_error_Ok.
  - intros raw c (v & ->)%Hf. apply value_text_number, FormatFloat_json.
  - intros raw c _ (v & ->)%Hf. rewrite /floatingCanonical /floatingLiteral /parseFloat.
    rewrite (Unmarshal_number_text _ (FormatFloat_json v)) /= ParseFloat_Format //.
Qed.

Lemma boolean_lawful name cppType :
  Lawful 0 (scalarAdapter name cppType booleanLiteral booleanCanonical).
Proof.
  assert (forall raw c, booleanLiteral raw = Ok c -> c = "true" \/ c = "false") as Hb.
  { intros raw c. rewrite /booleanLiteral. intros Hc. ok_inv. destruct a; auto. }
  split; cbn.
  - by intros raw [s Hs]%only_error_Ok; exists s.
  - intros raw. apply only_error_Ok.
  - intros raw c [->| ->]%Hb; [by exists (JBool true)|by exists (JBool false)].
  - intros raw c _ [->| ->]%Hb; rewrite /booleanCanonical /booleanLiteral /Unmarshal_bool /checked;
      [rewrite (value_text_scanned "true" (JBool true)) //|
       rewrite (value_text_scanned "false" (JBool false)) //];
      by destruct maxNestingDepth.
Qed.

Lemma string_lawful name cppType :
  Lawful 0 (scalarAdapter name cppType stringLiteral stringCanonical).
Proof.
  split; cbn.
  - intros raw [s Hs]%only_error_Ok. move: Hs. rewrite /stringCanonical /stringLiteral.
    destruct (Unmarshal_string raw); [|done]. by eexists.
  - intros raw. apply only_error_Ok.
  - intros raw c. rewrite /stringCanonical. intros Hc. ok_inv.
    exists (JStr (escape_segments false (segments a))). split; [|done].
    rewrite /encode_string /quoted. cbn [scan_value]. by rewrite /= encode_string_scans.
  - intros raw c _. rewrite /stringCanonical.
    destruct (Unmarshal_string raw) as [t|] eqn:E; [|done]. intros [= <-].
    rewrite Unmarshal_string_encoded /=. by rewrite (Unmarshal_string_encoded_value raw t).
Qed.

Lemma void_lawful : Lawful 0 voidAdapter.
Proof. split; cbn; try done. intros raw. split; [done|by intros []]. Qed.
End Laws.

(** ** Containers *)

(** A loop that maps each element of a list to itself. *)
Lemma imapM_fixed {A} (f : nat -> A -> result A) i l :
  (forall j x, x ∈ l -> f j x = Ok x) -> imapM_from i f l = Ok l.
Proof.
  intros Hf. apply imapM_from_Ok. split; [done|]. intros j x y Hx Hy.
  rewrite Hx in Hy. injection Hy as <-. apply Hf. by apply list_elem_of_lookup_2 in Hx.
Qed.

Lemma imapM_from_source {A B} (f : nat -> A -> result B) i l k y :
  imapM_from i f l = Ok k -> y ∈ k -> exists j x, x ∈ l /\ f j x = Ok y.
Proof.
  intros [Hlen Hall]%imapM_from_Ok [j Hy]%list_elem_of_lookup_1.
  destruct (l !! j) as [x|] eqn:Hx.
  - exists (i + j)%nat, x. split; [by apply list_elem_of_lookup_2 in Hx|by eapply Hall].
  - apply lookup_ge_None in Hx. apply lookup_lt_Some in Hy. lia.
Qed.

(** Element by element, success carries over from one loop to another. *)
Lemma imapM_from_transfer {A B C} (f : nat -> A -> result B) (g : nat -> A -> result C) i l k :
  imapM_from i f l = Ok k ->
  (forall j x y, x ∈ l -> f j x = Ok y -> exists z, g j x = Ok z) ->
  exists k', imapM_from i g l = Ok k'.
Proof.
  intros [Hlen Hall]%imapM_from_Ok Hfg. apply imapM_from_is_ok. intros j x Hx.
  destruct (k !! j) as [y|] eqn:Hy.
  - apply (Hfg _ _ y); [by apply list_elem_of_lookup_2 in Hx|by eapply Hall].
  - apply lookup_ge_None in Hy. apply lookup_lt_Some in Hx. lia.
Qed.

Section Containers.
Context (l : nat) (e : Adapter) {He : Lawful l e}.

Lemma vector_canonical_inv raw c :
  CanonicalJSON (vectorAdapter e) raw = Ok c ->
  exists values cs, arrayValues raw = Ok values /\
    imapM (fun i value => wrap_err (at_element i) (CanonicalJSON e value)) values = Ok cs /\
    c = array_text cs.
Proof. cbn. intros Hc. ok_inv. by exists a, a0. Qed.

#[export] Instance vector_lawful : Lawful (S l) (vectorAdapter e).
Proof.
  split.
  - intros raw [c (values & cs & Ev & Ec & ->)%vector_canonical_inv]%only_error_Ok.
    destruct (imapM_from_transfer _
      (fun i value => wrap_err (at_element i) (GenerateLiteral e value)) _ _ _ Ec) as [k Hk].
    + intros j x y _ Hy%wrap_err_Ok. assert (ValidateJSON e x = Ok tt) as Hv
        by (apply lawful_validated; by exists y).
      destruct (lawful_literal _ Hv) as [z Hz]. exists z. by apply wrap_err_Ok.
    + exists (CppType (vectorAdapter e) +:+ "{" +:+ Join k ", " +:+ "}").
      cbn [GenerateLiteral]. by rewrite Ev /= /imapM Hk.
  - intros raw. apply only_error_Ok.
  - intros raw c (values & cs & _ & Ec & ->)%vector_canonical_inv.
    apply value_text_array, Forall_forall. intros x Hx.
    destruct (imapM_from_source _ _ _ _ _ Ec Hx) as (j & y & _ & Hy%wrap_err_Ok).
    by eapply lawful_text.
  - intros raw c Hl (values & cs & _ & Ec & ->)%vector_canonical_inv.
    assert (forall x, x ∈ cs -> value_text l x /\ CanonicalJSON e x = Ok x) as Hcs.
    { intros x Hx. destruct (imapM_from_source _ _ _ _ _ Ec Hx) as (j & y & _ & Hy%wrap_err_Ok).
      split; [by eapply lawful_text|]. eapply lawful_fixed; [lia|exact Hy]. }
    cbn [CanonicalJSON]. rewrite /arrayValues (Unmarshal_array_text l); [lia| |].
    { apply Forall_forall. intros x Hx. by apply Hcs. }
    cbn. rewrite /imapM imapM_fixed //. intros j x Hx. apply wrap_err_Ok. by apply Hcs.
Qed.

#[export] Instance optional_lawful : Lawful l (optionalAdapter e).
Proof.
  split; cbn.
  - intros raw. destruct (is_null raw); [by eexists|]. intros Hv.
    destruct (lawful_literal _ Hv) as [t ->]. by eexists.
  - intros raw. destruct (is_null raw); [split; [by eexists|done]|]. apply lawful_validated.
  - intros raw c. destruct (is_null raw); [|apply lawful_text].
    intros [= <-]. apply value_text_null_intro.
  - intros raw c Hl. destruct (is_null raw); [by intros [= <-]|]. intros Hc.
    destruct (is_null c) eqn:Hn; [|exact (lawful_fixed raw c Hl Hc)].
    f_equal. symmetry. exact (value_text_is_null _ _ (lawful_text raw c Hc) Hn).
Qed.
End Containers.

(** ** Lists and trees *)

Section RuntimeLaws.

Lemma is_null_Itoa z : is_null (Itoa z) = false.
Proof.
  destruct (is_null (Itoa z)) eqn:E; [|done].
  apply (value_text_is_null 0) in E; [|apply value_text_Itoa]. exfalso.
  pose proof (scan_number_Itoa z) as Hs. by rewrite E in Hs.
Qed.

Lemma is_null_array cs l : Forall (value_text l) cs -> is_null (array_text cs) = false.
Proof.
  intros Hcs. destruct (is_null _) eqn:E; [|done].
  by apply (value_text_is_null (S l)) in E; [|by apply value_text_array].
Qed.

Lemma arrayValues_text l cs :
  (S l <= maxNestingDepth)%nat -> Forall (value_text l) cs -> arrayValues (array_text cs) = Ok cs.
Proof. intros ??. by rewrite /arrayValues (Unmarshal_array_text l). Qed.

(** A loop over integers, whatever its error. *)
Lemma integers_text w values cs :
  imapM (fun i value => wrap_err (w i) (integerCanonical 32 value)) values = Ok cs ->
  Forall (fun c => exists z, c = Itoa z /\ (- 2 ^ 31 <= z < 2 ^ 31)%Z) cs.
Proof.
  intros Hc. apply Forall_forall. intros x Hx.
  destruct (imapM_from_source _ _ _ _ _ Hc Hx) as (j & y & _ & Hy%wrap_err_Ok).
  apply integerLiteral_Ok in Hy as (z & _ & -> & Hz). by exists z.
Qed.

Lemma integers_value_text l cs :
  Forall (fun c => exists z, c = Itoa z /\ (- 2 ^ 31 <= z < 2 ^ 31)%Z) cs -> Forall (value_text l) cs.
Proof.
  rewrite !Forall_forall. intros Hcs x Hx. destruct (Hcs x Hx) as (z & -> & _).
  apply value_text_Itoa.
Qed.

Lemma integerLiteral_Itoa z :
  (- 2 ^ 31 <= z < 2 ^ 31)%Z -> integerLiteral 32 (Itoa z) = Ok (Itoa z).
Proof. intros Hz. by rewrite /integerLiteral parseInteger_Itoa. Qed.

#[export] Instance list_lawful : Lawful 1 (runtimeAdapter listNodeAdapter).
Proof.
  assert (forall raw c, canonicalListJSON raw = Ok c -> c = "null" \/
    exists values cs, arrayValues raw = Ok values /\ is_null raw = false /\ cs <> [] /\
      imapM (fun i value => wrap_err (at_value "list value" i) (integerCanonical 32 value)) values
        = Ok cs /\ c = array_text cs) as Hinv.
  { intros raw c. rewrite /canonicalListJSON. destruct (is_null raw); [intros [= <-]; by left|].
    intros Hc. ok_inv. case_bool_decide as Hne; [injection Hc as <-; by left|]. ok_inv. right.
    exists a, a0. split_and!; [done..| |done|done]. intros ->.
    apply imapM_from_length in E0. by destruct a. }
  split; cbn.
  - intros raw [c Hc]%only_error_Ok. rewrite /listLiteral.
    destruct (is_null raw) eqn:En; [by eexists|].
    move: Hc. rewrite /canonicalListJSON En. intros Hc. ok_inv. rewrite E bind_Ok.
    case_bool_decide as Hne; [subst; by eexists|]. ok_inv. rewrite /integerCanonical in E0.
    rewrite E0. by eexists.
  - intros raw. apply only_error_Ok.
  - intros raw c [->|(values & cs & _ & _ & _ & Hcs & ->)]%Hinv; [apply value_text_null_intro|].
    by eapply value_text_array, integers_value_text, integers_text.
  - intros raw c Hl [->|(values & cs & _ & _ & Hne & Hcs & ->)]%Hinv; [done|].
    apply integers_text in Hcs. rewrite /canonicalListJSON (is_null_array cs 0);
      [by apply integers_value_text|].
    rewrite (arrayValues_text 0); [lia|by apply integers_value_text|]. cbn.
    rewrite bool_decide_eq_false_2 // /imapM imapM_fixed //.
    intros j x Hx. rewrite Forall_forall in Hcs. destruct (Hcs x Hx) as (z & -> & Hz).
    by rewrite /integerCanonical integerLiteral_Itoa.
Qed.

(** *** Trees *)

Lemma drop_last_nulls_app values :
  exists rest, values = drop_last_nulls values ++ rest /\ Forall (fun v => is_null v = true) rest.
Proof.
  induction values as [|v values (rest & E & Hrest)]; [by exists []|]. cbn.
  destruct (drop_last_nulls values) as [|w kept] eqn:Ek.
  - cbn in E. subst rest. destruct (is_null v) eqn:Hv.
    + exists (v :: values). split; [done|]. by constructor.
    + by exists values.
  - exists rest. split; [|done]. cbn in E |- *. by rewrite -E.
Qed.

Lemma drop_last_nulls_last values v :
  last (drop_last_nulls values) = Some v -> is_null v = false.
Proof.
  induction values as [|w values IH]; [done|]. cbn.
  destruct (drop_last_nulls values) as [|u kept] eqn:Ek.
  - destruct (is_null w) eqn:Hw; [done|]. by intros [= <-].
  - rewrite last_cons. destruct (last (u :: kept)) eqn:El; [|by rewrite last_None in El].
    intros [= <-]. by apply IH.
Qed.

Lemma drop_last_nulls_id values :
  (forall v, last values = Some v -> is_null v = false) -> drop_last_nulls values = values.
Proof.
  induction values as [|v values IH]; [done|]. intros Hl. cbn.
  destruct values as [|w values]; [by rewrite /= (Hl v)|].
  rewrite IH; [|done]. intros u Hu. apply Hl. by rewrite last_cons Hu.
Qed.

(** One element of a canonical tree. *)
Definition tree_item (value c : string) : Prop :=
  is_null value = true /\ c = "null" \/
  is_null value = false /\ exists z, c = Itoa z /\ (- 2 ^ 31 <= z < 2 ^ 31)%Z.

Lemma canonicalTreeJSON_inv raw c :
  canonicalTreeJSON raw = Ok c ->
  c = "null" \/ exists kept cs, (forall v, last kept = Some v -> is_null v = false) /\ kept <> [] /\
    Forall2 tree_item kept cs /\ c = array_text cs.
Proof.
  rewrite /canonicalTreeJSON. destruct (is_null raw); [intros [= <-]; by left|].
  intros Hc. ok_inv. case_bool_decide as Hne; [injection Hc as <-; by left|]. ok_inv. right.
  exists (drop_last_nulls a), a0. split_and!; [by apply drop_last_nulls_last|done| |done].
  eapply imapM_from_Forall2; [|exact E0]. intros j x y _. rewrite /tree_item.
  destruct (is_null x); [intros [= <-]; by left|].
  intros (z & _ & -> & Hz)%wrap_err_Ok%integerLiteral_Ok. right. eauto.
Qed.

Lemma tree_item_text l value c : tree_item value c -> value_text l c.
Proof.
  intros [[_ ->]|(_ & z & -> & _)]; [apply value_text_null_intro|apply value_text_Itoa].
Qed.

#[export] Instance tree_lawful : Lawful 1 (runtimeAdapter treeNodeAdapter).
Proof.
  split; cbn.
  - intros raw [c Hc]%only_error_Ok. rewrite /treeLiteral. move: Hc. rewrite /canonicalTreeJSON.
    destruct (is_null raw); [by eexists|]. intros Hc. ok_inv. rewrite E bind_Ok.
    set (f := fun i value => if is_null value then Ok "nullopt" else _).
    assert (exists k, imapM f a = Ok k) as [k ->]; [|by eexists].
    apply imapM_from_is_ok. intros j x Hx. unfold f. destruct (is_null x) eqn:Hn; [by eexists|].
    destruct (drop_last_nulls_app a) as (rest & Ea & Hrest). rewrite Ea in Hx.
    apply lookup_app_Some in Hx as [Hx|[_ Hx]].
    2:{ eapply Forall_lookup_1 in Hx; [|exact Hrest]. cbn in Hx. congruence. }
    case_bool_decide as Hne; [by rewrite Hne in Hx|]. ok_inv.
    apply imapM_from_Ok in E0 as [Hlen Hall].
    destruct (a0 !! j) as [y|] eqn:Hy.
    + specialize (Hall j x y Hx Hy). rewrite Hn in Hall. apply wrap_err_Ok in Hall.
      rewrite /integerCanonical in Hall. rewrite Hall. by eexists.
    + apply lookup_ge_None in Hy. apply lookup_lt_Some in Hx. lia.
  - intros raw. apply only_error_Ok.
  - intros raw c [->|(kept & cs & _ & _ & Hcs & ->)]%canonicalTreeJSON_inv;
      [apply value_text_null_intro|].
    apply value_text_array. apply Forall_forall. intros x [j Hj]%list_elem_of_lookup_1.
    destruct (Forall2_lookup_r _ _ _ _ _ Hcs Hj) as (y & _ & Hy). by eapply tree_item_text.
  - intros raw c Hl [->|(kept & cs & Hlast & Hne & Hcs & ->)]%canonicalTreeJSON_inv; [done|].
    assert (Forall (value_text 0) cs) as Htext.
    { apply Forall_forall. intros x [j Hj]%list_elem_of_lookup_1.
      destruct (Forall2_lookup_r _ _ _ _ _ Hcs Hj) as (y & _ & Hy). by eapply tree_item_text. }
    rewrite /canonicalTreeJSON (is_null_array cs 0) // (arrayValues_text 0); [lia|done|]. cbn.
    assert (forall j x y, kept !! j = Some x -> cs !! j = Some y -> is_null y = is_null x) as Hnull.
    { intros j x y Hx Hy. destruct (Forall2_lookup_lr _ _ _ _ _ _ Hcs Hx Hy) as [[-> ->]|(-> & z & -> & _)];
        [done|apply is_null_Itoa]. }
    rewrite drop_last_nulls_id.
    { intros v. rewrite last_lookup => Hv. destruct (kept !! pred (length cs)) as [w|] eqn:Ew.
      - rewrite (Hnull _ _ _ Ew Hv). apply Hlast. by rewrite last_lookup (Forall2_length _ _ _ Hcs).
      - apply lookup_ge_None in Ew. apply lookup_lt_Some in Hv.
        rewrite (Forall2_length _ _ _ Hcs) in Ew. lia. }
    rewrite bool_decide_eq_false_2.
    { intros ->. by inversion Hcs; subst. }
    rewrite /imapM imapM_fixed //. intros j x [i Hx]%list_elem_of_lookup_1.
    destruct (Forall2_lookup_r _ _ _ _ _ Hcs Hx) as (y & Hy & Hyx). rewrite (Hnull _ _ _ Hy Hx).
    destruct Hyx as [[-> ->]|(-> & z & -> & Hz)]; [done|].
    by rewrite /integerCanonical integerLiteral_Itoa.
Qed.

(** *** Lists with random pointers *)

Lemma two_arrays_object k1 l1 k2 l2 :
  two_arrays k1 l1 k2 l2 = object_text [(k1, array_text l1); (k2, array_text l2)].
Proof.
  rewrite /two_arrays /object_text /array_text. cbn [map member_text fst snd].
  rewrite Join_cons2. change (Join [?x] ",") with x. cbn [Join String.concat].
  by rewrite -!append_assoc.
Qed.

Lemma plain_keys : plain_key "values" /\ plain_key "random" /\ plain_key "neighbors".
Proof.
  assert (forall k, (forall c, c ∈ String.list_ascii_of_string k -> plain_byte c = true) ->
    transparent k) as Ht.
  { intros k. induction k as [|c k IH]; intros Hk; [apply transparent_nil|].
    apply transparent_cons; [apply Hk; by left|]. apply IH. intros d Hd. apply Hk. by right. }
  assert (forall k, forallb plain_byte (String.list_ascii_of_string k) = true -> transparent k) as Hf.
  { intros k Hk. apply Ht. intros c Hc. eapply forallb_forall; [exact Hk|]. by apply list_elem_of_In. }
  split_and!; (split; [by apply Hf|by vm_compute]).
Qed.

Definition random_text (r : option Z) : string :=
  match r with None => "null" | Some z => Itoa z end.

Lemma random_text_value l r : value_text l (random_text r).
Proof. destruct r; [apply value_text_Itoa|apply value_text_null_intro]. Qed.

Definition random_ok (n : nat) (item : RawMessage) : Prop :=
  is_null item = true \/
  is_null item = false /\ exists z, parseInteger item 32 = Ok z /\ in_range n z = true.

Definition int_ok (item : RawMessage) : Prop :=
  exists z, parseInteger item 32 = Ok z /\ (- 2 ^ (32 - 1) <= z < 2 ^ (32 - 1))%Z.

Lemma integers_loop w values :
  iterM (fun i value => wrap_err (w i) (only_error (integerCanonical 32 value))) values = Ok tt ->
  Forall int_ok values.
Proof.
  intros Ev. apply Forall_forall. intros v [j Hj]%list_elem_of_lookup_1.
  apply (proj1 (iterM_from_Ok _ _ _)) with (2 := Hj) in Ev.
  apply wrap_err_Ok, only_error_Ok in Ev as [s (z & Hz & _ & Hr)%integerLiteral_Ok]. by exists z.
Qed.

Lemma random_loop n random :
  iterM (fun i value =>
    if is_null value then Ok tt
    else match parseInteger value 32 with
         | Ok index =>
             if in_range n index then Ok tt
             else Err (Errorf "random-list index %d is out of range" [FInt (Z.of_nat i)])
         | Err _ => Err (Errorf "random-list index %d is out of range" [FInt (Z.of_nat i)])
         end) random = Ok tt ->
  Forall (random_ok n) random.
Proof.
  intros Er. apply Forall_forall. intros v [j Hj]%list_elem_of_lookup_1.
  apply (proj1 (iterM_from_Ok _ _ _)) with (2 := Hj) in Er.
  rewrite /random_ok. destruct (is_null v); [by left|]. right. split; [done|].
  destruct (parseInteger v 32) as [z|]; [|done]. exists z. by destruct (in_range _ z).
Qed.

(** What [parseRandomListJSON] accepts. *)
Lemma parseRandomList_inv raw value :
  parseRandomListJSON raw = Ok value ->
  length (rl_Values value) = length (rl_Random value) /\
  Forall int_ok (rl_Values value) /\
  Forall (random_ok (length (rl_Values value))) (rl_Random value).
Proof.
  rewrite /parseRandomListJSON. destruct (is_null raw); [intros [= <-]; cbn; auto|].
  intros H.
  apply bind_Ok_inv in H as (object & _ & H). apply bind_Ok_inv in H as (valuesRaw & _ & H).
  apply bind_Ok_inv in H as (randomRaw & _ & H). apply bind_Ok_inv in H as (values & _ & H).
  apply bind_Ok_inv in H as (random & _ & H).
  destruct (negb _) eqn:Hlen; [done|]. apply negb_false_iff, Nat.eqb_eq in Hlen.
  case_bool_decide as Hne.
  { injection H as <-. cbn. rewrite Hne in Hlen |- *. by destruct random. }
  apply bind_Ok_inv in H as ([] & Ev & H). apply bind_Ok_inv in H as ([] & Er & H).
  injection H as <-. split_and!; [done|by eapply integers_loop|by apply random_loop].
Qed.

(** Reading an object of two arrays that was printed. *)
Lemma two_arrays_fields l k1 l1 k2 l2 :
  (S (S l) < maxNestingDepth)%nat -> plain_key k1 -> plain_key k2 -> k1 <> k2 ->
  Forall (value_text l) l1 -> Forall (value_text l) l2 ->
  let text := two_arrays k1 l1 k2 l2 in
  value_text (S (S l)) text /\ is_null text = false /\
  exists object, (forall m, required_object m text = Ok object) /\
    (forall m, required_field m k1 object = Ok (array_text l1)) /\
    (forall m, required_field m k2 object = Ok (array_text l2)).
Proof.
  intros Hmax Hk1 Hk2 Hne H1 H2 text. unfold text. rewrite two_arrays_object.
  assert (Forall (member_ok (S l)) [(k1, array_text l1); (k2, array_text l2)]) as Hm.
  { repeat (apply Forall_cons; split); [..|by apply Forall_nil];
      (split; [done|by apply value_text_array]). }
  assert (value_text (S (S l)) (object_text [(k1, array_text l1); (k2, array_text l2)])) as Hv
    by (by apply value_text_object).
  split_and!; [done| |].
  - destruct (is_null _) eqn:E; [|done]. by apply (value_text_is_null _ _ Hv) in E.
  - exists (<[k2 := array_text l2]> (<[k1 := array_text l1]> ∅)). split_and!.
    + intros m. rewrite /required_object (Unmarshal_object_text (S l)) //. lia.
    + intros m. by rewrite /required_field lookup_insert_ne // lookup_insert_eq.
    + intros m. by rewrite /required_field lookup_insert_eq.
Qed.

(** The integers of a printed list pass the checking loop. *)
Lemma integers_loop_Ok w vs :
  Forall (fun z => (- 2 ^ 31 <= z < 2 ^ 31)%Z) vs ->
  iterM (fun i value => wrap_err (w i) (only_error (integerCanonical 32 value))) (map Itoa vs) = Ok tt.
Proof.
  intros Hvs. apply iterM_from_Ok. intros j x (z & -> & Hz)%list_lookup_fmap_Some.
  apply wrap_err_Ok. rewrite /integerCanonical integerLiteral_Itoa //.
  exact (Forall_lookup_1 _ _ _ _ Hvs Hz).
Qed.

Lemma texts_value_text l vs : Forall (value_text l) (map Itoa vs).
Proof. apply Forall_map, Forall_forall. intros. apply value_text_Itoa. Qed.

(** Its canonical text is accepted, with the same data. *)
Lemma parseRandomList_text vs rs :
  (2 < maxNestingDepth)%nat -> length vs = length rs ->
  Forall (fun z => (- 2 ^ 31 <= z < 2 ^ 31)%Z) vs ->
  Forall (fun r => match r with None => True | Some z =>
    (- 2 ^ 31 <= z < 2 ^ 31)%Z /\ in_range (length vs) z = true end) rs ->
  let text := two_arrays "values" (map Itoa vs) "random" (map random_text rs) in
  is_null text = false /\ value_text 2 text /\
  parseRandomListJSON text = Ok (mkRandomList (map Itoa vs) (map random_text rs)).
Proof.
  intros Hmax Hlen Hvs Hrs. destruct plain_keys as (Hk1 & Hk2 & _).
  assert (Forall (value_text 0) (map random_text rs)) as Ht2
    by (apply Forall_map, Forall_forall; intros; apply random_text_value).
  destruct (two_arrays_fields 0 _ _ _ _ Hmax Hk1 Hk2 ltac:(done) (texts_value_text 0 vs) Ht2)
    as (Hv & Hnull & object & Ho & Hf1 & Hf2). cbv zeta.
  split_and!; [done..|]. rewrite /parseRandomListJSON Hnull Ho bind_Ok Hf1 bind_Ok Hf2 bind_Ok.
  assert (forall cs, Forall (value_text 0) cs -> Unmarshal_array (array_text cs) = Ok cs) as Harr
    by (intros; apply (Unmarshal_array_text 0); [lia|done]).
  rewrite (Harr _ (texts_value_text 0 vs)) (Harr _ Ht2) /wrap_err !bind_Ok.
  rewrite !length_map Hlen Nat.eqb_refl. cbn [negb]. case_bool_decide as Hne; [done|].
  rewrite integers_loop_Ok // bind_Ok.
  match goal with |- context [iterM ?f ?l] => assert (iterM f l = Ok tt) as -> end;
    [|by rewrite bind_Ok].
  apply iterM_from_Ok. intros j x (r & -> & Hr)%list_lookup_fmap_Some.
  eapply Forall_lookup_1 in Hr; [|exact Hrs]. destruct r as [z|]; cbn [random_text]; [|done].
  destruct Hr as [Hz Hin]. rewrite is_null_Itoa parseInteger_Itoa // -Hlen Hin //.
Qed.

Lemma maxNestingDepth_value : maxNestingDepth = Z.to_nat 10000.
Proof. done. Qed.

Lemma int_text_ok v : int_ok v -> exists z, int_text v = Itoa z /\ int_value v = z /\
  parseInteger v 32 = Ok z /\ (- 2 ^ 31 <= z < 2 ^ 31)%Z.
Proof.
  intros (z & Hz & Hr). exists z. rewrite /int_text /int_value /integerCanonical /integerLiteral Hz.
  auto.
Qed.

(** The canonical text of an accepted random list, by its data. *)
Lemma canonicalRandomListJSON_inv raw c :
  canonicalRandomListJSON raw = Ok c -> c = "null" \/
  exists vs rs, c = two_arrays "values" (map Itoa vs) "random" (map random_text rs) /\
    vs <> [] /\ length vs = length rs /\ Forall (fun z => (- 2 ^ 31 <= z < 2 ^ 31)%Z) vs /\
    Forall (fun r => match r with None => True | Some z =>
      (- 2 ^ 31 <= z < 2 ^ 31)%Z /\ in_range (length vs) z = true end) rs.
Proof.
  rewrite /canonicalRandomListJSON. destruct (is_null raw); [intros [= <-]; by left|].
  intros (value & Hp & H)%bind_Ok_inv. destruct (parseRandomList_inv _ _ Hp) as (Hlen & Hv & Hr).
  case_bool_decide as Hne; [injection H as <-; by left|]. injection H as <-. right.
  exists (map int_value (rl_Values value)),
    (map (fun item => if is_null item then None else Some (int_value item)) (rl_Random value)).
  rewrite !length_map. rewrite Forall_forall in Hv. rewrite Forall_forall in Hr. split_and!.
  - f_equal; rewrite map_map; apply map_ext_in; intros x Hx%list_elem_of_In.
    + by destruct (int_text_ok x (Hv x Hx)) as (z & -> & -> & _).
    + by destruct (is_null x).
  - by destruct (rl_Values value).
  - done.
  - apply Forall_map, Forall_forall. intros x Hx.
    by destruct (int_text_ok x (Hv x Hx)) as (z & _ & -> & _ & ?).
  - apply Forall_map, Forall_forall. intros x Hx.
    destruct (Hr x Hx) as [->|(-> & z & Hz & Hin)]; [done|]. rewrite /int_value Hz /=.
    split; [|done]. exact (parseInteger_range 32 _ _ Hz).
Qed.

#[export] Instance random_list_lawful name : Lawful 2 (runtimeAdapter (randomListNodeAdapter name)).
Proof.
  split; cbn.
  - intros raw [value Hp]%only_error_Ok. rewrite /randomListLiteral.
    destruct (is_null raw); [by eexists|]. rewrite Hp bind_Ok. by eexists.
  - intros raw. rewrite /validateRandomListJSON only_error_Ok /canonicalRandomListJSON.
    destruct (is_null raw) eqn:En.
    + split; [by eexists|]. intros _. exists (mkRandomList [] []). by rewrite /parseRandomListJSON En.
    + split.
      * intros [value ->]. rewrite bind_Ok. case_bool_decide; by eexists.
      * intros [c (value & Hp & _)%bind_Ok_inv]. by eexists.
  - intros raw c [->|(vs & rs & -> & _ & Hlen & Hvs & Hrs)]%canonicalRandomListJSON_inv;
      [apply value_text_null_intro|]. apply parseRandomList_text; try done.
    rewrite maxNestingDepth_value. lia.
  - intros raw c Hl [->|(vs & rs & -> & Hne & Hlen & Hvs & Hrs)]%canonicalRandomListJSON_inv; [done|].
    destruct (parseRandomList_text vs rs Hl Hlen Hvs Hrs) as (Hnull & _ & Hp).
    rewrite /canonicalRandomListJSON Hnull Hp bind_Ok /=.
    rewrite bool_decide_eq_false_2; [by destruct vs|].
    do 2 f_equal; rewrite map_map; apply map_ext_in; intros x Hx%list_elem_of_In.
    + rewrite Forall_forall in Hvs. by rewrite /int_text /integerCanonical integerLiteral_Itoa; [apply Hvs|].
    + rewrite Forall_forall in Hrs. specialize (Hrs x Hx). destruct x as [z|]; cbn [random_text]; [|done].
      destruct Hrs as [Hz _]. by rewrite is_null_Itoa /int_value parseInteger_Itoa.
Qed.
End RuntimeLaws.
