(* ===== verification/GraphLaws.v ===== *)
(** * Graphs as JSON: what parseGraphJSON accepts and canonicalGraphJSON prints

    The functions of Adapters on JSON texts, related to the graphs of
    integers of Graphs: acceptance is validity of the graph, and the canonical
    text is the text of the canonical graph. *)

From S2P Require Import Prelude GoStrings GoJson TypeSyntax Contracts Adapters Graphs AdapterLaws.

(** The graph that a decoded value stands for, and the text of a graph. *)
Definition graph_of (g : graphJSON) : igraph :=
  mkIGraph (map int_value (gr_Values g)) (map (map int_value) (gr_Neighbors g)).

Definition row_text (row : list Z) : string := array_text (map Itoa row).

Definition graph_text (g : igraph) : string :=
  two_arrays "values" (map Itoa (ig_values g)) "neighbors" (map row_text (ig_rows g)).

Lemma neighbors_of_graph g i : neighbors_of (gr_Neighbors g) i = ig_neighbors (graph_of g) i.
Proof.
  rewrite /neighbors_of /ig_neighbors /= list_lookup_fmap.
  by destruct (gr_Neighbors g !! Z.to_nat i).
Qed.

Lemma reach_loop_ext f1 f2 fuel reachable pending :
  (forall i, f1 i = f2 i) -> reach_loop f1 fuel reachable pending = reach_loop f2 fuel reachable pending.
Proof.
  intros Hf. revert reachable pending.
  induction fuel as [|fuel IH]; intros reachable [|i pending]; [done..|]. cbn.
  by rewrite Hf !IH.
Qed.

Lemma order_loop_ext f1 f2 fuel state cursor :
  (forall i, f1 i = f2 i) -> order_loop f1 fuel state cursor = order_loop f2 fuel state cursor.
Proof.
  intros Hf. revert state cursor. induction fuel as [|fuel IH]; intros state cursor; [done|]. cbn.
  destruct (state.1 !! cursor); [|done]. by rewrite Hf IH.
Qed.

Lemma weight_from_ext f1 f2 l k :
  (forall j, (k <= j)%Z -> f1 j = f2 j) -> weight_from f1 k l = weight_from f2 k l.
Proof.
  revert k. induction l as [|b l IHl]; intros k Hk; [done|]. cbn. rewrite Hk; [lia|].
  f_equal. apply IHl. intros j Hj. apply Hk. lia.
Qed.

(** The fuel of the search: one turn for the root, one for every edge. *)
Lemma edge_weight rows i :
  weight_from (fun k => map int_value (default [] (rows !! Z.to_nat (k - i)))) i
    (replicate (length rows) false) = edge_count rows.
Proof.
  revert i. induction rows as [|row rows IH]; intros i; [done|].
  cbn [length replicate weight_from]. rewrite Z.sub_diag. cbn [Z.to_nat lookup list_lookup default].
  rewrite length_map. change (edge_count (row :: rows)) with (length row + edge_count rows)%nat.
  f_equal. rewrite -(IH (i + 1)%Z).
  apply weight_from_ext. intros j Hj. f_equal.
  replace (Z.to_nat (j - i)) with (S (Z.to_nat (j - (i + 1)))) by lia. done.
Qed.

(** The search accepts the graphs whose nodes can all be reached. *)
Lemma check_reachable_spec g :
  length (gr_Neighbors g) = length (gr_Values g) ->
  Forall (Forall (node (length (gr_Values g)))) (ig_rows (graph_of g)) ->
  gr_Values g <> [] ->
  check_reachable g = Ok tt <->
  forall i, node (length (gr_Values g)) i -> reaches (ig_neighbors (graph_of g)) i.
Proof.
  intros Hlen Hedges Hne. set (n := length (gr_Values g)) in *.
  assert (node n 0%Z) as H0 by (unfold n, node; destruct (gr_Values g); [done|cbn; lia]).
  assert (forall i j, node n i -> j ∈ ig_neighbors (graph_of g) i -> node n j) as Hclosed.
  { intros i j _ Hj. rewrite /ig_neighbors in Hj.
    destruct (ig_rows (graph_of g) !! Z.to_nat i) as [row|] eqn:E; [|by apply elem_of_nil in Hj].
    eapply Forall_lookup_1 in E; [|exact Hedges]. by eapply Forall_forall. }
  assert (reach_inv (ig_neighbors (graph_of g)) n (replicate n false) [0%Z]) as Hinv.
  { split.
    - apply length_replicate.
    - by apply Forall_singleton.
    - intros i _ [Hv|Hin%list_elem_of_singleton]; [by apply lookup_replicate_1 in Hv as [? _]|].
      subst i. apply rtc_refl.
    - intros i j _ Hv. by apply lookup_replicate_1 in Hv as [? _].
    - right. by left. }
  destruct (reach_loop_total _ n Hclosed (S (edge_count (gr_Neighbors g))) _ _ Hinv)
    as (reachable & Hloop & Hend).
  { pose proof (edge_weight (gr_Neighbors g) 0) as Hw. rewrite Hlen in Hw. fold n in Hw.
    assert (weight_from (ig_neighbors (graph_of g)) 0 (replicate n false) =
      edge_count (gr_Neighbors g)) as ->; [|cbn; lia].
    rewrite -Hw. apply weight_from_ext. intros j _. rewrite -neighbors_of_graph.
    by rewrite /neighbors_of Z.sub_0_r. }
  rewrite /check_reachable. fold n.
  rewrite (reach_loop_ext _ (ig_neighbors (graph_of g))); [apply neighbors_of_graph|].
  rewrite Hloop. rewrite iterM_from_Ok.
  pose proof (ri_length _ _ _ _ Hend) as Hl. split.
  - intros Hall i Hi. apply (reach_inv_end _ n Hclosed _ Hend i Hi).
    rewrite /visited. destruct (reachable !! Z.to_nat i) as [b|] eqn:Eb.
    + apply Hall in Eb. by destruct b.
    + apply lookup_ge_None in Eb. unfold node in Hi. lia.
  - intros Hall j b Hb. assert (node n (Z.of_nat j)) as Hj.
    { apply lookup_lt_Some in Hb. unfold node. lia. }
    apply (reach_inv_end _ n Hclosed _ Hend _ Hj) in Hall; [|done].
    rewrite /visited Nat2Z.id Hb in Hall. by injection Hall as ->.
Qed.

Lemma check_neighbors_spec n rows :
  check_neighbors n rows = Ok tt <->
  Forall (Forall (fun x => exists z, parseInteger x 32 = Ok z /\ node n z)) rows.
Proof.
  assert (forall z, in_range n z = true <-> node n z) as Hr
    by (intros z; rewrite /in_range andb_true_iff Z.leb_le Z.ltb_lt; done).
  rewrite /check_neighbors iterM_from_Ok. split.
  - intros Hall. apply Forall_forall. intros row [i Hi]%list_elem_of_lookup_1.
    apply Hall in Hi. apply Forall_forall. intros x [j Hj]%list_elem_of_lookup_1.
    eapply iterM_from_Ok in Hi; [|exact Hj]. destruct (parseInteger x 32) as [z|]; [|done].
    exists z. split; [done|]. apply Hr. by destruct (in_range n z).
  - intros Hall i row Hi. apply iterM_from_Ok. intros j x Hj.
    eapply Forall_lookup_1 in Hi; [|exact Hall]. eapply Forall_lookup_1 in Hj; [|exact Hi].
    destruct Hj as (z & -> & Hz). by apply Hr in Hz as ->.
Qed.

(** ** Acceptance *)

(** Everything [parseGraphJSON] has checked of a graph it returns. *)
Lemma parseGraph_inv raw g :
  parseGraphJSON raw = Ok g ->
  Forall int_ok (gr_Values g) /\
  Forall (Forall (fun x => exists z, parseInteger x 32 = Ok z /\ node (length (gr_Values g)) z))
    (gr_Neighbors g) /\
  ig_valid (graph_of g).
Proof.
  rewrite /parseGraphJSON. destruct (is_null raw).
  { intros [= <-]. split_and!; [constructor..|]. split; [done|constructor|].
    intros i Hi. unfold node in Hi. cbn in Hi. lia. }
  intros H.
  apply bind_Ok_inv in H as (object & _ & H). apply bind_Ok_inv in H as (valuesRaw & _ & H).
  apply bind_Ok_inv in H as (neighborsRaw & _ & H). apply bind_Ok_inv in H as (values & _ & H).
  apply bind_Ok_inv in H as (rows & _ & H).
  destruct (negb _) eqn:Hlen; [done|]. apply negb_false_iff, Nat.eqb_eq in Hlen.
  apply bind_Ok_inv in H as ([] & Ev & H). apply bind_Ok_inv in H as ([] & Er & H).
  apply integers_loop in Ev. apply check_neighbors_spec in Er.
  assert (Forall (Forall (node (length values))) (map (map int_value) rows)) as Hedges.
  { apply Forall_map. eapply Forall_impl; [exact Er|]. intros row Hrow. apply Forall_map.
    eapply Forall_impl; [exact Hrow|]. intros x (z & Hz & Hn). by rewrite /int_value Hz. }
  case_bool_decide as Hne.
  { injection H as <-. cbn. subst values. destruct rows; [|done]. split_and!; [done..|].
    split; [done|constructor|]. intros i Hi. unfold node in Hi. cbn in Hi. lia. }
  apply bind_Ok_inv in H as ([] & Hreach & H). injection H as <-. cbn. split_and!; [done..|].
  assert (ig_size (graph_of (mkGraph values rows)) = length values) as Es
    by (by rewrite /ig_size length_map).
  split; rewrite Es; [by rewrite /= length_map|done|].
  exact (proj1 (check_reachable_spec (mkGraph values rows) (eq_sym Hlen) Hedges Hne) Hreach).
Qed.

(** The text of a graph is an object text that decodes to the graph's parts. *)
Definition int32_values (g : igraph) : Prop :=
  Forall (fun z => (- 2 ^ 31 <= z < 2 ^ 31)%Z) (ig_values g).

Lemma row_texts_value l rows : Forall (value_text (S l)) (map row_text rows).
Proof. apply Forall_map, Forall_forall. intros row _. apply value_text_array, texts_value_text. Qed.

Definition graph_json (g : igraph) : graphJSON :=
  mkGraph (map Itoa (ig_values g)) (map (map Itoa) (ig_rows g)).

Lemma graph_text_parts g :
  exists object, value_text 3 (graph_text g) /\ is_null (graph_text g) = false /\
    (forall m, required_object m (graph_text g) = Ok object) /\
    (forall m, required_field m "values" object = Ok (array_text (map Itoa (ig_values g)))) /\
    (forall m, required_field m "neighbors" object = Ok (array_text (map row_text (ig_rows g)))).
Proof.
  destruct plain_keys as (Hk1 & _ & Hk2). assert (3 < maxNestingDepth)%nat as Hmax
    by (rewrite maxNestingDepth_value; lia).
  destruct (two_arrays_fields 1 "values" (map Itoa (ig_values g)) "neighbors"
    (map row_text (ig_rows g)) Hmax Hk1 Hk2 ltac:(done) (texts_value_text 1 _) (row_texts_value 0 _))
    as (Hv & Hn & object & Ho & Hf1 & Hf2). by exists object.
Qed.

(** Reading the text of a graph: exactly the checks on the graph. *)
Lemma parseGraph_text g :
  int32_values g ->
  parseGraphJSON (graph_text g) =
    (fail_if negb (ig_size g =? length (ig_rows g))%nat
     with Errorf "graph values and neighbors lengths must match" [];;
     check_neighbors (ig_size g) (map (map Itoa) (ig_rows g));;
     if bool_decide (ig_values g = []) then Ok (graph_json g)
     else check_reachable (graph_json g);; Ok (graph_json g)).
Proof.
  intros Hints. destruct (graph_text_parts g) as (object & _ & Hn & Ho & Hf1 & Hf2).
  rewrite /parseGraphJSON Hn Ho bind_Ok Hf1 bind_Ok Hf2 bind_Ok.
  rewrite (Unmarshal_array_text 0); [rewrite maxNestingDepth_value; lia|apply texts_value_text|].
  assert (map row_text (ig_rows g) = map array_text (map (map Itoa) (ig_rows g))) as ->
    by (by rewrite map_map).
  rewrite (Unmarshal_matrix_text 0); [rewrite maxNestingDepth_value; lia| |].
  { apply Forall_map, Forall_forall. intros row _. apply texts_value_text. }
  rewrite /wrap_err !bind_Ok !length_map. fold (ig_size g).
  destruct (negb _); [done|]. rewrite (integers_loop_Ok (at_value "graph value")) // bind_Ok.
  rewrite (bool_decide_ext _ (ig_values g = [])) //. by destruct (ig_values g).
Qed.

Lemma int_value_Itoa z : (- 2 ^ 31 <= z < 2 ^ 31)%Z -> int_value (Itoa z) = z.
Proof. intros Hz. by rewrite /int_value parseInteger_Itoa. Qed.

Lemma node_int32 n z :
  (Z.of_nat n <= 2 ^ 31)%Z -> node n z -> (- 2 ^ 31 <= z < 2 ^ 31)%Z.
Proof. unfold node. lia. Qed.

Lemma edges_text n rows :
  (Z.of_nat n <= 2 ^ 31)%Z ->
  Forall (Forall (fun x => exists z, parseInteger x 32 = Ok z /\ node n z)) (map (map Itoa) rows) <->
  Forall (Forall (node n)) rows.
Proof.
  intros Hn. rewrite !Forall_forall. split.
  - intros Hall row Hrow. apply Forall_forall. intros z Hz.
    assert (map Itoa row ∈ map (map Itoa) rows) as Hin by (by apply list_elem_of_fmap_2).
    specialize (Hall _ Hin). rewrite Forall_forall in Hall.
    destruct (Hall (Itoa z)) as (z' & Hp & Hz'); [by apply list_elem_of_fmap_2|].
    enough (z' = z) as <- by done. rewrite /parseInteger in Hp.
    rewrite (Unmarshal_number_text _ (scan_number_Itoa z)) /= in Hp.
    destruct (ParseInt (Itoa z) 32) as [y|] eqn:E; [|done]. injection Hp as ->.
    by apply ParseInt_Itoa_inv in E.
  - intros Hall row' (row & -> & Hrow)%list_elem_of_fmap. apply Forall_forall.
    intros x (z & -> & Hz)%list_elem_of_fmap. specialize (Hall row Hrow). rewrite Forall_forall in Hall.
    specialize (Hall z Hz). exists z. split; [|done]. apply parseInteger_Itoa. by eapply node_int32.
Qed.

Lemma graph_of_json g :
  int32_values g -> Forall (Forall (node (ig_size g))) (ig_rows g) ->
  (Z.of_nat (ig_size g) <= 2 ^ 31)%Z -> graph_of (graph_json g) = g.
Proof.
  intros Hv Hr Hn. destruct g as [values rows]. rewrite /graph_of /graph_json /=. cbn in *.
  f_equal.
  - rewrite map_map -[RHS]map_id. apply map_ext_in. intros z Hz%list_elem_of_In.
    rewrite /int32_values Forall_forall in Hv. by apply int_value_Itoa, Hv.
  - rewrite map_map -[RHS]map_id. apply map_ext_in. intros row Hrow%list_elem_of_In.
    rewrite Forall_forall in Hr. specialize (Hr row Hrow). rewrite Forall_forall in Hr.
    rewrite map_map -[RHS]map_id. apply map_ext_in. intros z Hz%list_elem_of_In.
    eapply int_value_Itoa, node_int32, Hr, Hz. done.
Qed.

(** The text of a graph is accepted exactly when the graph is valid. *)
Lemma parseGraph_text_valid g :
  int32_values g -> (Z.of_nat (ig_size g) <= 2 ^ 31)%Z ->
  (parseGraphJSON (graph_text g) = Ok (graph_json g) <-> ig_valid g) /\
  (forall g', parseGraphJSON (graph_text g) = Ok g' -> g' = graph_json g).
Proof.
  intros Hv Hn. pose proof (parseGraph_text g Hv) as Hp.
  assert (forall g', parseGraphJSON (graph_text g) = Ok g' -> g' = graph_json g) as Hret.
  { intros g'. rewrite Hp. destruct (negb _); [done|]. intros (_ & _ & H)%bind_Ok_inv.
    case_bool_decide; [congruence|]. apply bind_Ok_inv in H as (_ & _ & H). congruence. }
  split; [|done]. split.
  - intros Hok. destruct (parseGraph_inv _ _ Hok) as (_ & Hedges & Hvalid).
    rewrite length_map in Hedges. rewrite edges_text // in Hedges. by rewrite graph_of_json in Hvalid.
  - intros [Hrows Hedges Hreach]. rewrite Hp Hrows Nat.eqb_refl. cbn [negb].
    assert (check_neighbors (ig_size g) (map (map Itoa) (ig_rows g)) = Ok tt) as ->
      by (by apply check_neighbors_spec, edges_text).
    rewrite bind_Ok. case_bool_decide as Hne; [done|].
    assert (check_reachable (graph_json g) = Ok tt) as ->; [|done].
    assert (length (gr_Values (graph_json g)) = ig_size g) as Es by (by rewrite /= length_map).
    apply check_reachable_spec; rewrite ?Es ?graph_of_json //.
    + cbn. rewrite length_map. done.
    + cbn. intros E. by apply map_eq_nil in E.
Qed.

(** A valid graph that came from 32-bit integers has at most [2 ^ 31] nodes:
    every node but the root is some node's neighbour. *)
Lemma accepted_size raw g :
  parseGraphJSON raw = Ok g -> (Z.of_nat (ig_size (graph_of g)) <= 2 ^ 31)%Z.
Proof.
  intros Hp. destruct (parseGraph_inv _ _ Hp) as (_ & Hedges & Hvalid).
  set (n := ig_size (graph_of g)) in *. destruct (decide (n = 0%nat)) as [->|Hne]; [done|].
  assert (node n (Z.of_nat n - 1)) as Hlast by (unfold node; lia).
  apply (iv_reach _ Hvalid), rtc_inv_r in Hlast as [E|(i & _ & He)]; [lia|].
  rewrite /edge /ig_neighbors /= list_lookup_fmap in He.
  destruct (gr_Neighbors g !! Z.to_nat i) as [row|] eqn:Er; [|by apply elem_of_nil in He].
  cbn in He. apply list_elem_of_fmap in He as (x & Ex & Hx).
  eapply Forall_lookup_1 in Er; [|exact Hedges]. rewrite Forall_forall in Er.
  destruct (Er x Hx) as (z & Hz & _).
  assert (int_value x = z) as Exz by (by rewrite /int_value Hz). rewrite Exz in Ex.
  pose proof (parseInteger_range 32 x z Hz) as Hr. change (2 ^ (32 - 1))%Z with (2 ^ 31)%Z in Hr.
  assert (Z.of_nat n - 1 = z)%Z as En by exact Ex. clear - En Hr. lia.
Qed.

Lemma int_ok_int32 g :
  Forall int_ok (gr_Values g) -> int32_values (graph_of g).
Proof.
  intros Hv. apply Forall_map. eapply Forall_impl; [exact Hv|]. intros x Hx.
  by destruct (int_text_ok x Hx) as (z & _ & -> & _ & ?).
Qed.

(** ** The canonical text *)

(** What [canonicalGraphJSON] prints is the text of the canonical graph. *)
Lemma canonicalGraph_text raw g :
  is_null raw = false -> parseGraphJSON raw = Ok g ->
  canonicalGraphJSON raw =
    Ok (if bool_decide (gr_Values g = []) then "null" else graph_text (ig_canonical (graph_of g))).
Proof.
  intros Hn Hp. destruct (parseGraph_inv _ _ Hp) as (Hints & Hedges & Hvalid).
  rewrite /canonicalGraphJSON Hn Hp bind_Ok. case_bool_decide as Hne; [done|].
  assert (ig_size (graph_of g) = length (gr_Values g)) as Es by (by rewrite /ig_size length_map).
  destruct (ig_order_spec (graph_of g) Hvalid) as (order & index & E & Hnb & Hall & Hlen);
    [by rewrite Es; destruct (gr_Values g)|].
  assert (canonical_order g = Some (order, index)) as ->.
  { rewrite -E /ig_order /canonical_order Es. apply order_loop_ext, neighbors_of_graph. }
  rewrite /ig_canonical E /graph_text /=. do 2 f_equal; rewrite map_map; apply map_ext_in;
    intros o Ho%list_elem_of_In.
  - pose proof (nb_nodes _ _ _ _ Hnb) as Hnode. rewrite Forall_forall in Hnode. specialize (Hnode o Ho).
    rewrite list_lookup_fmap. destruct (gr_Values g !! Z.to_nat o) as [x|] eqn:Ex.
    + eapply Forall_lookup_1 in Ex; [|exact Hints]. cbn.
      by destruct (int_text_ok x Ex) as (z & -> & -> & _).
    + apply lookup_ge_None in Ex. rewrite Es in Hnode. unfold node in Hnode. lia.
  - rewrite /row_text map_map neighbors_of_graph. done.
Qed.

(** What acceptance guarantees. *)
Definition accepted (g : graphJSON) : Prop :=
  Forall int_ok (gr_Values g) /\ ig_valid (graph_of g) /\
  (Z.of_nat (ig_size (graph_of g)) <= 2 ^ 31)%Z.

Lemma accepted_graph raw g : parseGraphJSON raw = Ok g -> accepted g.
Proof.
  intros Hg. destruct (parseGraph_inv _ _ Hg) as (Hi & _ & Hv). split_and!; [done..|].
  by eapply accepted_size.
Qed.

(** The canonical graph of an accepted graph reads back from its text. *)
Lemma canonical_graph_reads g :
  accepted g -> ig_size (graph_of g) <> 0%nat ->
  let c := ig_canonical (graph_of g) in
  ig_valid c /\ ig_size c = ig_size (graph_of g) /\ is_null (graph_text c) = false /\
  parseGraphJSON (graph_text c) = Ok (graph_json c) /\ graph_of (graph_json c) = c.
Proof.
  intros (Hints & Hvalid & Hsize) Hne c. destruct (ig_canonical_valid _ Hvalid Hne) as [Hcv Hcs].
  fold c in Hcv, Hcs. assert (int32_values c) as Hci.
  { apply int_ok_int32 in Hints. unfold c, ig_canonical.
    destruct (ig_order _) as [[order index]|]; [|done]. apply Forall_map, Forall_forall. intros o _.
    destruct (ig_values (graph_of g) !! Z.to_nat o) as [z|] eqn:Ez; [|by cbn].
    by eapply Forall_lookup_1 in Ez; [|exact Hints]. }
  rewrite -Hcs in Hsize. destruct (parseGraph_text_valid c Hci Hsize) as [[_ Hparse] _].
  destruct (graph_text_parts c) as (_ & _ & Hnull & _). split_and!; [done..|by apply Hparse|].
  by apply graph_of_json; [|apply (iv_edges _ Hcv)|].
Qed.

Lemma graph_empty g : gr_Values g = [] <-> ig_size (graph_of g) = 0%nat.
Proof. rewrite /ig_size length_map. by destruct (gr_Values g). Qed.

(** The text of a canonical graph is accepted, and is its own canonical text. *)
Lemma canonicalGraph_fixed raw g :
  parseGraphJSON raw = Ok g -> gr_Values g <> [] ->
  canonicalGraphJSON (graph_text (ig_canonical (graph_of g))) =
    Ok (graph_text (ig_canonical (graph_of g))).
Proof.
  intros Hp Hne. rewrite graph_empty in Hne. pose proof (accepted_graph _ _ Hp) as Ha.
  destruct (canonical_graph_reads g Ha Hne) as (_ & Hcs & Hnull & Hparse & Hof).
  rewrite (canonicalGraph_text _ _ Hnull Hparse) Hof. rewrite bool_decide_eq_false_2.
  { by rewrite graph_empty Hof Hcs. }
  by rewrite ig_canonical_idem //; apply Ha.
Qed.

#[export] Instance graph_lawful name : Lawful 3 (runtimeAdapter (graphNodeAdapter name)).
Proof.
  assert (forall raw c, canonicalGraphJSON raw = Ok c -> c = "null" \/
    exists g, parseGraphJSON raw = Ok g /\ gr_Values g <> [] /\
      c = graph_text (ig_canonical (graph_of g))) as Hinv.
  { intros raw c Hc. destruct (is_null raw) eqn:Hn.
    { rewrite /canonicalGraphJSON Hn in Hc. injection Hc as <-. by left. }
    assert (exists g, parseGraphJSON raw = Ok g) as [g Hg].
    { rewrite /canonicalGraphJSON Hn in Hc. apply bind_Ok_inv in Hc as (g & Hg & _). by exists g. }
    rewrite (canonicalGraph_text _ _ Hn Hg) in Hc. injection Hc as <-.
    case_bool_decide; [by left|]. right. by exists g. }
  split; cbn.
  - intros raw [g Hg]%only_error_Ok. rewrite /graphLiteral. destruct (is_null raw); [by eexists|].
    rewrite Hg bind_Ok. by eexists.
  - intros raw. rewrite /validateGraphJSON only_error_Ok. destruct (is_null raw) eqn:Hn.
    + rewrite /parseGraphJSON /canonicalGraphJSON Hn. split; intros _; by eexists.
    + split.
      * intros [g Hg]. rewrite (canonicalGraph_text _ _ Hn Hg). by eexists.
      * rewrite /canonicalGraphJSON Hn. intros [c (g & Hg & _)%bind_Ok_inv]. by exists g.
  - intros raw c [->|(g & _ & _ & ->)]%Hinv; [apply value_text_null_intro|].
    by destruct (graph_text_parts (ig_canonical (graph_of g))) as (_ & Hv & _).
  - intros raw c _ [->|(g & Hg & Hne & ->)]%Hinv; [done|]. by eapply canonicalGraph_fixed.
Qed.

(** Two canonical texts agree exactly when the graphs are renumberings. *)
Lemma canonical_texts g1 g2 :
  accepted g1 -> accepted g2 ->
  let text g := if bool_decide (gr_Values g = []) then "null"
                else graph_text (ig_canonical (graph_of g)) in
  @Ok string (text g1) = Ok (text g2) <-> exists f, ig_iso f (graph_of g1) (graph_of g2).
Proof.
  intros A1 A2 text. unfold text. clear text. split.
  - intros E%ok_inj. case_bool_decide as E1; rewrite graph_empty in E1;
      (destruct (bool_decide (gr_Values g2 = [])) eqn:E2;
       [apply bool_decide_eq_true in E2|apply bool_decide_eq_false in E2]); rewrite graph_empty in E2.
    + exists (fun i => i). split; rewrite ?E1 ?E2; try done; intros i Hi; unfold node in Hi; lia.
    + destruct (canonical_graph_reads g2 A2 E2) as (_ & _ & Hn & _). by rewrite -E in Hn.
    + destruct (canonical_graph_reads g1 A1 E1) as (_ & _ & Hn & _). by rewrite E in Hn.
    + apply ig_canonical_complete; [apply A1|apply A2|done..|].
      destruct (canonical_graph_reads g1 A1 E1) as (_ & _ & _ & P1 & <-).
      destruct (canonical_graph_reads g2 A2 E2) as (_ & _ & _ & P2 & <-).
      rewrite E P2 in P1. by apply ok_inj in P1 as ->.
  - intros [f Hf]. pose proof (ii_size _ _ _ Hf) as Hs.
    rewrite (bool_decide_ext (gr_Values g2 = []) (gr_Values g1 = [])); [by rewrite !graph_empty Hs|].
    case_bool_decide as E1; [done|]. rewrite graph_empty in E1. do 2 f_equal.
    by apply ig_canonical_iso with f; [apply A1| |].
Qed.
