(* ===== verification/Resolved.v ===== *)
(** * The types the default registry resolves

    Every adapter that [Resolve] returns is [Lawful], by induction on the type
    reference, so the properties below hold for every type a contract may
    declare. *)

From S2P Require Import Prelude GoStrings GoJson TypeSyntax Contracts RuntimeText Adapters Graphs.
From S2P Require Import AdapterLaws GraphLaws.

(** ** Resolution preserves a property of adapters *)

Section ResolveInd.
Context (r : Registry) (P : nat -> Adapter -> Prop).
Hypothesis adapters_P : forall name a, reg_adapters r !! name = Some a -> P 0 a.
Hypothesis factories_P : forall name f args d a, reg_factories r !! name = Some f ->
  Forall (P d) args -> f args = Ok a -> P (S d) a.
Hypothesis P_weaken : forall d d' a, (d <= d')%nat -> P d a -> P d' a.

Lemma resolveRef_ind t a : resolveRef r t = Ok a -> P (type_depth t) a.
Proof.
  revert a. induction t as [name args const ref ptr IH] using TypeRef_ind'. intros a.
  destruct args as [|b args].
  { cbn. destruct (reg_adapters r !! _) eqn:E; [|done]. intros [= <-]. by eapply adapters_P. }
  cbn [resolveRef tr_Arguments tr_Name]. set (args' := b :: args) in *.
  destruct (reg_factories r !! name) as [f|] eqn:Ef; [|done].
  set (go := fix resolve_all (l : list TypeRef) : result (list Adapter) := _).
  intros (arguments & Hargs & Hf)%bind_Ok_inv.
  change (type_depth _) with (S (list_max (map type_depth args'))).
  eapply factories_P; [exact Ef| |exact Hf]. clear Hf Ef.
  change (go args' = Ok arguments) in Hargs.
  generalize dependent arguments. clearbody args'.
  induction IH as [|t l Ht _ IHl]; intros arguments Hargs.
  - change (go []) with (@Ok (list Adapter) []) in Hargs. injection Hargs as <-. constructor.
  - change (go (t :: l)) with (x ← resolveRef r t; xs ← go l; Ok (x :: xs)) in Hargs.
    apply bind_Ok_inv in Hargs as (x & Hx & (xs & Hxs & [= <-])%bind_Ok_inv).
    change (list_max (map type_depth (t :: l)))
      with (Nat.max (type_depth t) (list_max (map type_depth l))). constructor.
    + eapply P_weaken, Ht, Hx. lia.
    + eapply Forall_impl; [by apply IHl|]. intros y. apply P_weaken. lia.
Qed.
End ResolveInd.

Section Default.
Context `{Float64} `{UnicodeTables}.

Definition lawful_at (d : nat) (a : Adapter) : Prop := exists l, (l <= d + 3)%nat /\ Lawful l a.

(** An adapter fulfils the contract, and so does the element of a vector. *)
Definition lawful_within (d : nat) (a : Adapter) : Prop :=
  lawful_at d a /\ forall e, a = vectorAdapter e -> lawful_at d e.

Lemma NewRegistry_lookup adapters name a :
  reg_adapters (NewRegistry adapters) !! name = Some a -> a ∈ adapters.
Proof.
  cbn. set (step := fun m a => _).
  assert (forall l m, foldl step m l !! name = Some a -> m !! name = Some a \/ a ∈ l) as Hgen.
  { induction l as [|b l IH]; intros m; cbn; [by left|]. intros Hl.
    apply IH in Hl as [Hl|Hl]; [|right; by right]. unfold step in Hl.
    rewrite lookup_insert in Hl. case_decide; [|by left]. injection Hl as <-. right. by left. }
  intros Hl. apply Hgen in Hl as [Hl|]; [by rewrite lookup_empty in Hl|done].
Qed.

(** The default registry: the built-in adapters and the two factories. *)
Lemma DefaultRegistry_Ok :
  DefaultRegistry = Ok (mkRegistry (reg_adapters (NewRegistry builtin_adapters))
    (<["optional" := optionalFactory]> {["vector" := vectorFactory]})).
Proof.
  rewrite /DefaultRegistry /RegisterFactory. cbn [reg_factories NewRegistry reg_adapters].
  rewrite lookup_empty. change (bool_decide ("vector" = "")) with false. cbn iota. rewrite bind_Ok.
  cbn [reg_factories reg_adapters]. by rewrite lookup_insert_ne // lookup_empty.
Qed.

Lemma DefaultRegistry_default : DefaultRegistry = Ok default_registry.
Proof. rewrite /default_registry DefaultRegistry_Ok. reflexivity. Qed.

Lemma default_parts registry :
  DefaultRegistry = Ok registry ->
  reg_adapters registry = reg_adapters (NewRegistry builtin_adapters) /\
  reg_factories registry = <["optional" := optionalFactory]> {["vector" := vectorFactory]}.
Proof.
  rewrite DefaultRegistry_Ok. intros E. apply ok_inj in E as <-. done.
Qed.

Lemma builtin_lawful a : a ∈ builtin_adapters -> lawful_within 0 a.
Proof.
  intros Ha. split.
  2:{ intros e ->. by repeat (apply elem_of_cons in Ha as [[=]|Ha]); apply elem_of_nil in Ha. }
  revert Ha. unfold builtin_adapters. intros Ha.
  repeat (apply elem_of_cons in Ha as [->|Ha]); [..|by apply elem_of_nil in Ha];
    try (exists 0%nat; split; [lia|first [apply integer_lawful | apply floating_lawful |
      apply boolean_lawful | apply string_lawful | apply void_lawful]]; fail);
    first [exists 1%nat; split; [lia|first [apply list_lawful|apply tree_lawful]] |
      exists 2%nat; split; [lia|apply random_list_lawful] |
      exists 3%nat; split; [lia|apply graph_lawful]].
Qed.

Lemma resolved_lawful registry t a :
  DefaultRegistry = Ok registry -> resolveRef registry t = Ok a -> lawful_within (type_depth t) a.
Proof.
  intros Hr. apply default_parts in Hr as [Ha Hf]. apply resolveRef_ind.
  - intros name b. rewrite Ha. intros Hb%NewRegistry_lookup%builtin_lawful. done.
  - intros name f args d b. rewrite Hf lookup_insert lookup_singleton.
    intros Hn Hargs. repeat case_decide; simplify_eq; destruct args as [|x [|y args]]; try done;
      apply Forall_cons in Hargs as [[(l & Hl & Hx) _] _]; intros [= <-].
    + split; [|done]. exists l. split; [lia|by apply optional_lawful].
    + split; [exists (S l); split; [lia|by apply vector_lawful]|].
      intros e [= <-]. exists l. split; [lia|done].
  - intros d d' b Hd [(l & Hl & Hb) He]. split; [exists l; split; [lia|done]|].
    intros e Ee. destruct (He e Ee) as (k & Hk & Hke). exists k. split; [lia|done].
Qed.

Lemma Resolve_lawful_within registry s a :
  DefaultRegistry = Ok registry -> Resolve registry s = Ok a ->
  (exists l, (l < maxNestingDepth)%nat /\ Lawful l a) /\
  forall e, a = vectorAdapter e -> exists l, (l < maxNestingDepth)%nat /\ Lawful l e.
Proof.
  intros Hr (t & Ht & Ha)%bind_Ok_inv. apply wrap_err_Ok, Parse_inv in Ht as (_ & _ & Hd).
  assert (maxTypeDepth = 64%nat) as E by done. rewrite maxNestingDepth_value.
  assert (forall b, lawful_at (type_depth t) b -> exists l, (l < Z.to_nat 10000)%nat /\ Lawful l b) as Hat
    by (intros b (l & Hl & Hb); exists l; split; [lia|done]).
  destruct (resolved_lawful _ _ _ Hr Ha) as [Hl He]. split; [by apply Hat|].
  intros e Ee. by apply Hat, He.
Qed.

Lemma Resolve_lawful registry s a :
  DefaultRegistry = Ok registry -> Resolve registry s = Ok a ->
  exists l, (l < maxNestingDepth)%nat /\ Lawful l a.
Proof. intros Hr Ha. exact (proj1 (Resolve_lawful_within _ _ _ Hr Ha)). Qed.

(** Every runtime type has the identity postconditions. *)
Lemma resolved_postcondition registry s r :
  DefaultRegistry = Ok registry -> Resolve registry s = Ok (runtimeAdapter r) ->
  ra_postcondition r = Some (identityPostcondition "__disjoint").
Proof.
  intros Hr (t & _ & Ha)%bind_Ok_inv. apply default_parts in Hr as [Had Hf].
  refine (resolveRef_ind registry (fun _ a => forall r, a = runtimeAdapter r ->
    ra_postcondition r = Some (identityPostcondition "__disjoint")) _ _ _ t _ Ha r eq_refl).
  - intros name a. rewrite Had. intros Hb%NewRegistry_lookup r' ->. unfold builtin_adapters in Hb.
    by repeat (apply elem_of_cons in Hb as [[= ->]|Hb]); [..|apply elem_of_nil in Hb].
  - intros name f args d a. rewrite Hf lookup_insert lookup_singleton.
    intros Hn _. repeat case_decide; simplify_eq; destruct args as [|x [|y args]]; try done;
      intros [= <-]; done.
  - auto.
Qed.

(** The type of void declarations. *)
Lemma resolved_void registry s a ref :
  DefaultRegistry = Ok registry -> Resolve registry s = Ok a -> Parse s = Ok ref ->
  tr_Name ref = "void" -> tr_Arguments ref = [] -> tr_Pointer ref = false -> a = voidAdapter.
Proof.
  intros Hr Ha Hp Hn Harg Hptr. apply default_parts in Hr as [Had _].
  rewrite /Resolve Hp in Ha. cbn [wrap_err] in Ha. rewrite bind_Ok in Ha.
  destruct ref as [name args c k ptr]. cbn in Hn, Harg, Hptr. subst. move: Ha.
  cbn [resolveRef tr_Arguments]. rewrite Had. change (CanonicalName _) with "void".
  unfold builtin_adapters. cbn [NewRegistry reg_adapters foldl Adapter_CanonicalName ra_name listNodeAdapter
    randomListNodeAdapter treeNodeAdapter graphNodeAdapter].
  do 5 (rewrite lookup_insert_ne //). rewrite lookup_insert_eq. by intros [= <-].
Qed.
End Default.

(** ** Printed arrays *)

Lemma array_text_inj l cs ds :
  (S l <= maxNestingDepth)%nat -> Forall (value_text l) cs -> Forall (value_text l) ds ->
  array_text cs = array_text ds -> cs = ds.
Proof.
  intros Hl Hc Hd E. apply (f_equal Unmarshal_array) in E.
  rewrite (Unmarshal_array_text l cs) // (Unmarshal_array_text l ds) // in E. by apply ok_inj in E.
Qed.

(** The canonical texts of the elements of an array value. *)
Definition canonical_elements (element : Adapter) (raw : RawMessage) : result (list string) :=
  values ← arrayValues raw;
  imapM (fun i value => wrap_err (at_element i) (CanonicalJSON element value)) values.

Lemma canonical_elements_text l e raw cs :
  Lawful l e -> canonical_elements e raw = Ok cs -> Forall (value_text l) cs.
Proof.
  intros He (values & _ & Hc)%bind_Ok_inv. apply Forall_forall. intros x Hx.
  destruct (imapM_from_source _ _ _ _ _ Hc Hx) as (j & y & _ & Hy%wrap_err_Ok).
  by eapply lawful_text.
Qed.

Lemma unordered_elements e raw :
  CanonicalUnorderedJSON e raw =
    (canonical ← canonical_elements e raw; Ok (array_text (sort_Strings canonical))).
Proof.
  rewrite /CanonicalUnorderedJSON /canonical_elements. by destruct (arrayValues raw).
Qed.

(** ** The string literal of the C++ driver *)

(** How a C++ compiler reads the rest of a narrow string literal: its bytes up
    to the closing quote, and what follows.  A backslash introduces a quote, a
    backslash or one to three octal digits. *)
Definition octal_digit (c : Ascii.ascii) : option Z :=
  let b := byte_of c in if (48 <=? b)%Z && (b <=? 55)%Z then Some (b - 48)%Z else None.

Definition cons_byte (b : Z) (r : option (string * string)) : option (string * string) :=
  match r with Some (v, rest) => Some (String (of_byte b) v, rest) | None => None end.

Fixpoint cpp_string (s : string) : option (string * string) :=
  match s with
  | EmptyString => None
  | String c s1 =>
      if Ascii.eqb c dq then Some ("", s1)
      else if Ascii.eqb c bs then
        match s1 with
        | EmptyString => None
        | String e s2 =>
            if Ascii.eqb e dq || Ascii.eqb e bs then cons_byte (byte_of e) (cpp_string s2)
            else match octal_digit e with
                 | None => None
                 | Some d1 =>
                     match s2 with
                     | String e2 s3 =>
                         match octal_digit e2 with
                         | Some d2 =>
                             match s3 with
                             | String e3 s4 =>
                                 match octal_digit e3 with
                                 | Some d3 => cons_byte (64 * d1 + 8 * d2 + d3) (cpp_string s4)
                                 | None => cons_byte (8 * d1 + d2) (cpp_string s3)
                                 end
                             | EmptyString => None
                             end
                         | None => cons_byte d1 (cpp_string s2)
                         end
                     | EmptyString => None
                     end
                 end
        end
      else if (byte_of c =? 10)%Z then None
      else cons_byte (byte_of c) (cpp_string s1)
  end.

Lemma cpp_string_byte c rest :
  cpp_string (escape_byte c +:+ rest) = cons_byte (byte_of c) (cpp_string rest).
Proof. destruct c as [[] [] [] [] [] [] [] []]; reflexivity. Qed.

Lemma cpp_string_escaped value rest :
  cpp_string (escape_bytes value +:+ String dq rest) = Some (value, rest).
Proof.
  induction value as [|c value IH]; [done|]. cbn [escape_bytes].
  by rewrite -append_assoc cpp_string_byte IH /= of_byte_byte_of.
Qed.

(** ** Properties *)

Section Properties.
Context `{Float64} `{UnicodeTables}.

(** C13: for every type a contract may declare and every JSON text: what the
    type's adapter validates it can both print as a C++ expression and
    canonicalise, and it canonicalises nothing else. *)
Theorem validated_values registry s a raw :
  DefaultRegistry = Ok registry -> Resolve registry s = Ok a ->
  (ValidateJSON a raw = Ok tt <-> exists c, CanonicalJSON a raw = Ok c) /\
  (ValidateJSON a raw = Ok tt -> exists text, GenerateLiteral a raw = Ok text).
Proof.
  intros Hr Ha. destruct (Resolve_lawful _ _ _ Hr Ha) as (l & _ & Hl).
  split; [apply lawful_validated|apply lawful_literal].
Qed.

(** C14: the canonical form of a value is one JSON value without white space
    around it and is its own canonical form, whatever the declared type. *)
Theorem canonical_fixed_point registry s raw c :
  DefaultRegistry = Ok registry -> Registry_CanonicalJSON registry s raw = Ok c ->
  raw_value c /\ Registry_CanonicalJSON registry s c = Ok c.
Proof.
  intros Hr (a & Ha & Hc)%bind_Ok_inv. destruct (Resolve_lawful _ _ _ Hr Ha) as (l & Hm & Hl).
  split.
  - apply (value_text_parse l); [lia|]. by eapply lawful_text.
  - rewrite /Registry_CanonicalJSON Ha bind_Ok. by eapply lawful_fixed.
Qed.

(** C15: the order-free comparison of two arrays holds exactly when the
    canonical texts of their elements are a permutation of each other, counted
    with multiplicity. *)
Theorem unordered_comparison registry s e raw1 raw2 u1 u2 :
  DefaultRegistry = Ok registry -> Resolve registry s = Ok (vectorAdapter e) ->
  CanonicalUnorderedArrayJSON registry s raw1 = Ok u1 ->
  CanonicalUnorderedArrayJSON registry s raw2 = Ok u2 ->
  exists cs1 cs2, canonical_elements e raw1 = Ok cs1 /\ canonical_elements e raw2 = Ok cs2 /\
    (u1 = u2 <-> cs1 ≡ₚ cs2).
Proof.
  intros Hr Ha. destruct (Resolve_lawful_within _ _ _ Hr Ha) as [_ He].
  destruct (He e eq_refl) as (l & Hm & Hl).
  rewrite /CanonicalUnorderedArrayJSON Ha !bind_Ok !unordered_elements.
  intros (cs1 & H1 & <-%ok_inj)%bind_Ok_inv (cs2 & H2 & <-%ok_inj)%bind_Ok_inv.
  exists cs1, cs2. split_and!; [done..|]. rewrite -sort_Strings_permutation. split; [|by intros ->].
  apply (array_text_inj l); [lia|..]; rewrite sort_Strings_perm; by eapply canonical_elements_text.
Qed.

(** C16: a string value reaches the C++ program intact: what the compiler reads
    from the literal is the value's bytes and their number, and nothing of the
    value is read outside the quotes. *)
Theorem string_literal_exact raw text :
  stringLiteral raw = Ok text ->
  exists value body, Unmarshal_string raw = Ok value /\ text = "std::string(" +:+ String dq body /\
    cpp_string body = Some (value, ", " +:+ Itoa (Z.of_nat (String.length value)) +:+ ")").
Proof.
  intros (value & Hv & <-%ok_inj)%bind_Ok_inv. apply wrap_err_Ok in Hv.
  exists value, (escape_bytes value +:+ String dq (", " +:+ Itoa (Z.of_nat (String.length value)) +:+ ")")).
  split_and!; [done| |apply cpp_string_escaped].
  f_equal. rewrite /quoted append_cons. f_equal. by rewrite -append_assoc append_cons append_empty_l.
Qed.

(** C17: a graph text is a valid value exactly when every neighbour is a node,
    every node has its row, and every node is reachable from node 0. *)
Theorem graph_acceptance g :
  int32_values g -> (Z.of_nat (ig_size g) <= 2 ^ 31)%Z ->
  validateGraphJSON (graph_text g) = Ok tt <-> ig_valid g.
Proof.
  intros Hv Hn. destruct (parseGraph_text_valid g Hv Hn) as [Hiff Hret].
  rewrite /validateGraphJSON only_error_Ok -Hiff. split; [|by eexists].
  intros [g' Hg']. by rewrite -(Hret _ Hg').
Qed.

(** C18: two graph values have the same canonical form exactly when they are
    the same graph up to a renumbering of the nodes that keeps the root, the
    values and the order of each node's neighbours. *)
Theorem graph_comparison raw1 raw2 g1 g2 :
  is_null raw1 = false -> is_null raw2 = false ->
  parseGraphJSON raw1 = Ok g1 -> parseGraphJSON raw2 = Ok g2 ->
  canonicalGraphJSON raw1 = canonicalGraphJSON raw2 <->
  exists f, ig_iso f (graph_of g1) (graph_of g2).
Proof.
  intros N1 N2 H1 H2.
  rewrite (canonicalGraph_text _ _ N1 H1) (canonicalGraph_text _ _ N2 H2).
  apply canonical_texts; by [|eapply accepted_graph].
Qed.
End Properties.

(** ** Examples *)

Section Examples.
#[local] Existing Instance latin1_tables.

(** An instance of [Float64] with two doubles, zero and one. *)
#[local, refine] Instance two_doubles : Float64 := {
  float64 := bool;
  ParseFloat s := if bool_decide (s = "0") then Some false
    else if bool_decide (s = "1") then Some true else None;
  FormatFloat v := if v : bool then "1" else "0" }.
Proof.
  - by intros [].
  - by intros [].
Defined.

Definition int_adapter : Adapter :=
  scalarAdapter "int" "int" (integerLiteral 32) (integerCanonical 32).

Definition sample_array : RawMessage := " [3, 1,2 ]".

Lemma sample_resolve : Resolve default_registry "vector< int >" = Ok (vectorAdapter int_adapter).
Proof.
  rewrite /Resolve. assert (Parse "vector< int >" = Ok (mkTypeRef "vector"
    [mkTypeRef "int" [] false NoReference false] false NoReference false)) as -> by (vm_compute; reflexivity).
  rewrite bind_Ok. destruct (default_parts _ DefaultRegistry_default) as [Ha Hf]. cbn.
  by rewrite Hf lookup_insert_ne // lookup_singleton_eq Ha.
Qed.

Lemma validated_values_witness :
  exists text, GenerateLiteral (vectorAdapter int_adapter) sample_array = Ok text.
Proof.
  destruct (validated_values default_registry "vector< int >" (vectorAdapter int_adapter) sample_array)
    as [_ Hl]; [apply DefaultRegistry_default|apply sample_resolve|]. apply Hl. vm_compute. reflexivity.
Defined.

Lemma canonical_fixed_point_witness :
  Registry_CanonicalJSON default_registry "vector< int >" "[3,1,2]" = Ok "[3,1,2]".
Proof.
  apply (canonical_fixed_point default_registry "vector< int >" sample_array "[3,1,2]");
    [apply DefaultRegistry_default|]. rewrite /Registry_CanonicalJSON sample_resolve bind_Ok.
  vm_compute. reflexivity.
Defined.

Lemma unordered_comparison_witness :
  exists cs1 cs2, canonical_elements int_adapter sample_array = Ok cs1 /\
    canonical_elements int_adapter "[1,2,3]" = Ok cs2 /\ ("[1,2,3]" = "[1,2,3]" <-> cs1 ≡ₚ cs2).
Proof.
  apply (unordered_comparison default_registry "vector< int >" int_adapter);
    [apply DefaultRegistry_default|apply sample_resolve|..];
    rewrite /CanonicalUnorderedArrayJSON sample_resolve bind_Ok; vm_compute; reflexivity.
Defined.

Definition sample_string : RawMessage := quoted ("a" +:+ String bs (String dq "") +:+ "b").

Lemma string_literal_exact_witness :
  exists value body, Unmarshal_string sample_string = Ok value /\
    "std::string(" +:+ quoted ("a" +:+ String bs (String dq "") +:+ "b") +:+ ", 3)" =
      "std::string(" +:+ String dq body /\
    cpp_string body = Some (value, ", " +:+ Itoa (Z.of_nat (String.length value)) +:+ ")").
Proof. apply string_literal_exact. vm_compute. reflexivity. Defined.

(** Two nodes that are each other's neighbour. *)
Definition sample_graph : igraph := mkIGraph [7; 9]%Z [[1]; [0; 1]]%Z.

Lemma graph_acceptance_witness :
  validateGraphJSON (graph_text sample_graph) = Ok tt <-> ig_valid sample_graph.
Proof. apply graph_acceptance; [repeat constructor; lia|vm_compute; discriminate]. Defined.

Definition star1 : igraph := mkIGraph [7; 8; 9]%Z [[1; 2]; [0]; []]%Z.
Definition star2 : igraph := mkIGraph [7; 9; 8]%Z [[2; 1]; []; [0]]%Z.

Lemma graph_comparison_witness :
  canonicalGraphJSON (graph_text star1) = canonicalGraphJSON (graph_text star2) <->
  exists f, ig_iso f (graph_of (graph_json star1)) (graph_of (graph_json star2)).
Proof.
  apply graph_comparison; vm_compute; reflexivity.
Defined.
End Examples.
