(* ===== verification/Harness.v ===== *)
(** * The language independent harness contracts

    [internal/judge/harness/generator.go] (the data a generator works on) and
    [internal/judge/harness/mode.go] (contracts, generators by language and
    mode).  [H] marks the harness package's own copy of a judge type. *)

From S2P Require Import Prelude GoStrings Contracts.

(** An index outside a slice is a run-time panic; the model makes it an error
    value of its own, so that theorems can exclude it. *)
Definition index_panic : goerr := LibErr "index out of range".

Definition get_index {A} (l : list A) (i : nat) : result A :=
  match l !! i with Some x => Ok x | None => Err index_panic end.

Definition get_indexZ {A} (l : list A) (i : Z) : result A :=
  if (i <? 0)%Z then Err index_panic else get_index l (Z.to_nat i).

(** ** generator.go *)

Record HParameter := mkHParameter {
  hp_Name : string;
  hp_Type : string }.

Record HObservation := mkHObservation {
  ho_Kind : string;
  ho_Parameter : Z;
  ho_View : string;
  ho_LengthFromReturn : bool }.

Record HPostcondition := mkHPostcondition {
  hq_Kind : string;
  hq_Subject : string;
  hq_FromParameter : Z }.

Record HFunctionComparison := mkHFunctionComparison {
  hfc_ReturnArrayOrder : string }.

Record HFunctionSpec := mkHFunctionSpec {
  hf_Name : string;
  hf_ReturnType : string;
  hf_Params : list HParameter;
  hf_Observations : list HObservation;
  hf_Postconditions : list HPostcondition;
  hf_Comparison : option HFunctionComparison }.

Record HOperationSpec := mkHOperationSpec {
  hs_Name : string;
  hs_ReturnType : string;
  hs_Params : list HParameter }.

Record HClassSpec := mkHClassSpec {
  hc_Name : string;
  hc_ConstructorParams : list HParameter;
  hc_Operations : list HOperationSpec }.

Record HOperationCall := mkHOperationCall {
  hl_Name : string;
  hl_Args : list RawMessage }.

Record HTestCase := mkHTestCase {
  ht_ID : Z;
  ht_Args : list RawMessage;
  ht_Expected : RawMessage;
  ht_ConstructorArgs : list RawMessage;
  ht_Operations : list HOperationCall }.

Record HRequest := mkHRequest {
  hr_SourceCode : string;
  hr_Function : HFunctionSpec;
  hr_TestCases : list HTestCase }.

(** ** mode.go *)

Record ExecutionContract := mkContract {
  ec_Mode : string;
  ec_Function : option HFunctionSpec;
  ec_Class : option HClassSpec }.

Record ModeRequest := mkModeRequest {
  mr_SourceCode : string;
  mr_Contract : ExecutionContract;
  mr_TestCases : list HTestCase }.

Record GeneratedProgram := mkProgram {
  gp_SourceCode : string;
  gp_SourceFile : string }.

(** The [ModeGenerator] interface. *)
Record ModeGenerator := mkGenerator {
  mg_Language : string;
  mg_Mode : string;
  mg_GenerateMode : ModeRequest -> result GeneratedProgram }.

Definition ModeRegistry : Type := gmap (string * string) ModeGenerator.

Definition NewModeRegistry (generators : list ModeGenerator) : ModeRegistry :=
  foldl (fun registry generator =>
    <[(mg_Language generator, mg_Mode generator) := generator]> registry) ∅ generators.

Definition ModeRegistry_Get (r : ModeRegistry) (language mode : string) : option ModeGenerator :=
  r !! (language, mode).

Definition is_nil {A} (o : option A) : bool := match o with None => true | Some _ => false end.

Definition ValidateContract (contract : ExecutionContract) : result unit :=
  fail_if negb (ExecutionMode_Valid (ec_Mode contract))
  with Errorf "unsupported execution mode %q" [FStr (ec_Mode contract)];;
  fail_if bool_decide (ec_Mode contract = ModeFunction) && is_nil (ec_Function contract)
  with Errorf "function contract is required for function mode" [];;
  fail_if negb (bool_decide (ec_Mode contract = ModeFunction)) && negb (is_nil (ec_Function contract))
  with Errorf "function contract is only valid in function mode" [];;
  fail_if bool_decide (ec_Mode contract = ModeClass) && is_nil (ec_Class contract)
  with Errorf "class contract is required for class mode" [];;
  fail_if negb (bool_decide (ec_Mode contract = ModeClass)) && negb (is_nil (ec_Class contract))
  with Errorf "class contract is only valid in class mode" [];;
  Ok tt.

(** [*request.Contract.Function]: dereferencing nil panics. *)
Definition nil_panic : goerr := LibErr "nil pointer dereference".

Definition deref {A} (o : option A) : result A :=
  match o with Some x => Ok x | None => Err nil_panic end.

(** An accepted contract has the metadata of its mode and no other. *)
Lemma ValidateContract_Ok contract :
  ValidateContract contract = Ok tt ->
  (ec_Mode contract = ModeFunction <-> is_Some (ec_Function contract)) /\
  (ec_Mode contract = ModeClass <-> is_Some (ec_Class contract)).
Proof.
  rewrite /ValidateContract. destruct (ec_Function contract) as [f|], (ec_Class contract) as [c|]; cbn;
    repeat case_bool_decide; cbn; destruct (negb _); intros E; try discriminate E;
    rewrite !is_Some_alt; split; split; intros; try done.
Qed.
