(* ===== verification/CppHarness.v ===== *)
(** * The C++ drivers: cpp/function.go and cpp/class.go

    The request checks and the text of the generated programs.  The loops that
    write to a [strings.Builder] are the concatenation of their pieces, in
    order. *)

From S2P Require Import Prelude GoStrings GoJson TypeSyntax Contracts RuntimeText Adapters Harness.

Definition concat_all (l : list string) : string := Join l "".

(** [strings.Builder] lines. *)
Definition line (s : string) : string := raw_text s +:+ newline.

Section Cpp.
Context `{Float64} `{UnicodeTables}.

(** ** function.go: validation *)

(** One round of the loop of [validateObservations]: whether the return was
    seen and which parameters were. *)
Definition validate_observation (function : HFunctionSpec) (returnAdapter : Adapter)
    (i : nat) (state : bool * gset Z) (observation : HObservation) : result (bool * gset Z) :=
  let '(returnSeen, parameterSeen) := state in
  let here := FInt (Z.of_nat i) in
  if bool_decide (ho_Kind observation = "return") then
    fail_if returnSeen
    with Errorf "observation %d duplicates the return observation" [here];;
    fail_if bool_decide (CppType returnAdapter = "void")
    with Errorf "void functions cannot observe a return value" [];;
    Ok (true, parameterSeen)
  else if bool_decide (ho_Kind observation = "parameter") then
    let parameter := ho_Parameter observation in
    fail_if (parameter <? 0)%Z || (Z.of_nat (length (hf_Params function)) <=? parameter)%Z
    with Errorf "observation %d references invalid parameter %d" [here; FInt parameter];;
    fail_if bool_decide (parameter ∈ parameterSeen)
    with Errorf "observation %d duplicates parameter %d" [here; FInt parameter];;
    let view := if bool_decide (ho_View observation = "") then "full" else ho_View observation in
    fail_if negb (bool_decide (view = "full")) && negb (bool_decide (view = "prefix"))
    with Errorf "observation %d has unsupported view %q" [here; FStr (ho_View observation)];;
    if bool_decide (view = "prefix") then
      fail_if negb (ho_LengthFromReturn observation)
      with Errorf "observation %d prefix view requires lengthFromReturn" [here];;
      declared ← get_indexZ (hf_Params function) parameter;
      fail_if negb (HasPrefix (Normalize (hp_Type declared)) "vector<")
      with Errorf "observation %d prefix view requires a vector parameter" [here];;
      fail_if negb (bool_decide (CppType returnAdapter = "int")) &&
              negb (bool_decide (CppType returnAdapter = "long long"))
      with Errorf "observation %d prefix length requires int or long long return type" [here];;
      Ok (returnSeen, {[parameter]} ∪ parameterSeen)
    else
      fail_if ho_LengthFromReturn observation
      with Errorf "observation %d lengthFromReturn requires prefix view" [here];;
      Ok (returnSeen, {[parameter]} ∪ parameterSeen)
  else Err (Errorf "observation %d has unsupported kind %q" [here; FStr (ho_Kind observation)]).

Definition validateObservations (function : HFunctionSpec) (returnAdapter : Adapter) : result unit :=
  if bool_decide (hf_Observations function = []) then
    fail_if bool_decide (CppType returnAdapter = "void")
    with Errorf "void functions require at least one observation" [];;
    Ok tt
  else
    foldM (validate_observation function returnAdapter) (false, ∅) (hf_Observations function);;
    Ok tt.

(** One round of the loop of [validatePostconditions]. *)
Definition validate_postcondition (returnAdapter : Adapter) (parameterAdapters : list Adapter)
    (i : nat) (seen : gset string) (postcondition : HPostcondition) : result (gset string) :=
  let here := FInt (Z.of_nat i) in
  let kind := hq_Kind postcondition in
  let from := hq_FromParameter postcondition in
  fail_if bool_decide (kind = "") with Errorf "postcondition %d kind is required" [here];;
  fail_if negb (bool_decide (kind = "disjoint")) && negb (bool_decide (kind = "same_as"))
  with Errorf "postcondition %d has unsupported kind %q" [here; FStr kind];;
  fail_if negb (bool_decide (hq_Subject postcondition = "return"))
  with Errorf "postcondition %d has unsupported subject %q" [here; FStr (hq_Subject postcondition)];;
  fail_if (from <? 0)%Z || (Z.of_nat (length parameterAdapters) <=? from)%Z
  with Errorf "postcondition %d references invalid parameter %d" [here; FInt from];;
  parameterAdapter ← get_indexZ parameterAdapters from;
  fail_if negb (bool_decide (CppType parameterAdapter = CppType returnAdapter))
  with Errorf "postcondition %d requires matching return and parameter pointer types" [here];;
  let key := kind +:+ ":" +:+ Itoa from in
  fail_if bool_decide (key ∈ seen) with Errorf "postcondition %d duplicates %s" [here; FStr key];;
  Ok ({[key]} ∪ seen).

Definition validatePostconditions (function : HFunctionSpec) (returnAdapter : Adapter)
    (parameterAdapters : list Adapter) : result unit :=
  if bool_decide (hf_Postconditions function = []) then Ok tt
  else
    fail_if bool_decide (CppType returnAdapter = "void")
    with Errorf "postconditions require a non-void return type" [];;
    fail_if negb (is_PostconditionAdapter returnAdapter)
    with Errorf "return type %q does not support postconditions"
      [FStr (Adapter_CanonicalName returnAdapter)];;
    foldM (validate_postcondition returnAdapter parameterAdapters) ∅ (hf_Postconditions function);;
    Ok tt.

Definition validateRequest (request : HRequest) (registry : Registry) : result unit :=
  let function := hr_Function request in
  fail_if bool_decide (hr_SourceCode request = "") with Errorf "sourceCode is required" [];;
  fail_if bool_decide (hf_Name function = "") with Errorf "function name is required" [];;
  fail_if bool_decide (hf_ReturnType function = "")
  with Errorf "function returnType is required" [];;
  returnAdapter ← wrap_err (fun e => Errorf "return type: %w" [FErr e])
    (Resolve registry (hf_ReturnType function));
  validateObservations function returnAdapter;;
  parameterAdapters ← imapM (fun i parameter =>
    let here := FInt (Z.of_nat i) in
    fail_if bool_decide (hp_Name parameter = "") with Errorf "parameter %d name is required" [here];;
    adapter ← wrap_err (fun e => Errorf "parameter %d type: %w" [here; FErr e])
      (Resolve registry (hp_Type parameter));
    fail_if bool_decide (CppType adapter = "void")
    with Errorf "parameter %d cannot have void type" [here];;
    Ok adapter) (hf_Params function);
  validatePostconditions function returnAdapter parameterAdapters;;
  iterM (fun i testCase =>
    fail_if negb (length (ht_Args testCase) =? length (hf_Params function))%nat
    with Errorf "test case %d args count must match function params count" [FInt (Z.of_nat i)];;
    iterM (fun j argument =>
      fail_if negb (Valid argument)
      with Errorf "test case %d argument %d is invalid JSON"
        [FInt (ht_ID testCase); FInt (Z.of_nat j)];; Ok tt) (ht_Args testCase);;
    fail_if bool_decide (ht_Expected testCase = "") || negb (Valid (ht_Expected testCase))
    with Errorf "test case %d expected must be valid JSON" [FInt (ht_ID testCase)];;
    Ok tt) (hr_TestCases request).

(** ** function.go: the program *)

Definition generateHeaders : string :=
  line "#include <bits/stdc++.h>" +:+ line "using namespace std;" +:+ newline.

Definition resolveFunctionAdapters (function : HFunctionSpec) (registry : Registry)
    : result (list Adapter) :=
  returnAdapter ← Resolve registry (hf_ReturnType function);
  adapters ← imapM (fun _ parameter => Resolve registry (hp_Type parameter)) (hf_Params function);
  Ok (returnAdapter :: adapters).

Definition generateSupport (registry : Registry) (adapters : list Adapter) : string :=
  serializerSource +:+ newline +:+ SupportSource registry adapters +:+ newline.

(** [" << \",\""] between the items of a list, and its items. *)
Definition comma_separator (first : bool) : string := if first then "" else raw_text " << `,`".

Definition quoted_index (i : Z) : string := raw_text " << `\`" +:+ Itoa i +:+ raw_text "\`:` << ".

Definition generateObservations (function : HFunctionSpec) (adapters : list Adapter)
    (returnAdapter : Adapter) : result string :=
  if bool_decide (hf_Observations function = []) && bool_decide (hf_Postconditions function = [])
  then Ok ("        cout << " +:+ SerializeExpression returnAdapter "__result" +:+ ";" +:+ newline)
  else
    let returnObservation :=
      bool_decide (hf_Observations function = []) ||
      existsb (fun o => bool_decide (ho_Kind o = "return")) (hf_Observations function) in
    let parameterObservations :=
      List.filter (fun o => negb (bool_decide (ho_Kind o = "return"))) (hf_Observations function) in
    let returnText :=
      if returnObservation
      then raw_text " << `\`return\`:` << " +:+ SerializeExpression returnAdapter "__result"
      else "" in
    parameterTexts ← imapM (fun i observation =>
      adapter ← get_indexZ adapters (ho_Parameter observation);
      parameter ← get_indexZ (hf_Params function) (ho_Parameter observation);
      let valueExpression :=
        if bool_decide (ho_View observation = "prefix")
        then "__serialize_prefix(" +:+ hp_Name parameter +:+ ", __result)"
        else SerializeExpression adapter (hp_Name parameter) in
      Ok (comma_separator (i =? 0)%nat +:+ quoted_index (ho_Parameter observation) +:+ valueExpression))
      parameterObservations;
    let parameterText :=
      if bool_decide (parameterObservations = []) then ""
      else comma_separator (negb returnObservation) +:+ raw_text " << `\`parameter\`:{`" +:+
           concat_all parameterTexts +:+ raw_text " << `}`" in
    conditionTexts ← imapM (fun i postcondition =>
      match returnAdapter with
      | runtimeAdapter adapter =>
          parameter ← get_indexZ (hf_Params function) (hq_FromParameter postcondition);
          valueExpression ← PostconditionExpression adapter (hq_Kind postcondition) "__result"
            (hp_Name parameter);
          Ok (comma_separator (i =? 0)%nat +:+ quoted_index (Z.of_nat i) +:+
              "__serialize(" +:+ valueExpression +:+ ")")
      | _ => Err (Errorf "return type %q does not support postconditions"
                   [FStr (Adapter_CanonicalName returnAdapter)])
      end) (hf_Postconditions function);
    let conditionText :=
      if bool_decide (hf_Postconditions function = []) then ""
      else comma_separator (negb returnObservation && bool_decide (parameterObservations = [])) +:+
           raw_text " << `\`postconditions\`:{`" +:+ concat_all conditionTexts +:+ raw_text " << `}`" in
    Ok (raw_text "        cout << `{`" +:+ returnText +:+ parameterText +:+ conditionText +:+
        line " << `}`;").

Definition generateCase (function : HFunctionSpec) (testCase : HTestCase) (registry : Registry)
    : result string :=
  parts ← imapM (fun i parameter =>
    adapter ← Resolve registry (hp_Type parameter);
    argument ← get_index (ht_Args testCase) i;
    literal ← wrap_err (fun e => Errorf "test case %d parameter %s: %w"
      [FInt (ht_ID testCase); FStr (hp_Name parameter); FErr e]) (GenerateLiteral adapter argument);
    Ok ("        " +:+ CppType adapter +:+ " " +:+ hp_Name parameter +:+ " = " +:+ literal +:+ ";" +:+
        newline, adapter)) (hf_Params function);
  returnAdapter ← Resolve registry (hf_ReturnType function);
  let invocation := "__solution." +:+ hf_Name function +:+ "(" +:+
    Join (map hp_Name (hf_Params function)) ", " +:+ ")" in
  let call :=
    if bool_decide (CppType returnAdapter = "void")
    then "        " +:+ invocation +:+ ";" +:+ newline
    else "        auto __result = " +:+ invocation +:+ ";" +:+ newline in
  observations ← generateObservations function parts.*2 returnAdapter;
  Ok ("    case " +:+ Itoa (ht_ID testCase) +:+ line ": {" +:+ concat_all parts.*1 +:+ call +:+
      observations +:+ line "        break;" +:+ line "    }").

Definition main_head : string :=
  line "int main() {" +:+
  line "    ios::sync_with_stdio(false);" +:+
  line "    cin.tie(nullptr);" +:+
  line "    int __case_id;" +:+
  line "    if (!(cin >> __case_id)) return 1;".

Definition generateMain (request : HRequest) (registry : Registry) : result string :=
  cases ← imapM (fun _ testCase => generateCase (hr_Function request) testCase registry)
    (hr_TestCases request);
  Ok (main_head +:+ line "    Solution __solution;" +:+ line "    switch (__case_id) {" +:+
      concat_all cases +:+ line "    default:" +:+ line "        return 1;" +:+ line "    }" +:+
      line "    return 0;" +:+ line "}").

Definition FunctionGenerator_Generate (registry : Registry) (request : HRequest) : result string :=
  validateRequest request registry;;
  supportAdapters ← resolveFunctionAdapters (hr_Function request) registry;
  mainSource ← generateMain request registry;
  Ok (generateHeaders +:+ generateSupport registry supportAdapters +:+ hr_SourceCode request +:+
      newline +:+ newline +:+ mainSource).

Definition FunctionGenerator_GenerateMode (registry : Registry) (request : ModeRequest)
    : result GeneratedProgram :=
  ValidateContract (mr_Contract request);;
  fail_if negb (bool_decide (ec_Mode (mr_Contract request) = ModeFunction))
  with Errorf "C++ function generator cannot handle mode %q" [FStr (ec_Mode (mr_Contract request))];;
  function ← deref (ec_Function (mr_Contract request));
  generated ← FunctionGenerator_Generate registry
    (mkHRequest (mr_SourceCode request) function (mr_TestCases request));
  Ok (mkProgram generated "main.cpp").

Definition cpp_FunctionGenerator (registry : Registry) : ModeGenerator :=
  mkGenerator "cpp" ModeFunction (FunctionGenerator_GenerateMode registry).
End Cpp.
