(* ===== verification/CppClass.v ===== *)
(** * The C++ class driver: cpp/class.go *)

From S2P Require Import Prelude GoStrings GoJson TypeSyntax Contracts RuntimeText Adapters Harness.
From S2P Require Import CppHarness.

Section CppClass.
Context `{Float64} `{UnicodeTables}.

Record ClassRequest := mkClassRequest {
  cr_SourceCode : string;
  cr_Class : HClassSpec;
  cr_TestCases : list HTestCase }.

(** [isCxxIdentifier]: a digit may not come first. *)
Definition isCxxIdentifier (value : string) : bool :=
  match runes value with
  | [] => false
  | first :: rest =>
      (IsLetter first || (first =? 95)%Z) && forallb is_word rest
  end.

Definition resolveClassAdapters (class : HClassSpec) (registry : Registry) : result (list Adapter) :=
  constructor ← imapM (fun _ parameter => Resolve registry (hp_Type parameter))
    (hc_ConstructorParams class);
  operations ← imapM (fun _ operation =>
    returnAdapter ← Resolve registry (hs_ReturnType operation);
    parameters ← imapM (fun _ parameter => Resolve registry (hp_Type parameter)) (hs_Params operation);
    Ok (returnAdapter :: parameters)) (hc_Operations class);
  Ok (constructor ++ concat operations).

(** ** Validation *)

Definition validateClassParameters (owner : string) (parameters : list HParameter)
    (registry : Registry) : result unit :=
  iterM (fun i parameter =>
    let here := [FStr owner; FInt (Z.of_nat i)] in
    fail_if negb (bool_decide (hp_Name parameter = "")) && negb (isCxxIdentifier (hp_Name parameter))
    with Errorf "%s parameter %d name must be a valid C++ identifier" here;;
    fail_if bool_decide (hp_Type parameter = "") with Errorf "%s parameter %d type is required" here;;
    adapter ← wrap_err (fun e => Errorf "%s parameter %d type: %w" (here ++ [FErr e]))
      (Resolve registry (hp_Type parameter));
    fail_if bool_decide (CppType adapter = "void")
    with Errorf "%s parameter %d cannot have void type" here;;
    Ok tt) parameters.

(** One round of the loop over the declared operations. *)
Definition validate_operation (registry : Registry) (i : nat) (seen : gset string)
    (operation : HOperationSpec) : result (gset string) :=
  let name := FStr (hs_Name operation) in
  fail_if negb (isCxxIdentifier (hs_Name operation))
  with Errorf "operation %d name must be a valid C++ identifier" [FInt (Z.of_nat i)];;
  fail_if bool_decide (hs_Name operation ∈ seen) with Errorf "duplicate class operation %q" [name];;
  fail_if bool_decide (hs_ReturnType operation = "")
  with Errorf "operation %q returnType is required" [name];;
  wrap_err (fun e => Errorf "operation %q return type: %w" [name; FErr e])
    (Resolve registry (hs_ReturnType operation));;
  validateClassParameters (hs_Name operation) (hs_Params operation) registry;;
  Ok ({[hs_Name operation]} ∪ seen).

(** [operations[operation.Name] = operation] for each declared operation. *)
Definition operations_by_name (operations : list HOperationSpec) : gmap string HOperationSpec :=
  foldl (fun m operation => <[hs_Name operation := operation]> m) ∅ operations.

(** Arguments against the declared parameters: [parameters[j].Type].
    [unresolved] is what an error of [Resolve] becomes. *)
Definition validate_arguments (registry : Registry) (parameters : list HParameter)
    (unresolved : goerr -> goerr) (invalid wrong : nat -> list farg -> goerr) (arguments : list RawMessage) : result unit :=
  iterM (fun j argument =>
    fail_if negb (Valid argument) with invalid j [];;
    parameter ← get_index parameters j;
    adapter ← wrap_err unresolved (Resolve registry (hp_Type parameter));
    wrap_err (fun e => wrong j [FErr e]) (ValidateJSON adapter argument)) arguments.

Definition validate_call (registry : Registry) (operations : gmap string HOperationSpec) (caseID : Z)
    (expected : list RawMessage) (operationIndex : nat) (call : HOperationCall) : result unit :=
  let here := [FInt caseID; FStr (hl_Name call)] in
  match operations !! hl_Name call with
  | None => Err (Errorf "test case %d operation %q is not declared" here)
  | Some operation =>
      fail_if negb (length (hl_Args call) =? length (hs_Params operation))%nat
      with Errorf "test case %d operation %q args count must match metadata" here;;
      validate_arguments registry (hs_Params operation) id
        (fun j _ => Errorf "test case %d operation %q argument %d must be valid JSON"
          (here ++ [FInt (Z.of_nat j)]))
        (fun j e => Errorf "test case %d operation %q argument %d has wrong type: %w"
          (here ++ FInt (Z.of_nat j) :: e)) (hl_Args call);;
      returnAdapter ← Resolve registry (hs_ReturnType operation);
      value ← get_index expected operationIndex;
      if bool_decide (CppType returnAdapter = "void") then
        fail_if negb (is_null value)
        with Errorf "test case %d operation %q expected result must be null" here;;
        Ok tt
      else
        wrap_err (fun e => Errorf "test case %d operation %q expected result has wrong type: %w"
          (here ++ [FErr e])) (ValidateJSON returnAdapter value)
  end.

Definition validate_class_case (registry : Registry) (class : HClassSpec)
    (operations : gmap string HOperationSpec) (i : nat) (seen : gset Z) (testCase : HTestCase)
    : result (gset Z) :=
  let caseID := ht_ID testCase in
  fail_if bool_decide (caseID ∈ seen) with Errorf "duplicate test case id %d" [FInt caseID];;
  fail_if negb (length (ht_ConstructorArgs testCase) =? length (hc_ConstructorParams class))%nat
  with Errorf "test case %d constructor args count must match constructor params count"
    [FInt (Z.of_nat i)];;
  validate_arguments registry (hc_ConstructorParams class) id
    (fun j _ => Errorf "test case %d constructor argument %d must be valid JSON"
      [FInt caseID; FInt (Z.of_nat j)])
    (fun j e => Errorf "test case %d constructor argument %d has wrong type: %w"
      (FInt caseID :: FInt (Z.of_nat j) :: e)) (ht_ConstructorArgs testCase);;
  fail_if bool_decide (ht_Operations testCase = [])
  with Errorf "test case %d must contain at least one operation" [FInt caseID];;
  fail_if bool_decide (ht_Expected testCase = "") || negb (Valid (ht_Expected testCase))
  with Errorf "test case %d expected must be a valid JSON array" [FInt caseID];;
  expected ← wrap_err (fun _ => Errorf "test case %d expected must be a JSON array" [FInt caseID])
    (Unmarshal_array (ht_Expected testCase));
  fail_if negb (length expected =? length (ht_Operations testCase))%nat
  with Errorf "test case %d expected count must match operation count" [FInt caseID];;
  iterM (validate_call registry operations caseID expected) (ht_Operations testCase);;
  Ok ({[caseID]} ∪ seen).

Definition validateClassRequest (request : ClassRequest) (registry : Registry) : result unit :=
  let class := cr_Class request in
  fail_if bool_decide (cr_SourceCode request = "") with Errorf "sourceCode is required" [];;
  fail_if negb (isCxxIdentifier (hc_Name class))
  with Errorf "class name must be a valid C++ identifier" [];;
  fail_if bool_decide (hc_Operations class = [])
  with Errorf "at least one class operation is required" [];;
  foldM (validate_operation registry) ∅ (hc_Operations class);;
  validateClassParameters "constructor" (hc_ConstructorParams class) registry;;
  foldM (validate_class_case registry class (operations_by_name (hc_Operations class))) ∅
    (cr_TestCases request);;
  Ok tt.

(** ** The program *)

(** [findClassOperation]: the zero value when there is none. *)
Definition findClassOperation (class : HClassSpec) (name : string) : HOperationSpec :=
  default (mkHOperationSpec "" "" [])
    (List.find (fun operation => bool_decide (hs_Name operation = name)) (hc_Operations class)).

(** [        T name = literal;] *)
Definition declare_argument (adapter : Adapter) (name literal : string) : string :=
  "        " +:+ CppType adapter +:+ " " +:+ name +:+ " = " +:+ literal +:+ ";" +:+ newline.

Definition constructor_name (i : nat) (parameter : HParameter) : string :=
  if bool_decide (hp_Name parameter = "") then "__constructor_arg_" +:+ Itoa (Z.of_nat i)
  else hp_Name parameter.

Definition operation_arg (operationIndex i : nat) : string :=
  "__operation_" +:+ Itoa (Z.of_nat operationIndex) +:+ "_arg_" +:+ Itoa (Z.of_nat i).

Definition generate_call (class : HClassSpec) (registry : Registry) (caseID : Z) (operationIndex : nat)
    (call : HOperationCall) : result string :=
  let separator := if (0 <? operationIndex)%nat then line "        cout << `,`;" else "" in
  let operation := findClassOperation class (hl_Name call) in
  parts ← imapM (fun i parameter =>
    adapter ← Resolve registry (hp_Type parameter);
    argument ← get_index (hl_Args call) i;
    literal ← wrap_err (fun e => Errorf "test case %d operation %q argument %d: %w"
      [FInt caseID; FStr (hl_Name call); FInt (Z.of_nat i); FErr e]) (GenerateLiteral adapter argument);
    Ok (declare_argument adapter (operation_arg operationIndex i) literal,
        operation_arg operationIndex i)) (hs_Params operation);
  returnAdapter ← Resolve registry (hs_ReturnType operation);
  let invocation := "__object." +:+ hs_Name operation +:+ "(" +:+ Join parts.*2 ", " +:+ ")" in
  let result := "__operation_result_" +:+ Itoa (Z.of_nat operationIndex) in
  let tail :=
    if bool_decide (CppType returnAdapter = "void")
    then "        " +:+ invocation +:+ ";" +:+ newline +:+ line "        cout << `null`;"
    else "        auto " +:+ result +:+ " = " +:+ invocation +:+ ";" +:+ newline +:+
         "        cout << " +:+ SerializeExpression returnAdapter result +:+ ";" +:+ newline in
  Ok (separator +:+ concat_all parts.*1 +:+ tail).

Definition generateClassCase (class : HClassSpec) (testCase : HTestCase) (registry : Registry)
    : result string :=
  parts ← imapM (fun i parameter =>
    adapter ← Resolve registry (hp_Type parameter);
    argument ← get_index (ht_ConstructorArgs testCase) i;
    literal ← wrap_err (fun e => Errorf "test case %d constructor argument %d: %w"
      [FInt (ht_ID testCase); FInt (Z.of_nat i); FErr e]) (GenerateLiteral adapter argument);
    Ok (declare_argument adapter (constructor_name i parameter) literal,
        constructor_name i parameter)) (hc_ConstructorParams class);
  let construct :=
    if bool_decide (parts = []) then "        " +:+ hc_Name class +:+ line " __object{};"
    else "        " +:+ hc_Name class +:+ " __object(" +:+ Join parts.*2 ", " +:+ line ");" in
  calls ← imapM (generate_call class registry (ht_ID testCase)) (ht_Operations testCase);
  Ok ("    case " +:+ Itoa (ht_ID testCase) +:+ line ": {" +:+ concat_all parts.*1 +:+ construct +:+
      line "        cout << `[`;" +:+ concat_all calls +:+ line "        cout << `]`;" +:+
      line "        break;" +:+ line "    }").

Definition generateClassMain (request : ClassRequest) (registry : Registry) : result string :=
  cases ← imapM (fun _ testCase => generateClassCase (cr_Class request) testCase registry)
    (cr_TestCases request);
  Ok (main_head +:+ line "    switch (__case_id) {" +:+ concat_all cases +:+
      line "    default: return 1;" +:+ line "    }" +:+ line "    return 0;" +:+ line "}").

Definition ClassGenerator_Generate (registry : Registry) (request : ClassRequest) : result string :=
  validateClassRequest request registry;;
  adapters ← resolveClassAdapters (cr_Class request) registry;
  mainSource ← generateClassMain request registry;
  Ok (generateHeaders +:+ generateSupport registry adapters +:+ cr_SourceCode request +:+
      newline +:+ newline +:+ mainSource).

Definition ClassGenerator_GenerateMode (registry : Registry) (request : ModeRequest)
    : result GeneratedProgram :=
  ValidateContract (mr_Contract request);;
  fail_if negb (bool_decide (ec_Mode (mr_Contract request) = ModeClass))
  with Errorf "C++ class generator cannot handle mode %q" [FStr (ec_Mode (mr_Contract request))];;
  class ← deref (ec_Class (mr_Contract request));
  generated ← ClassGenerator_Generate registry
    (mkClassRequest (mr_SourceCode request) class (mr_TestCases request));
  Ok (mkProgram generated "main.cpp").

Definition cpp_ClassGenerator (registry : Registry) : ModeGenerator :=
  mkGenerator "cpp" ModeClass (ClassGenerator_GenerateMode registry).
End CppClass.
