(* ===== verification/PyHarness.v ===== *)
(** * The Python drivers: python/types.go, python/function.go, python/class.go

    The type and contract checks and the text of the generated programs.
    Iterating over a Go map has no order; the model goes through
    [map_to_list], which only decides which of several errors is reported. *)

From S2P Require Import Prelude GoStrings GoJson TypeSyntax Contracts RuntimeText Adapters Harness.
From S2P Require Import CppHarness CppClass.

(** ** types.go *)

Definition runtime_names : list string :=
  ["ListNode"; "TreeNode"; "RandomListNode"; "Node"; "GraphNode"].
Definition value_names : list string := ["int"; "long long"; "double"; "bool"; "string"].

Fixpoint validateType (ref : TypeRef) (allowVoid : bool) : result unit :=
  let arguments := tr_Arguments ref in
  if tr_Pointer ref then
    fail_if negb (length arguments =? 0)%nat with Errorf "pointer containers are not supported" [];;
    if bool_decide (tr_Name ref ∈ runtime_names) then Ok tt
    else Err (Errorf "unsupported Python runtime type %q" [FStr (CanonicalName ref)])
  else
    match arguments with
    | [] =>
        if bool_decide (tr_Name ref ∈ value_names) then Ok tt
        else if bool_decide (tr_Name ref = "void") then
          if allowVoid then Ok tt else Err (Errorf "void is not a value type" [])
        else Err (Errorf "unsupported Python type %q" [FStr (CanonicalName ref)])
    | argument :: others =>
        fail_if negb (bool_decide (tr_Name ref = "vector")) && negb (bool_decide (tr_Name ref = "optional"))
        with Errorf "unsupported Python container type %q" [FStr (tr_Name ref)];;
        fail_if negb (length others =? 0)%nat
        with Errorf "%s requires exactly one type argument" [FStr (tr_Name ref)];;
        validateType argument false
    end.

Section Python.
Context `{Float64} `{UnicodeTables} `{PrintTables}.

Definition normalizeType (declared : string) : result (TypeRef * string) :=
  ref ← Parse declared; validateType ref true;; Ok (ref, CanonicalName ref).

Definition isVoid (declared : string) : bool :=
  match Parse declared with
  | Ok ref => bool_decide (tr_Name ref = "void") && (length (tr_Arguments ref) =? 0)%nat &&
              negb (tr_Pointer ref)
  | Err _ => false
  end.

Definition pythonTypeName (declared : string) : result string :=
  ref ← Parse declared; validateType ref true;; Ok (CanonicalName ref).

Definition isContainerType (declared : string) : bool :=
  match Parse declared with
  | Ok ref => bool_decide (tr_Name ref = "vector") && (length (tr_Arguments ref) =? 1)%nat &&
              negb (tr_Pointer ref)
  | Err _ => false
  end.

Definition pythonKeywords : list string :=
  ["False"; "None"; "True"; "and"; "as"; "assert"; "async"; "await"; "break"; "class"; "continue";
   "def"; "del"; "elif"; "else"; "except"; "finally"; "for"; "from"; "global"; "if"; "import"; "in";
   "is"; "lambda"; "nonlocal"; "not"; "or"; "pass"; "raise"; "return"; "try"; "while"; "with"; "yield"].

Definition ascii_letter (b : Z) : bool :=
  (b =? 95)%Z || (65 <=? b)%Z && (b <=? 90)%Z || (97 <=? b)%Z && (b <=? 122)%Z.

Definition pythonIdentifier (value : string) : bool :=
  match map byte_of (String.list_ascii_of_string value) with
  | [] => false
  | first :: rest =>
      ascii_letter first &&
      forallb (fun b => ascii_letter b || (48 <=? b)%Z && (b <=? 57)%Z) rest &&
      negb (bool_decide (value ∈ pythonKeywords))
  end.

(** ** function.go: validation *)

Definition observation_map : Type := gmap Z HObservation.

(** One round of the loop of [validatePythonObservations]. *)
Definition python_observation (function : HFunctionSpec) (returnAdapter : Adapter)
    (parameterAdapters : list Adapter) (index : nat) (state : bool * observation_map)
    (observation : HObservation) : result (bool * observation_map) :=
  let '(returnObserved, parameters) := state in
  let here := FInt (Z.of_nat index) in
  if bool_decide (ho_Kind observation = "return") then
    fail_if returnObserved || isVoid (hf_ReturnType function)
    with Errorf "observation %d cannot observe the function return" [here];;
    Ok (true, parameters)
  else if bool_decide (ho_Kind observation = "parameter") then
    let parameter := ho_Parameter observation in
    fail_if (parameter <? 0)%Z || (Z.of_nat (length parameterAdapters) <=? parameter)%Z
    with Errorf "observation %d references invalid parameter %d" [here; FInt parameter];;
    fail_if negb (is_nil (parameters !! parameter))
    with Errorf "observation %d duplicates parameter %d" [here; FInt parameter];;
    let view := if bool_decide (ho_View observation = "") then "full" else ho_View observation in
    fail_if negb (bool_decide (view = "full")) && negb (bool_decide (view = "prefix"))
    with Errorf "observation %d has unsupported view %q" [here; FStr (ho_View observation)];;
    if bool_decide (view = "prefix") then
      declared ← get_indexZ (hf_Params function) parameter;
      fail_if negb (ho_LengthFromReturn observation) || negb (isContainerType (hp_Type declared))
      with Errorf "observation %d prefix view requires a vector and lengthFromReturn" [here];;
      fail_if negb (bool_decide (CppType returnAdapter = "int")) &&
              negb (bool_decide (CppType returnAdapter = "long long"))
      with Errorf "observation %d prefix length requires int or long long return type" [here];;
      Ok (returnObserved, <[parameter := observation]> parameters)
    else
      fail_if ho_LengthFromReturn observation
      with Errorf "observation %d lengthFromReturn requires prefix view" [here];;
      Ok (returnObserved, <[parameter := observation]> parameters)
  else Err (Errorf "observation %d has unsupported kind %q" [here; FStr (ho_Kind observation)]).

Definition validatePythonObservations (function : HFunctionSpec) (returnAdapter : Adapter)
    (parameterAdapters : list Adapter) : result (bool * observation_map) :=
  if bool_decide (hf_Observations function = []) then
    fail_if isVoid (hf_ReturnType function)
    with Errorf "void functions require at least one observation" [];;
    Ok (true, ∅)
  else foldM (python_observation function returnAdapter parameterAdapters) (false, ∅)
         (hf_Observations function).

(** One round of the loop of [validatePythonPostconditions]. *)
Definition python_postcondition (function : HFunctionSpec) (returnType : TypeRef) (parameters : nat)
    (i : nat) (seen : gset string) (condition : HPostcondition) : result (gset string) :=
  let here := FInt (Z.of_nat i) in
  let kind := hq_Kind condition in
  let from := hq_FromParameter condition in
  fail_if negb (bool_decide (kind = "disjoint")) && negb (bool_decide (kind = "same_as"))
  with Errorf "postcondition %d has unsupported kind %q" [here; FStr kind];;
  fail_if negb (bool_decide (hq_Subject condition = "return"))
  with Errorf "postcondition %d has unsupported subject %q" [here; FStr (hq_Subject condition)];;
  fail_if (from <? 0)%Z || (Z.of_nat parameters <=? from)%Z
  with Errorf "postcondition %d references invalid parameter %d" [here; FInt from];;
  declared ← get_indexZ (hf_Params function) from;
  let mismatch := Errorf "postcondition %d requires matching custom runtime pointer types" [here] in
  '(parameterType, _) ← wrap_err (fun _ => mismatch) (normalizeType (hp_Type declared));
  fail_if negb (bool_decide (CanonicalName parameterType = CanonicalName returnType)) with mismatch;;
  let key := kind +:+ ":" +:+ Itoa from in
  fail_if bool_decide (key ∈ seen) with Errorf "postcondition %d duplicates %s" [here; FStr key];;
  Ok ({[key]} ∪ seen).

Definition validatePythonPostconditions (function : HFunctionSpec) (parameterAdapters : list Adapter)
    : result unit :=
  if bool_decide (hf_Postconditions function = []) then Ok tt
  else
    let required := Errorf "Python identity postconditions require a custom runtime return type" [] in
    '(returnType, _) ← wrap_err (fun _ => required) (normalizeType (hf_ReturnType function));
    fail_if negb (tr_Pointer returnType) with required;;
    foldM (python_postcondition function returnType (length parameterAdapters)) ∅
      (hf_Postconditions function);;
    Ok tt.

Definition known_field (key : string) : bool :=
  bool_decide (key ∈ ["return"; "parameter"; "postconditions"]).

(** The loop over the keys of the expected object. *)
Definition only_known_fields (expected : gmap string RawMessage) : result unit :=
  iterM (fun _ '(key, _) =>
    fail_if negb (known_field key) with Errorf "unexpected observation %q" [FStr key];; Ok tt)
    (map_to_list expected).

(** The parameter field of [validatePythonFunctionExpected]. *)
Definition python_expected_parameters (parameterAdapters : list Adapter) (observations : observation_map)
    (parameterValue : option RawMessage) : result unit :=
  fail_if bool_decide (observations = ∅) && negb (is_nil parameterValue)
  with Errorf "unexpected parameter observations" [];;
  if bool_decide (observations = ∅) then Ok tt
  else
    let missing := Errorf "parameter observations are missing or invalid" [] in
    raw ← match parameterValue with Some raw => Ok raw | None => Err missing end;
    values ← required_object "parameter observations are missing or invalid" raw;
    iterM (fun _ '(parameter, _) =>
      match values !! Itoa parameter with
      | None => Err (Errorf "parameter observation %d is missing" [FInt parameter])
      | Some value =>
          adapter ← get_indexZ parameterAdapters parameter;
          wrap_err (fun e => Errorf "parameter observation %d has wrong type: %w"
            [FInt parameter; FErr e]) (ValidateJSON adapter value)
      end) (map_to_list observations);;
    fail_if negb (size values =? size observations)%nat
    with Errorf "unexpected parameter observations" [];;
    Ok tt.

(** The postconditions field; a missing key reads as the nil message. *)
Definition python_expected_conditions (count : nat) (conditions : option RawMessage) : result unit :=
  match conditions with
  | None => Ok tt
  | Some raw =>
      let mismatch := "postconditions do not match function metadata" in
      values ← required_object mismatch raw;
      fail_if negb (size values =? count)%nat with Errorf mismatch [];;
      iterM (fun i _ =>
        fail_if negb (bool_decide (default "" (values !! Itoa (Z.of_nat i)) = "true"))
        with Errorf "postcondition %d must be true" [FInt (Z.of_nat i)];; Ok tt) (replicate count tt)
  end.

Definition validatePythonFunctionExpected (raw : RawMessage) (function : HFunctionSpec)
    (returnAdapter : Adapter) (parameterAdapters : list Adapter) (returnObserved : bool)
    (observations : observation_map) : result unit :=
  let wrong_return := wrap_err (fun e => Errorf "wrong return type: %w" [FErr e]) in
  if bool_decide (hf_Observations function = []) then wrong_return (ValidateJSON returnAdapter raw)
  else
    expected ← required_object "expected an observation object" raw;
    (if returnObserved : bool then
       match expected !! "return" with
       | None => Err (Errorf "return observation is missing" [])
       | Some returnValue => wrong_return (ValidateJSON returnAdapter returnValue)
       end
     else
       fail_if negb (is_nil (expected !! "return")) with Errorf "unexpected return observation" [];;
       Ok tt);;
    python_expected_parameters parameterAdapters observations (expected !! "parameter");;
    python_expected_conditions (length (hf_Postconditions function)) (expected !! "postconditions");;
    only_known_fields expected.

Definition python_function_case (function : HFunctionSpec) (returnAdapter : Adapter)
    (parameterAdapters : list Adapter) (observed : bool * observation_map) (_ : nat) (seen : gset Z)
    (testCase : HTestCase) : result (gset Z) :=
  let id := FInt (ht_ID testCase) in
  fail_if bool_decide (ht_ID testCase ∈ seen) with Errorf "duplicate test case id %d" [id];;
  fail_if negb (length (ht_Args testCase) =? length (hf_Params function))%nat
  with Errorf "test case %d args count must match function params count" [id];;
  iterM (fun j raw =>
    fail_if negb (Valid raw)
    with Errorf "test case %d argument %d must be valid JSON" [id; FInt (Z.of_nat j)];;
    adapter ← get_index parameterAdapters j;
    wrap_err (fun e => Errorf "test case %d argument %d has wrong type: %w"
      [id; FInt (Z.of_nat j); FErr e]) (ValidateJSON adapter raw)) (ht_Args testCase);;
  fail_if bool_decide (ht_Expected testCase = "") || negb (Valid (ht_Expected testCase))
  with Errorf "test case %d expected must be valid JSON" [id];;
  wrap_err (fun e => Errorf "test case %d expected: %w" [id; FErr e])
    (validatePythonFunctionExpected (ht_Expected testCase) function returnAdapter parameterAdapters
       observed.1 observed.2);;
  Ok ({[ht_ID testCase]} ∪ seen).

Definition validate_python_comparison (function : HFunctionSpec) (returnObserved : bool) : result unit :=
  match hf_Comparison function with
  | None => Ok tt
  | Some comparison =>
      let order := hfc_ReturnArrayOrder comparison in
      if bool_decide (order = "") then Ok tt
      else
        fail_if negb (bool_decide (order = "unordered"))
        with Errorf "unsupported returnArrayOrder %q" [FStr order];;
        fail_if negb returnObserved || negb (isContainerType (hf_ReturnType function))
        with Errorf "unordered returnArrayOrder requires an observed vector return type" [];;
        Ok tt
  end.

(** The adapter of a declared parameter. *)
Definition python_parameter (i : nat) (parameter : HParameter) : result Adapter :=
  let here := FInt (Z.of_nat i) in
  fail_if negb (pythonIdentifier (hp_Name parameter))
  with Errorf "function param %d name must be a valid Python identifier" [here];;
  adapter ← wrap_err (fun e => Errorf "function param %d type: %w" [here; FErr e])
    (Resolve default_registry (hp_Type parameter));
  fail_if negb (is_ok (normalizeType (hp_Type parameter))) || bool_decide (CppType adapter = "void")
  with Errorf "unsupported Python function param %d type %q" [here; FStr (hp_Type parameter)];;
  Ok adapter.

Definition validateFunction (sourceCode : string) (function : HFunctionSpec)
    (testCases : list HTestCase) : result unit :=
  fail_if bool_decide (sourceCode = "") with Errorf "sourceCode is required" [];;
  fail_if bool_decide (testCases = []) with Errorf "at least one test case is required" [];;
  fail_if negb (pythonIdentifier (hf_Name function))
  with Errorf "function name must be a valid Python identifier" [];;
  fail_if bool_decide (hf_ReturnType function = "")
  with Errorf "function returnType is required" [];;
  returnAdapter ← wrap_err (fun e => Errorf "return type: %w" [FErr e])
    (Resolve default_registry (hf_ReturnType function));
  wrap_err (fun e => Errorf "unsupported Python returnType %q: %w"
    [FStr (hf_ReturnType function); FErr e]) (normalizeType (hf_ReturnType function));;
  fail_if (10 <? length (hf_Params function))%nat with Errorf "too many function params" [];;
  parameterAdapters ← imapM python_parameter (hf_Params function);
  observed ← validatePythonObservations function returnAdapter parameterAdapters;
  validate_python_comparison function observed.1;;
  validatePythonPostconditions function parameterAdapters;;
  foldM (python_function_case function returnAdapter parameterAdapters observed) ∅ testCases;;
  Ok tt.

(** ** function.go: the program *)

(** [__yexjudge_build_value("type", __yexjudge_json.loads("raw"))]; the error
    of [pythonTypeName] is dropped. *)
Definition build_value (declared : string) (raw : RawMessage) : string :=
  "__yexjudge_build_value(" +:+ Quote (or_zero "" (pythonTypeName declared)) +:+
  ", __yexjudge_json.loads(" +:+ Quote raw +:+ "))".

Definition build_arguments (parameters : list HParameter) (arguments : list RawMessage)
    : result (list string) :=
  imapM (fun i raw => parameter ← get_index parameters i; Ok (build_value (hp_Type parameter) raw))
    arguments.

Definition dict_entry (key : Z) (value : string) : string := quoted (Itoa key) +:+ ": " +:+ value.

Definition generateObservedFunctionOutput (function : HFunctionSpec) : result string :=
  if bool_decide (hf_Observations function = []) && bool_decide (hf_Postconditions function = []) then
    Ok (if isVoid (hf_ReturnType function) then "None" else "__serialized_result")
  else
    let returnObserved :=
      bool_decide (hf_Observations function = []) ||
      existsb (fun o => bool_decide (ho_Kind o = "return")) (hf_Observations function) in
    let returnField := if returnObserved then [raw_text "`return`: __serialized_result"] else [] in
    parameterFields ← imapM (fun _ observation =>
      parameter ← get_indexZ (hf_Params function) (ho_Parameter observation);
      typeName ← pythonTypeName (hp_Type parameter);
      let index := Itoa (ho_Parameter observation) in
      let valueName :=
        if bool_decide (ho_View observation = "prefix")
        then "__args[" +:+ index +:+ "][:max(0, int(__result))]"
        else "__args[" +:+ index +:+ "]" in
      Ok (dict_entry (ho_Parameter observation)
        ("__yexjudge_serialize_value(" +:+ Quote typeName +:+ ", " +:+ valueName +:+ ")")))
      (List.filter (fun o => bool_decide (ho_Kind o = "parameter")) (hf_Observations function));
    let parameterField :=
      if bool_decide (parameterFields = []) then []
      else [raw_text "`parameter`: {" +:+ Join parameterFields ", " +:+ "}"] in
    let returnType := or_zero "" (pythonTypeName (hf_ReturnType function)) in
    let conditions := imap (fun i condition =>
      dict_entry (Z.of_nat i) ("__yexjudge_postcondition(" +:+ Quote (hq_Kind condition) +:+
        ", __result, __args[" +:+ Itoa (hq_FromParameter condition) +:+ "], " +:+ Quote returnType +:+ ")"))
      (hf_Postconditions function) in
    let conditionField :=
      if bool_decide (conditions = []) then []
      else [raw_text "`postconditions`: {" +:+ Join conditions ", " +:+ "}"] in
    Ok ("{" +:+ Join (returnField ++ parameterField ++ conditionField) ", " +:+ "}").

(** The header of a test case branch. *)
Definition case_head (index : nat) (id : Z) : string :=
  "    " +:+ (if (index =? 0)%nat then "if" else "elif") +:+ " __case_id == " +:+ Itoa id +:+ line ":".

Definition redirect : string :=
  line "        with __yexjudge_contextlib.redirect_stdout(__captured):".

Definition generate_function_case (function : HFunctionSpec) (index : nat) (testCase : HTestCase)
    : result string :=
  args ← build_arguments (hf_Params function) (ht_Args testCase);
  output ← generateObservedFunctionOutput function;
  let head := case_head index (ht_ID testCase) +:+ "        __args = [" +:+ Join args ", " +:+ line "]" +:+
    line "        __captured = __yexjudge_io.StringIO()" +:+ redirect +:+
    line "            __solution = Solution()" in
  let call :=
    if isVoid (hf_ReturnType function)
    then "            __solution." +:+ hf_Name function +:+ line "(*__args)"
    else "            __result = __solution." +:+ hf_Name function +:+ line "(*__args)" +:+
         "        __serialized_result = __yexjudge_serialize_value(" +:+
         Quote (or_zero "" (pythonTypeName (hf_ReturnType function))) +:+ line ", __result)" in
  Ok (head +:+ call +:+ "        __output = " +:+ output +:+ newline).

(** What both Python drivers write before and after the branches. *)
Definition python_head (sourceCode : string) : string :=
  runtimeSource +:+ newline +:+ newline +:+ sourceCode +:+ newline +:+ newline +:+
  line "def __yexjudge_main():" +:+
  line "    __case_id = int(__yexjudge_sys.stdin.readline().strip())".

Definition python_tail : string :=
  line "    else:" +:+ line "        return 1" +:+
  line "    __yexjudge_sys.stdout.write(__yexjudge_json.dumps(__output, separators=(`,`, `:`), allow_nan=False) + `\n`)" +:+
  line "    return 0" +:+ newline +:+ line "if __name__ == `__main__`:" +:+
  line "    raise SystemExit(__yexjudge_main())".

Definition generateFunction (sourceCode : string) (function : HFunctionSpec)
    (testCases : list HTestCase) : result string :=
  validateFunction sourceCode function testCases;;
  cases ← imapM (generate_function_case function) testCases;
  Ok (python_head sourceCode +:+ concat_all cases +:+ python_tail).

Definition python_FunctionGenerateMode (request : ModeRequest) : result GeneratedProgram :=
  ValidateContract (mr_Contract request);;
  fail_if negb (bool_decide (ec_Mode (mr_Contract request) = ModeFunction))
  with Errorf "Python function generator cannot handle mode %q" [FStr (ec_Mode (mr_Contract request))];;
  function ← deref (ec_Function (mr_Contract request));
  source ← generateFunction (mr_SourceCode request) function (mr_TestCases request);
  Ok (mkProgram source "main.py").

Definition python_FunctionGenerator : ModeGenerator :=
  mkGenerator "python" ModeFunction python_FunctionGenerateMode.

(** ** class.go: validation *)

Definition validateClassParams (owner : string) (parameters : list HParameter) (registry : Registry)
    (allowEmptyName : bool) : result unit :=
  iterM (fun index parameter =>
    let here := [FStr owner; FInt (Z.of_nat index)] in
    fail_if negb (bool_decide (hp_Name parameter = "") && allowEmptyName) &&
            negb (pythonIdentifier (hp_Name parameter))
    with Errorf "%s parameter %d name must be a valid Python identifier" here;;
    fail_if bool_decide (hp_Type parameter = "") with Errorf "%s parameter %d type is required" here;;
    adapter ← wrap_err (fun e => Errorf "%s parameter %d type: %w" (here ++ [FErr e]))
      (Resolve registry (hp_Type parameter));
    fail_if negb (is_ok (normalizeType (hp_Type parameter))) || bool_decide (CppType adapter = "void")
    with Errorf "unsupported %s parameter %d type %q" (here ++ [FStr (hp_Type parameter)]);;
    Ok tt) parameters.

(** One round of the loop over the declared operations. *)
Definition python_operation (registry : Registry) (index : nat) (operations : gmap string HOperationSpec)
    (operation : HOperationSpec) : result (gmap string HOperationSpec) :=
  let name := FStr (hs_Name operation) in
  fail_if negb (pythonIdentifier (hs_Name operation))
  with Errorf "operation %d name must be a valid Python identifier" [FInt (Z.of_nat index)];;
  fail_if negb (is_nil (operations !! hs_Name operation))
  with Errorf "duplicate class operation %q" [name];;
  fail_if bool_decide (hs_ReturnType operation = "")
  with Errorf "operation %q returnType is required" [name];;
  wrap_err (fun e => Errorf "operation %q return type: %w" [name; FErr e])
    (Resolve registry (hs_ReturnType operation));;
  wrap_err (fun e => Errorf "operation %q has unsupported Python return type %q: %w"
    [name; FStr (hs_ReturnType operation); FErr e]) (normalizeType (hs_ReturnType operation));;
  validateClassParams ("operation " +:+ hs_Name operation) (hs_Params operation) registry false;;
  Ok (<[hs_Name operation := operation]> operations).

(** The error of [Resolve] is dropped here: a nil adapter panics when used. *)
Definition python_call (registry : Registry) (operations : gmap string HOperationSpec) (id : Z)
    (expected : list RawMessage) (index : nat) (call : HOperationCall) : result unit :=
  let here := [FInt id; FStr (hl_Name call)] in
  match operations !! hl_Name call with
  | None => Err (Errorf "test case %d operation %q is not declared" here)
  | Some operation =>
      fail_if negb (length (hl_Args call) =? length (hs_Params operation))%nat
      with Errorf "test case %d operation %q args count must match metadata" here;;
      validate_arguments registry (hs_Params operation) (fun _ => nil_panic)
        (fun j _ => Errorf "test case %d operation %q argument %d must be valid JSON"
          (here ++ [FInt (Z.of_nat j)]))
        (fun j e => Errorf "test case %d operation %q argument %d has wrong type: %w"
          (here ++ FInt (Z.of_nat j) :: e)) (hl_Args call);;
      returnAdapter ← wrap_err (fun _ => nil_panic) (Resolve registry (hs_ReturnType operation));
      value ← get_index expected index;
      if isVoid (hs_ReturnType operation) then
        fail_if negb (is_null value)
        with Errorf "test case %d operation %q expected result must be null" here;;
        Ok tt
      else
        wrap_err (fun e => Errorf "test case %d operation %q expected result has wrong type: %w"
          (here ++ [FErr e])) (ValidateJSON returnAdapter value)
  end.

Definition python_class_case (registry : Registry) (class : HClassSpec)
    (operations : gmap string HOperationSpec) (_ : nat) (seen : gset Z) (testCase : HTestCase)
    : result (gset Z) :=
  let id := ht_ID testCase in
  fail_if bool_decide (id ∈ seen) with Errorf "duplicate test case id %d" [FInt id];;
  fail_if negb (length (ht_ConstructorArgs testCase) =? length (hc_ConstructorParams class))%nat
  with Errorf "test case %d constructor args count must match constructor params count" [FInt id];;
  validate_arguments registry (hc_ConstructorParams class) (fun _ => nil_panic)
    (fun j _ => Errorf "test case %d constructor argument %d must be valid JSON"
      [FInt id; FInt (Z.of_nat j)])
    (fun j e => Errorf "test case %d constructor argument %d has wrong type: %w"
      (FInt id :: FInt (Z.of_nat j) :: e)) (ht_ConstructorArgs testCase);;
  fail_if bool_decide (ht_Operations testCase = [])
  with Errorf "test case %d must contain at least one operation" [FInt id];;
  let no_array := Errorf "test case %d expected must be a JSON array" [FInt id] in
  fail_if bool_decide (ht_Expected testCase = "") with no_array;;
  expected ← wrap_err (fun _ => no_array) (Unmarshal_array (ht_Expected testCase));
  fail_if negb (length expected =? length (ht_Operations testCase))%nat
  with Errorf "test case %d expected count must match operation count" [FInt id];;
  iterM (python_call registry operations id expected) (ht_Operations testCase);;
  Ok ({[id]} ∪ seen).

Definition validateClass (sourceCode : string) (class : HClassSpec) (testCases : list HTestCase)
    : result (gmap string HOperationSpec) :=
  fail_if bool_decide (sourceCode = "") with Errorf "sourceCode is required" [];;
  fail_if bool_decide (testCases = []) with Errorf "at least one test case is required" [];;
  fail_if negb (pythonIdentifier (hc_Name class))
  with Errorf "class name must be a valid Python identifier" [];;
  fail_if bool_decide (hc_Operations class = [])
  with Errorf "at least one class operation is required" [];;
  validateClassParams "constructor" (hc_ConstructorParams class) default_registry true;;
  operations ← foldM (python_operation default_registry) ∅ (hc_Operations class);
  foldM (python_class_case default_registry class operations) ∅ testCases;;
  Ok operations.

(** ** class.go: the program *)

Definition generate_class_call (operations : gmap string HOperationSpec) (call : HOperationCall)
    : result string :=
  let operation := default (mkHOperationSpec "" "" []) (operations !! hl_Name call) in
  arguments ← build_arguments (hs_Params operation) (hl_Args call);
  let invocation := "__object." +:+ hl_Name call +:+ "(" +:+ Join arguments ", " +:+ line ")" in
  Ok (if isVoid (hs_ReturnType operation)
      then "            " +:+ invocation +:+ line "            __output.append(None)"
      else "            __operation_result = " +:+ invocation +:+
           "            __output.append(__yexjudge_serialize_value(" +:+
           Quote (or_zero "" (pythonTypeName (hs_ReturnType operation))) +:+ line ", __operation_result))").

Definition generate_class_case (class : HClassSpec) (operations : gmap string HOperationSpec)
    (index : nat) (testCase : HTestCase) : result string :=
  constructorArgs ← build_arguments (hc_ConstructorParams class) (ht_ConstructorArgs testCase);
  calls ← imapM (fun _ => generate_class_call operations) (ht_Operations testCase);
  Ok (case_head index (ht_ID testCase) +:+ line "        __captured = __yexjudge_io.StringIO()" +:+
      redirect +:+ "            __object = " +:+ hc_Name class +:+ "(" +:+ Join constructorArgs ", " +:+
      line ")" +:+ line "            __output = []" +:+ concat_all calls).

Definition generateClass (sourceCode : string) (class : HClassSpec) (testCases : list HTestCase)
    : result string :=
  operations ← validateClass sourceCode class testCases;
  cases ← imapM (generate_class_case class operations) testCases;
  Ok (python_head sourceCode +:+ concat_all cases +:+ python_tail).

Definition python_ClassGenerateMode (request : ModeRequest) : result GeneratedProgram :=
  ValidateContract (mr_Contract request);;
  fail_if negb (bool_decide (ec_Mode (mr_Contract request) = ModeClass))
  with Errorf "Python class generator cannot handle mode %q" [FStr (ec_Mode (mr_Contract request))];;
  class ← deref (ec_Class (mr_Contract request));
  source ← generateClass (mr_SourceCode request) class (mr_TestCases request);
  Ok (mkProgram source "main.py").

Definition python_ClassGenerator : ModeGenerator :=
  mkGenerator "python" ModeClass python_ClassGenerateMode.
End Python.
