(* ===== verification/Languages.v ===== *)
(** * Languages and generators by mode: internal/judge/languages,
    internal/judge/cpp_function_harness.go *)

From S2P Require Import Prelude GoStrings GoJson TypeSyntax Contracts Adapters Harness CppHarness.
From S2P Require Import CppClass PyHarness.

(** ** languages: the [Spec] of a language *)

Record Spec := mkLanguage {
  sp_Name : string;
  sp_SourceFileName : string;
  sp_NeedsCompile : bool;
  sp_CompileImage : string;
  sp_CompileCommand : list string;
  sp_RunCommand : list string }.

Definition language_C : Spec :=
  mkLanguage "c" "main.c" true "gcc:13"
    ["gcc"; "-O2"; "-pipe"; "-static"; "-s"; "/workspace/main.c"; "-o"; "/workspace/main"]
    ["/workspace/main"].

Definition CppCompileImage : string := "yexjudge-cpp-compile:latest".

(** The embedded [cpp_compile_flags.txt]. *)
Definition cppCompileFlags : string := "-O2 -pipe -static -s" +:+ newline.

Definition language_Cpp : Spec :=
  mkLanguage "cpp" "main.cpp" true CppCompileImage
    (["g++"] ++ Fields cppCompileFlags ++ ["/workspace/main.cpp"; "-o"; "/workspace/main"])
    ["/workspace/main"].

Definition language_Python : Spec :=
  mkLanguage "python" "main.py" false "" [] ["python3"; "/workspace/main.py"].

Definition languages_NewRegistry (specs : list Spec) : gmap string Spec :=
  foldl (fun m spec => <[sp_Name spec := spec]> m) ∅ specs.

Definition supportedLanguages : gmap string Spec :=
  languages_NewRegistry [language_C; language_Cpp; language_Python].

Lemma supportedLanguages_Some name :
  is_Some (supportedLanguages !! name) <-> name ∈ ["c"; "cpp"; "python"].
Proof.
  rewrite /supportedLanguages /languages_NewRegistry /=. rewrite !lookup_insert lookup_empty.
  repeat case_decide; subst; rewrite ?elem_of_cons; split; try (by intros _; eauto 10); try by intros _; eauto.
  - by intros [].
  - intros [->|[->|[->|?%elem_of_nil]]]; done.
Qed.

Section Modes.
Context `{Float64} `{UnicodeTables} `{PrintTables}.

(** ** cpp_function_harness.go *)

Definition executionModeRegistry : ModeRegistry :=
  NewModeRegistry [cpp_FunctionGenerator default_registry; cpp_ClassGenerator default_registry;
    python_FunctionGenerator; python_ClassGenerator].

Definition to_parameter (p : FunctionParam) : HParameter := mkHParameter (fp_Name p) (fp_Type p).

Definition to_observation (o : ObservationSpec) : HObservation :=
  mkHObservation (ob_Kind o) (ob_Parameter o) (ob_View o) (ob_LengthFromReturn o).

Definition to_postcondition (c : PostconditionSpec) : HPostcondition :=
  mkHPostcondition (pc_Kind c) (pc_Subject c) (pc_FromParameter c).

Definition to_function (f : FunctionSpec) : HFunctionSpec :=
  mkHFunctionSpec (fn_Name f) (fn_ReturnType f) (map to_parameter (fn_Params f))
    (map to_observation (fn_Observations f)) (map to_postcondition (fn_Postconditions f))
    (match fn_Comparison f with
     | Some c => Some (mkHFunctionComparison (fc_ReturnArrayOrder c)) | None => None end).

Definition to_operation (o : ClassOperationSpec) : HOperationSpec :=
  mkHOperationSpec (co_Name o) (co_ReturnType o) (map to_parameter (co_Params o)).

Definition to_class (c : ClassSpec) : HClassSpec :=
  mkHClassSpec (cl_Name c) (map to_parameter (cl_ConstructorParams c)) (map to_operation (cl_Operations c)).

Definition to_call (c : OperationCall) : HOperationCall := mkHOperationCall (oc_Name c) (oc_Args c).

Definition to_testcase (t : TestCase) : HTestCase :=
  mkHTestCase (tc_ID t) (tc_Args t) (tc_Expected t) (tc_ConstructorArgs t) (map to_call (tc_Operations t)).

Definition mode_request (job : Job) : ModeRequest :=
  mkModeRequest (job_SourceCode job)
    (mkContract (Job_ExecutionMode job) (option_map to_function (job_Function job))
       (option_map to_class (job_Class job)))
    (map to_testcase (job_TestCases job)).

Definition generateModeProgram (job : Job) : result GeneratedProgram :=
  let mode := Job_ExecutionMode job in
  match ModeRegistry_Get executionModeRegistry (job_Language job) mode with
  | None => Err (Errorf "%s mode %q is not supported" [FStr (job_Language job); FStr mode])
  | Some generator => mg_GenerateMode generator (mode_request job)
  end.

Definition buildCppFunctionHarness (job : Job) : result string :=
  program ← generateModeProgram job; Ok (gp_SourceCode program).

Definition buildCppClassHarness (job : Job) : result string :=
  program ← generateModeProgram job; Ok (gp_SourceCode program).

(** Which generator handles which job. *)
Lemma mode_generator language mode :
  ModeRegistry_Get executionModeRegistry language mode =
    if bool_decide (language = "cpp") then
      if bool_decide (mode = ModeFunction) then Some (cpp_FunctionGenerator default_registry)
      else if bool_decide (mode = ModeClass) then Some (cpp_ClassGenerator default_registry) else None
    else if bool_decide (language = "python") then
      if bool_decide (mode = ModeFunction) then Some python_FunctionGenerator
      else if bool_decide (mode = ModeClass) then Some python_ClassGenerator else None
    else None.
Proof.
  rewrite /ModeRegistry_Get /executionModeRegistry /NewModeRegistry.
  cbn [foldl mg_Language mg_Mode cpp_FunctionGenerator cpp_ClassGenerator python_FunctionGenerator
    python_ClassGenerator]. rewrite !lookup_insert lookup_empty.
  repeat case_bool_decide; subst; repeat case_decide; try congruence; try done.
Qed.
End Modes.
