(* ===== verification/Validate.v ===== *)
(** * Admission: internal/judge/validate.go *)

From S2P Require Import Prelude GoStrings GoJson TypeSyntax Contracts Adapters Harness CppHarness.
From S2P Require Import CppClass PyHarness Languages.

Definition MaxTimeLimitMs : Z := 10000.
Definition MaxMemoryLimitMb : Z := 512.
Definition MaxTestCases : Z := 500.

(** [len(s)] of a string or a raw message. *)
Definition len (s : string) : Z := Z.of_nat (String.length s).

Section Validate.
Context `{Float64} `{UnicodeTables} `{PrintTables}.

(** [isCppIdentifier]: ASCII only; a digit may not come first. *)
Definition cpp_letter (r : rune) : bool :=
  (97 <=? r)%Z && (r <=? 122)%Z || (65 <=? r)%Z && (r <=? 90)%Z || (r =? 95)%Z.

Definition isCppIdentifier (value : string) : bool :=
  match runes value with
  | [] => false
  | first :: rest =>
      cpp_letter first && forallb (fun r => cpp_letter r || (48 <=? r)%Z && (r <=? 57)%Z) rest
  end.

Definition isSupportedCppFunctionType (cppType : string) : bool := is_ok (Resolve default_registry cppType).

(** ** Observations, comparison, postconditions *)

(** One round of the loop of [validateFunctionObservations]. *)
Definition job_observation (function : FunctionSpec) (returnType : Adapter) (paramTypes : list Adapter)
    (i : nat) (state : bool * gmap Z ObservationSpec) (observation : ObservationSpec)
    : result (bool * gmap Z ObservationSpec) :=
  let '(returnObserved, parameterObservations) := state in
  let here := FInt (Z.of_nat i) in
  if bool_decide (ob_Kind observation = "return") then
    fail_if returnObserved
    with Errorf "observation %d duplicates the return observation" [here];;
    fail_if bool_decide (CppType returnType = "void")
    with Errorf "void functions cannot observe a return value" [];;
    Ok (true, parameterObservations)
  else if bool_decide (ob_Kind observation = "parameter") then
    let parameter := ob_Parameter observation in
    fail_if (parameter <? 0)%Z || (Z.of_nat (length paramTypes) <=? parameter)%Z
    with Errorf "observation %d references invalid parameter %d" [here; FInt parameter];;
    fail_if negb (is_nil (parameterObservations !! parameter))
    with Errorf "observation %d duplicates parameter %d" [here; FInt parameter];;
    let view := if bool_decide (ob_View observation = "") then "full" else ob_View observation in
    fail_if negb (bool_decide (view = "full")) && negb (bool_decide (view = "prefix"))
    with Errorf "observation %d has unsupported view %q" [here; FStr (ob_View observation)];;
    if bool_decide (view = "prefix") then
      fail_if negb (ob_LengthFromReturn observation)
      with Errorf "observation %d prefix view requires lengthFromReturn" [here];;
      declared ← get_indexZ (fn_Params function) parameter;
      fail_if negb (HasPrefix (Normalize (fp_Type declared)) "vector<")
      with Errorf "observation %d prefix view requires a vector parameter" [here];;
      fail_if negb (bool_decide (CppType returnType = "int")) &&
              negb (bool_decide (CppType returnType = "long long"))
      with Errorf "observation %d prefix length requires int or long long return type" [here];;
      Ok (returnObserved, <[parameter := observation]> parameterObservations)
    else
      fail_if ob_LengthFromReturn observation
      with Errorf "observation %d lengthFromReturn requires prefix view" [here];;
      Ok (returnObserved, <[parameter := observation]> parameterObservations)
  else Err (Errorf "observation %d has unsupported kind %q" [here; FStr (ob_Kind observation)]).

Definition validateFunctionObservations (function : FunctionSpec) (returnType : Adapter)
    (paramTypes : list Adapter) : result (bool * gmap Z ObservationSpec) :=
  if bool_decide (fn_Observations function = []) then
    fail_if bool_decide (CppType returnType = "void")
    with Errorf "void functions require at least one observation" [];;
    Ok (true, ∅)
  else foldM (job_observation function returnType paramTypes) (false, ∅) (fn_Observations function).

Definition validateFunctionComparison (comparison : option FunctionComparisonSpec) (returnType : Adapter)
    (returnObserved : bool) : result unit :=
  match comparison with
  | None => Ok tt
  | Some comparison =>
      let order := fc_ReturnArrayOrder comparison in
      if bool_decide (order = "") then Ok tt
      else
        fail_if negb (bool_decide (order = "unordered"))
        with Errorf "unsupported returnArrayOrder %q" [FStr order];;
        fail_if negb returnObserved
        with Errorf "unordered returnArrayOrder requires an observed return value" [];;
        fail_if negb (HasPrefix (Adapter_CanonicalName returnType) "vector<")
        with Errorf "unordered returnArrayOrder requires a vector return type" [];;
        Ok tt
  end.

(** One round of the loop of [validateFunctionPostconditions]. *)
Definition job_postcondition (returnType : Adapter) (paramTypes : list Adapter) (i : nat)
    (seen : gset string) (postcondition : PostconditionSpec) : result (gset string) :=
  let here := FInt (Z.of_nat i) in
  let kind := pc_Kind postcondition in
  let from := pc_FromParameter postcondition in
  fail_if negb (bool_decide (kind = "disjoint")) && negb (bool_decide (kind = "same_as"))
  with Errorf "postcondition %d has unsupported kind %q" [here; FStr kind];;
  fail_if negb (bool_decide (pc_Subject postcondition = "return"))
  with Errorf "postcondition %d has unsupported subject %q" [here; FStr (pc_Subject postcondition)];;
  fail_if (from <? 0)%Z || (Z.of_nat (length paramTypes) <=? from)%Z
  with Errorf "postcondition %d references invalid parameter %d" [here; FInt from];;
  paramType ← get_indexZ paramTypes from;
  fail_if negb (bool_decide (CppType paramType = CppType returnType))
  with Errorf "postcondition %d requires matching return and parameter pointer types" [here];;
  let key := kind +:+ ":" +:+ Itoa from in
  fail_if bool_decide (key ∈ seen) with Errorf "postcondition %d duplicates %s" [here; FStr key];;
  Ok ({[key]} ∪ seen).

Definition validateFunctionPostconditions (function : FunctionSpec) (returnType : Adapter)
    (paramTypes : list Adapter) : result unit :=
  if bool_decide (fn_Postconditions function = []) then Ok tt
  else
    fail_if bool_decide (CppType returnType = "void")
    with Errorf "postconditions require a non-void return type" [];;
    fail_if negb (is_PostconditionAdapter returnType)
    with Errorf "return type %q does not support postconditions"
      [FStr (Adapter_CanonicalName returnType)];;
    foldM (job_postcondition returnType paramTypes) ∅ (fn_Postconditions function);;
    Ok tt.

(** ** The expected value *)

(** The parameter field of [validateFunctionExpected]. *)
Definition job_expected_parameters (paramTypes : list Adapter)
    (parameterObservations : gmap Z ObservationSpec) (parameterValue : option RawMessage) : result unit :=
  if bool_decide (parameterObservations = ∅) then
    fail_if negb (is_nil parameterValue) with Errorf "unexpected parameter observations" [];; Ok tt
  else
    raw ← match parameterValue with
          | Some raw => Ok raw
          | None => Err (Errorf "parameter observations are missing" [])
          end;
    expectedParameters ← required_object "parameter observation must be an object" raw;
    iterM (fun _ '(parameterIndex, _) =>
      match expectedParameters !! Itoa parameterIndex with
      | None => Err (Errorf "parameter observation %d is missing" [FInt parameterIndex])
      | Some value =>
          adapter ← get_indexZ paramTypes parameterIndex;
          wrap_err (fun e => Errorf "parameter observation %d has wrong type: %w"
            [FInt parameterIndex; FErr e]) (ValidateJSON adapter value)
      end) (map_to_list parameterObservations);;
    iterM (fun _ '(key, _) =>
      parameterIndex ← wrap_err (fun _ => Errorf "parameter observation key %q is invalid" [FStr key])
        (Atoi key);
      fail_if is_nil (parameterObservations !! parameterIndex)
      with Errorf "unexpected parameter observation %d" [FInt parameterIndex];; Ok tt)
      (map_to_list expectedParameters).

(** The postconditions field. *)
Definition job_expected_conditions (count : nat) (conditions : option RawMessage) : result unit :=
  match conditions with
  | None => Ok tt
  | Some raw =>
      values ← required_object "postconditions must be an object" raw;
      fail_if negb (size values =? count)%nat
      with Errorf "postconditions count does not match function metadata" [];;
      iterM (fun i _ =>
        fail_if negb (bool_decide (values !! Itoa (Z.of_nat i) = Some "true"))
        with Errorf "postcondition %d must be true" [FInt (Z.of_nat i)];; Ok tt) (replicate count tt)
  end.

Definition validateFunctionExpected (raw : RawMessage) (returnType : Adapter) (paramTypes : list Adapter)
    (explicitObservations returnObserved : bool) (parameterObservations : gmap Z ObservationSpec)
    (postconditions : list PostconditionSpec) : result unit :=
  let wrong_return := wrap_err (fun e => Errorf "wrong return type: %w" [FErr e]) in
  let none := bool_decide (postconditions = []) in
  if negb explicitObservations && none && returnObserved then wrong_return (ValidateJSON returnType raw)
  else if negb explicitObservations && negb none then wrong_return (ValidateJSON returnType raw)
  else
    expected ← required_object "expected an observation object" raw;
    (if returnObserved : bool then
       match expected !! "return" with
       | None => Err (Errorf "return observation is missing" [])
       | Some returnValue => wrong_return (ValidateJSON returnType returnValue)
       end
     else
       fail_if negb (is_nil (expected !! "return")) with Errorf "unexpected return observation" [];;
       Ok tt);;
    job_expected_parameters paramTypes parameterObservations (expected !! "parameter");;
    job_expected_conditions (length postconditions) (expected !! "postconditions");;
    only_known_fields expected.

(** ** Function jobs *)

(** [if returnType, err := registry.Resolve(...)] of the return type and of a
    parameter. *)
Definition job_parameter (i : nat) (param : FunctionParam) : result Adapter :=
  let here := FInt (Z.of_nat i) in
  fail_if negb (isCppIdentifier (fp_Name param))
  with Errorf "function param %d name must be a valid C++ identifier" [here];;
  fail_if bool_decide (fp_Type param = "") with Errorf "function param %d type is required" [here];;
  let unsupported := Errorf "unsupported function param %d type %q" [here; FStr (fp_Type param)] in
  adapter ← wrap_err (fun _ => unsupported) (Resolve default_registry (fp_Type param));
  fail_if bool_decide (CppType adapter = "void") with unsupported;;
  Ok adapter.

Definition job_test_case (function : FunctionSpec) (returnType : Adapter) (paramTypes : list Adapter)
    (observed : bool * gmap Z ObservationSpec) (i : nat) (seenIDs : gset Z) (tc : TestCase)
    : result (gset Z) :=
  let here := FInt (Z.of_nat i) in
  fail_if bool_decide (tc_ID tc ∈ seenIDs) with Errorf "duplicate test case id %d" [FInt (tc_ID tc)];;
  fail_if negb (length (tc_Args tc) =? length paramTypes)%nat
  with Errorf "test case %d args count must match function params count" [here];;
  fail_if bool_decide (tc_Expected tc = "") with Errorf "test case %d expected is required" [here];;
  fail_if negb (Valid (tc_Expected tc)) with Errorf "test case %d expected must be valid JSON" [here];;
  wrap_err (fun e => Errorf "test case %d expected: %w" [here; FErr e])
    (validateFunctionExpected (tc_Expected tc) returnType paramTypes
       (negb (bool_decide (fn_Observations function = []))) observed.1 observed.2
       (fn_Postconditions function));;
  totalSize ← foldM (fun argIndex (totalSize : Z) arg =>
    fail_if negb (Valid arg)
    with Errorf "test case %d argument %d must be valid JSON" [here; FInt (Z.of_nat argIndex)];;
    adapter ← get_index paramTypes argIndex;
    wrap_err (fun e => Errorf "test case %d argument %d has wrong type: %w"
      [here; FInt (Z.of_nat argIndex); FErr e]) (ValidateJSON adapter arg);;
    Ok (totalSize + len arg)%Z) (len (tc_Expected tc)) (tc_Args tc);
  fail_if (100000 <? totalSize)%Z with Errorf "test case %d is too large" [here];;
  Ok ({[tc_ID tc]} ∪ seenIDs).

Definition validateFunctionJob (job : Job) : result unit :=
  if bool_decide (job_Language job = "python") then
    wrap_err (fun e => Errorf "function metadata: %w" [FErr e]) (generateModeProgram job);; Ok tt
  else
    fail_if negb (bool_decide (job_Language job = "cpp"))
    with Errorf "function mode supports cpp and python only" [];;
    function ← deref (job_Function job);
    fail_if negb (isCppIdentifier (fn_Name function))
    with Errorf "function name must be a valid C++ identifier" [];;
    fail_if bool_decide (fn_ReturnType function = "")
    with Errorf "function returnType is required" [];;
    returnType ← wrap_err (fun _ => Errorf "unsupported function returnType %q"
      [FStr (fn_ReturnType function)]) (Resolve default_registry (fn_ReturnType function));
    fail_if (10 <? length (fn_Params function))%nat with Errorf "too many function params" [];;
    paramTypes ← imapM job_parameter (fn_Params function);
    observed ← validateFunctionObservations function returnType paramTypes;
    validateFunctionComparison (fn_Comparison function) returnType observed.1;;
    validateFunctionPostconditions function returnType paramTypes;;
    foldM (job_test_case function returnType paramTypes observed) ∅ (job_TestCases job);;
    Ok tt.

(** ** ValidateJob *)

Definition validate_limits (limits : Limits) : result unit :=
  fail_if (TimeLimitMs limits <=? 0)%Z with Errorf "timeLimitMs must be greater than 0" [];;
  fail_if (MaxTimeLimitMs <? TimeLimitMs limits)%Z
  with Errorf "timeLimitMs must not exceed %d" [FInt MaxTimeLimitMs];;
  fail_if (MemoryLimitMb limits <=? 0)%Z with Errorf "memoryLimitMb must be greater than 0" [];;
  fail_if (MaxMemoryLimitMb <? MemoryLimitMb limits)%Z
  with Errorf "memoryLimitMb must not exceed %d" [FInt MaxMemoryLimitMb];;
  Ok tt.

(** The mode checks of [ValidateJob]. *)
Definition validate_mode (job : Job) : result unit :=
  let requestedMode := Job_ExecutionMode job in
  fail_if negb (ExecutionMode_Valid requestedMode)
  with Errorf "unsupported execution mode %q" [FStr requestedMode];;
  fail_if negb (bool_decide (requestedMode = ModeStdin)) &&
          negb (bool_decide (requestedMode = ModeFunction)) &&
          negb (bool_decide (requestedMode = ModeClass))
  with Errorf "execution mode %q is not implemented" [FStr requestedMode];;
  fail_if bool_decide (requestedMode = ModeFunction) && is_nil (job_Function job)
  with Errorf "function metadata is required for function mode" [];;
  fail_if negb (bool_decide (requestedMode = ModeFunction)) && negb (is_nil (job_Function job))
  with Errorf "function metadata is only valid in function mode" [];;
  fail_if bool_decide (requestedMode = ModeClass) && is_nil (job_Class job)
  with Errorf "class metadata is required for class mode" [];;
  fail_if negb (bool_decide (requestedMode = ModeClass)) && negb (is_nil (job_Class job))
  with Errorf "class metadata is only valid in class mode" [];;
  Ok tt.

Definition validateClassJob (job : Job) : result unit :=
  let class_error := fun e => Errorf "class metadata: %w" [FErr e] in
  if bool_decide (job_Language job = "python") then
    wrap_err class_error (generateModeProgram job);; Ok tt
  else
    fail_if negb (bool_decide (job_Language job = "cpp"))
    with Errorf "class mode supports cpp and python only" [];;
    wrap_err class_error (buildCppClassHarness job);; Ok tt.

Definition validateStdinCases (testCases : list TestCase) : result unit :=
  iterM (fun i tc =>
    fail_if (100000 <? len (tc_Input tc))%Z
    with Errorf "test case %d input is too large" [FInt (Z.of_nat i)];;
    fail_if (100000 <? len (tc_ExpectedOutput tc))%Z
    with Errorf "test case %d expectedOutput is too large" [FInt (Z.of_nat i)];; Ok tt) testCases.

Definition ValidateJob (job : Job) : result unit :=
  fail_if bool_decide (job_Language job = "") with Errorf "language is required" [];;
  fail_if is_nil (supportedLanguages !! job_Language job)
  with Errorf "unsupported language %q" [FStr (job_Language job)];;
  validate_mode job;;
  fail_if bool_decide (job_SourceCode job = "") with Errorf "sourceCode is required" [];;
  fail_if bool_decide (job_TestCases job = []) with Errorf "at least one test case is required" [];;
  validate_limits (job_Limits job);;
  fail_if (100000 <? len (job_SourceCode job))%Z with Errorf "sourceCode is too large" [];;
  fail_if (MaxTestCases <? Z.of_nat (length (job_TestCases job)))%Z
  with Errorf "too many test cases" [];;
  match job_Function job, job_Class job with
  | Some _, _ => validateFunctionJob job
  | None, Some _ => validateClassJob job
  | None, None => validateStdinCases (job_TestCases job)
  end.
End Validate.
