(* ===== verification/Verdict.v ===== *)
(** * Verdicts: internal/judge/testcases.go, internal/runner/result.go

    The outputs a program is compared with, the comparison, and the loop over
    the test cases.  What the executor and the context answer during the run of
    one case is a [CaseRun]; the sandbox is threaded through the loop. *)

From S2P Require Import Prelude GoStrings GoJson TypeSyntax Contracts Adapters Harness CppHarness.
From S2P Require Import CppClass PyHarness Languages Validate.

Section Expected.
Context `{Float64} `{UnicodeTables} `{PrintTables}.

(** ** Expected outputs *)

Definition testCaseInput (job : Job) (tc : TestCase) : string :=
  match job_Function job, job_Class job with
  | None, None => tc_Input tc
  | _, _ => Itoa (tc_ID tc)
  end.

(** [strconv.Quote(strconv.Itoa(i))], a colon and [true], for each condition. *)
Definition conditions_text (count : nat) : string :=
  Join (map (fun i => Quote (Itoa (Z.of_nat i)) +:+ ":true") (seq 0 count)) ",".

Definition canonicalReturnWithPostconditions (raw : RawMessage) (returnAdapter : Adapter)
    (postconditions : list PostconditionSpec) (testCaseID : Z) : result string :=
  canonicalValue ← wrap_err (fun e => Errorf "test case %d expected: %w" [FInt testCaseID; FErr e])
    (CanonicalJSON returnAdapter raw);
  Ok ("{" +:+ quoted "return" +:+ ":" +:+ canonicalValue +:+ "," +:+ quoted "postconditions" +:+ ":{" +:+
      conditions_text (length postconditions) +:+ "}}").

Definition class_operations (operations : list ClassOperationSpec) : gmap string ClassOperationSpec :=
  foldl (fun m operation => <[co_Name operation := operation]> m) ∅ operations.

Definition canonicalClassExpectedOutput (class : ClassSpec) (tc : TestCase) : result string :=
  let here := FInt (tc_ID tc) in
  expected ← wrap_err (fun e => Errorf "test case %d expected must be a JSON array: %w" [here; FErr e])
    (Unmarshal_array (tc_Expected tc));
  fail_if negb (length expected =? length (tc_Operations tc))%nat
  with Errorf "test case %d expected count must match operation count" [here];;
  canonical ← imapM (fun i call =>
    let operation := default (mkClassOperationSpec "" "" [])
      (class_operations (cl_Operations class) !! oc_Name call) in
    adapter ← Resolve default_registry (co_ReturnType operation);
    if bool_decide (CppType adapter = "void") then Ok "null"
    else
      value ← get_index expected i;
      wrap_err (fun e => Errorf "test case %d operation %q expected: %w"
        [here; FStr (oc_Name call); FErr e]) (CanonicalJSON adapter value)) (tc_Operations tc);
  Ok ("[" +:+ Join canonical "," +:+ "]").

(** The loop over the observations: the text so far and whether a field has
    been written; a return observation writes its field, the others wait. *)
Definition expected_return (returnAdapter : Adapter) (expectedObject : gmap string RawMessage) (id : Z)
    (_ : nat) (state : string * bool) (observation : ObservationSpec) : result (string * bool) :=
  if bool_decide (ob_Kind observation = "return") then
    match expectedObject !! "return" with
    | None => Err (Errorf "test case %d return observation is missing" [FInt id])
    | Some value =>
        canonicalValue ← wrap_err (fun e => Errorf "test case %d return observation: %w"
          [FInt id; FErr e]) (CanonicalJSON returnAdapter value);
        Ok (state.1 +:+ quoted "return" +:+ ":" +:+ canonicalValue, true)
    end
  else Ok state.

Definition expected_parameter (function : FunctionSpec) (values : gmap string RawMessage) (id : Z)
    (observation : ObservationSpec) : result string :=
  let key := Itoa (ob_Parameter observation) in
  match values !! key with
  | None => Err (Errorf "test case %d parameter observation %d is missing"
                   [FInt id; FInt (ob_Parameter observation)])
  | Some value =>
      param ← get_indexZ (fn_Params function) (ob_Parameter observation);
      adapter ← Resolve default_registry (fp_Type param);
      canonicalValue ← wrap_err (fun e => Errorf "test case %d parameter observation %d: %w"
        [FInt id; FInt (ob_Parameter observation); FErr e]) (CanonicalJSON adapter value);
      Ok (Quote key +:+ ":" +:+ canonicalValue)
  end.

Definition expected_parameters (function : FunctionSpec) (expectedObject : gmap string RawMessage) (id : Z)
    (parameterObservations : list ObservationSpec) : result string :=
  parameterObject ← match expectedObject !! "parameter" with
    | Some raw => Ok raw
    | None => Err (Errorf "test case %d parameter observations are missing" [FInt id])
    end;
  values ← wrap_err (fun _ => Errorf "test case %d parameter observations must be an object" [FInt id])
    (required_object "" parameterObject);
  fields ← imapM (fun _ => expected_parameter function values id) parameterObservations;
  Ok (quoted "parameter" +:+ ":{" +:+ Join fields "," +:+ "}").

(** A comma unless it is the first field. *)
Definition field_separator (hasField : bool) : string := if hasField then "," else "".

Definition expected_observations (function : FunctionSpec) (returnAdapter : Adapter) (tc : TestCase)
    : result string :=
  let here := FInt (tc_ID tc) in
  expectedObject ← wrap_err (fun _ => Errorf "test case %d expected must be an observation object" [here])
    (required_object "" (tc_Expected tc));
  '(returnText, hasReturn) ← foldM (expected_return returnAdapter expectedObject (tc_ID tc)) ("", false)
    (fn_Observations function);
  let parameterObservations :=
    List.filter (fun o => bool_decide (ob_Kind o = "parameter")) (fn_Observations function) in
  parameterText ←
    (if bool_decide (parameterObservations = []) then Ok ""
     else
       text ← expected_parameters function expectedObject (tc_ID tc) parameterObservations;
       Ok (field_separator hasReturn +:+ text));
  let hasField := hasReturn || negb (bool_decide (parameterObservations = [])) in
  let conditionText :=
    if bool_decide (fn_Postconditions function = []) then ""
    else field_separator hasField +:+ quoted "postconditions" +:+ ":{" +:+
         conditions_text (length (fn_Postconditions function)) +:+ "}" in
  Ok ("{" +:+ returnText +:+ parameterText +:+ conditionText +:+ "}").

Definition testCaseExpectedOutput (job : Job) (tc : TestCase) : result string :=
  match job_Function job, job_Class job with
  | None, None => Ok (tc_ExpectedOutput tc)
  | _, Some class => canonicalClassExpectedOutput class tc
  | Some function, None =>
      returnAdapter ← wrap_err (fun e => Errorf "test case %d return type: %w" [FInt (tc_ID tc); FErr e])
        (Resolve default_registry (fn_ReturnType function));
      if bool_decide (fn_Observations function = []) && bool_decide (fn_Postconditions function = []) then
        wrap_err (fun e => Errorf "test case %d expected: %w" [FInt (tc_ID tc); FErr e])
          (CanonicalJSON returnAdapter (tc_Expected tc))
      else if bool_decide (fn_Observations function = []) then
        canonicalReturnWithPostconditions (tc_Expected tc) returnAdapter (fn_Postconditions function)
          (tc_ID tc)
      else expected_observations function returnAdapter tc
  end.

(** ** Comparing outputs *)

(** [json.Marshal] of a [map[string]json.RawMessage]: keys in order, texts
    without white space between tokens, and HTML-sensitive characters
    escaped. *)
Fixpoint compact_text (in_string escaped : bool) (s : string) : string :=
  match s with
  | EmptyString => ""
  | String c s1 =>
      let b := byte_of c in
      if in_string then
        let state := negb (negb escaped && Ascii.eqb c dq) in
        let escape := negb escaped && Ascii.eqb c bs in
        if (b =? 60)%Z || (b =? 62)%Z || (b =? 38)%Z then
          backslash ("u" +:+ hex_digits 4 b) +:+ compact_text state escape s1
        else
          match s1 with
          | String c1 (String c2 s3) =>
              if (b =? 226)%Z && (byte_of c1 =? 128)%Z && ((byte_of c2 =? 168)%Z || (byte_of c2 =? 169)%Z)
              then backslash ("u" +:+ hex_digits 4 (8064 + byte_of c2)) +:+ compact_text true false s3
              else String c (compact_text state escape s1)
          | _ => String c (compact_text state escape s1)
          end
      else if json_space c then compact_text false false s1
      else String c (compact_text (Ascii.eqb c dq) false s1)
  end.

Definition Marshal_fields (fields : gmap string RawMessage) : string :=
  "{" +:+ Join (omap (fun key =>
    (fun raw => encode_string true key +:+ ":" +:+ compact_text false false raw) <$> fields !! key)
    (sort_Strings (map_to_list fields).*1)) "," +:+ "}".

Definition canonicalizeUnorderedFunctionOutput (output : string) (function : FunctionSpec)
    (registry : Registry) : result string :=
  if bool_decide (fn_Observations function = []) && bool_decide (fn_Postconditions function = [])
  then CanonicalUnorderedArrayJSON registry (fn_ReturnType function) output
  else
    object ← Unmarshal_object output;
    let missing := Errorf "return observation is missing" [] in
    fields ← match object with Some fields => Ok fields | None => Err missing end;
    returnValue ← match fields !! "return" with Some raw => Ok raw | None => Err missing end;
    canonicalReturn ← CanonicalUnorderedArrayJSON registry (fn_ReturnType function) returnValue;
    Ok (Marshal_fields (<["return" := canonicalReturn]> fields)).

(** Whether the job asks for order-free comparison of the returned array. *)
Definition unordered_function (job : Job) : option FunctionSpec :=
  match job_Function job with
  | Some function =>
      match fn_Comparison function with
      | Some comparison =>
          if bool_decide (fc_ReturnArrayOrder comparison = "unordered") then Some function else None
      | None => None
      end
  | None => None
  end.

Definition functionOutputsEqual (job : Job) (actual expected : string) : bool :=
  match unordered_function job with
  | None => bool_decide (actual = expected)
  | Some function =>
      match canonicalizeUnorderedFunctionOutput actual function default_registry with
      | Err _ => false
      | Ok actual =>
          match canonicalizeUnorderedFunctionOutput expected function default_registry with
          | Err _ => false
          | Ok expected => bool_decide (actual = expected)
          end
      end
  end.
End Expected.
