(* ===== verification/TestCases.v ===== *)
(** * The loop over the test cases: runTestCasesWithSandboxReset

    [CaseRun] is what the environment answers in one turn of the loop: the
    executor's result and error, the outcome of resetting and restaging the
    sandbox, and whether the context is done afterwards. *)

From S2P Require Import Prelude GoStrings GoJson TypeSyntax Contracts Adapters Harness CppHarness.
From S2P Require Import CppClass PyHarness Languages Validate Verdict.

(** [runner.RunResult]; a [time.Duration] is its nanoseconds. *)
Record RunResult := mkRunResult {
  rr_Stdout : string;
  rr_Stderr : string;
  rr_ExitCode : Z;
  rr_TimedOut : bool;
  rr_OutputLimitExceeded : bool;
  rr_TimeUsed : Z;
  rr_MemoryUsed : Z }.

(** The flags of a [Sandbox] that the loop sets. *)
Record SandboxFlags := mkSandboxFlags {
  sb_restarted : bool;
  sb_needsReplace : bool }.

Record CaseRun := mkCaseRun {
  cn_run : result (option RunResult);
  cn_cleanup : result unit;
  cn_done : bool }.

(** [Duration.Milliseconds()] *)
Definition Milliseconds (d : Z) : Z := Z.quot d 1000000.

Definition Millisecond : Z := 1000000.
Definition Second : Z := 1000000000.

(** [int64(job.Limits.MemoryLimitMb)*1024*1024*9/10] *)
Definition memory_threshold (memoryLimitMb : Z) : Z :=
  Z.quot (wrap64 (wrap64 (wrap64 (memoryLimitMb * 1024) * 1024) * 9)) 10.

(** The durations handed to the executor. *)
Definition perCaseLimit (job : Job) : Z := wrap64 (TimeLimitMs (job_Limits job) * Millisecond).

Definition supervisorTimeout (job : Job) : Z :=
  wrap64 (wrap64 (Z.of_nat (length (job_TestCases job)) * wrap64 (perCaseLimit job + 25 * Millisecond)) +
    5 * Second).

Definition failedTestCase (tc : TestCase) (actualOutput : string) : TestCase :=
  mkTestCase (tc_ID tc) (tc_Input tc) (tc_ExpectedOutput tc) (TrimSpace actualOutput) (tc_Args tc)
    (tc_Expected tc) (tc_ConstructorArgs tc) (tc_Operations tc).

(** [resetAndRestageSandbox], from the outcomes of its two calls. *)
Definition resetAndRestageSandbox (reset prepare : result unit) : result unit :=
  wrap_err (fun e => Errorf "restart sandbox: %w" [FErr e]) reset;;
  wrap_err (fun e => Errorf "restage testcase snapshot: %w" [FErr e]) prepare.

Section Loop.
Context `{Float64} `{UnicodeTables} `{PrintTables}.

(** What the loop carries from one case to the next. *)
Record LoopState := mkLoopState {
  ls_passed : Z;
  ls_maxRuntimeMs : Z;
  ls_maxMemoryBytes : Z }.

(** The result of a case that ends the run. *)
Definition failed (status : Status) (job : Job) (state : LoopState) (tc : TestCase) (run : RunResult)
    (memory : Z) (output message : string) : Result :=
  mkResult status (ls_passed state) (Z.of_nat (length (job_TestCases job)))
    (Milliseconds (rr_TimeUsed run)) memory (Some (failedTestCase tc output)) message.

(** One case with its run result: the final result, or the state to go on
    with. *)
Definition judge_case (job : Job) (state : LoopState) (tc : TestCase) (done : bool) (run : RunResult)
    : result (Result + LoopState) :=
  let runtimeMs := Milliseconds (rr_TimeUsed run) in
  let memory := Z.max (ls_maxMemoryBytes state) (rr_MemoryUsed run) in
  let stop status := failed status job state tc run memory in
  if done then
    Ok (inl (stop InfrastructureError (rr_Stdout run) "program execution was canceled"))
  else if rr_OutputLimitExceeded run then
    Ok (inl (stop OutputLimitExceeded (rr_Stdout run) "program output exceeded the allowed limit"))
  else if rr_TimedOut run then Ok (inl (stop TimeLimitExceeded (rr_Stdout run) ""))
  else if (rr_ExitCode run =? -1)%Z && (0 <? MemoryLimitMb (job_Limits job))%Z &&
          (memory_threshold (MemoryLimitMb (job_Limits job)) <=? rr_MemoryUsed run)%Z then
    Ok (inl (stop MemoryLimitExceeded (rr_Stdout run) ""))
  else if negb (rr_ExitCode run =? 0)%Z then
    Ok (inl (stop RuntimeError (rr_Stdout run) (rr_Stderr run)))
  else
    expected ← testCaseExpectedOutput job tc;
    let output := TrimSpace (rr_Stdout run) in
    if negb (functionOutputsEqual job output (TrimSpace expected)) then
      Ok (inl (stop WrongAnswer output ""))
    else
      Ok (inr (mkLoopState (ls_passed state + 1) (Z.max (ls_maxRuntimeMs state) runtimeMs) memory)).

(** The run result of a case, with the sandbox after it.  [supervised] is the
    slice the supervisor returned, when it returned one. *)
Definition case_run (supervised : option (list (option RunResult))) (reset : bool) (i : nat)
    (tc : TestCase) (run : CaseRun) (sandbox : SandboxFlags) : result RunResult * SandboxFlags :=
  let no_result := Errorf "executor returned no run result for test case %d" [FInt (tc_ID tc)] in
  let fetched : result (option RunResult) :=
    match supervised with
    | Some results =>
        match results !! i with
        | Some r => Ok r
        | None => Err (Errorf "supervisor returned no result for test case %d" [FInt (tc_ID tc)])
        end
    | None => cn_run run
    end in
  let missing := match supervised with Some results => is_nil (results !! i) | None => false end in
  let answer :=
    runRes ← fetched;
    match runRes with Some r => Ok r | None => Err no_result end in
  if missing then (answer, sandbox)
  else if reset then
    match cn_cleanup run with
    | Err cleanupErr =>
        (match fetched with
         | Err e => Err (Errorf "test case %d failed: %v; sandbox cleanup failed: %w"
                           [FInt (tc_ID tc); FErr e; FErr cleanupErr])
         | Ok _ => Err (Errorf "cleanup after test case %d: %w" [FInt (tc_ID tc); FErr cleanupErr])
         end, mkSandboxFlags (sb_restarted sandbox) true)
    | Ok _ => (answer, mkSandboxFlags true (sb_needsReplace sandbox))
    end
  else (answer, sandbox).

Fixpoint judge_cases (supervised : option (list (option RunResult))) (reset : bool) (job : Job)
    (runs : nat -> CaseRun) (i : nat) (cases : list TestCase) (state : LoopState) (sandbox : SandboxFlags)
    : result Result * SandboxFlags :=
  match cases with
  | [] =>
      (Ok (mkResult Accepted (ls_passed state) (Z.of_nat (length (job_TestCases job)))
             (ls_maxRuntimeMs state) (ls_maxMemoryBytes state) None ""), sandbox)
  | tc :: cases =>
      let '(answer, sandbox) := case_run supervised reset i tc (runs i) sandbox in
      match answer with
      | Err e => (Err e, sandbox)
      | Ok run =>
          match judge_case job state tc (cn_done (runs i)) run with
          | Err e => (Err e, sandbox)
          | Ok (inl result) => (Ok result, sandbox)
          | Ok (inr state) => judge_cases supervised reset job runs (S i) cases state sandbox
          end
      end
  end.

(** [supervisor]: the answer of [RunTestCases], when the executor has it. *)
Definition runTestCasesWithSandboxReset (supervisor : option (result (option (list (option RunResult)))))
    (job : Job) (runs : nat -> CaseRun) (sandbox : SandboxFlags) (resetSandboxBetweenTestCases : bool)
    : result Result * SandboxFlags :=
  let supervised :=
    match resetSandboxBetweenTestCases, supervisor with
    | false, Some answer => answer
    | _, _ => Ok None
    end in
  match supervised with
  | Err e => (Err e, sandbox)
  | Ok results => judge_cases results resetSandboxBetweenTestCases job runs 0 (job_TestCases job)
                    (mkLoopState 0 0 0) sandbox
  end.

Definition runTestCases (supervisor : option (result (option (list (option RunResult)))))
    (job : Job) (runs : nat -> CaseRun) (sandbox : SandboxFlags) : result Result * SandboxFlags :=
  runTestCasesWithSandboxReset supervisor job runs sandbox (is_nil supervisor).
End Loop.
