(* ===== verification/Observations.v ===== *)
(** * What a checked function contract guarantees

    The checks of [validateFunctionObservations] and of
    [validatePythonObservations] establish the same facts, stated here once
    for any type of observations; they are what the expected output needs. *)

From S2P Require Import Prelude GoStrings GoJson TypeSyntax Contracts Adapters AdapterLaws Graphs.
From S2P Require Import GraphLaws Resolved Harness CppHarness CppClass PyHarness Languages Validate.
From S2P Require Import Verdict.

(** ** The loop over the observations *)

Section ObservationLoop.
Context {O : Type} (kind : O -> string) (param : O -> Z) (n : nat)
  (step : nat -> bool * gmap Z O -> O -> result (bool * gmap Z O)).

(** What one round does when it succeeds. *)
Hypothesis step_Ok : forall i ret m o ret' m', step i (ret, m) o = Ok (ret', m') ->
  kind o = "return" /\ ret' = true /\ m' = m \/
  kind o = "parameter" /\ (0 <= param o < Z.of_nat n)%Z /\ ret' = ret /\ m' = <[param o := o]> m.

Definition is_return (o : O) : bool := bool_decide (kind o = "return").
Definition is_parameter (o : O) : bool := bool_decide (kind o = "parameter").

Lemma observation_loop i ret m l ret' m' :
  foldM_from i step (ret, m) l = Ok (ret', m') ->
  ret' = ret || existsb is_return l /\
  (forall p, is_Some (m' !! p) <-> is_Some (m !! p) \/ exists o, o ∈ l /\ is_parameter o = true /\ param o = p) /\
  Forall (fun o => is_parameter o = true -> (0 <= param o < Z.of_nat n)%Z) l.
Proof.
  revert i ret m. induction l as [|o l IH]; intros i ret m; cbn.
  { intros [= <- <-]. split_and!; [by rewrite orb_false_r| |by constructor].
    intros p. split; [auto|]. intros [?|(o & ?%elem_of_nil & _)]; done. }
  intros ([ret1 m1] & Hs & (-> & Hm & Hf)%IH)%bind_Ok_inv. apply step_Ok in Hs.
  rewrite /is_return /is_parameter in Hm Hf |- *.
  destruct Hs as [(Ek & -> & ->)|(Ek & Hr & -> & ->)]; rewrite Ek; (split_and!; [by destruct ret| |]).
  - intros p. rewrite Hm. split; (intros [?|(x & Hx & Hpx)]; [by left|]).
    + right. exists x. split; [by right|done].
    + apply elem_of_cons in Hx as [->|Hx]; [|eauto]. rewrite Ek in Hpx. by destruct Hpx.
  - constructor; [|done]. cbn. by rewrite Ek.
  - intros p. rewrite Hm lookup_insert_is_Some'. split.
    + intros [[<-|?]|(x & Hx & Hpx)]; [|by left|].
      * right. exists o. rewrite Ek. split_and!; [by left|done..].
      * right. exists x. split; [by right|done].
    + intros [?|(x & [->|Hx]%elem_of_cons & Hpx)]; [by left; right| |eauto].
      left. left. by destruct Hpx.
  - by constructor.
Qed.
End ObservationLoop.

(** ** Facts about a checked function *)

Section Checked.
Context `{Float64} `{UnicodeTables} `{PrintTables}.

Definition job_is_return (o : ObservationSpec) : bool := bool_decide (ob_Kind o = "return").
Definition job_is_parameter (o : ObservationSpec) : bool := bool_decide (ob_Kind o = "parameter").

(** Types resolve and observed parameters exist. *)
Record checked_function (function : FunctionSpec) (returnType : Adapter) (paramTypes : list Adapter) : Prop := {
  cf_return : Resolve default_registry (fn_ReturnType function) = Ok returnType;
  cf_params : Forall2 (fun p a => Resolve default_registry (fp_Type p) = Ok a) (fn_Params function) paramTypes;
  cf_observations : Forall (fun o => job_is_parameter o = true ->
    (0 <= ob_Parameter o < Z.of_nat (length (fn_Params function)))%Z) (fn_Observations function) }.

(** The expected value of a case has the observed parts, of the right types. *)
Record checked_expected (function : FunctionSpec) (returnType : Adapter) (paramTypes : list Adapter)
    (raw : RawMessage) : Prop := {
  ce_plain : fn_Observations function = [] -> ValidateJSON returnType raw = Ok tt;
  ce_object : fn_Observations function <> [] -> exists object,
    Unmarshal_object raw = Ok (Some object) /\
    (existsb job_is_return (fn_Observations function) = true ->
      exists value, object !! "return" = Some value /\ ValidateJSON returnType value = Ok tt) /\
    (existsb job_is_parameter (fn_Observations function) = true ->
      exists values_raw values, object !! "parameter" = Some values_raw /\
        Unmarshal_object values_raw = Ok (Some values) /\
        forall o, o ∈ fn_Observations function -> job_is_parameter o = true ->
          exists value adapter, values !! Itoa (ob_Parameter o) = Some value /\
            paramTypes !! Z.to_nat (ob_Parameter o) = Some adapter /\ ValidateJSON adapter value = Ok tt) }.

Lemma required_object_Ok message raw object :
  required_object message raw = Ok object <-> Unmarshal_object raw = Ok (Some object).
Proof.
  rewrite /required_object. destruct (Unmarshal_object raw) as [[o|]|e]; split; intros E; congruence.
Qed.

Lemma get_index_Ok {A} (l : list A) i x : get_index l i = Ok x <-> l !! i = Some x.
Proof. rewrite /get_index. destruct (l !! i); split; congruence. Qed.

Lemma get_indexZ_Ok {A} (l : list A) i x :
  get_indexZ l i = Ok x <-> (0 <= i)%Z /\ l !! Z.to_nat i = Some x.
Proof.
  rewrite /get_indexZ. destruct (Z.ltb_spec i 0); [split; [done|lia]|].
  rewrite get_index_Ok. naive_solver.
Qed.

(** A validated value has a canonical form. *)
Lemma resolved_canonical s a raw :
  Resolve default_registry s = Ok a -> ValidateJSON a raw = Ok tt -> exists c, CanonicalJSON a raw = Ok c.
Proof.
  intros Ha Hv. destruct (Resolve_lawful _ _ _ DefaultRegistry_default Ha) as (l & _ & Hl).
  by apply lawful_validated.
Qed.

Lemma resolved_literal s a raw :
  Resolve default_registry s = Ok a -> ValidateJSON a raw = Ok tt -> exists c, GenerateLiteral a raw = Ok c.
Proof.
  intros Ha Hv. destruct (Resolve_lawful _ _ _ DefaultRegistry_default Ha) as (l & _ & Hl).
  by apply lawful_literal.
Qed.

(** The loop that writes the return observation succeeds. *)
Lemma expected_return_loop returnType object id i state l :
  (existsb job_is_return l = true ->
    exists value c, object !! "return" = Some value /\ CanonicalJSON returnType value = Ok c) ->
  exists state', foldM_from i (expected_return returnType object id) state l = Ok state'.
Proof.
  revert i state. induction l as [|o l IH]; intros i state Hret; [by eexists|]. cbn.
  assert (exists state1, expected_return returnType object id i state o = Ok state1) as [state1 ->].
  { rewrite /expected_return. rewrite /job_is_return in Hret. cbn in Hret. case_bool_decide; [|by eexists].
    destruct Hret as (value & c & -> & ->); [done|]. by eexists. }
  cbn. apply IH. intros Hl. apply Hret. cbn. by rewrite Hl orb_true_r.
Qed.

Lemma expected_observations_total function returnType paramTypes tc :
  checked_function function returnType paramTypes ->
  checked_expected function returnType paramTypes (tc_Expected tc) ->
  fn_Observations function <> [] -> exists s, expected_observations function returnType tc = Ok s.
Proof.
  intros [Hr Hp Ho] [_ Hobj] Hne. destruct (Hobj Hne) as (object & Hu & Hret & Hpar).
  rewrite /expected_observations. rewrite (proj2 (required_object_Ok _ _ object)) //. cbn [wrap_err].
  rewrite bind_Ok.
  destruct (expected_return_loop returnType object (tc_ID tc) 0 ("", false) (fn_Observations function))
    as [[text hasReturn] E].
  { intros Hex. destruct (Hret Hex) as (value & Hv & Hval).
    destruct (resolved_canonical _ _ _ Hr Hval) as [c Hc]. eauto. }
  rewrite /foldM E bind_Ok. set (ps := List.filter _ _).
  destruct (bool_decide (ps = [])) eqn:Ef; [by eexists|].
  assert (existsb job_is_parameter (fn_Observations function) = true) as Hex.
  { apply bool_decide_eq_false in Ef. destruct ps as [|o l] eqn:El; [done|]. unfold ps in El.
    apply existsb_exists. assert (In o (o :: l)) as Hin by (by left). rewrite -El in Hin.
    apply filter_In in Hin. by exists o. }
  destruct (Hpar Hex) as (values_raw & values & Hf & Huv & Hall).
  rewrite /expected_parameters Hf bind_Ok (proj2 (required_object_Ok _ _ values)) //. cbn [wrap_err].
  rewrite bind_Ok.
  match goal with |- context [imapM ?f ?l] => destruct (imapM_from_is_ok f 0 l) as [fields Hfields] end;
    [|rewrite /imapM Hfields; by eexists].
  intros j o Hj%list_elem_of_lookup_2%list_elem_of_In. apply filter_In in Hj as [Hin%list_elem_of_In Hk].
  destruct (Hall o Hin Hk) as (value & adapter & Hv & Ha & Hval).
  rewrite /expected_parameter Hv. rewrite Forall_forall in Ho. specialize (Ho o Hin Hk).
  destruct (Forall2_lookup_r _ _ _ _ _ Hp Ha) as (p & Hpl & Hres).
  rewrite (proj2 (get_indexZ_Ok _ _ p)); [by split; [lia|]|]. rewrite bind_Ok Hres bind_Ok.
  destruct (resolved_canonical _ _ _ Hres Hval) as [c ->]. by eexists.
Qed.

(** The expected output of a checked case exists. *)
Lemma expected_output_total job function returnType paramTypes tc :
  job_Function job = Some function -> job_Class job = None ->
  checked_function function returnType paramTypes ->
  checked_expected function returnType paramTypes (tc_Expected tc) ->
  exists s, testCaseExpectedOutput job tc = Ok s.
Proof.
  intros Ef Ec Hf He. pose proof (cf_return _ _ _ Hf) as Hr.
  rewrite /testCaseExpectedOutput Ef Ec Hr. cbn [wrap_err]. rewrite bind_Ok.
  destruct (bool_decide (fn_Observations function = [])) eqn:Eo.
  - apply bool_decide_eq_true in Eo. pose proof (ce_plain _ _ _ _ He Eo) as Hv.
    destruct (resolved_canonical _ _ _ Hr Hv) as [c Hc].
    rewrite /canonicalReturnWithPostconditions Hc. destruct (bool_decide _); by eexists.
  - apply bool_decide_eq_false in Eo. by eapply expected_observations_total.
Qed.
End Checked.
