(* ===== verification/Admission.v ===== *)
(** * What admission guarantees: ValidateJob against the rest of the judge

    A job that [ValidateJob] accepts can be turned into a program and has an
    expected output for each of its test cases, in every language and mode. *)

From S2P Require Import Prelude GoStrings GoJson TypeSyntax Contracts Adapters AdapterLaws Graphs.
From S2P Require Import GraphLaws Resolved Harness CppHarness CppClass PyHarness Languages Validate.
From S2P Require Import Verdict Observations.

Section Admission.
Context `{Float64} `{UnicodeTables} `{PrintTables}.

(** ** The observation loops *)

Lemma job_observation_Ok function returnType paramTypes i ret m o ret' m' :
  job_observation function returnType paramTypes i (ret, m) o = Ok (ret', m') ->
  ob_Kind o = "return" /\ ret' = true /\ m' = m \/
  ob_Kind o = "parameter" /\ (0 <= ob_Parameter o < Z.of_nat (length paramTypes))%Z /\
    ret' = ret /\ m' = <[ob_Parameter o := o]> m.
Proof.
  rewrite /job_observation. case_bool_decide as Hr.
  { destruct ret; [done|]. case_bool_decide; [done|]. intros [= <- <-]. by left. }
  case_bool_decide as Hp; [|done]. destruct (_ || _) eqn:Hrange; [done|].
  apply orb_false_iff in Hrange as [?%Z.ltb_ge ?%Z.leb_gt].
  destruct (negb (is_nil _)); [done|]. destruct (negb _ && negb _); [done|].
  destruct (bool_decide (_ = "prefix")).
  - destruct (negb (ob_LengthFromReturn o)); [done|]. intros (p & _ & E)%bind_Ok_inv.
    destruct (negb _); [done|]. destruct (negb _ && negb _); [done|]. injection E as <- <-. by right.
  - destruct (ob_LengthFromReturn o); [done|]. intros [= <- <-]. by right.
Qed.

Lemma python_observation_Ok function returnAdapter parameterAdapters i ret m o ret' m' :
  python_observation function returnAdapter parameterAdapters i (ret, m) o = Ok (ret', m') ->
  ho_Kind o = "return" /\ ret' = true /\ m' = m \/
  ho_Kind o = "parameter" /\ (0 <= ho_Parameter o < Z.of_nat (length parameterAdapters))%Z /\
    ret' = ret /\ m' = <[ho_Parameter o := o]> m.
Proof.
  rewrite /python_observation. case_bool_decide as Hr.
  { destruct (ret || _); [done|]. intros [= <- <-]. by left. }
  case_bool_decide as Hp; [|done]. destruct (_ || _) eqn:Hrange; [done|].
  apply orb_false_iff in Hrange as [?%Z.ltb_ge ?%Z.leb_gt].
  destruct (negb (is_nil _)); [done|]. destruct (negb _ && negb _); [done|].
  destruct (bool_decide (_ = "prefix")).
  - intros (p & _ & E)%bind_Ok_inv. destruct (negb _ || negb _); [done|].
    destruct (negb _ && negb _); [done|]. injection E as <- <-. by right.
  - destruct (ho_LengthFromReturn o); [done|]. intros [= <- <-]. by right.
Qed.

(** What both observation checks establish; [keys] are the observed
    parameters. *)
Definition observed_facts (function : FunctionSpec) (n : nat) (returnObserved : bool) (keys : gset Z) : Prop :=
  returnObserved = bool_decide (fn_Observations function = []) ||
    existsb job_is_return (fn_Observations function) /\
  (forall p, p ∈ keys <-> exists o, o ∈ fn_Observations function /\ job_is_parameter o = true /\
    ob_Parameter o = p) /\
  Forall (fun o => job_is_parameter o = true -> (0 <= ob_Parameter o < Z.of_nat n)%Z)
    (fn_Observations function).

Lemma no_observations function n :
  fn_Observations function = [] -> observed_facts function n true ∅.
Proof.
  intros E. rewrite /observed_facts E. split_and!; [done| |by constructor]. intros p. split; [by intros ?%elem_of_empty|].
  by intros (o & ?%elem_of_nil & _).
Qed.

Lemma job_observed function returnType paramTypes observed :
  validateFunctionObservations function returnType paramTypes = Ok observed ->
  observed_facts function (length paramTypes) observed.1 (dom observed.2).
Proof.
  rewrite /validateFunctionObservations. case_bool_decide as Ho.
  { destruct (bool_decide _); [done|]. intros [= <-]. cbn. rewrite dom_empty_L. by apply no_observations. }
  destruct observed as [ret m]. intros E.
  apply (observation_loop ob_Kind ob_Parameter (length paramTypes)) in E as (-> & Hm & Hr);
    [|apply job_observation_Ok].
  split_and!; cbn.
  - by rewrite bool_decide_eq_false_2.
  - intros p. rewrite elem_of_dom Hm lookup_empty. split; [|by right].
    intros [[? ?]|?]; done.
  - done.
Qed.

Lemma python_observed function returnAdapter parameterAdapters observed :
  validatePythonObservations (to_function function) returnAdapter parameterAdapters = Ok observed ->
  observed_facts function (length parameterAdapters) observed.1 (dom observed.2).
Proof.
  rewrite /validatePythonObservations. cbn [hf_Observations to_function].
  destruct (fn_Observations function) as [|o0 l0] eqn:Eo.
  { rewrite bool_decide_eq_true_2 //. destruct (isVoid _); [done|]. intros [= <-]. cbn.
    rewrite dom_empty_L. by apply no_observations. }
  rewrite -Eo bool_decide_eq_false_2; [by rewrite Eo|]. destruct observed as [ret m]. intros E.
  apply (observation_loop ho_Kind ho_Parameter (length parameterAdapters)) in E as (-> & Hm & Hr);
    [|apply python_observation_Ok].
  split_and!; cbn.
  - rewrite bool_decide_eq_false_2; [by rewrite Eo|]. cbn. clear.
    induction (fn_Observations function) as [|o l IH]; [done|]. cbn. by rewrite -IH.
  - intros p. rewrite elem_of_dom Hm lookup_empty. split.
    + intros [[? ?]|(o & (x & -> & Hx)%list_elem_of_fmap & Ho)]; [done|]. by exists x.
    + intros (x & Hx & Hk). right. exists (to_observation x). split; [|done].
      by apply list_elem_of_fmap_2.
  - apply Forall_forall. intros o Ho. rewrite Forall_forall in Hr.
    specialize (Hr (to_observation o)). apply Hr. by apply list_elem_of_fmap_2.
Qed.

(** ** The expected value *)

(** What the expected-value checks establish for the observed parameters. *)
Definition parameters_facts (paramTypes : list Adapter) (keys : gset Z) (object : gmap string RawMessage)
    : Prop :=
  keys <> ∅ -> exists values_raw values, object !! "parameter" = Some values_raw /\
    Unmarshal_object values_raw = Ok (Some values) /\
    forall p, p ∈ keys -> exists value adapter, values !! Itoa p = Some value /\
      paramTypes !! Z.to_nat p = Some adapter /\ ValidateJSON adapter value = Ok tt.

(** The loop over the observed parameters, in either language. *)
Lemma parameters_loop {V} (paramTypes : list Adapter) (m : gmap Z V) (values : gmap string RawMessage)
    (missing : Z -> goerr) (wrong : Z -> goerr -> goerr) :
  iterM (fun _ '(p, _) =>
    match values !! Itoa p with
    | None => Err (missing p)
    | Some value => adapter ← get_indexZ paramTypes p;
        wrap_err (wrong p) (ValidateJSON adapter value)
    end) (map_to_list m) = Ok tt ->
  forall p, p ∈ dom m -> exists value adapter, values !! Itoa p = Some value /\
    paramTypes !! Z.to_nat p = Some adapter /\ ValidateJSON adapter value = Ok tt.
Proof.
  intros E p [v Hv]%elem_of_dom. apply elem_of_map_to_list, list_elem_of_lookup_1 in Hv as [j Hj].
  eapply (proj1 (iterM_from_Ok _ _ _)) in E; [|exact Hj]. cbn in E.
  destruct (values !! Itoa p) as [value|]; [|done].
  apply bind_Ok_inv in E as (adapter & [_ Ha]%get_indexZ_Ok & Hw%wrap_err_Ok). by exists value, adapter.
Qed.

Lemma dom_nonempty {V} (m : gmap Z V) : dom m <> ∅ <-> m <> ∅.
Proof. split; intros Hm E; apply Hm; [by rewrite E dom_empty_L|by apply dom_empty_inv_L]. Qed.

Lemma job_parameters_facts paramTypes (m : gmap Z ObservationSpec) object :
  job_expected_parameters paramTypes m (object !! "parameter") = Ok tt ->
  parameters_facts paramTypes (dom m) object.
Proof.
  rewrite /job_expected_parameters. intros E Hne%dom_nonempty. rewrite bool_decide_eq_false_2 // in E.
  apply bind_Ok_inv in E as (raw & Hraw & E). destruct (object !! "parameter") as [raw'|]; [|done].
  injection Hraw as ->. apply bind_Ok_inv in E as (values & Hv%required_object_Ok & E).
  apply bind_Ok_inv in E as ([] & Hl & _). exists raw, values. split_and!; [done..|].
  exact (parameters_loop paramTypes m values
    (fun p => Errorf "parameter observation %d is missing" [FInt p])
    (fun p e => Errorf "parameter observation %d has wrong type: %w" [FInt p; FErr e]) Hl).
Qed.

Lemma python_parameters_facts paramTypes (m : observation_map) object :
  python_expected_parameters paramTypes m (object !! "parameter") = Ok tt ->
  parameters_facts paramTypes (dom m) object.
Proof.
  rewrite /python_expected_parameters. intros E Hne%dom_nonempty. rewrite bool_decide_eq_false_2 // in E.
  cbn [andb] in E.
  apply bind_Ok_inv in E as (raw & Hraw & E). destruct (object !! "parameter") as [raw'|]; [|done].
  injection Hraw as ->. apply bind_Ok_inv in E as (values & Hv%required_object_Ok & E).
  apply bind_Ok_inv in E as ([] & Hl & _). exists raw, values. split_and!; [done..|].
  exact (parameters_loop paramTypes m values
    (fun p => Errorf "parameter observation %d is missing" [FInt p])
    (fun p e => Errorf "parameter observation %d has wrong type: %w" [FInt p; FErr e]) Hl).
Qed.

(** Both checks, towards [checked_expected]. *)
Lemma checked_expected_intro function returnType paramTypes keys ret raw object :
  observed_facts function (length paramTypes) ret keys -> fn_Observations function <> [] ->
  Unmarshal_object raw = Ok (Some object) ->
  (ret = true -> exists value, object !! "return" = Some value /\ ValidateJSON returnType value = Ok tt) ->
  parameters_facts paramTypes keys object ->
  checked_expected function returnType paramTypes raw.
Proof.
  intros (-> & Hkeys & _) Hne Hu Hret Hpar. split; [done|]. intros _. exists object. split_and!; [done| |].
  - intros Hr. apply Hret. by rewrite Hr orb_true_r.
  - intros (o & Ho & Hk)%existsb_exists. destruct Hpar as (values_raw & values & ? & ? & Hall).
    + intros E. assert (ob_Parameter o ∈ keys) as Hin.
      { apply Hkeys. exists o. split; [by apply list_elem_of_In|done]. }
      by rewrite E in Hin.
    + exists values_raw, values. split_and!; [done..|]. intros x Hx Hkx. apply Hall, Hkeys. by exists x.
Qed.

(** ** Function jobs *)

(** The facts both languages establish about a case. *)
Record checked_case (function : FunctionSpec) (returnType : Adapter) (paramTypes : list Adapter)
    (tc : TestCase) : Prop := {
  cc_length : length (tc_Args tc) = length paramTypes;
  cc_valid : Forall (fun arg => Valid arg = true) (tc_Args tc);
  cc_args : forall i arg a, tc_Args tc !! i = Some arg -> paramTypes !! i = Some a ->
    ValidateJSON a arg = Ok tt;
  cc_expected_valid : tc_Expected tc <> "" /\ Valid (tc_Expected tc) = true;
  cc_expected : checked_expected function returnType paramTypes (tc_Expected tc) }.

Lemma validateFunctionExpected_checked raw function returnType paramTypes observed :
  observed_facts function (length paramTypes) observed.1 (dom observed.2) ->
  validateFunctionExpected raw returnType paramTypes
    (negb (bool_decide (fn_Observations function = []))) observed.1 observed.2
    (fn_Postconditions function) = Ok tt ->
  checked_expected function returnType paramTypes raw.
Proof.
  intros Hobs E. destruct (bool_decide (fn_Observations function = [])) eqn:Eo.
  - apply bool_decide_eq_true in Eo. pose proof Hobs as (Er & _). rewrite Eo in Er. cbn in Er.
    rewrite /validateFunctionExpected Er in E. cbn in E.
    split; [intros _|by intros Hne]. by destruct (bool_decide _); apply wrap_err_Ok in E.
  - apply bool_decide_eq_false in Eo. rewrite /validateFunctionExpected in E. cbn [negb andb] in E.
    apply bind_Ok_inv in E as (object & Hu%required_object_Ok & E).
    apply bind_Ok_inv in E as ([] & Hret & E). apply bind_Ok_inv in E as ([] & Hpar & _).
    eapply checked_expected_intro; [exact Hobs|done|exact Hu| |by apply job_parameters_facts].
    intros Er. rewrite Er in Hret. destruct (object !! "return") as [v|]; [|done].
    exists v. split; [done|]. by apply wrap_err_Ok in Hret.
Qed.

Lemma validatePythonFunctionExpected_checked raw function returnType paramTypes observed :
  observed_facts function (length paramTypes) observed.1 (dom observed.2) ->
  validatePythonFunctionExpected raw (to_function function) returnType paramTypes observed.1 observed.2
    = Ok tt ->
  checked_expected function returnType paramTypes raw.
Proof.
  intros Hobs. rewrite /validatePythonFunctionExpected. cbn [hf_Observations to_function].
  destruct (fn_Observations function) as [|o0 l0] eqn:Eo.
  - rewrite bool_decide_eq_true_2 //. intros E%wrap_err_Ok. split; [done|by intros Hne].
  - rewrite bool_decide_eq_false_2 //. intros E.
    apply bind_Ok_inv in E as (object & Hu%required_object_Ok & E).
    apply bind_Ok_inv in E as ([] & Hret & E). apply bind_Ok_inv in E as ([] & Hpar & _).
    eapply checked_expected_intro; [exact Hobs|by rewrite Eo|exact Hu| |by apply python_parameters_facts].
    intros Er. rewrite Er in Hret. destruct (object !! "return") as [v|]; [|done].
    exists v. split; [done|]. by apply wrap_err_Ok in Hret.
Qed.

(** A loop over arguments that indexes the adapters. *)
Lemma arguments_loop (paramTypes : list Adapter) (invalid : nat -> goerr) (wrong : nat -> goerr -> goerr)
    args :
  length args = length paramTypes ->
  iterM (fun j raw => fail_if negb (Valid raw) with invalid j;;
    adapter ← get_index paramTypes j; wrap_err (wrong j) (ValidateJSON adapter raw)) args = Ok tt ->
  Forall (fun arg => Valid arg = true) args /\
  forall i arg a, args !! i = Some arg -> paramTypes !! i = Some a -> ValidateJSON a arg = Ok tt.
Proof.
  intros Hlen E. rewrite iterM_from_Ok in E. split.
  - apply Forall_forall. intros x [j Hj]%list_elem_of_lookup_1. specialize (E j x Hj). cbn in E.
    by destruct (Valid x).
  - intros i arg a Hi Ha. specialize (E i arg Hi). cbn in E. destruct (negb _); [done|].
    apply bind_Ok_inv in E as (a' & Ha'%get_index_Ok & Hw%wrap_err_Ok). congruence.
Qed.

(** The same loop with a running total. *)
Lemma sized_arguments_loop (paramTypes : list Adapter) (invalid : nat -> goerr)
    (wrong : nat -> goerr -> goerr) args size total :
  foldM (fun j (totalSize : Z) arg => fail_if negb (Valid arg) with invalid j;;
    adapter ← get_index paramTypes j; wrap_err (wrong j) (ValidateJSON adapter arg);;
    Ok (totalSize + len arg)%Z) size args = Ok total ->
  iterM (fun j raw => fail_if negb (Valid raw) with invalid j;;
    adapter ← get_index paramTypes j; wrap_err (wrong j) (ValidateJSON adapter raw)) args = Ok tt /\
  total = (size + Z.of_nat (sum_list_with String.length args))%Z.
Proof.
  rewrite /foldM /iterM. generalize 0%nat. revert size.
  induction args as [|x args IH]; intros size i; cbn; [intros [= <-]; split; [done|lia]|].
  intros (size1 & Hs & E)%bind_Ok_inv. destruct (negb _); [done|].
  apply bind_Ok_inv in Hs as (a & -> & ([] & Hw & [= <-])%bind_Ok_inv). rewrite bind_Ok Hw bind_Ok.
  destruct (IH _ _ E) as [-> ->]. split; [done|]. rewrite /len. lia.
Qed.

Lemma job_case_checked function returnType paramTypes observed i seen tc seen' :
  observed_facts function (length paramTypes) observed.1 (dom observed.2) ->
  job_test_case function returnType paramTypes observed i seen tc = Ok seen' ->
  checked_case function returnType paramTypes tc /\
  (len (tc_Expected tc) + Z.of_nat (sum_list_with String.length (tc_Args tc)) <= 100000)%Z /\
  tc_ID tc ∉ seen /\ seen' = {[tc_ID tc]} ∪ seen.
Proof.
  intros Hobs. rewrite /job_test_case. case_bool_decide as Hseen; [done|].
  destruct (negb _) eqn:Hlen; [done|]. apply negb_false_iff, Nat.eqb_eq in Hlen.
  case_bool_decide as Hne; [done|]. destruct (negb (Valid (tc_Expected tc))) eqn:Hv; [done|].
  apply negb_false_iff in Hv. intros E. apply bind_Ok_inv in E as ([] & Hexp%wrap_err_Ok & E).
  apply bind_Ok_inv in E as (total & Ht & E). destruct (Z.ltb_spec 100000 total); [done|].
  injection E as <-. apply sized_arguments_loop in Ht as [Hloop ->].
  destruct (arguments_loop _ _ _ _ Hlen Hloop) as [Hvalid Hargs]. split_and!; [|done..].
  split; [done..|]. by eapply validateFunctionExpected_checked.
Qed.

Lemma python_case_checked function returnType paramTypes observed i seen tc seen' :
  length paramTypes = length (fn_Params function) ->
  observed_facts function (length paramTypes) observed.1 (dom observed.2) ->
  python_function_case (to_function function) returnType paramTypes observed i seen (to_testcase tc) = Ok seen' ->
  checked_case function returnType paramTypes tc.
Proof.
  intros Hn Hobs. rewrite /python_function_case. cbn. case_bool_decide as Hseen; [done|].
  rewrite length_map -Hn. destruct (negb _) eqn:Hlen; [done|]. apply negb_false_iff, Nat.eqb_eq in Hlen.
  intros E. apply bind_Ok_inv in E as ([] & Hloop & E). destruct (_ || _) eqn:Hv; [done|].
  apply orb_false_iff in Hv as [Hne%bool_decide_eq_false Hv%negb_false_iff].
  apply bind_Ok_inv in E as ([] & Hexp%wrap_err_Ok & _).
  destruct (arguments_loop paramTypes
    (fun j => Errorf "test case %d argument %d must be valid JSON" [FInt (tc_ID tc); FInt (Z.of_nat j)])
    (fun j e => Errorf "test case %d argument %d has wrong type: %w"
      [FInt (tc_ID tc); FInt (Z.of_nat j); FErr e]) _ Hlen Hloop) as [Hvalid Hargs].
  split; [done..|]. by eapply validatePythonFunctionExpected_checked.
Qed.

Lemma job_parameters_Ok params paramTypes :
  imapM job_parameter params = Ok paramTypes ->
  Forall2 (fun p a => fp_Name p <> "" /\ fp_Type p <> "" /\
    Resolve default_registry (fp_Type p) = Ok a /\ CppType a <> "void") params paramTypes.
Proof.
  apply imapM_from_Forall2. intros j p a _. rewrite /job_parameter.
  destruct (negb (isCppIdentifier (fp_Name p))) eqn:Hn; [done|]. case_bool_decide as Ht; [done|].
  intros (a' & Ha%wrap_err_Ok & E)%bind_Ok_inv. case_bool_decide; [done|]. injection E as ->.
  split_and!; [|done..]. intros En. by rewrite En in Hn.
Qed.

Lemma python_parameters_Ok params parameterAdapters :
  imapM python_parameter (map to_parameter params) = Ok parameterAdapters ->
  Forall2 (fun p a => Resolve default_registry (fp_Type p) = Ok a) params parameterAdapters.
Proof.
  rewrite /imapM imapM_from_map. apply imapM_from_Forall2. intros j p a _. rewrite /python_parameter.
  destruct (negb _); [done|]. intros (a' & Ha%wrap_err_Ok & E)%bind_Ok_inv. destruct (_ || _); [done|].
  by injection E as <-.
Qed.

(** Everything [validateFunctionJob] establishes about a C++ job. *)
Record checked_cpp (job : Job) (function : FunctionSpec) (returnType : Adapter) (paramTypes : list Adapter)
    : Prop := {
  cj_name : fn_Name function <> "";
  cj_return : fn_ReturnType function <> "" /\ Resolve default_registry (fn_ReturnType function) = Ok returnType;
  cj_params : Forall2 (fun p a => fp_Name p <> "" /\ fp_Type p <> "" /\
    Resolve default_registry (fp_Type p) = Ok a /\ CppType a <> "void") (fn_Params function) paramTypes;
  cj_observed : exists observed,
    validateFunctionObservations function returnType paramTypes = Ok observed;
  cj_postconditions : validateFunctionPostconditions function returnType paramTypes = Ok tt;
  cj_cases : Forall (checked_case function returnType paramTypes) (job_TestCases job);
  cj_sizes : Forall (fun tc => (len (tc_Expected tc) +
    Z.of_nat (sum_list_with String.length (tc_Args tc)) <= 100000)%Z) (job_TestCases job);
  cj_ids : NoDup (map tc_ID (job_TestCases job)) }.

(** A loop that collects identifiers rejects duplicates. *)
Lemma distinct_ids (f : nat -> gset Z -> TestCase -> result (gset Z)) i seen l seen' :
  (forall j s tc s', tc ∈ l -> f j s tc = Ok s' -> tc_ID tc ∉ s /\ s' = {[tc_ID tc]} ∪ s) ->
  foldM_from i f seen l = Ok seen' ->
  NoDup (map tc_ID l) /\ Forall (fun tc => tc_ID tc ∉ seen) l.
Proof.
  revert i seen. induction l as [|tc l IH]; intros i seen Hf; [by repeat constructor|]. cbn.
  intros (s & Hs & E)%bind_Ok_inv. destruct (Hf _ _ _ _ ltac:(by left) Hs) as [Hn ->].
  apply IH in E as [Hd Hall]; [|intros j s tc' s' Hin; apply Hf; by right].
  rewrite Forall_forall in Hall. split; constructor; [|done|done|].
  - intros (x & Hx & Hin)%list_elem_of_fmap. specialize (Hall x Hin). rewrite -Hx in Hall. set_solver.
  - apply Forall_forall. intros x Hx. specialize (Hall x Hx). set_solver.
Qed.

Lemma validateFunctionJob_cpp job function :
  job_Function job = Some function -> job_Language job = "cpp" -> validateFunctionJob job = Ok tt ->
  exists returnType paramTypes, checked_cpp job function returnType paramTypes.
Proof.
  intros Ef El. rewrite /validateFunctionJob El. change (bool_decide ("cpp" = "cpp")) with true.
  change (bool_decide ("cpp" = "python")) with false. cbn [negb]. cbn iota. rewrite Ef. cbn [deref]. rewrite bind_Ok.
  destruct (negb (isCppIdentifier (fn_Name function))) eqn:Hn; [done|].
  case_bool_decide as Hrt; [done|]. intros (returnType & Hr%wrap_err_Ok & E)%bind_Ok_inv.
  destruct (_ <? _)%nat; [done|]. apply bind_Ok_inv in E as (paramTypes & Hp%job_parameters_Ok & E).
  apply bind_Ok_inv in E as (observed & Hobs & E). apply bind_Ok_inv in E as ([] & _ & E).
  apply bind_Ok_inv in E as ([] & Hpost & E). apply bind_Ok_inv in E as (seen & Hcases & _).
  pose proof (job_observed _ _ _ _ Hobs) as Hfacts. exists returnType, paramTypes.
  assert (forall tc, tc ∈ job_TestCases job -> checked_case function returnType paramTypes tc /\
    (len (tc_Expected tc) + Z.of_nat (sum_list_with String.length (tc_Args tc)) <= 100000)%Z) as Hall.
  { intros tc Htc. destruct (foldM_from_each _ _ _ _ _ _ Hcases Htc) as (j & s & s' & Hs).
    by destruct (job_case_checked _ _ _ _ _ _ _ _ Hfacts Hs) as (? & ? & _). }
  split; [|done|done|by eexists|done| | |].
  - intros En. by rewrite En in Hn.
  - apply Forall_forall. intros tc Htc. by apply Hall.
  - apply Forall_forall. intros tc Htc. by apply Hall.
  - eapply distinct_ids; [|exact Hcases]. intros j s tc s' _ Hs.
    by destruct (job_case_checked _ _ _ _ _ _ _ _ Hfacts Hs) as (_ & _ & ?).
Qed.

Lemma checked_cpp_function job function returnType paramTypes :
  checked_cpp job function returnType paramTypes -> checked_function function returnType paramTypes.
Proof.
  intros Hc. pose proof (cj_params _ _ _ _ Hc) as Hp. pose proof (Forall2_length _ _ _ Hp) as Hlen.
  split; [apply Hc| |].
  - eapply Forall2_impl; [exact Hp|]. intros p a (_ & _ & ? & _). done.
  - destruct (cj_observed _ _ _ _ Hc) as [observed Hobs].
    apply job_observed in Hobs as (_ & _ & Hr). by rewrite -Hlen in Hr.
Qed.

(** A validated Python function job: the same facts, through the conversion to
    the harness contract. *)
Lemma validateFunctionJob_python job function :
  job_Function job = Some function -> job_Class job = None -> job_Language job = "python" ->
  Job_ExecutionMode job = ModeFunction -> validateFunctionJob job = Ok tt ->
  exists returnType paramTypes, checked_function function returnType paramTypes /\
    Forall (checked_case function returnType paramTypes) (job_TestCases job).
Proof.
  intros Ef Ec El Em. rewrite /validateFunctionJob El. change (bool_decide ("python" = "python")) with true.
  cbn iota. intros (program & Hg%wrap_err_Ok & _)%bind_Ok_inv. move: Hg.
  rewrite /generateModeProgram El mode_generator Em. cbn [bool_decide].
  rewrite bool_decide_eq_false_2 // !bool_decide_eq_true_2 //.
  cbn [mg_GenerateMode python_FunctionGenerator]. rewrite /python_FunctionGenerateMode.
  intros (? & _ & E)%bind_Ok_inv. cbn [mode_request mr_Contract ec_Mode ec_Function] in E.
  rewrite Em bool_decide_eq_true_2 // Ef in E. cbn in E.
  apply bind_Ok_inv in E as (source & Hs & _). apply bind_Ok_inv in Hs as ([] & Hv & _).
  move: Hv. rewrite /validateFunction. repeat (case_match; [done|]).
  intros (returnAdapter & Hr%wrap_err_Ok & E)%bind_Ok_inv. apply bind_Ok_inv in E as (_ & _ & E).
  destruct (_ <? _)%nat; [done|].
  apply bind_Ok_inv in E as (parameterAdapters & Hp%python_parameters_Ok & E).
  apply bind_Ok_inv in E as (observed & Hobs%python_observed & E).
  apply bind_Ok_inv in E as ([] & _ & E). apply bind_Ok_inv in E as ([] & _ & E).
  apply bind_Ok_inv in E as (seen & Hcases & _). pose proof (Forall2_length _ _ _ Hp) as Hlen.
  exists returnAdapter, parameterAdapters. split.
  - split; [done|done|]. destruct Hobs as (_ & _ & Hrange). by rewrite -Hlen in Hrange.
  - apply Forall_forall. intros tc Htc. assert (to_testcase tc ∈ map to_testcase (job_TestCases job)) as Hin
      by (by apply list_elem_of_fmap_2).
    destruct (foldM_from_each _ _ _ _ _ _ Hcases Hin) as (j & s & s' & Hs).
    by eapply python_case_checked.
Qed.
End Admission.
