(* ===== verification/Generation.v ===== *)
(** * Accepted jobs have programs and expected outputs *)

From S2P Require Import Prelude GoStrings GoJson TypeSyntax Contracts RuntimeText Adapters AdapterLaws.
From S2P Require Import Graphs GraphLaws Resolved Harness CppHarness CppClass PyHarness Languages.
From S2P Require Import Validate Verdict Observations Admission.

Section Generation.
Context `{Float64} `{UnicodeTables} `{PrintTables}.

(** ** The C++ function generator accepts what admission accepted *)

Lemma validate_observation_sim function returnType paramTypes i s o s' :
  length paramTypes = length (fn_Params function) ->
  job_observation function returnType paramTypes i s o = Ok s' ->
  validate_observation (to_function function) returnType i (s.1, dom s.2) (to_observation o) =
    Ok (s'.1, dom s'.2).
Proof.
  intros Hlen. destruct s as [ret m], s' as [ret' m'].
  rewrite /job_observation /validate_observation /=. case_bool_decide as Hr.
  { destruct ret; [done|]. case_bool_decide; [done|]. by intros [= <- <-]. }
  case_bool_decide as Hp; [|done]. rewrite length_map Hlen. destruct (_ || _) eqn:Hrange; [done|].
  apply orb_false_iff in Hrange as [?%Z.ltb_ge ?%Z.leb_gt].
  destruct (m !! ob_Parameter o) eqn:Em; cbn [is_nil negb]; [done|].
  rewrite (bool_decide_eq_false_2 (ob_Parameter o ∈ dom m)); [by apply not_elem_of_dom|].
  destruct (negb _ && negb _); [done|].
  destruct (bool_decide (_ = "prefix")).
  - destruct (negb (ob_LengthFromReturn o)); [done|].
    intros (p & [Hp0 Hpl]%get_indexZ_Ok & E)%bind_Ok_inv.
    rewrite (proj2 (get_indexZ_Ok _ _ (to_parameter p)));
      [split; [done|]; by rewrite list_lookup_fmap Hpl|]. rewrite bind_Ok. cbn [to_parameter hp_Type].
    destruct (negb _); [done|]. destruct (negb _ && negb _); [done|]. injection E as <- <-.
    by rewrite dom_insert_L.
  - destruct (ob_LengthFromReturn o); [done|]. intros [= <- <-]. by rewrite dom_insert_L.
Qed.

Lemma validateObservations_sim function returnType paramTypes observed :
  length paramTypes = length (fn_Params function) ->
  validateFunctionObservations function returnType paramTypes = Ok observed ->
  validateObservations (to_function function) returnType = Ok tt.
Proof.
  intros Hlen. rewrite /validateFunctionObservations /validateObservations. cbn [hf_Observations to_function].
  rewrite (bool_decide_ext (map to_observation (fn_Observations function) = [])
    (fn_Observations function = [])); [by destruct (fn_Observations function)|].
  case_bool_decide; [by destruct (bool_decide _)|]. intros E.
  eapply (foldM_from_sim (fun s s' => s' = (s.1, dom s.2)) to_observation _
    (validate_observation (to_function function) returnType)) in E as (t' & Ht' & _).
  - rewrite /foldM Ht'. done.
  - intros j a b x c _ -> Hs. eexists. split; [by eapply validate_observation_sim|done].
  - cbn. by rewrite dom_empty_L.
Qed.

Lemma validatePostconditions_sim function returnType paramTypes :
  validateFunctionPostconditions function returnType paramTypes = Ok tt ->
  validatePostconditions (to_function function) returnType paramTypes = Ok tt /\
  (fn_Postconditions function <> [] -> is_PostconditionAdapter returnType = true) /\
  Forall (fun c => (pc_Kind c = "disjoint" \/ pc_Kind c = "same_as") /\
    (0 <= pc_FromParameter c < Z.of_nat (length paramTypes))%Z) (fn_Postconditions function).
Proof.
  rewrite /validateFunctionPostconditions /validatePostconditions. cbn [hf_Postconditions to_function].
  rewrite (bool_decide_ext (map _ _ = []) (fn_Postconditions function = []));
    [by destruct (fn_Postconditions function)|].
  case_bool_decide as Ep; [intros _; rewrite Ep; by split_and!|].
  case_bool_decide; [done|]. destruct (is_PostconditionAdapter returnType); [|done]. cbn [negb].
  intros (seen & E & _)%bind_Ok_inv. split_and!; [|done|].
  - eapply (foldM_from_sim (fun s s' => s' = s) to_postcondition _
      (validate_postcondition returnType paramTypes)) in E as (t' & Ht' & _);
      [by rewrite /foldM Ht'| |done].
    intros j a b x c _ -> Hs. exists c. split; [|done]. move: Hs.
    rewrite /job_postcondition /validate_postcondition.
    cbn [to_postcondition hq_Kind hq_Subject hq_FromParameter]. case_bool_decide as Hk; cbn [negb andb].
    + rewrite (bool_decide_eq_false_2 (pc_Kind x = "")); [congruence|done].
    + case_bool_decide as Hk'; [|done]. cbn [negb].
      rewrite (bool_decide_eq_false_2 (pc_Kind x = "")); [congruence|done].
  - apply Forall_forall. intros x Hx. destruct (foldM_from_each _ _ _ _ _ _ E Hx) as (j & s & s' & Hs).
    move: Hs. rewrite /job_postcondition. destruct (negb _ && negb _) eqn:Hk; [done|].
    destruct (negb (bool_decide (pc_Subject x = "return"))); [done|]. destruct ((pc_FromParameter x <? 0)%Z || _) eqn:Hrange; [done|]. intros _.
    apply orb_false_iff in Hrange as [?%Z.ltb_ge ?%Z.leb_gt]. split; [|lia].
    apply andb_false_iff in Hk as [Hk|Hk]; apply negb_false_iff, bool_decide_eq_true in Hk; auto.
Qed.

Section CppFunction.
Context (job : Job) (function : FunctionSpec) (returnType : Adapter) (paramTypes : list Adapter).
Hypothesis checked : checked_cpp job function returnType paramTypes.

Let h := to_function function.

Lemma checked_length : length paramTypes = length (fn_Params function).
Proof. symmetry. apply (Forall2_length _ _ _ (cj_params _ _ _ _ checked)). Qed.

Lemma checked_param i p :
  fn_Params function !! i = Some p -> exists a, paramTypes !! i = Some a /\
    fp_Name p <> "" /\ Resolve default_registry (fp_Type p) = Ok a /\ CppType a <> "void".
Proof.
  intros Hp. destruct (Forall2_lookup_l _ _ _ _ _ (cj_params _ _ _ _ checked) Hp)
    as (a & Ha & ? & _ & ? & ?). by exists a.
Qed.

Lemma checked_validateRequest source :
  source <> "" ->
  validateRequest (mkHRequest source h (map to_testcase (job_TestCases job))) default_registry = Ok tt.
Proof.
  intros Hs. destruct (cj_return _ _ _ _ checked) as [Hrt Hr]. rewrite /validateRequest.
  cbn [hr_SourceCode hr_Function hr_TestCases].
  rewrite (bool_decide_eq_false_2 (source = "")) // (bool_decide_eq_false_2 (hf_Name h = "")); [apply checked|].
  rewrite (bool_decide_eq_false_2 (hf_ReturnType h = "")) //.
  change (hf_ReturnType h) with (fn_ReturnType function). rewrite Hr. cbn [wrap_err]. rewrite bind_Ok.
  destruct (cj_observed _ _ _ _ checked) as [observed Hobs].
  rewrite (validateObservations_sim _ _ _ _ checked_length Hobs) bind_Ok.
  match goal with |- context [imapM ?f ?l] => assert (imapM f l = Ok paramTypes) as -> end.
  { apply imapM_from_Ok. split; [by rewrite /h /= length_map checked_length|].
    intros j hp a (p & -> & Hp)%list_lookup_fmap_Some Ha. destruct (checked_param _ _ Hp) as (a' & Ha' & Hn & Hres & Hv).
    cbn [hp_Name hp_Type to_parameter]. rewrite bool_decide_eq_false_2 // Hres. cbn [wrap_err].
    rewrite bind_Ok bool_decide_eq_false_2 //. congruence. }
  rewrite bind_Ok. destruct (validatePostconditions_sim _ _ _ (cj_postconditions _ _ _ _ checked)) as [Hpost _].
  fold h in Hpost. rewrite Hpost bind_Ok /iterM iterM_from_map. apply iterM_from_Ok. intros j tc Htc.
  pose proof (Forall_lookup_1 _ _ _ _ (cj_cases _ _ _ _ checked) Htc) as Hcase.
  cbn [to_testcase ht_Args ht_Expected ht_ID]. rewrite /h /= length_map.
  rewrite (cc_length _ _ _ _ Hcase) checked_length Nat.eqb_refl. cbn [negb].
  assert (forall i (l : list string) (e : nat -> goerr), Forall (fun arg => Valid arg = true) l ->
    iterM_from i (fun j arg => fail_if negb (Valid arg) with e j;; Ok tt) l = Ok tt) as Hvalid.
  { intros i l e Hl. apply iterM_from_Ok. intros k x Hx. by rewrite (Forall_lookup_1 _ _ _ _ Hl Hx). }
  rewrite (Hvalid 0%nat (tc_Args tc) (fun k => Errorf "test case %d argument %d is invalid JSON"
    [FInt (tc_ID tc); FInt (Z.of_nat k)]) (cc_valid _ _ _ _ Hcase)) bind_Ok.
  destruct (cc_expected_valid _ _ _ _ Hcase) as [Hne Hv]. by rewrite Hv bool_decide_eq_false_2.
Qed.

Lemma checked_observed_param o :
  o ∈ fn_Observations function -> ob_Kind o <> "return" ->
  (0 <= ob_Parameter o < Z.of_nat (length (fn_Params function)))%Z.
Proof.
  intros Ho Hk. destruct (cj_observed _ _ _ _ checked) as [observed Hobs].
  move: Hobs. rewrite /validateFunctionObservations. case_bool_decide as En; [by rewrite En in Ho; apply elem_of_nil in Ho|].
  intros E. destruct (foldM_from_each _ _ _ _ _ _ E Ho) as (j & [ret m] & [ret' m'] & Hs).
  apply job_observation_Ok in Hs as [(? & _)|(_ & Hr & _)]; [done|]. by rewrite -checked_length.
Qed.

Lemma checked_generateObservations :
  exists s, generateObservations h paramTypes returnType = Ok s.
Proof.
  rewrite /generateObservations. destruct (_ && _); [by eexists|]. unfold h. cbn [hf_Observations hf_Params
    hf_Postconditions to_function].
  match goal with |- context [imapM ?f (List.filter ?g ?l)] =>
    destruct (imapM_from_is_ok f 0 (List.filter g l)) as [texts Htexts] end.
  { intros j ho Hj%list_elem_of_lookup_2%list_elem_of_In. apply filter_In in Hj as [Hin Hk].
    apply in_map_iff in Hin as (o & <- & Hin%list_elem_of_In).
    apply negb_true_iff, bool_decide_eq_false in Hk. cbn [to_observation ho_Kind ho_Parameter] in Hk |- *.
    pose proof (checked_observed_param o Hin Hk) as Hr.
    destruct (lookup_lt_is_Some_2 (fn_Params function) (Z.to_nat (ob_Parameter o))) as [p Hp]; [lia|].
    destruct (checked_param _ _ Hp) as (a & Ha & _).
    rewrite (proj2 (get_indexZ_Ok paramTypes _ a)); [split; [lia|done]|]. rewrite bind_Ok.
    rewrite (proj2 (get_indexZ_Ok _ _ (to_parameter p)));
      [split; [lia|]; by rewrite list_lookup_fmap Hp|]. rewrite bind_Ok. by eexists. }
  rewrite /imapM Htexts bind_Ok.
  destruct (validatePostconditions_sim _ _ _ (cj_postconditions _ _ _ _ checked)) as (_ & Hpa & Hall).
  match goal with |- context [imapM_from 0 ?f (map ?g ?l)] =>
    destruct (imapM_from_is_ok f 0 (map g l)) as [conditions Hconditions] end.
  { intros j hc (c & -> & Hc)%list_lookup_fmap_Some. cbn [to_postcondition hq_Kind hq_FromParameter].
    pose proof (Forall_lookup_1 _ _ _ _ Hall Hc) as [Hk Hr]. rewrite checked_length in Hr.
    assert (is_PostconditionAdapter returnType = true) as Hrt
      by (apply Hpa; intros E; by rewrite E in Hc).
    destruct returnType as [| | | |r] eqn:Ert; try done.
    destruct (lookup_lt_is_Some_2 (fn_Params function) (Z.to_nat (pc_FromParameter c))) as [p Hp]; [lia|].
    rewrite (proj2 (get_indexZ_Ok _ _ (to_parameter p)));
      [split; [lia|]; by rewrite list_lookup_fmap Hp|]. rewrite bind_Ok.
    destruct (cj_return _ _ _ _ checked) as [_ Hres].
    rewrite /PostconditionExpression (resolved_postcondition _ _ _ DefaultRegistry_default Hres).
    rewrite /identityPostcondition. destruct Hk as [-> | ->]; by eexists. }
  rewrite Hconditions bind_Ok. by eexists.
Qed.

Lemma checked_generateCase tc :
  tc ∈ job_TestCases job -> exists s, generateCase h (to_testcase tc) default_registry = Ok s.
Proof.
  intros Htc. pose proof (cj_cases _ _ _ _ checked) as Hcases. rewrite Forall_forall in Hcases.
  specialize (Hcases tc Htc). rewrite /generateCase.
  match goal with |- context [imapM ?f ?l] =>
    assert (exists parts, imapM f l = Ok parts /\ parts.*2 = paramTypes) as (parts & -> & Hparts) end.
  { unfold h. cbn [hf_Params to_function to_testcase ht_Args ht_ID].
    destruct (imapM_from_is_ok (fun i parameter =>
      adapter ← Resolve default_registry (hp_Type parameter);
      argument ← get_index (tc_Args tc) i;
      literal ← wrap_err (fun e => Errorf "test case %d parameter %s: %w"
        [FInt (tc_ID tc); FStr (hp_Name parameter); FErr e]) (GenerateLiteral adapter argument);
      Ok ("        " +:+ CppType adapter +:+ " " +:+ hp_Name parameter +:+ " = " +:+ literal +:+ ";" +:+
        newline, adapter)) 0 (map to_parameter (fn_Params function))) as [parts Hparts].
    - intros j hp (p & -> & Hp)%list_lookup_fmap_Some. destruct (checked_param _ _ Hp) as (a & Ha & _ & Hres & _).
      cbn [hp_Type hp_Name to_parameter]. rewrite Hres bind_Ok.
      destruct (lookup_lt_is_Some_2 (tc_Args tc) j) as [arg Harg].
      { rewrite (cc_length _ _ _ _ Hcases). by apply lookup_lt_Some in Ha. }
      cbn. rewrite (proj2 (get_index_Ok _ _ arg)) // bind_Ok.
      destruct (resolved_literal _ _ _ Hres (cc_args _ _ _ _ Hcases _ _ _ Harg Ha)) as [text ->]. by eexists.
    - exists parts. split; [done|]. apply list_eq. intros j. rewrite list_lookup_fmap.
      apply imapM_from_Ok in Hparts as [Hlen Hall]. rewrite length_map in Hlen.
      destruct (fn_Params function !! j) as [p|] eqn:Hp.
      + destruct (checked_param _ _ Hp) as (a & Ha & _ & Hres & _). rewrite Ha.
        destruct (lookup_lt_is_Some_2 parts j) as [[t a'] Hpart];
          [apply lookup_lt_Some in Hp; lia|]. rewrite Hpart. cbn. f_equal.
        specialize (Hall j (to_parameter p) (t, a')). rewrite list_lookup_fmap Hp in Hall.
        specialize (Hall eq_refl Hpart). cbn [hp_Type to_parameter] in Hall. rewrite Hres bind_Ok in Hall.
        apply bind_Ok_inv in Hall as (? & _ & (? & _ & E)%bind_Ok_inv). congruence.
      + apply lookup_ge_None in Hp. rewrite (proj2 (lookup_ge_None parts j)); [lia|].
        symmetry. apply lookup_ge_None. rewrite checked_length. lia. }
  rewrite bind_Ok. destruct (cj_return _ _ _ _ checked) as [_ Hr].
  unfold h at 1. cbn [hf_ReturnType to_function]. rewrite Hr bind_Ok Hparts.
  destruct checked_generateObservations as [s ->]. by eexists.
Qed.

Lemma checked_Generate source :
  source <> "" -> exists s, FunctionGenerator_Generate default_registry
    (mkHRequest source h (map to_testcase (job_TestCases job))) = Ok s.
Proof.
  intros Hs. rewrite /FunctionGenerator_Generate checked_validateRequest // bind_Ok.
  cbn [hr_Function hr_SourceCode]. destruct (cj_return _ _ _ _ checked) as [_ Hr].
  rewrite /resolveFunctionAdapters. unfold h at 1. cbn [hf_ReturnType to_function]. rewrite Hr bind_Ok.
  match goal with |- context [imapM ?f ?l] => destruct (imapM_from_is_ok f 0 l) as [as_ Has] end.
  { intros j hp (p & -> & Hp)%list_lookup_fmap_Some. destruct (checked_param _ _ Hp) as (a & _ & _ & Hres & _).
    by exists a. }
  rewrite /imapM Has !bind_Ok. rewrite /generateMain. cbn [hr_Function hr_TestCases].
  match goal with |- context [imapM ?f ?l] => destruct (imapM_from_is_ok f 0 l) as [cases Hcases] end.
  { intros j ht (tc & -> & Htc)%list_lookup_fmap_Some. apply checked_generateCase.
    by apply list_elem_of_lookup_2 in Htc. }
  rewrite /imapM Hcases !bind_Ok. by eexists.
Qed.
End CppFunction.

(** ** Class jobs *)

(** What the class checks of both languages establish about a case. *)
Definition class_case_ok (class : ClassSpec) (tc : TestCase) : Prop :=
  exists expected, Unmarshal_array (tc_Expected tc) = Ok expected /\
    length expected = length (tc_Operations tc) /\
    forall i call, tc_Operations tc !! i = Some call -> exists operation a value,
      class_operations (cl_Operations class) !! oc_Name call = Some operation /\
      Resolve default_registry (co_ReturnType operation) = Ok a /\ expected !! i = Some value /\
      (CppType a = "void" \/ ValidateJSON a value = Ok tt).

Lemma class_expected_total class tc :
  class_case_ok class tc -> exists s, canonicalClassExpectedOutput class tc = Ok s.
Proof.
  intros (expected & Hu & Hlen & Hall). rewrite /canonicalClassExpectedOutput Hu. cbn [wrap_err].
  rewrite bind_Ok Hlen Nat.eqb_refl. cbn [negb].
  match goal with |- context [imapM ?f ?l] => destruct (imapM_from_is_ok f 0 l) as [texts Htexts] end;
    [|rewrite /imapM Htexts bind_Ok; by eexists].
  intros j call Hcall. destruct (Hall j call Hcall) as (operation & a & value & -> & Ha & Hv & Hval). cbn [default].
  rewrite Ha bind_Ok. case_bool_decide as Hvoid; [by eexists|]. cbn [Nat.add].
  rewrite (proj2 (get_index_Ok _ _ value)) // bind_Ok. destruct Hval as [?|Hval]; [done|].
  destruct (resolved_canonical _ _ _ Ha Hval) as [c ->]. by eexists.
Qed.

Lemma operations_by_name_map operations :
  operations_by_name (map to_operation operations) = to_operation <$> class_operations operations.
Proof.
  rewrite /operations_by_name /class_operations.
  assert (forall m : gmap string ClassOperationSpec, foldl (fun (m : gmap string HOperationSpec) operation => <[hs_Name operation := operation]> m) (to_operation <$> m)
      (map to_operation operations) =
    to_operation <$> foldl (fun m operation => <[co_Name operation := operation]> m) m operations) as Hgen.
  { induction operations as [|o l IH]; intros m; [done|]. cbn. rewrite -IH. by rewrite fmap_insert. }
  rewrite -Hgen. by rewrite fmap_empty.
Qed.

Lemma operations_lookup operations name operation :
  operations_by_name (map to_operation operations) !! name = Some operation ->
  exists o, class_operations operations !! name = Some o /\ hs_ReturnType operation = co_ReturnType o.
Proof.
  rewrite operations_by_name_map lookup_fmap. destruct (class_operations operations !! name) as [o|]; [|done].
  intros [= <-]. by exists o.
Qed.

(** From the loop over the calls of a case to the facts. *)
Lemma class_case_intro class tc expected (f : nat -> HOperationCall -> result unit) :
  Unmarshal_array (tc_Expected tc) = Ok expected -> length expected = length (tc_Operations tc) ->
  iterM f (map to_call (tc_Operations tc)) = Ok tt ->
  (forall i call, f i call = Ok tt -> exists operation a value,
    operations_by_name (map to_operation (cl_Operations class)) !! hl_Name call = Some operation /\
    Resolve default_registry (hs_ReturnType operation) = Ok a /\ expected !! i = Some value /\
    (CppType a = "void" \/ ValidateJSON a value = Ok tt)) ->
  class_case_ok class tc.
Proof.
  intros Hu Hlen Hloop Hf. exists expected. split_and!; [done..|]. intros i call Hcall.
  apply (proj1 (iterM_from_Ok _ _ _)) with (j := i) (x := to_call call) in Hloop;
    [|by rewrite list_lookup_fmap Hcall].
  destruct (Hf _ _ Hloop) as (operation & a & value & Hop & Ha & Hv & Hval). cbn in Hop, Hv.
  destruct (operations_lookup _ _ _ Hop) as (o & Ho & Er). rewrite Er in Ha. by exists o, a, value.
Qed.

Lemma cpp_class_case class i seen tc seen' :
  validate_class_case default_registry (to_class class)
    (operations_by_name (map to_operation (cl_Operations class))) i seen (to_testcase tc) = Ok seen' ->
  class_case_ok class tc.
Proof.
  rewrite /validate_class_case. cbn [to_testcase ht_ID ht_ConstructorArgs ht_Operations ht_Expected].
  case_bool_decide; [done|]. destruct (negb (_ =? length (hc_ConstructorParams _))%nat); [done|].
  intros ([] & _ & E)%bind_Ok_inv. case_bool_decide; [done|]. destruct (_ || _); [done|].
  apply bind_Ok_inv in E as (expected & Hu%wrap_err_Ok & E).
  destruct (negb _) eqn:Hlen; [done|]. apply negb_false_iff, Nat.eqb_eq in Hlen. rewrite length_map in Hlen.
  apply bind_Ok_inv in E as ([] & Hloop & _). eapply class_case_intro; [done..|exact Hloop|].
  intros j call. rewrite /validate_call. destruct (_ !! hl_Name call) as [operation|]; [|done].
  destruct (negb _); [done|]. intros ([] & _ & (a & Ha & (value & Hv%get_index_Ok & E)%bind_Ok_inv)%bind_Ok_inv)%bind_Ok_inv.
  exists operation, a, value. split_and!; [done..|]. case_bool_decide; [by left|].
  right. by apply wrap_err_Ok in E.
Qed.

Lemma isVoid_void s a : isVoid s = true -> Resolve default_registry s = Ok a -> CppType a = "void".
Proof.
  rewrite /isVoid. destruct (Parse s) as [ref|] eqn:Ep; [|done].
  intros [[Hn%bool_decide_eq_true Ha%Nat.eqb_eq]%andb_true_iff Hp%negb_true_iff]%andb_true_iff Hr.
  rewrite (resolved_void _ _ _ _ DefaultRegistry_default Hr Ep Hn _ Hp) //. by destruct (tr_Arguments ref).
Qed.

Lemma python_class_case_ok class i seen tc seen' :
  python_class_case default_registry (to_class class)
    (operations_by_name (map to_operation (cl_Operations class))) i seen (to_testcase tc) = Ok seen' ->
  class_case_ok class tc.
Proof.
  rewrite /python_class_case. cbn [to_testcase ht_ID ht_ConstructorArgs ht_Operations ht_Expected].
  case_bool_decide; [done|]. destruct (negb (_ =? length (hc_ConstructorParams _))%nat); [done|].
  intros ([] & _ & E)%bind_Ok_inv. case_bool_decide; [done|]. case_bool_decide; [done|].
  apply bind_Ok_inv in E as (expected & Hu%wrap_err_Ok & E).
  destruct (negb _) eqn:Hlen; [done|]. apply negb_false_iff, Nat.eqb_eq in Hlen. rewrite length_map in Hlen.
  apply bind_Ok_inv in E as ([] & Hloop & _). eapply class_case_intro; [done..|exact Hloop|].
  intros j call. rewrite /python_call. destruct (_ !! hl_Name call) as [operation|]; [|done].
  destruct (negb _); [done|].
  intros ([] & _ & (a & Ha%wrap_err_Ok & (value & Hv%get_index_Ok & E)%bind_Ok_inv)%bind_Ok_inv)%bind_Ok_inv.
  exists operation, a, value. split_and!; [done..|].
  destruct (isVoid (hs_ReturnType operation)) eqn:Evoid; [left; by eapply isVoid_void|].
  right. by apply wrap_err_Ok in E.
Qed.

(** The map of operations that the Python check builds. *)
Lemma python_operations registry i m l m' :
  foldM_from i (python_operation registry) m l = Ok m' ->
  m' = foldl (fun m operation => <[hs_Name operation := operation]> m) m l.
Proof.
  revert i m. induction l as [|o l IH]; intros i m; cbn; [by intros [= <-]|].
  intros (m1 & Hs & E)%bind_Ok_inv. rewrite (IH _ _ E). f_equal. move: Hs. rewrite /python_operation.
  do 3 (case_match; [done|]).
  intros (? & _ & (? & _ & (? & _ & Hm)%bind_Ok_inv)%bind_Ok_inv)%bind_Ok_inv. by injection Hm.
Qed.

(** Both generators check the class before anything else. *)
Lemma class_program_cases job class p :
  job_Class job = Some class -> Job_ExecutionMode job = ModeClass ->
  generateModeProgram job = Ok p -> Forall (class_case_ok class) (job_TestCases job).
Proof.
  intros Ec Em. rewrite /generateModeProgram mode_generator Em.
  change (bool_decide (ModeClass = ModeFunction)) with false. change (bool_decide (ModeClass = ModeClass)) with true.
  assert (forall f : nat -> gset Z -> HTestCase -> result (gset Z), (forall i seen tc seen', tc ∈ job_TestCases job -> f i seen (to_testcase tc) = Ok seen' ->
      class_case_ok class tc) ->
    forall seen, foldM f ∅ (map to_testcase (job_TestCases job)) = Ok seen ->
      Forall (class_case_ok class) (job_TestCases job)) as Hloop.
  { intros f Hf seen E. apply Forall_forall. intros tc Htc.
    destruct (foldM_from_each f 0 ∅ _ _ (to_testcase tc) E) as (j & s & s' & Hs);
      [by apply list_elem_of_fmap_2|]. by eapply Hf. }
  case_bool_decide.
  { cbn [mg_GenerateMode cpp_ClassGenerator]. rewrite /ClassGenerator_GenerateMode.
    cbn [mode_request mr_Contract ec_Mode ec_Class mr_SourceCode mr_TestCases].
    intros ([] & _ & E)%bind_Ok_inv. rewrite Em Ec in E. cbn in E.
    apply bind_Ok_inv in E as (s & Hs & _). apply bind_Ok_inv in Hs as ([] & Hv & _). move: Hv.
    rewrite /validateClassRequest. cbn [cr_Class cr_TestCases cr_SourceCode].
    do 3 (case_match; [done|]). intros (? & _ & ([] & _ & (seen & Hc & _)%bind_Ok_inv)%bind_Ok_inv)%bind_Ok_inv.
    eapply Hloop; [|exact Hc]. intros j s' tc s'' _. apply cpp_class_case. }
  case_bool_decide; [|done]. cbn [mg_GenerateMode python_ClassGenerator]. rewrite /python_ClassGenerateMode.
  cbn [mode_request mr_Contract ec_Mode ec_Class mr_SourceCode mr_TestCases].
  intros ([] & _ & E)%bind_Ok_inv. rewrite Em Ec in E. cbn in E.
  apply bind_Ok_inv in E as (s & Hs & _). apply bind_Ok_inv in Hs as (operations & Hv & _). move: Hv.
  rewrite /validateClass. do 4 (case_match; [done|]).
  intros ([] & _ & (m & Hm%python_operations & (seen & Hc & _)%bind_Ok_inv)%bind_Ok_inv)%bind_Ok_inv.
  eapply Hloop; [|exact Hc]. intros j s' tc s'' _. rewrite Hm. apply python_class_case_ok.
Qed.

(** ** Admission *)

Record admitted (job : Job) : Prop := {
  ad_language : job_Language job ∈ ["c"; "cpp"; "python"];
  ad_source : job_SourceCode job <> "" /\ (len (job_SourceCode job) <= 100000)%Z;
  ad_cases : (1 <= Z.of_nat (length (job_TestCases job)) <= MaxTestCases)%Z;
  ad_time : (0 < TimeLimitMs (job_Limits job) <= MaxTimeLimitMs)%Z;
  ad_memory : (0 < MemoryLimitMb (job_Limits job) <= MaxMemoryLimitMb)%Z;
  ad_mode :
    Job_ExecutionMode job = ModeStdin /\ job_Function job = None /\ job_Class job = None /\
      validateStdinCases (job_TestCases job) = Ok tt \/
    Job_ExecutionMode job = ModeFunction /\ (exists f, job_Function job = Some f) /\ job_Class job = None /\
      validateFunctionJob job = Ok tt \/
    Job_ExecutionMode job = ModeClass /\ job_Function job = None /\ (exists c, job_Class job = Some c) /\
      validateClassJob job = Ok tt }.

Lemma validate_mode_Ok job :
  validate_mode job = Ok tt ->
  Job_ExecutionMode job = ModeStdin /\ job_Function job = None /\ job_Class job = None \/
  Job_ExecutionMode job = ModeFunction /\ (exists f, job_Function job = Some f) /\ job_Class job = None \/
  Job_ExecutionMode job = ModeClass /\ job_Function job = None /\ (exists c, job_Class job = Some c).
Proof.
  rewrite /validate_mode. destruct (negb (ExecutionMode_Valid _)); [done|].
  destruct (bool_decide (Job_ExecutionMode job = ModeStdin)) eqn:E1;
    [apply bool_decide_eq_true in E1; rewrite E1|
     destruct (bool_decide (Job_ExecutionMode job = ModeFunction)) eqn:E2;
     [apply bool_decide_eq_true in E2; rewrite E2|
      destruct (bool_decide (Job_ExecutionMode job = ModeClass)) eqn:E3; [apply bool_decide_eq_true in E3; rewrite E3|done]]];
    destruct (job_Function job), (job_Class job); cbn; intros Hok; try discriminate Hok; eauto 10.
Qed.

Lemma ValidateJob_admitted job : ValidateJob job = Ok tt -> admitted job.
Proof.
  rewrite /ValidateJob. destruct (bool_decide (job_Language job = "")); [done|].
  destruct (is_nil _) eqn:El; [done|].
  intros ([] & Hmode%validate_mode_Ok & E)%bind_Ok_inv. case_bool_decide as Hs; [done|].
  case_bool_decide as Hc; [done|]. apply bind_Ok_inv in E as ([] & Hl & E).
  destruct (Z.ltb_spec 100000 (len (job_SourceCode job))); [done|].
  destruct (Z.ltb_spec MaxTestCases (Z.of_nat (length (job_TestCases job)))); [done|].
  assert ((0 < TimeLimitMs (job_Limits job) <= MaxTimeLimitMs)%Z /\
    (0 < MemoryLimitMb (job_Limits job) <= MaxMemoryLimitMb)%Z) as [Ht Hm].
  { move: Hl. rewrite /validate_limits. 
    destruct (Z.leb_spec (TimeLimitMs (job_Limits job)) 0); [intros [=]|].
    destruct (Z.ltb_spec MaxTimeLimitMs (TimeLimitMs (job_Limits job))); [intros [=]|].
    destruct (Z.leb_spec (MemoryLimitMb (job_Limits job)) 0); [intros [=]|].
    destruct (Z.ltb_spec MaxMemoryLimitMb (MemoryLimitMb (job_Limits job))); [intros [=]|]. lia. }
  split; [|split; [done|lia]| |done|done|].
  - apply supportedLanguages_Some. destruct (supportedLanguages !! _); [by eexists|done].
  - destruct (job_TestCases job); [done|]. cbn [length] in *. lia.
  - destruct Hmode as [(? & Hf & Hcl)|[(? & [f Hf] & Hcl)|(? & Hf & [c Hcl])]]; rewrite Hf Hcl in E |- *;
      [left|right; left|right; right]; split_and!; try done; eauto.
Qed.

(** What the judge relies on for a job of a generated mode: the program it
    compiles can be generated and every case has an expected output. *)
Definition mode_ready (job : Job) : Prop :=
  (exists program, generateModeProgram job = Ok program) /\
  forall tc, tc ∈ job_TestCases job -> exists expected, testCaseExpectedOutput job tc = Ok expected.

Lemma python_function_ready job f :
  job_Function job = Some f -> job_Class job = None -> job_Language job = "python" ->
  Job_ExecutionMode job = ModeFunction -> validateFunctionJob job = Ok tt -> mode_ready job.
Proof.
  intros Ef Ec El Em Hv. split.
  - move: Hv. rewrite /validateFunctionJob El. change (bool_decide ("python" = "python")) with true.
    intros (p & Hp%wrap_err_Ok & _)%bind_Ok_inv. by exists p.
  - intros tc Htc. destruct (validateFunctionJob_python _ _ Ef Ec El Em Hv) as (rt & pts & Hf & Hcases).
    rewrite Forall_forall in Hcases. eapply expected_output_total; [done..|]. apply (Hcases tc Htc).
Qed.

Lemma cpp_function_ready job f :
  job_Function job = Some f -> job_Class job = None -> job_Language job = "cpp" ->
  Job_ExecutionMode job = ModeFunction -> job_SourceCode job <> "" ->
  validateFunctionJob job = Ok tt -> mode_ready job.
Proof.
  intros Ef Ec El Em Hsource Hv. destruct (validateFunctionJob_cpp _ _ Ef El Hv) as (rt & pts & Hc). split.
  - rewrite /generateModeProgram El mode_generator Em.
    change (bool_decide ("cpp" = "cpp")) with true. change (bool_decide (ModeFunction = ModeFunction)) with true.
    cbn iota. cbn [mg_GenerateMode cpp_FunctionGenerator]. rewrite /FunctionGenerator_GenerateMode.
    cbn [mode_request mr_Contract ec_Mode ec_Function mr_SourceCode mr_TestCases].
    rewrite /mode_request Em Ef Ec. cbn [option_map mr_Contract]. rewrite bind_Ok.
    cbn [ec_Mode ec_Function deref]. change (bool_decide (ModeFunction = ModeFunction)) with true.
    cbn [negb]. rewrite bind_Ok.
    destruct (checked_Generate _ _ _ _ Hc _ Hsource) as [s Hs].
    cbn [mr_SourceCode mr_TestCases]. rewrite Hs bind_Ok. by eexists.
  - intros tc Htc. pose proof (cj_cases _ _ _ _ Hc) as Hcases. rewrite Forall_forall in Hcases.
    eapply expected_output_total; [done..|by eapply checked_cpp_function|]. apply (Hcases tc Htc).
Qed.

Lemma class_ready job c :
  job_Function job = None -> job_Class job = Some c -> Job_ExecutionMode job = ModeClass ->
  validateClassJob job = Ok tt -> mode_ready job.
Proof.
  intros Ef Ec Em Hv.
  assert (exists p, generateModeProgram job = Ok p) as [p Hp].
  { move: Hv. rewrite /validateClassJob. case_bool_decide.
    - intros (p & Hp%wrap_err_Ok & _)%bind_Ok_inv. by exists p.
    - case_bool_decide; [|done]. intros (s & (p & Hp & _)%wrap_err_Ok%bind_Ok_inv & _)%bind_Ok_inv.
      by exists p. }
  split; [by exists p|]. intros tc Htc.
  pose proof (class_program_cases _ _ _ Ec Em Hp) as Hcases. rewrite Forall_forall in Hcases.
  rewrite /testCaseExpectedOutput Ef Ec. by apply class_expected_total, Hcases.
Qed.

(** Every admitted job is a stdin job or a ready job of a generated mode. *)
Lemma admitted_ready job :
  admitted job -> (Job_ExecutionMode job = ModeStdin /\ job_Function job = None /\ job_Class job = None)
                  \/ mode_ready job.
Proof.
  intros [_ [Hsource Hlen] _ _ _ Hmode].
  destruct Hmode as [(Em & Ef & Ec & _)|[(Em & [f Ef] & Ec & Hv)|(Em & Ef & [c Ec] & Hv)]]; [by left|right..].
  - destruct (decide (job_Language job = "python")) as [El|Hnp].
    + by eapply python_function_ready.
    + eapply cpp_function_ready; try done.
      move: Hv. rewrite /validateFunctionJob bool_decide_eq_false_2 //. by case_bool_decide.
  - by eapply class_ready.
Qed.

Lemma admitted_expected job :
  admitted job ->
  forall tc, tc ∈ job_TestCases job -> exists expected, testCaseExpectedOutput job tc = Ok expected.
Proof.
  intros [(_ & Ef & Ec)|[_ He]]%admitted_ready; [|done].
  intros tc _. rewrite /testCaseExpectedOutput Ef Ec. by eexists.
Qed.

(** C19: a job that admission accepts can be turned into a program, unless it
    is a plain program already, and every one of its test cases has an expected
    output to compare with: neither step fails later in the judge. *)
Theorem accepted_job_ready job :
  ValidateJob job = Ok tt ->
  (Job_ExecutionMode job = ModeStdin \/ exists program, generateModeProgram job = Ok program) /\
  forall tc, tc ∈ job_TestCases job -> exists expected, testCaseExpectedOutput job tc = Ok expected.
Proof.
  intros Had%ValidateJob_admitted. split; [|by apply admitted_expected].
  destruct (admitted_ready job Had) as [[Em _]|[Hp _]]; [by left|by right].
Qed.

(** C20: what admission bounds: the language is one of the three, the limits
    and the number of cases are in their ranges, the source fits, and a C++
    function job has distinct case identifiers and at most 100000 bytes of
    arguments and expected value in each case. *)
Theorem accepted_job_bounds job :
  ValidateJob job = Ok tt ->
  job_Language job ∈ ["c"; "cpp"; "python"] /\
  (0 < TimeLimitMs (job_Limits job) <= 10000)%Z /\ (0 < MemoryLimitMb (job_Limits job) <= 512)%Z /\
  (1 <= Z.of_nat (length (job_TestCases job)) <= 500)%Z /\ (len (job_SourceCode job) <= 100000)%Z /\
  (job_Language job = "cpp" -> Job_ExecutionMode job = ModeFunction ->
    NoDup (map tc_ID (job_TestCases job)) /\
    Forall (fun tc => (len (tc_Expected tc) + Z.of_nat (sum_list_with String.length (tc_Args tc)) <= 100000)%Z)
      (job_TestCases job)).
Proof.
  intros Had%ValidateJob_admitted. pose proof Had as [Hl [_ Hs] Hc Ht Hm Hmode]. split_and!; try apply Ht;
    try apply Hm; try apply Hc; try done. intros El Em.
  destruct Hmode as [(E & _)|[(_ & [f Ef] & Ec & Hv)|(E & _)]]; [by rewrite E in Em| |by rewrite E in Em].
  destruct (validateFunctionJob_cpp _ _ Ef El Hv) as (rt & pts & Hck). split; apply Hck.
Qed.
End Generation.
