(* ===== verification/Judging.v ===== *)
(** * The verdict of a run

    [fails] says which status a case earns, by the precedence of the causes;
    the loop over the cases returns the first failing case, or acceptance. *)

From S2P Require Import Prelude GoStrings GoJson TypeSyntax Contracts Adapters Harness CppHarness.
From S2P Require Import CppClass PyHarness Languages Validate Verdict TestCases Observations Admission.
From S2P Require Import Generation.

Section Judging.
Context `{Float64} `{UnicodeTables} `{PrintTables}.

(** ** What a case earns *)

Definition passes (job : Job) (tc : TestCase) (done : bool) (run : RunResult) : Prop :=
  done = false /\ rr_OutputLimitExceeded run = false /\ rr_TimedOut run = false /\ rr_ExitCode run = 0%Z /\
  exists expected, testCaseExpectedOutput job tc = Ok expected /\
    functionOutputsEqual job (TrimSpace (rr_Stdout run)) (TrimSpace expected) = true.

(** Nine tenths of the memory limit, in bytes. *)
Definition near_memory_limit (job : Job) (run : RunResult) : Prop :=
  (MemoryLimitMb (job_Limits job) * 1048576 * 9 / 10 <= rr_MemoryUsed run)%Z.

Inductive fails (job : Job) (tc : TestCase) (run : RunResult) : bool -> Status -> Prop :=
  | fails_canceled : fails job tc run true InfrastructureError
  | fails_output : rr_OutputLimitExceeded run = true -> fails job tc run false OutputLimitExceeded
  | fails_time :
      rr_OutputLimitExceeded run = false -> rr_TimedOut run = true ->
      fails job tc run false TimeLimitExceeded
  | fails_memory :
      rr_OutputLimitExceeded run = false -> rr_TimedOut run = false -> rr_ExitCode run = (-1)%Z ->
      near_memory_limit job run -> fails job tc run false MemoryLimitExceeded
  | fails_runtime :
      rr_OutputLimitExceeded run = false -> rr_TimedOut run = false -> rr_ExitCode run <> 0%Z ->
      (rr_ExitCode run = (-1)%Z -> ~ near_memory_limit job run) -> fails job tc run false RuntimeError
  | fails_answer expected :
      rr_OutputLimitExceeded run = false -> rr_TimedOut run = false -> rr_ExitCode run = 0%Z ->
      testCaseExpectedOutput job tc = Ok expected ->
      functionOutputsEqual job (TrimSpace (rr_Stdout run)) (TrimSpace expected) = false ->
      fails job tc run false WrongAnswer.

Lemma fails_not_passes job tc run done status : fails job tc run done status -> ~ passes job tc done run.
Proof.
  intros Hf (Hd & Ho & Ht & He & expected & Hexp & Heq).
  destruct Hf as [| | | | |e' ? ? ? Hexp' Hneq]; try congruence.
Qed.

Lemma memory_threshold_exact m : (0 < m <= 512)%Z -> memory_threshold m = (m * 1048576 * 9 / 10)%Z.
Proof.
  intros Hm. rewrite /memory_threshold. rewrite !wrap64_id; rewrite /in_int64; try lia.
  rewrite Z.quot_div_nonneg; [lia|lia|]. f_equal. lia.
Qed.

(** ** One case *)

Lemma judge_case_spec job state tc done run :
  (0 < MemoryLimitMb (job_Limits job) <= 512)%Z ->
  (exists expected, testCaseExpectedOutput job tc = Ok expected) ->
  (exists result status, judge_case job state tc done run = Ok (inl result) /\
    fails job tc run done status /\ rs_Status result = status /\ rs_PassedTestCases result = ls_passed state /\
    rs_TotalTestCases result = Z.of_nat (length (job_TestCases job)) /\
    rs_RuntimeMs result = Milliseconds (rr_TimeUsed run) /\
    exists failed_case, rs_FailedTestCase result = Some failed_case /\ tc_ID failed_case = tc_ID tc) \/
  (exists state', judge_case job state tc done run = Ok (inr state') /\ passes job tc done run /\
    ls_passed state' = (ls_passed state + 1)%Z /\
    ls_maxRuntimeMs state' = Z.max (ls_maxRuntimeMs state) (Milliseconds (rr_TimeUsed run))).
Proof.
  intros Hm [expected He]. rewrite /judge_case.
  assert (forall status output message,
    let result := failed status job state tc run (Z.max (ls_maxMemoryBytes state) (rr_MemoryUsed run)) output
      message in
    rs_Status result = status /\ rs_PassedTestCases result = ls_passed state /\
    rs_TotalTestCases result = Z.of_nat (length (job_TestCases job)) /\
    rs_RuntimeMs result = Milliseconds (rr_TimeUsed run) /\
    exists failed_case, rs_FailedTestCase result = Some failed_case /\ tc_ID failed_case = tc_ID tc) as Hfail
    by (intros; cbn; eauto 10).
  destruct done; [left; do 2 eexists; split; [done|]; split; [constructor|apply Hfail]|].
  destruct (rr_OutputLimitExceeded run) eqn:Eo;
    [left; do 2 eexists; split; [done|]; split; [by constructor|apply Hfail]|].
  destruct (rr_TimedOut run) eqn:Et;
    [left; do 2 eexists; split; [done|]; split; [by constructor|apply Hfail]|].
  rewrite (proj2 (Z.ltb_lt 0 _)); [lia|]. rewrite andb_true_r memory_threshold_exact //.
  destruct ((rr_ExitCode run =? -1)%Z && _) eqn:Em.
  { apply andb_true_iff in Em as [Hc%Z.eqb_eq Hn%Z.leb_le].
    left; do 2 eexists; split; [done|]; split; [by apply fails_memory|apply Hfail]. }
  destruct (Z.eqb_spec (rr_ExitCode run) 0) as [Ec|Ec]; cbn [negb].
  2:{ left; do 2 eexists; split; [done|]; split; [|apply Hfail]. apply fails_runtime; [done..|].
      intros Hc Hn. rewrite Hc in Em. apply andb_false_iff in Em as [?|?%Z.leb_gt]; [done|].
      unfold near_memory_limit in Hn. lia. }
  rewrite He bind_Ok. destruct (functionOutputsEqual _ _ _) eqn:Eq; cbn [negb].
  - right. eexists. split_and!; [done| |done..]. split_and!; [done..|]. eauto.
  - left; do 2 eexists; split; [done|]; split; [by eapply fails_answer|apply Hfail].
Qed.

(** ** The loop *)

(** The run result of a case does not depend on the sandbox flags. *)
Definition case_answer (supervised : option (list (option RunResult))) (reset : bool) (i : nat)
    (tc : TestCase) (run : CaseRun) : result RunResult :=
  (case_run supervised reset i tc run (mkSandboxFlags false false)).1.

Lemma case_run_answer supervised reset i tc run sandbox :
  (case_run supervised reset i tc run sandbox).1 = case_answer supervised reset i tc run.
Proof.
  rewrite /case_answer /case_run. destruct (match supervised with _ => _ end : bool); [done|].
  destruct reset; [|done]. by destruct (cn_cleanup run).
Qed.

(** Every case that is reached has a run result: a case is reached when all the
    cases before it passed.  A supervisor stops at the first case that did not
    end well, so the cases after it have none. *)
Definition answered (job : Job) (supervised : option (list (option RunResult))) (reset : bool)
    (runs : nat -> CaseRun) (start : nat) (cases : list TestCase) : Prop :=
  forall k tc, cases !! k = Some tc ->
    (forall j tc', (j < k)%nat -> cases !! j = Some tc' ->
       exists run, case_answer supervised reset (start + j)%nat tc' (runs (start + j)%nat) = Ok run /\
         passes job tc' (cn_done (runs (start + j)%nat)) run) ->
    exists run, case_answer supervised reset (start + k)%nat tc (runs (start + k)%nat) = Ok run.

Lemma answered_next job supervised reset runs start tc cases run :
  answered job supervised reset runs start (tc :: cases) ->
  case_answer supervised reset start tc (runs start) = Ok run -> passes job tc (cn_done (runs start)) run ->
  answered job supervised reset runs (S start) cases.
Proof.
  intros Hans Hr Hp k tc' Hk Hprev. specialize (Hans (S k) tc' Hk). rewrite -Nat.add_succ_comm in Hans.
  apply Hans. intros [|j] tc'' Hj Htc''.
  - injection Htc'' as <-. exists run. by rewrite Nat.add_0_r.
  - rewrite -Nat.add_succ_comm. apply Hprev; [lia|done].
Qed.

(** The verdict of the cases from number [start] on. *)
Definition verdict (job : Job) (cases : list TestCase) (start : Z)
    (run_of : nat -> TestCase -> bool -> RunResult -> Prop) (result : Result) : Prop :=
  rs_TotalTestCases result = Z.of_nat (length (job_TestCases job)) /\
  (rs_Status result = Accepted /\ rs_FailedTestCase result = None /\
    rs_PassedTestCases result = (start + Z.of_nat (length cases))%Z /\
    (forall i tc, cases !! i = Some tc -> exists done run, run_of i tc done run /\ passes job tc done run) \/
   exists i tc done run, cases !! i = Some tc /\ run_of i tc done run /\
    fails job tc run done (rs_Status result) /\
    rs_PassedTestCases result = (start + Z.of_nat i)%Z /\
    (exists failed_case, rs_FailedTestCase result = Some failed_case /\ tc_ID failed_case = tc_ID tc) /\
    forall j tc', (j < i)%nat -> cases !! j = Some tc' ->
      exists done' run', run_of j tc' done' run' /\ passes job tc' done' run').

Lemma judge_cases_verdict job supervised reset runs i cases state sandbox :
  (0 < MemoryLimitMb (job_Limits job) <= 512)%Z ->
  (forall tc, tc ∈ cases -> exists expected, testCaseExpectedOutput job tc = Ok expected) ->
  answered job supervised reset runs i cases ->
  exists result sandbox', judge_cases supervised reset job runs i cases state sandbox = (Ok result, sandbox') /\
    verdict job cases (ls_passed state) (fun k tc done run => done = cn_done (runs (i + k)%nat) /\
      case_answer supervised reset (i + k)%nat tc (runs (i + k)%nat) = Ok run) result.
Proof.
  intros Hm. revert i state sandbox. induction cases as [|tc cases IH]; intros i state sandbox Hexp Hrun.
  { do 2 eexists. split; [done|]. split; [done|]. left. cbn. split_and!; [done..|lia|]. done. }
  cbn [judge_cases]. destruct (Hrun 0%nat tc eq_refl) as [run Ha]; [lia|]. rewrite Nat.add_0_r in Ha.
  pose proof (case_run_answer supervised reset i tc (runs i) sandbox) as Hcr. rewrite Ha in Hcr.
  destruct (case_run supervised reset i tc (runs i) sandbox) as [answer sandbox1]. cbn in Hcr. subst answer.
  destruct (judge_case_spec job state tc (cn_done (runs i)) run Hm (Hexp tc ltac:(by left)))
    as [(result & status & -> & Hf & Hs & Hp & Ht & _ & Hfc)|(state' & -> & Hpass & Hp & _)].
  - do 2 eexists. split; [done|]. split; [done|]. right. exists 0%nat, tc, (cn_done (runs i)), run.
    rewrite Nat.add_0_r Hs. do 3 (split; [done|]). split; [lia|]. split; [done|]. intros j tc' Hj. lia.
  - destruct (IH (S i) state' sandbox1) as (result & sandbox' & -> & Ht & Hv).
    { intros tc' Htc'. apply Hexp. by right. }
    { by eapply answered_next. }
    exists result, sandbox'. split; [done|]. split; [done|]. destruct Hv as [(Hs & Hn & Hpc & Hall)|Hv].
    + left. split_and!; [done..|cbn [length]; lia|]. intros [|k] tc' Hk.
      * injection Hk as <-. exists (cn_done (runs i)), run. by rewrite Nat.add_0_r.
      * rewrite -Nat.add_succ_comm. by apply Hall.
    + destruct Hv as (k & tc' & done & run' & Hk & Hr & Hf & Hpc & Hfc & Hprev).
      right. exists (S k), tc', done, run'. rewrite -Nat.add_succ_comm.
      do 3 (split; [done|]). split; [lia|]. split; [done|].
      intros [|j] tc'' Hj Htc''.
      * injection Htc'' as <-. exists (cn_done (runs i)), run. by rewrite Nat.add_0_r.
      * rewrite -Nat.add_succ_comm. apply Hprev; [lia|done].
Qed.

(** The slice of supervisor results the loop uses. *)
Definition supervised_of (supervisor : option (result (option (list (option RunResult)))))
    : result (option (list (option RunResult))) :=
  match supervisor with Some answer => answer | None => Ok None end.

Lemma runTestCases_verdict job supervisor results runs sandbox :
  admitted job -> supervised_of supervisor = Ok results ->
  answered job results (is_nil supervisor) runs 0 (job_TestCases job) ->
  exists result sandbox', runTestCases supervisor job runs sandbox = (Ok result, sandbox') /\
    verdict job (job_TestCases job) 0 (fun i tc done run => done = cn_done (runs i) /\
      case_answer results (is_nil supervisor) i tc (runs i) = Ok run) result.
Proof.
  intros Hjob Hsup Hruns.
  assert (runTestCases supervisor job runs sandbox =
    judge_cases results (is_nil supervisor) job runs 0 (job_TestCases job) (mkLoopState 0 0 0) sandbox) as ->.
  { rewrite /runTestCases /runTestCasesWithSandboxReset.
    destruct supervisor as [answer|]; cbn in Hsup |- *; [by rewrite Hsup|by injection Hsup as <-]. }
  exact (judge_cases_verdict job results (is_nil supervisor) runs 0 (job_TestCases job)
    (mkLoopState 0 0 0) sandbox (ad_memory _ Hjob) (admitted_expected job Hjob) Hruns).
Qed.

(** C21: the verdict of an accepted job.  When every case that is reached - all
    the cases before it passed - got a run result, the judge returns a result;
    it is Accepted exactly when every case got a result and passed, and
    otherwise it reports the first case that did not pass, with the number of
    cases before it and the status that case earns: cancellation before output
    limit before time limit before memory limit before runtime error before
    wrong answer.  The results of a supervisor, which stops at the first case
    that did not end well, are enough ([decoded_answered] of Protocol.v). *)
Theorem run_verdict job supervisor results runs sandbox :
  ValidateJob job = Ok tt -> supervised_of supervisor = Ok results ->
  answered job results (is_nil supervisor) runs 0 (job_TestCases job) ->
  exists result sandbox', runTestCases supervisor job runs sandbox = (Ok result, sandbox') /\
    verdict job (job_TestCases job) 0 (fun i tc done run => done = cn_done (runs i) /\
      case_answer results (is_nil supervisor) i tc (runs i) = Ok run) result /\
    (rs_Status result = Accepted <-> forall i tc, job_TestCases job !! i = Some tc -> exists run,
      case_answer results (is_nil supervisor) i tc (runs i) = Ok run /\ passes job tc (cn_done (runs i)) run).
Proof.
  intros Hjob%ValidateJob_admitted Hsup Hruns.
  destruct (runTestCases_verdict job supervisor results runs sandbox Hjob Hsup Hruns) as (result & sandbox' & -> & Hv).
  exists result, sandbox'. split_and!; [done|exact Hv|]. destruct Hv as (_ & [(Hs & _ & _ & Hall)|Hv]).
  - split; [|done]. intros _ i tc Hi. destruct (Hall i tc Hi) as (done & run & [-> Hr] & Hp). by exists run.
  - destruct Hv as (i & tc & done & run & Hi & [-> Hr] & Hf & _). split.
    + intros Ha. rewrite Ha in Hf. inversion Hf.
    + intros Hall. destruct (Hall i tc Hi) as (run' & Hr' & Hp). cbn in Hr. rewrite Hr in Hr'. injection Hr' as <-.
      by destruct (fails_not_passes _ _ _ _ _ Hf).
Qed.

(** The durations the judge computes for an accepted job are the exact
    ones: no product or sum overflows, the deadline of the whole run leaves
    every case its full limit, and it stays below ninety minutes. *)
Theorem run_deadlines job :
  ValidateJob job = Ok tt ->
  let n := Z.of_nat (length (job_TestCases job)) in
  perCaseLimit job = (TimeLimitMs (job_Limits job) * 1000000)%Z /\
  supervisorTimeout job = (n * (perCaseLimit job + 25000000) + 5000000000)%Z /\
  (n * perCaseLimit job < supervisorTimeout job < 5400 * Second)%Z.
Proof.
  intros Hjob n. apply ValidateJob_admitted in Hjob.
  pose proof (ad_time _ Hjob) as Ht. pose proof (ad_cases _ Hjob) as Hn. fold n in Hn.
  rewrite /MaxTimeLimitMs in Ht. rewrite /MaxTestCases in Hn.
  assert (perCaseLimit job = (TimeLimitMs (job_Limits job) * 1000000)%Z) as E.
  { rewrite /perCaseLimit /Millisecond wrap64_id; rewrite /in_int64; lia. }
  rewrite /supervisorTimeout E /Millisecond /Second. fold n.
  rewrite (wrap64_id (TimeLimitMs (job_Limits job) * 1000000 + 25 * 1000000)); [rewrite /in_int64; lia|].
  rewrite (wrap64_id (n * _)); [rewrite /in_int64; nia|]. rewrite wrap64_id; [rewrite /in_int64; nia|].
  split_and!; [done|lia|nia|nia].
Qed.
End Judging.
