(* ===== verification/Effects.v ===== *)
(** * Effectful calls

    A call that talks to the world is a function of the state it may change:
    the state after it and a [result].  [defer], [attempt] and [on_failure]
    are Go's [defer], the test of an [err] and the clean-up before an early
    return; [emit] appends to the log of visible actions. *)

From S2P Require Import Prelude GoStrings.

(** ** The text of an error: [err.Error()]

    [fmt.Errorf] with the verbs the source uses; the text of a library error is
    the library's. *)
Section ErrorText.
Context `{UnicodeTables} `{PrintTables}.

(** An argument is its text under a plain verb and its text under [%q], which
    is byte 113; 37 is the percent sign. *)
Fixpoint sprintf (format : string) (args : list (string * string)) : string :=
  match format with
  | EmptyString => ""
  | String c rest =>
      if (byte_of c =? 37)%Z then
        match rest, args with
        | String verb rest', (plain, quoted) :: args' =>
            (if (byte_of verb =? 113)%Z then quoted else plain) +:+ sprintf rest' args'
        | String verb rest', [] => "%!" +:+ String verb "(MISSING)" +:+ sprintf rest' []
        | EmptyString, _ => "%!(NOVERB)"
        end
      else String c (sprintf rest args)
  end.

Fixpoint Error (e : goerr) : string :=
  match e with
  | LibErr what => what
  | Errorf format args => sprintf format (map error_arg args)
  end
with error_arg (a : farg) : string * string :=
  match a with
  | FInt z => (Itoa z, Itoa z)
  | FStr s => (s, Quote s)
  | FErr e => (Error e, Quote (Error e))
  end.
End ErrorText.

(** ** Calls with a log *)
Section Effects.
Context {T E : Type}.

Record World := mkWorld { w_state : T; w_log : list E }.

Definition eff (A : Type) : Type := World -> result A * World.

#[export] Instance eff_ret : MRet eff := fun A a w => (Ok a, w).
#[export] Instance eff_bind : MBind eff := fun A B f m w =>
  match m w with
  | (Ok a, w') => f a w'
  | (Err e, w') => (Err e, w')
  end.

Definition lift {A} (r : result A) : eff A := fun w => (r, w).
Definition emit (e : E) : eff unit := fun w => (Ok tt, mkWorld (w_state w) (w_log w ++ [e])).

(** The error of [m] as a value: [x, err := m]. *)
Definition attempt {A} (m : eff A) : eff (result A) := fun w =>
  let '(r, w') := m w in (Ok r, w').

(** [defer cleanup()], then [m]. *)
Definition defer {A} (cleanup : eff unit) (m : eff A) : eff A := fun w =>
  let '(r, w') := m w in (r, snd (cleanup w')).

(** [if err := m; err != nil { cleanup(); return err }] *)
Definition on_failure {A} (cleanup : eff unit) (m : eff A) : eff A := fun w =>
  match m w with
  | (Ok a, w') => (Ok a, w')
  | (Err e, w') => (Err e, snd (cleanup w'))
  end.
End Effects.
Arguments World : clear implicits.
Arguments mkWorld {T E} _ _.
Arguments eff : clear implicits.

(** ** Acquired things are given back

    [opens] and [closes] say which actions acquire and give back; [held_after]
    runs the log as a stack, so it is defined only when every give-back matches
    the latest thing still held. *)
Section Brackets.
Context {R E : Type} `{EqDecision R} (opens closes : E -> option R).

Fixpoint held_after (held : list R) (log : list E) : option (list R) :=
  match log with
  | [] => Some held
  | e :: log =>
      match opens e, closes e with
      | Some r, _ => held_after (r :: held) log
      | None, Some r =>
          match held with
          | r' :: held' => if bool_decide (r = r') then held_after held' log else None
          | [] => None
          end
      | None, None => held_after held log
      end
  end.

Lemma held_after_app held l1 l2 :
  held_after held (l1 ++ l2) =
    match held_after held l1 with Some held' => held_after held' l2 | None => None end.
Proof.
  revert held. induction l1 as [|e l1 IH]; intros held; [done|]. cbn.
  destruct (opens e); [done|]. destruct (closes e) as [r|]; [|done].
  destruct held as [|r' held]; [done|]. by case_bool_decide.
Qed.
End Brackets.
