(* ===== verification/Paths.v ===== *)
(** * Slash-separated paths: the parts of Go's [path] and [path/filepath] that
    the judge uses on Unix *)

From S2P Require Import Prelude GoStrings.

Definition is_slash (c : Ascii.ascii) : bool := (byte_of c =? 47)%Z.

(** The texts between the slashes, at least one. *)
Fixpoint components (s : string) : list string :=
  match s with
  | EmptyString => [""]
  | String c s' =>
      if is_slash c then "" :: components s'
      else match components s' with
           | name :: rest => String c name :: rest
           | [] => [String c ""]
           end
  end.

Definition rooted (s : string) : bool :=
  match s with String c _ => is_slash c | EmptyString => false end.

(** One component of [Clean]'s loop; the output is kept last name first. *)
Definition clean_step (root : bool) (out : list string) (name : string) : list string :=
  if bool_decide (name = "") || bool_decide (name = ".") then out
  else if bool_decide (name = "..") then
    match out with
    | [] => if root then [] else [".."]
    | last :: out' => if bool_decide (last = "..") then ".." :: out else out'
    end
  else name :: out.

Definition clean_names (s : string) : list string := reverse (foldl (clean_step (rooted s)) [] (components s)).

(** [path.Clean] *)
Definition Clean (s : string) : string :=
  if rooted s then "/" +:+ Join (clean_names s) "/"
  else match clean_names s with [] => "." | names => Join names "/" end.

(** [filepath.Join] of two elements: empty elements are left out. *)
Definition path_Join (a b : string) : string :=
  if bool_decide (a = "") then (if bool_decide (b = "") then "" else Clean b)
  else if bool_decide (b = "") then Clean a else Clean (a +:+ "/" +:+ b).

Fixpoint strip_common (a b : list string) : list string * list string :=
  match a, b with
  | x :: a', y :: b' => if bool_decide (x = y) then strip_common a' b' else (a, b)
  | _, _ => (a, b)
  end.

(** [filepath.Rel] *)
Definition Rel (base target : string) : result string :=
  let fail := Err (Errorf "Rel: can't make %s relative to %s" [FStr target; FStr base]) in
  if bool_decide (Clean base = Clean target) then Ok "."
  else if negb (Bool.eqb (rooted (Clean base)) (rooted (Clean target))) then fail
  else
    let '(up, down) := strip_common (clean_names base) (clean_names target) in
    if bool_decide (head up = Some "..") then fail
    else Ok (Join (replicate (length up) ".." ++ down) "/").

(** [filepath.Base] of a path and [filepath.Dir] of a cleaned one. *)
Definition Base (s : string) : string :=
  if bool_decide (s = "") then "."
  else match last (filter (fun name => name <> "") (components s)) with
       | Some name => name
       | None => "/"
       end.

(** ** Laws *)

(** A name of one directory entry. *)
Definition entry_name (name : string) : Prop :=
  name <> "" /\ name <> "." /\ name <> ".." /\ components name = [name].

#[export] Instance entry_name_decision name : Decision (entry_name name).
Proof. rewrite /entry_name. apply _. Defined.

Lemma components_nonempty s : components s <> [].
Proof. destruct s as [|c s]; [done|]. cbn. destruct (is_slash c); [done|]. by destruct (components s). Qed.

Lemma components_slash a b : components (a +:+ "/" +:+ b) = components a ++ components b.
Proof.
  induction a as [|c a IH]; [done|]. rewrite append_cons. cbn [components]. rewrite IH.
  destruct (is_slash c); [done|]. pose proof (components_nonempty a). by destruct (components a).
Qed.

Lemma components_flat s name : name ∈ components s -> components name = [name].
Proof.
  revert name. induction s as [|c s IH]; intros name; cbn [components].
  { by intros ->%list_elem_of_singleton. }
  destruct (is_slash c) eqn:Hc.
  { intros [->|Hn]%elem_of_cons; [done|by apply IH]. }
  pose proof (components_nonempty s) as Hne. destruct (components s) as [|h rest] eqn:E; [done|].
  intros [->|Hn]%elem_of_cons; [|apply IH; by right]. cbn [components]. rewrite Hc.
  by rewrite (IH h (list_elem_of_here _ _)).
Qed.

Lemma components_Join names :
  names <> [] -> Forall (fun name => components name = [name]) names -> components (Join names "/") = names.
Proof.
  induction names as [|name names IH]; [done|]. intros _ [Hn Hns]%Forall_cons.
  destruct names as [|next names]; [done|].
  change (components (name +:+ "/" +:+ Join (next :: names) "/") = name :: next :: names).
  by rewrite components_slash Hn IH.
Qed.

Lemma Join_cons name names :
  Join (name :: names) "/" = match names with [] => name | _ => name +:+ "/" +:+ Join names "/" end.
Proof. by destruct names. Qed.

Lemma flat_not_rooted name s :
  components name = [name] -> name <> "" -> rooted (name +:+ s) = false.
Proof.
  destruct name as [|c name]; [done|]. rewrite append_cons. cbn. by destruct (is_slash c).
Qed.

(** The loop keeps the names it met, below the double dots that leave the start. *)
Definition clean_shape (root : bool) (names : list string) : Prop :=
  exists k normal, names = replicate k ".." ++ normal /\ Forall entry_name normal /\ (root = true -> k = O).

Lemma clean_step_shape root out name :
  components name = [name] -> clean_shape root (reverse out) -> clean_shape root (reverse (clean_step root out name)).
Proof.
  intros Hflat (k & normal & E & Hn & Hk). rewrite /clean_step.
  destruct (bool_decide (name = "") || bool_decide (name = ".")) eqn:E0.
  { by exists k, normal. }
  apply orb_false_iff in E0 as [?%bool_decide_eq_false ?%bool_decide_eq_false].
  case_bool_decide as Hdd.
  - destruct out as [|last out].
    { destruct root; [by exists O, []|]. by exists 1%nat, []. }
    rewrite reverse_cons in E. destruct normal as [|n0 normal _] using rev_ind.
    + rewrite app_nil_r in E. destruct k as [|k]; [by destruct (reverse out)|].
      assert (last = "..") as ->.
      { replace (S k) with (k + 1)%nat in E by lia. rewrite replicate_add in E. by apply app_inj_tail in E as [_ ->]. }
      rewrite bool_decide_eq_true_2 //. exists (S (S k)), []. rewrite reverse_cons reverse_cons E app_nil_r.
      change [".."] with (replicate 1 ".."). rewrite -replicate_add. split_and!; [f_equal; lia|done|].
      by intros ?%Hk.
    + rewrite app_assoc in E. apply app_inj_tail in E as [E ->].
      apply Forall_app in Hn as [Hn [(_ & _ & Hnd & _) _]%Forall_cons].
      rewrite bool_decide_eq_false_2 //. by exists k, normal.
  - exists k, (normal ++ [name]). rewrite reverse_cons E app_assoc. split_and!; [done| |done].
    apply Forall_app. split; [done|]. by apply Forall_singleton.
Qed.

Lemma clean_loop_shape root names out :
  Forall (fun name => components name = [name]) names -> clean_shape root (reverse out) ->
  clean_shape root (reverse (foldl (clean_step root) out names)).
Proof.
  revert out. induction names as [|name names IH]; intros out Hf Hs; [done|].
  apply Forall_cons in Hf as [Hn Hf]. cbn. apply IH; [done|]. by apply clean_step_shape.
Qed.

Lemma components_all_flat s : Forall (fun name => components name = [name]) (components s).
Proof. apply Forall_forall. intros name. apply components_flat. Qed.

Lemma clean_names_shape s : clean_shape (rooted s) (clean_names s).
Proof. apply clean_loop_shape; [apply components_all_flat|]. by exists O, []. Qed.

Lemma clean_loop_entries root out names :
  Forall entry_name names -> foldl (clean_step root) out names = reverse names ++ out.
Proof.
  revert out. induction names as [|name names IH]; intros out Hn; [done|].
  apply Forall_cons in Hn as [(H1 & H2 & H3 & _) Hn]. rewrite reverse_cons -app_assoc. cbn [foldl].
  assert (clean_step root out name = name :: out) as ->.
  { rewrite /clean_step. by repeat (rewrite bool_decide_eq_false_2; [done|]). }
  by apply IH.
Qed.

Lemma entries_flat names : Forall entry_name names -> Forall (fun name => components name = [name]) names.
Proof. intros Hn. eapply Forall_impl; [done|]. by intros name (_ & _ & _ & ?). Qed.

(** A cleaned path with entry names only: what it is and what it names. *)
Lemma Clean_components s :
  Forall entry_name (clean_names s) ->
  exists skipped, components (Clean s) = skipped ++ clean_names s /\ Forall (fun x => x = "" \/ x = ".") skipped.
Proof.
  intros Hn. rewrite /Clean. destruct (rooted s) eqn:Hr.
  - destruct (clean_names s) as [|n ns] eqn:E.
    + exists ["";""]. split; [done|]. repeat constructor; by left.
    + exists [""]. split; [|repeat constructor; by left].
      change ("/" +:+ Join (n :: ns) "/") with ("" +:+ "/" +:+ Join (n :: ns) "/").
      rewrite components_slash components_Join //. by apply entries_flat.
  - destruct (clean_names s) as [|n ns] eqn:E.
    + exists ["."]. split; [done|]. repeat constructor; by right.
    + exists []. split; [|done]. rewrite components_Join //. by apply entries_flat.
Qed.

Lemma clean_loop_skipped root out skipped :
  Forall (fun x => x = "" \/ x = ".") skipped -> foldl (clean_step root) out skipped = out.
Proof.
  induction 1 as [|x skipped Hx _ IH]; [done|]. cbn. destruct Hx as [->| ->]; apply IH.
Qed.

Lemma rooted_app a b : rooted a = true -> rooted (a +:+ b) = true.
Proof. by destruct a. Qed.

(** Joining a path of entry names under an absolute directory names the entry
    of that directory: nothing of the directory is left. *)
Lemma Join_names dir s :
  rooted dir = true -> Forall entry_name (clean_names s) ->
  rooted (path_Join dir (Clean s)) = true /\
  clean_names (path_Join dir (Clean s)) = clean_names dir ++ clean_names s.
Proof.
  intros Hr Hs. destruct (Clean_components s Hs) as (skipped & Hc & Hskip).
  assert (Clean s <> "") as Hne.
  { intros E. rewrite E in Hc. destruct skipped as [|x skipped].
    - cbn in Hc. rewrite -Hc in Hs. by apply Forall_cons_1 in Hs as [[Hbad _] _].
    - destruct (clean_names s) eqn:En; [|by destruct skipped].
      move: E. rewrite /Clean En. by destruct (rooted s). }
  assert (dir <> "") as Hd by by destruct dir.
  rewrite /path_Join bool_decide_eq_false_2 // bool_decide_eq_false_2 //.
  set (j := dir +:+ "/" +:+ Clean s).
  assert (rooted j = true) as Hj by by apply rooted_app.
  assert (clean_names j = clean_names dir ++ clean_names s) as E.
  { rewrite /clean_names Hj Hr. rewrite /j components_slash Hc !foldl_app (clean_loop_skipped _ _ skipped) //.
    fold (clean_names s). rewrite clean_loop_entries // reverse_app reverse_involutive //. }
  destruct (clean_names_shape dir) as (k & normal & Hdir & Hnormal & Hk). rewrite (Hk Hr) /= in Hdir.
  split; [by rewrite /Clean Hj|].
  assert (Forall entry_name (clean_names j)) as Hall by (rewrite E Hdir; by apply Forall_app).
  destruct (Clean_components j Hall) as (sk & Hcj & Hsk).
  assert (rooted (Clean j) = true) as Hrj by by rewrite /Clean Hj.
  rewrite {1}/clean_names Hrj Hcj foldl_app (clean_loop_skipped _ _ sk) // clean_loop_entries // app_nil_r reverse_involutive //.
Qed.
