(* ===== verification/Workspace.v ===== *)
(** * Workspaces and compiler archives: internal/judge/workspace.go *)

From S2P Require Import Prelude GoStrings Contracts Adapters Harness Languages Validate Effects Paths.

Definition maxCompilerArtifactFiles : Z := 1024.
Definition maxCompilerArtifactEntries : Z := 2048.
Definition maxCompilerArtifactFileBytes : Z := Z.shiftl 64 20.
Definition maxCompilerArtifactTotalBytes : Z := Z.shiftl 64 20.
Definition maxCompilerArtifactArchiveSize : Z := Z.shiftl 80 20.
Definition maxWorkspaceArchiveSize : Z := Z.shiftl 80 20.

(** ** What the judge does to the world

    The log of a submission: host files, the sandbox, the store and the
    metrics. *)
Inductive Timing := QueueWaitTiming | CompileTiming | AcquireTiming | StagingTiming | TestcaseTiming | RuntimeTiming.

Inductive Action :=
  | ActMkdirTemp (path : string)
  | ActWriteFile (path content : string)
  | ActChown (path : string)
  | ActChmod (path : string)
  | ActRemoveAll (path : string)
  | ActUpdate (sub : Submission)
  | ActUpdateFailed (sub : Submission)
  | ActCompile (workspace : string)
  | ActAcquire (sandbox : string)
  | ActPrepare (sandbox workspace : string)
  | ActRunTestCases (sandbox : string)
  | ActRelease (sandbox : string) (background : bool)
  | ActObserve (timing : Timing) (duration : Z)
  | ActWorkerStarted
  | ActWorkerFinished.

(** [rootfulRuntime] of executor.go: [uid] is [os.Getuid()], [uid_map] the
    contents of /proc/self/uid_map. *)
Definition rootfulRuntime (uid : Z) (uid_map : result string) : bool :=
  if negb (uid =? 0)%Z then false
  else
    match uid_map with
    | Err _ => true
    | Ok contents =>
        match Fields contents with
        | inside :: outside :: _ => if bool_decide (inside = "0") then bool_decide (outside = "0") else true
        | _ => true
        end
    end.

(** What the operating system answers to one [createWorkspace]. *)
Record Host := mkHost {
  hs_MkdirTemp : result string;
  hs_WriteFile : result unit;
  hs_Getuid : Z;
  hs_uid_map : result string;
  hs_Chown : result unit;
  hs_Chmod : result unit }.

Section Create.
Context `{Float64} `{UnicodeTables} `{PrintTables} {T : Type}.

(** The text [createWorkspace] writes to the source file. *)
Definition workspace_source (job : Job) (spec : Spec) : result string :=
  if is_nil (job_Function job) && is_nil (job_Class job) then Ok (job_SourceCode job)
  else
    program ← generateModeProgram job;
    fail_if negb (bool_decide (gp_SourceFile program = sp_SourceFileName spec))
    with Errorf "generated source filename %q does not match language filename %q"
           [FStr (gp_SourceFile program); FStr (sp_SourceFileName spec)];;
    Ok (gp_SourceCode program).

Definition createWorkspace (host : Host) (job : Job) (spec : Spec) : eff T Action string :=
  workspace ← lift (hs_MkdirTemp host);
  emit (ActMkdirTemp workspace);;
  on_failure (emit (ActRemoveAll workspace)) (
    sourceCode ← lift (workspace_source job spec);
    emit (ActWriteFile (path_Join workspace (sp_SourceFileName spec)) sourceCode);;
    lift (hs_WriteFile host);;
    (if rootfulRuntime (hs_Getuid host) (hs_uid_map host) then
       emit (ActChown workspace);;
       lift (hs_Chown host);;
       emit (ActChmod workspace);;
       lift (hs_Chmod host)
     else mret tt);;
    mret workspace).
End Create.

(** ** Archives *)

Definition TypeReg : Z := 48.
Definition TypeRegA : Z := 0.
Definition TypeDir : Z := 53.

(** [tar.Header], and what the reader yields: the entries with their data and
    the error that ends them, none for [io.EOF]. *)
Record Header := mkHeader {
  hd_Name : string;
  hd_Typeflag : Z;
  hd_Size : Z;
  hd_Mode : Z }.

Record Archive := mkArchive {
  ar_entries : list (Header * string);
  ar_error : option goerr }.

Definition is_regular (header : Header) : bool :=
  (hd_Typeflag header =? TypeReg)%Z || (hd_Typeflag header =? TypeRegA)%Z.

Definition addCompilerArtifactSize (totalBytes fileBytes : Z) (name : string) : result Z :=
  fail_if (fileBytes <? 0)%Z || (maxCompilerArtifactFileBytes <? fileBytes)%Z
  with Errorf "compiler artifact %q exceeds %d bytes" [FStr name; FInt maxCompilerArtifactFileBytes];;
  fail_if (wrap64 (maxCompilerArtifactTotalBytes - totalBytes) <? fileBytes)%Z
  with Errorf "compiler artifacts exceed %d aggregate bytes" [FInt maxCompilerArtifactTotalBytes];;
  Ok (wrap64 (totalBytes + fileBytes)).

Fixpoint has_nul (s : string) : bool :=
  match s with EmptyString => false | String c s' => (byte_of c =? 0)%Z || has_nul s' end.

Definition safeArchivePath (name : string) : result string :=
  fail_if bool_decide (name = "") || has_nul name || HasPrefix name "/"
  with Errorf "compiler artifact archive contains an invalid path" [];;
  let clean := Clean (TrimPrefix name "./") in
  fail_if bool_decide (clean = "..") || HasPrefix clean "../" ||
    bool_decide (clean = ".") && negb (bool_decide (name = ".")) && negb (bool_decide (name = "./"))
  with Errorf "compiler artifact archive path %q escapes the workspace" [FStr name];;
  Ok clean.

(** What the validation counts. *)
Record Tally := mkTally { tl_entries : Z; tl_files : Z; tl_bytes : Z }.

Definition validate_entry (_ : nat) (tally : Tally) (header : Header) : result Tally :=
  let entries := (tl_entries tally + 1)%Z in
  fail_if (maxCompilerArtifactEntries <? entries)%Z
  with Errorf "compiler artifact archive contains too many entries" [];;
  name ← safeArchivePath (hd_Name header);
  if bool_decide (name = ".") then
    if (hd_Typeflag header =? TypeDir)%Z && (hd_Size header =? 0)%Z
    then Ok (mkTally entries (tl_files tally) (tl_bytes tally))
    else Err (Errorf "compiler artifact archive contains an invalid root entry" [])
  else if (hd_Typeflag header =? TypeDir)%Z then
    fail_if negb (hd_Size header =? 0)%Z with Errorf "compiler artifact directory %q has data" [FStr name];;
    Ok (mkTally entries (tl_files tally) (tl_bytes tally))
  else if is_regular header then
    let files := (tl_files tally + 1)%Z in
    fail_if (maxCompilerArtifactFiles <? files)%Z with Errorf "compiler produced too many artifacts" [];;
    bytes ← addCompilerArtifactSize (tl_bytes tally) (hd_Size header) name;
    Ok (mkTally entries files bytes)
  else Err (Errorf "compiler artifact %q has unsupported tar type %d" [FStr name; FInt (hd_Typeflag header)]).

(** The archive file on the host: [os.Stat] (regular, size) and [os.Open]. *)
Record ArchiveFile := mkArchiveFile {
  af_Stat : result (bool * Z);
  af_Open : result Archive }.

Definition validateCompilerArtifactArchive (file : ArchiveFile) : result unit :=
  '(regular, size) ← wrap_err (fun e => Errorf "stat compiler artifact archive: %w" [FErr e]) (af_Stat file);
  fail_if negb regular with Errorf "compiler artifact archive is not a regular file" [];;
  fail_if (maxCompilerArtifactArchiveSize <? size)%Z
  with Errorf "compiler artifact archive exceeds %d bytes" [FInt maxCompilerArtifactArchiveSize];;
  archive ← wrap_err (fun e => Errorf "open compiler artifact archive: %w" [FErr e]) (af_Open file);
  tally ← foldM validate_entry (mkTally 0 0 0) (map fst (ar_entries archive));
  match ar_error archive with
  | Some e => Err (Errorf "read compiler artifact archive: %w" [FErr e])
  | None =>
      fail_if (tl_files tally =? 0)%Z with Errorf "compiler artifact archive is empty" [];; Ok tt
  end.

(** ** Extraction

    The host's files are a map from the names of an absolute path to what is
    there; the root is always a directory. *)
Inductive Node :=
  | DirNode
  | FileNode (data : string) (mode : Z).

#[export] Instance Node_eq_dec : EqDecision Node.
Proof. solve_decision. Defined.

Definition FileSystem : Type := gmap (list string) Node.

(** What the disk answers to the system calls on a path; [dk_partial] is how many
    bytes reach the file before a write that fails. *)
Record Disk := mkDisk {
  dk_mkdir : list string -> result unit;
  dk_create : list string -> result unit;
  dk_write : list string -> result unit;
  dk_partial : list string -> nat;
  dk_chmod : list string -> result unit;
  dk_close : list string -> result unit;
  dk_rename : list string -> result unit;
  dk_remove : list string -> result unit }.

Definition not_a_directory : goerr := LibErr "not a directory".
Definition file_exists : goerr := LibErr "file exists".
Definition unexpected_EOF : goerr := LibErr "unexpected EOF".

(** A call that changes the files; what it did before it failed stays. *)
Definition disk_op (A : Type) : Type := FileSystem -> result A * FileSystem.

#[export] Instance disk_ret : MRet disk_op := fun A a fs => (Ok a, fs).
#[export] Instance disk_bind : MBind disk_op := fun A B f m fs =>
  match m fs with
  | (Ok a, fs') => f a fs'
  | (Err e, fs') => (Err e, fs')
  end.

Definition answer {A} (r : result A) : disk_op A := fun fs => (r, fs).
Definition files : disk_op FileSystem := fun fs => (Ok fs, fs).
Definition set_files (change : FileSystem -> FileSystem) : disk_op unit := fun fs => (Ok tt, change fs).
Definition set_node (path : list string) (node : Node) : disk_op unit := set_files (<[path := node]>).
Definition wrapping {A} (wrap : goerr -> goerr) (m : disk_op A) : disk_op A := fun fs =>
  let '(r, fs') := m fs in (wrap_err wrap r, fs').

Fixpoint each {A} (f : A -> disk_op unit) (l : list A) : disk_op unit :=
  match l with [] => mret tt | x :: l => f x;; each f l end.

Section Extract.
Context (disk : Disk).

(** [os.MkdirAll] below the directory [above]: one directory after another. *)
Fixpoint MkdirAll (above names : list string) : disk_op unit :=
  match names with
  | [] => mret tt
  | name :: names =>
      let path := above ++ [name] in
      fs ← files;
      match fs !! path with
      | Some DirNode => MkdirAll path names
      | Some (FileNode _ _) => answer (Err not_a_directory)
      | None => answer (dk_mkdir disk path);; set_node path DirNode;; MkdirAll path names
      end
  end.

(** [io.CopyN]: the bytes that reach the file, and the error. *)
Definition copied (size : Z) (data : string) (target : list string) : string * result unit :=
  match dk_write disk target with
  | Ok _ => (slice_to (Z.to_nat size) data, if (size <=? len data)%Z then Ok tt else Err unexpected_EOF)
  | Err e => (slice_to (dk_partial disk target) (slice_to (Z.to_nat size) data), Err e)
  end.

(** One regular file: the parent directories, an exclusive create, the copy,
    the mode and the close, which are all tried; the copy's error is reported
    first. *)
Definition extract_file (name : string) (header : Header) (data : string) (target : list string) : disk_op unit :=
  wrapping (fun e => Errorf "create compiler artifact parent for %q: %w" [FStr name; FErr e])
    (MkdirAll [] (removelast target));;
  wrapping (fun e => Errorf "create compiler artifact %q: %w" [FStr name; FErr e])
    (fs ← files;
     answer (fail_if negb (is_nil (fs !! target)) with file_exists;; dk_create disk target));;
  let '(content, copyErr) := copied (hd_Size header) data target in
  let modeErr := dk_chmod disk target in
  let closeErr := dk_close disk target in
  set_node target (FileNode content (if is_ok modeErr then Z.land (hd_Mode header) 511 else 384%Z));;
  answer (wrap_err (fun e => Errorf "write compiler artifact %q: %w" [FStr name; FErr e]) copyErr);;
  answer (wrap_err (fun e => Errorf "set compiler artifact mode %q: %w" [FStr name; FErr e]) modeErr);;
  answer (wrap_err (fun e => Errorf "close compiler artifact %q: %w" [FStr name; FErr e]) closeErr).

Definition extract_entry (destination : string) (entry : Header * string) : disk_op unit :=
  let '(header, data) := entry in
  name ← answer (safeArchivePath (hd_Name header));
  if bool_decide (name = ".") then mret tt
  else
    let target := path_Join destination name in
    let escapes :=
      match Rel destination target with
      | Err _ => true
      | Ok relative => bool_decide (relative = "..") || HasPrefix relative "../"
      end in
    if escapes then
      answer (Err (Errorf "compiler artifact archive path %q escapes the staging directory" [FStr (hd_Name header)]))
    else if (hd_Typeflag header =? TypeDir)%Z then
      wrapping (fun e => Errorf "create compiler artifact directory %q: %w" [FStr name; FErr e])
        (MkdirAll [] (clean_names target))
    else if is_regular header then extract_file name header data (clean_names target)
    else answer (Err (Errorf "compiler artifact %q has unsupported tar type %d" [FStr name; FInt (hd_Typeflag header)])).

Definition extractCompilerArtifactArchive (file : ArchiveFile) (destination : string) : disk_op unit :=
  archive ← answer (wrap_err (fun e => Errorf "open compiler artifact archive: %w" [FErr e]) (af_Open file));
  each (extract_entry destination) (ar_entries archive);;
  answer (match ar_error archive with
          | Some e => Err (Errorf "read compiler artifact archive: %w" [FErr e])
          | None => Ok tt
          end).

(** [filepath.WalkDir] visits a directory before its entries, and the entries of
    a directory by name. *)
Fixpoint names_le (a b : list string) : bool :=
  match a, b with
  | [], _ => true
  | _ :: _, [] => false
  | x :: a', y :: b' => if bool_decide (x = y) then names_le a' b' else bool_decide (String.le x y)
  end.

Definition walk_le (a b : list string * Node) : Prop := names_le a.1 b.1 = true.

#[export] Instance walk_le_decision : RelDecision walk_le.
Proof. intros a b. rewrite /walk_le. apply _. Defined.

Definition below (dir path : list string) : Prop := dir `prefix_of` path /\ path <> dir.

#[export] Instance below_decision dir path : Decision (below dir path).
Proof. rewrite /below. apply _. Defined.

Definition walk (dir : list string) (fs : FileSystem) : list (list string * Node) :=
  merge_sort walk_le (filter (fun entry => below dir entry.1) (map_to_list fs)).

(** [os.Rename] of a file: onto a file or a new name. *)
Definition rename_file (source destination : list string) (node : Node) : disk_op unit :=
  fs ← files;
  answer (fail_if bool_decide (fs !! destination = Some DirNode) with file_exists;; dk_rename disk destination);;
  set_files (fun fs => <[destination := node]> (delete source fs)).

(** One entry of the staging directory moved to the workspace. *)
Definition install (staging workspace : list string) (entry : list string * Node) : disk_op unit :=
  let relative := drop (length staging) entry.1 in
  let destination := workspace ++ relative in
  match entry.2 with
  | DirNode => MkdirAll [] destination
  | FileNode data mode =>
      MkdirAll [] (removelast destination);;
      wrapping (fun e => Errorf "install compiler artifact %q: %w" [FStr (Join relative "/"); FErr e])
        (rename_file entry.1 destination (FileNode data mode))
  end.

(** [os.RemoveAll] *)
Definition remove_all (dir : list string) (fs : FileSystem) : FileSystem :=
  filter (fun entry => ~ dir `prefix_of` entry.1) fs.

(** The deferred removal of the staging directory, whose error is reported when
    there is no other. *)
Definition removing (dir : list string) (m : disk_op unit) : disk_op unit := fun fs =>
  let '(returnErr, fs') := m fs in
  let removed := dk_remove disk dir in
  (match returnErr with
   | Ok _ => wrap_err (fun e => Errorf "remove compiler artifact staging directory: %w" [FErr e]) removed
   | Err e => Err e
   end, if is_ok removed then remove_all dir fs' else fs').

(** [staging] is what [os.MkdirTemp] answers. *)
Definition importCompilerArtifacts (file : ArchiveFile) (staging : result string) (workspace : string) : disk_op unit :=
  answer (validateCompilerArtifactArchive file);;
  staging ← answer (wrap_err (fun e => Errorf "create compiler artifact staging directory: %w" [FErr e]) staging);
  let dir := clean_names staging in
  set_node dir DirNode;;
  removing dir (
    extractCompilerArtifactArchive file staging;;
    fs ← files;
    each (install dir (clean_names workspace)) (walk dir fs)).
End Extract.

(** ** The check before a transfer *)

(** What one visit of [filepath.WalkDir] meets: whether the context is done,
    the walk's own error, the kind and the file's information. *)
Record Visit := mkVisit {
  vs_name : string;
  vs_ctx : option goerr;
  vs_walk : option goerr;
  vs_dir : bool;
  vs_info : result (bool * Z) }.

Definition no_error (e : option goerr) : result unit := match e with Some e => Err e | None => Ok tt end.

Definition validate_visit (_ : nat) (tally : Tally) (visit : Visit) : result Tally :=
  no_error (vs_ctx visit);;
  no_error (vs_walk visit);;
  let entries := (tl_entries tally + 1)%Z in
  fail_if (maxCompilerArtifactEntries <? entries)%Z with Errorf "workspace contains too many entries" [];;
  if vs_dir visit then Ok (mkTally entries (tl_files tally) (tl_bytes tally))
  else
    '(regular, size) ← vs_info visit;
    fail_if negb regular
    with Errorf "workspace entry %q is not a regular file or directory" [FStr (vs_name visit)];;
    let files := (tl_files tally + 1)%Z in
    fail_if (maxCompilerArtifactFiles <? files)%Z with Errorf "workspace contains too many files" [];;
    bytes ← wrap_err (fun e => Errorf "workspace: %w" [FErr e])
              (addCompilerArtifactSize (tl_bytes tally) size (vs_name visit));
    Ok (mkTally entries files bytes).

Definition validateWorkspaceForTransfer (ctx : option goerr) (visits : list Visit) : result unit :=
  wrap_err (fun e => Errorf "validate workspace before transfer: %w" [FErr e])
    (no_error ctx;;
     tally ← foldM validate_visit (mkTally 0 0 0) visits;
     Ok tt).
