(* ===== verification/WorkspaceLaws.v ===== *)
(** * Laws of the compiler archives: what validation admits and where extraction
    writes *)

From S2P Require Import Prelude GoStrings Paths Effects Workspace Validate.

(** ** Safe names *)

Lemma HasPrefix_Ok s prefix : HasPrefix s prefix = true -> exists rest, s = prefix +:+ rest.
Proof.
  revert s. induction prefix as [|c prefix IH]; intros s H; [by exists s|].
  destruct s as [|d s]; [done|]. cbn in H. destruct (Ascii.ascii_dec c d) as [->|]; [|done].
  destruct (IH s H) as [rest ->]. by exists rest.
Qed.

Lemma HasPrefix_append prefix rest : HasPrefix (prefix +:+ rest) prefix = true.
Proof.
  induction prefix as [|c prefix IH]; [by destruct rest|]. rewrite append_cons /HasPrefix /=.
  by destruct (Ascii.ascii_dec c c); [exact IH|].
Qed.

Lemma Clean_inside s :
  Clean s <> ".." -> HasPrefix (Clean s) "../" = false -> Forall entry_name (clean_names s).
Proof.
  intros Hdd Hpre. destruct (clean_names_shape s) as (k & normal & E & Hn & Hk). rewrite E.
  destruct k as [|k]; [done|]. destruct (rooted s) eqn:Hr; [by specialize (Hk eq_refl)|].
  exfalso. move: Hdd Hpre. rewrite /Clean Hr E /=. destruct (replicate k ".." ++ normal) as [|n ns]; [done|].
  intros _. change (HasPrefix ("../" +:+ Join (n :: ns) "/") "../" = false -> False).
  by rewrite HasPrefix_append.
Qed.

(** A safe name is a cleaned path of entry names. *)
Lemma safeArchivePath_Ok name p :
  safeArchivePath name = Ok p -> exists s, p = Clean s /\ Forall entry_name (clean_names s).
Proof.
  rewrite /safeArchivePath. destruct (_ || _ || _); [done|]. cbv zeta.
  set (s := TrimPrefix name "./"). destruct (bool_decide (Clean s = "..") || HasPrefix (Clean s) "../") eqn:E; [done|].
  destruct (_ && _ && _); [done|]. intros [= <-]. exists s. split; [done|].
  apply orb_false_iff in E as [?%bool_decide_eq_false Hpre]. by apply Clean_inside.
Qed.

(** The names of a cleaned path are those of the path. *)
Lemma clean_names_Clean s : Forall entry_name (clean_names s) -> clean_names (Clean s) = clean_names s.
Proof.
  intros Hn. destruct (Clean_components s Hn) as (skipped & Hc & Hskip).
  rewrite {1}/clean_names Hc foldl_app (clean_loop_skipped _ _ skipped) // clean_loop_entries //.
  by rewrite app_nil_r reverse_involutive.
Qed.

Lemma strip_common_app a b : strip_common a (a ++ b) = ([], b).
Proof. induction a as [|x a IH]; cbn; [by destruct b|]. by rewrite bool_decide_eq_true_2. Qed.

Lemma rooted_Clean s : rooted s = true -> rooted (Clean s) = true.
Proof. intros Hr. by rewrite /Clean Hr. Qed.

Lemma relative_inside names :
  Forall entry_name names -> Join names "/" <> ".." /\ HasPrefix (Join names "/") "../" = false.
Proof.
  intros Hs. destruct names as [|n ns]; [done|].
  pose proof (components_Join (n :: ns) ltac:(done) (entries_flat _ Hs)) as Hc.
  apply Forall_cons in Hs as [(_ & _ & Hndd & _) _].
  split.
  - intros E. rewrite E in Hc. change (components "..") with [".."] in Hc. by injection Hc as <-.
  - destruct (HasPrefix _ _) eqn:Hp; [|done]. apply HasPrefix_Ok in Hp as [rest E].
    rewrite E in Hc. change ("../" +:+ rest) with (".." +:+ "/" +:+ rest) in Hc.
    rewrite components_slash in Hc. change (components "..") with [".."] in Hc. by injection Hc as <-.
Qed.

(** A name below the destination: the second check of the extraction is never
    the one that rejects. *)
Lemma target_inside destination p s :
  rooted destination = true -> p = Clean s -> Forall entry_name (clean_names s) ->
  clean_names (path_Join destination p) = clean_names destination ++ clean_names p /\
  exists relative, Rel destination (path_Join destination p) = Ok relative /\
    relative <> ".." /\ HasPrefix relative "../" = false.
Proof.
  intros Hd -> Hs. destruct (Join_names destination s Hd Hs) as [Hr Hnames].
  rewrite clean_names_Clean //. split; [done|]. rewrite /Rel !rooted_Clean //.
  case_bool_decide; [by exists "."|]. cbn [Bool.eqb negb]. rewrite Hnames strip_common_app.
  rewrite bool_decide_eq_false_2 //. eexists; split; [reflexivity|]. cbn [length replicate app].
  by apply relative_inside.
Qed.

(** ** What validation admits *)

Definition regular_sizes (headers : list Header) : list Z :=
  map hd_Size (filter (fun h => is_regular h = true) headers).

Definition sum_sizes (sizes : list Z) : Z := foldr Z.add 0%Z sizes.

Lemma addCompilerArtifactSize_Ok total size name total' :
  (0 <= total <= maxCompilerArtifactTotalBytes)%Z ->
  addCompilerArtifactSize total size name = Ok total' ->
  (0 <= size)%Z /\ total' = (total + size)%Z /\ (total' <= maxCompilerArtifactTotalBytes)%Z.
Proof.
  rewrite /addCompilerArtifactSize /maxCompilerArtifactFileBytes /maxCompilerArtifactTotalBytes.
  change (Z.shiftl 64 20) with 67108864%Z. intros Ht.
  rewrite (wrap64_id (_ - _)); [rewrite /in_int64; lia|].
  destruct (_ || _) eqn:E; [done|]. apply orb_false_iff in E as [?%Z.ltb_ge ?%Z.ltb_ge].
  destruct (_ <? size)%Z eqn:E; [done|]. apply Z.ltb_ge in E.
  rewrite wrap64_id; [rewrite /in_int64; lia|]. intros [= <-]. lia.
Qed.

(** The tally after a prefix of the archive. *)
Definition tally_of (headers : list Header) (tally : Tally) : Prop :=
  tl_entries tally = Z.of_nat (length headers) /\
  tl_files tally = Z.of_nat (length (regular_sizes headers)) /\
  tl_bytes tally = sum_sizes (regular_sizes headers) /\
  (tl_entries tally <= maxCompilerArtifactEntries)%Z /\
  (tl_files tally <= maxCompilerArtifactFiles)%Z /\
  (tl_bytes tally <= maxCompilerArtifactTotalBytes)%Z /\
  Forall (fun h => is_ok (safeArchivePath (hd_Name h)) = true) headers /\
  Forall (fun size => (0 <= size)%Z) (regular_sizes headers).

Lemma sum_sizes_nonneg sizes : Forall (fun size => (0 <= size)%Z) sizes -> (0 <= sum_sizes sizes)%Z.
Proof. rewrite /sum_sizes. induction 1; cbn in *; lia. Qed.

Lemma regular_sizes_snoc headers header :
  regular_sizes (headers ++ [header]) =
    regular_sizes headers ++ (if is_regular header then [hd_Size header] else []).
Proof.
  rewrite /regular_sizes filter_app map_app filter_cons. by destruct (is_regular header); case_decide.
Qed.

Lemma sum_sizes_snoc sizes size : sum_sizes (sizes ++ [size]) = (sum_sizes sizes + size)%Z.
Proof. rewrite /sum_sizes. induction sizes as [|x sizes IH]; cbn in *; lia. Qed.

Lemma tally_of_step headers header i tally tally' :
  tally_of headers tally -> validate_entry i tally header = Ok tally' -> tally_of (headers ++ [header]) tally'.
Proof.
  intros (He & Hf & Hb & Le & Lf & Lb & Hsafe & Hpos) E. rewrite /validate_entry in E.
  destruct (_ <? _)%Z eqn:E1 in E; [done|]. apply Z.ltb_ge in E1.
  apply bind_Ok_inv in E as (name & Hname & E).
  assert (forall b, tally' = mkTally (tl_entries tally + 1) (tl_files tally) (tl_bytes tally) ->
    is_regular header = b -> b = false -> tally_of (headers ++ [header]) tally') as Hskip.
  { intros b -> Hb' ->. rewrite /tally_of regular_sizes_snoc Hb' app_nil_r length_app /=.
    split_and!; try done; [lia|]. apply Forall_app. by rewrite Forall_singleton Hname. }
  assert (is_regular header = false \/ (hd_Typeflag header =? TypeDir)%Z = false) as Hkind.
  { destruct (Z.eqb_spec (hd_Typeflag header) TypeDir) as [Hd|]; [left|by right]. by rewrite /is_regular Hd. }
  case_bool_decide.
  - destruct (_ =? TypeDir)%Z eqn:Hd; [|done]. destruct Hkind as [Hr|]; [|done].
    destruct (_ =? 0)%Z in E; [|done]. injection E as <-. by apply (Hskip false).
  - destruct (_ =? TypeDir)%Z eqn:Hd.
    { destruct Hkind as [Hr|]; [|done]. destruct (negb _) in E; [done|]. injection E as <-. by apply (Hskip false). }
    destruct (is_regular header) eqn:Hr; [|done].
    destruct (maxCompilerArtifactFiles <? _)%Z eqn:E2; [done|]. apply Z.ltb_ge in E2.
    apply bind_Ok_inv in E as (bytes & Ha & [= <-]).
    apply addCompilerArtifactSize_Ok in Ha as (Hs & -> & Hle); [|split; [rewrite Hb; by apply sum_sizes_nonneg|done]].
    rewrite /tally_of regular_sizes_snoc Hr !length_app sum_sizes_snoc /=.
    split_and!; try done; try lia.
    + apply Forall_app. by rewrite Forall_singleton Hname.
    + apply Forall_app. by rewrite Forall_singleton.
Qed.

Lemma validate_entries headers tally :
  foldM validate_entry (mkTally 0 0 0) headers = Ok tally -> tally_of headers tally.
Proof.
  assert (forall i before t, tally_of before t ->
    foldM_from i validate_entry t headers = Ok tally -> tally_of (before ++ headers) tally) as Hgen.
  { induction headers as [|header headers IH]; intros i before t Ht.
    - rewrite app_nil_r. by intros [= <-].
    - intros (t1 & Hstep & Hrest)%bind_Ok_inv. rewrite cons_middle app_assoc.
      eapply IH; [|exact Hrest]. by eapply tally_of_step. }
  apply (Hgen 0%nat []). rewrite /tally_of. cbn. by split_and!.
Qed.

(** ** Calls that change the files *)

Lemma disk_bind_Ok {A B} (m : disk_op A) (f : A -> disk_op B) fs b fs' :
  (m ≫= f) fs = (Ok b, fs') -> exists a fs1, m fs = (Ok a, fs1) /\ f a fs1 = (Ok b, fs').
Proof. rewrite /mbind /disk_bind. destruct (m fs) as [[a|e] fs1]; [|done]. by exists a, fs1. Qed.

Lemma answer_inv {A} (r : result A) fs a fs' : answer r fs = (Ok a, fs') -> r = Ok a /\ fs' = fs.
Proof. by intros [= -> ->]. Qed.

Lemma wrapping_Ok {A} wrap (m : disk_op A) fs a fs' : wrapping wrap m fs = (Ok a, fs') -> m fs = (Ok a, fs').
Proof. rewrite /wrapping. destruct (m fs) as [r fs1]. intros [= Hr <-]. by apply wrap_err_Ok in Hr as ->. Qed.

(** A check that does not touch the files. *)
Lemma check_inv {A B} (r : result A) (f : A -> disk_op B) fs b fs' :
  (answer r ≫= f) fs = (Ok b, fs') -> exists a, r = Ok a /\ f a fs = (Ok b, fs').
Proof. intros (a & fs1 & [-> ->]%answer_inv & H)%disk_bind_Ok. by exists a. Qed.

(** ** What extraction writes *)

(** Every name on the way to [dir] is a directory. *)
Definition directories (fs : FileSystem) (dir : list string) : Prop :=
  forall k, (0 < k <= length dir)%nat -> fs !! take k dir = Some DirNode.

(** Nothing outside [workspace] differs. *)
Definition only_below (workspace : list string) (fs fs' : FileSystem) : Prop :=
  forall path, ~ below workspace path -> fs' !! path = fs !! path.

Lemma only_below_trans ws fs1 fs2 fs3 : only_below ws fs1 fs2 -> only_below ws fs2 fs3 -> only_below ws fs1 fs3.
Proof. intros H1 H2 path Hp. by rewrite H2 // H1. Qed.

Lemma only_below_directories ws fs fs' : directories fs ws -> only_below ws fs fs' -> directories fs' ws.
Proof.
  intros Hd Ho k Hk. rewrite Ho; [|by apply Hd]. intros [Hpre Hne]. apply prefix_length in Hpre.
  rewrite length_take in Hpre. apply Hne. rewrite firstn_all2 //. lia.
Qed.

Lemma below_append dir names : names <> [] -> below dir (dir ++ names).
Proof.
  intros Hne. split; [by apply prefix_app_r|]. intros E%(f_equal length). rewrite length_app in E.
  destruct names; cbn in *; [done|lia].
Qed.

Lemma below_app_names dir path : below dir path -> exists rest, rest <> [] /\ path = dir ++ rest.
Proof. intros [[rest ->] Hne]. exists rest. split; [|done]. intros ->. by rewrite app_nil_r in Hne. Qed.

Lemma below_deeper dir mid path : below (dir ++ mid) path -> below dir path.
Proof.
  intros [[rest ->] Hne]. rewrite -app_assoc. apply below_append. intros E.
  apply app_eq_nil in E as [-> ->]. by rewrite !app_nil_r in Hne.
Qed.

(** [m] writes below the directory [ws] only, whatever it answers. *)
Definition stays {A} (ws : list string) (m : disk_op A) : Prop :=
  forall fs, directories fs ws -> only_below ws fs (snd (m fs)).

Lemma stays_bind {A B} ws (m : disk_op A) (f : A -> disk_op B) :
  stays ws m -> (forall a, stays ws (f a)) -> stays ws (m ≫= f).
Proof.
  intros Hm Hf fs Hd. rewrite /mbind /disk_bind. specialize (Hm fs Hd). destruct (m fs) as [[a|e] fs1]; [|done].
  eapply only_below_trans; [exact Hm|]. by eapply Hf, only_below_directories.
Qed.

Lemma stays_answer {A} ws (r : result A) : stays ws (answer r).
Proof. by intros fs _ path. Qed.

Lemma stays_files ws : stays ws files.
Proof. by intros fs _ path. Qed.

Lemma stays_wrapping {A} ws wrap (m : disk_op A) : stays ws m -> stays ws (wrapping wrap m).
Proof. intros Hm fs Hd. rewrite /wrapping. specialize (Hm fs Hd). by destruct (m fs). Qed.

Lemma stays_set ws path node : below ws path -> stays ws (set_node path node).
Proof. intros Hb fs _ other Ho. rewrite /set_node /set_files /=. rewrite lookup_insert_ne //. by intros <-. Qed.

Lemma stays_each {A} ws (f : A -> disk_op unit) l : (forall x, x ∈ l -> stays ws (f x)) -> stays ws (each f l).
Proof.
  induction l as [|x l IH]; intros Hf; [by intros fs _ path|]. apply stays_bind; [apply Hf; by left|].
  intros _. apply IH. intros y Hy. apply Hf. by right.
Qed.

Section Extraction.
Context (disk : Disk).

Lemma MkdirAll_step above name names fs :
  let path := above ++ [name] in
  MkdirAll disk above (name :: names) fs =
    match fs !! path with
    | Some DirNode => MkdirAll disk path names fs
    | Some (FileNode _ _) => (Err not_a_directory, fs)
    | None =>
        match dk_mkdir disk path with
        | Ok _ => MkdirAll disk path names (<[path := DirNode]> fs)
        | Err e => (Err e, fs)
        end
    end.
Proof.
  cbn zeta. cbn [MkdirAll]. rewrite {1}/mbind {1}/disk_bind /files.
  destruct (fs !! (above ++ [name])) as [[|]|]; [done..|].
  rewrite {1}/mbind {1}/disk_bind /answer. by destruct (dk_mkdir disk _).
Qed.

(** What was there stays, whatever the answer. *)
Lemma MkdirAll_keeps above names fs path node :
  fs !! path = Some node -> snd (MkdirAll disk above names fs) !! path = Some node.
Proof.
  revert above fs. induction names as [|name names IH]; intros above fs Hp; [done|]. rewrite MkdirAll_step. cbn zeta.
  destruct (fs !! (above ++ [name])) as [[|]|] eqn:E; [by apply IH|done|].
  destruct (dk_mkdir disk _); [|done]. apply IH. rewrite lookup_insert_ne //. intros <-. by rewrite E in Hp.
Qed.

Lemma MkdirAll_changes above names fs path :
  let fs' := snd (MkdirAll disk above names fs) in
  fs' !! path = fs !! path \/
  fs' !! path = Some DirNode /\ fs !! path = None /\
    exists k, (0 < k <= length names)%nat /\ path = above ++ take k names.
Proof.
  cbn zeta. revert above fs. induction names as [|name names IH]; intros above fs; [by left|].
  rewrite MkdirAll_step. cbn zeta.
  assert (forall k, (above ++ [name]) ++ take k names = above ++ take (S k) (name :: names)) as Htake.
  { intros k. by rewrite -app_assoc. }
  destruct (fs !! (above ++ [name])) as [[|]|] eqn:E; [|by left|].
  - destruct (IH (above ++ [name]) fs) as [?|(? & ? & k & Hk & ->)]; [by left|right]. split_and!; try done.
    exists (S k). split; [cbn; lia|apply Htake].
  - destruct (dk_mkdir disk _); [|by left]. set (fs1 := <[above ++ [name] := DirNode]> fs).
    pose proof (MkdirAll_keeps (above ++ [name]) names fs1 (above ++ [name]) DirNode) as Hk.
    destruct (decide (path = above ++ [name])) as [->|Hne].
    { right. rewrite Hk; [by rewrite lookup_insert_eq|]. split_and!; try done. exists 1%nat. split; [cbn; lia|done]. }
    destruct (IH (above ++ [name]) fs1) as [Heq|(Hd & Hn & k & Hk' & ->)].
    + left. by rewrite Heq lookup_insert_ne.
    + right. rewrite lookup_insert_ne in Hn; [done|]. split_and!; try done. exists (S k). split; [cbn; lia|apply Htake].
Qed.

Lemma MkdirAll_file above names fs path data mode :
  snd (MkdirAll disk above names fs) !! path = Some (FileNode data mode) -> fs !! path = Some (FileNode data mode).
Proof. intros Hp. destruct (MkdirAll_changes above names fs path) as [<-|(Hd & _)]; [done|]. by rewrite Hd in Hp. Qed.

Lemma stays_MkdirAll workspace names : stays workspace (MkdirAll disk [] (workspace ++ names)).
Proof.
  intros fs Hd path Hp. destruct (MkdirAll_changes [] (workspace ++ names) fs path) as [?|(_ & Hnone & k & Hk & ->)]; [done|].
  cbn in *. destruct Hp. rewrite length_app in Hk. destruct (decide (k <= length workspace)%nat).
  - rewrite take_app_le // in Hnone. rewrite Hd in Hnone; [lia|done].
  - rewrite take_app_ge; [lia|]. apply below_append. intros E%(f_equal length). rewrite length_take /= in E. lia.
Qed.

(** The destination is an existing directory other than the root. *)
Record staged (destination : string) (fs : FileSystem) : Prop := {
  st_rooted : rooted destination = true;
  st_root : clean_names destination <> [];
  st_directories : directories fs (clean_names destination) }.

(** What one regular entry of the archive becomes. *)
Definition artifact (destination : string) (entry : Header * string) (path : list string) (node : Node) : Prop :=
  exists p, safeArchivePath (hd_Name entry.1) = Ok p /\ p <> "." /\ is_regular entry.1 = true /\
    path = clean_names destination ++ clean_names p /\
    node = FileNode (slice_to (Z.to_nat (hd_Size entry.1)) entry.2) (Z.land (hd_Mode entry.1) 511).

(** A step of the extraction with the entries it has to account for. *)
Record extracts (destination : string) (entries : list (Header * string)) (fs fs' : FileSystem) : Prop := {
  ex_keeps : forall path node, fs !! path = Some node -> fs' !! path = Some node;
  ex_outside : forall path, ~ below (clean_names destination) path -> fs' !! path = fs !! path;
  ex_files : forall path data mode, fs' !! path = Some (FileNode data mode) ->
    fs !! path = Some (FileNode data mode) \/
    exists entry, entry ∈ entries /\ artifact destination entry path (FileNode data mode);
  ex_written : forall entry path node, entry ∈ entries -> artifact destination entry path node ->
    fs' !! path = Some node }.

Lemma extracts_refl destination fs : extracts destination [] fs fs.
Proof. split; [done|done|by left|]. by intros entry path node ?%elem_of_nil. Qed.

Lemma extracts_trans destination l1 l2 fs1 fs2 fs3 :
  extracts destination l1 fs1 fs2 -> extracts destination l2 fs2 fs3 ->
  extracts destination (l1 ++ l2) fs1 fs3.
Proof.
  intros [K1 O1 F1 W1] [K2 O2 F2 W2]. split.
  - eauto.
  - intros path Hp. by rewrite O2 // O1.
  - intros path data mode [Hp|(entry & He & Ha)]%F2; [apply F1 in Hp as [Hp|(entry & He & Ha)]|]; [by left|right..];
      exists entry; rewrite elem_of_app; eauto.
  - intros entry path node [He|He]%elem_of_app Ha; eauto.
Qed.

Lemma extracts_staged destination l fs fs' :
  staged destination fs -> extracts destination l fs fs' -> staged destination fs'.
Proof. intros [Hr Hne Hd] [K _ _ _]. split; [done..|]. intros k Hk. by apply K, Hd. Qed.

Lemma MkdirAll_extracts destination names fs fs' entry :
  staged destination fs -> (forall path node, ~ artifact destination entry path node) ->
  MkdirAll disk [] (clean_names destination ++ names) fs = (Ok tt, fs') ->
  extracts destination [entry] fs fs'.
Proof.
  intros [Hr Hne Hd] Hno Hm. assert (fs' = snd (MkdirAll disk [] (clean_names destination ++ names) fs)) as -> by by rewrite Hm.
  split.
  - intros path node. apply MkdirAll_keeps.
  - by apply stays_MkdirAll.
  - intros path data mode Hp. left. by eapply MkdirAll_file.
  - intros e path node ->%list_elem_of_singleton Ha. by destruct (Hno path node).
Qed.

Lemma removelast_app_ne {A} (l k : list A) : k <> [] -> removelast (l ++ k) = l ++ removelast k.
Proof. intros. by apply removelast_app. Qed.

(** A file that was extracted: what its steps did. *)
Lemma extract_file_Ok p header data target fs fs' :
  extract_file disk p header data target fs = (Ok tt, fs') ->
  exists fs1, MkdirAll disk [] (removelast target) fs = (Ok tt, fs1) /\ fs1 !! target = None /\
    fs' = <[target := FileNode (slice_to (Z.to_nat (hd_Size header)) data) (Z.land (hd_Mode header) 511)]> fs1.
Proof.
  rewrite /extract_file. intros ([] & fs1 & Hm%wrapping_Ok & E)%disk_bind_Ok.
  apply disk_bind_Ok in E as ([] & fs2 & Hnew%wrapping_Ok & E).
  apply disk_bind_Ok in Hnew as (fs3 & fs4 & [= <- <-] & [Hnew ->]%answer_inv).
  exists fs1. split; [done|]. split; [by destruct (fs1 !! target)|].
  destruct (copied disk _ _ _) as [content copyErr] eqn:Ec. cbn zeta in E.
  apply disk_bind_Ok in E as ([] & fs5 & [= <-] & E).
  apply check_inv in E as ([] & Hcopy%wrap_err_Ok & E). apply check_inv in E as ([] & Hmode%wrap_err_Ok & E).
  apply answer_inv in E as [_ ->]. rewrite Hmode. cbn [is_ok]. revert Ec Hcopy. rewrite /copied.
  destruct (dk_write disk target) as [[]|]; [|by intros [= <- <-]]. by intros [= <- <-].
Qed.

Lemma extract_file_extracts destination p header data fs fs' :
  staged destination fs -> safeArchivePath (hd_Name header) = Ok p -> p <> "." -> is_regular header = true ->
  extract_file disk p header data (clean_names destination ++ clean_names p) fs = (Ok tt, fs') ->
  extracts destination [(header, data)] fs fs'.
Proof.
  intros Hst Hp Hdot Hreg. pose proof Hst as [Hr Hne Hd]. intros (fs1 & Hm & Hnone & ->)%extract_file_Ok.
  set (target := clean_names destination ++ clean_names p) in *.
  assert (clean_names p <> []) as Hpne.
  { intros Hpn. rewrite /target Hpn app_nil_r in Hnone, Hm.
    pose proof (Hd (length (clean_names destination))) as Hdir. rewrite firstn_all in Hdir.
    pose proof (MkdirAll_keeps [] (removelast (clean_names destination)) fs (clean_names destination) DirNode) as Hk.
    rewrite Hm /= Hnone in Hk. destruct (clean_names destination); [done|]. cbn in Hdir. discriminate Hk. apply Hdir. lia. }
  assert (extracts destination [] fs fs1) as [K O F _].
  { rewrite /target removelast_app_ne // in Hm.
    edestruct (MkdirAll_extracts destination (removelast (clean_names p)) fs fs1 (mkHeader "" 0 0 0, "") Hst) as [K O F _]; [|exact Hm|].
    - by intros path node (q & Hq & _).
    - split; [done..| |by intros e path node ?%elem_of_nil]. intros path d m [?|(e & ->%list_elem_of_singleton & q & Hq & _)]%F; [by left|done]. }
  assert (artifact destination (header, data) target
    (FileNode (slice_to (Z.to_nat (hd_Size header)) data) (Z.land (hd_Mode header) 511))) as Hart by by exists p.
  split.
  - intros path node Hpath%K. rewrite lookup_insert_ne //. intros <-. by rewrite Hnone in Hpath.
  - intros path Hout. rewrite lookup_insert_ne; [|by apply O]. intros <-. destruct Hout. by apply below_append.
  - intros path d m. destruct (decide (path = target)) as [->|Hneq].
    + rewrite lookup_insert_eq. intros [= <- <-]. right. exists (header, data). split; [by left|done].
    + rewrite lookup_insert_ne //. intros [?|(e & ?%elem_of_nil & _)]%F; [by left|done].
  - intros e path node ->%list_elem_of_singleton (q & Hq & _ & _ & -> & ->). cbn in Hq. rewrite Hp in Hq.
    injection Hq as <-. by rewrite lookup_insert_eq.
Qed.

Lemma extract_entry_extracts destination entry fs fs' :
  staged destination fs -> extract_entry disk destination entry fs = (Ok tt, fs') ->
  extracts destination [entry] fs fs'.
Proof.
  intros Hst E. destruct entry as [header data]. rewrite /extract_entry in E.
  apply check_inv in E as (p & Hp & E). destruct (safeArchivePath_Ok _ _ Hp) as (s & Hs & Hnames).
  assert (forall path node, is_regular header = false \/ p = "." -> ~ artifact destination (header, data) path node) as Hno.
  { intros path node Hskip (q & Hq & Hne & Hreg & _). cbn in Hq, Hreg. rewrite Hp in Hq. injection Hq as <-.
    destruct Hskip as [Hf|]; [by rewrite Hf in Hreg|done]. }
  case_bool_decide as Hdot.
  { injection E as <-. destruct (extracts_refl destination fs) as [K O F _].
    split; [done..| |by intros e path node ->%list_elem_of_singleton []%Hno; right]. by left. }
  destruct (target_inside destination p s (st_rooted _ _ Hst) Hs Hnames) as (Htarget & relative & Hrel & Hne & Hpre).
  cbv zeta in E. rewrite Hrel bool_decide_eq_false_2 // Hpre Htarget in E. cbn [orb] in E.
  destruct (hd_Typeflag header =? TypeDir)%Z eqn:Hdir.
  - apply wrapping_Ok in E. eapply MkdirAll_extracts; [done| |exact E]. intros path node. apply Hno. left.
    apply Z.eqb_eq in Hdir. by rewrite /is_regular Hdir.
  - destruct (is_regular header) eqn:Hreg; [|done]. by eapply extract_file_extracts.
Qed.

Lemma extract_entries destination entries fs fs' :
  staged destination fs -> each (extract_entry disk destination) entries fs = (Ok tt, fs') ->
  extracts destination entries fs fs'.
Proof.
  revert fs. induction entries as [|entry entries IH]; intros fs Hst.
  { intros [= <-]. apply extracts_refl. }
  intros ([] & fs1 & Hstep & Hrest)%disk_bind_Ok. apply extract_entry_extracts in Hstep; [|done].
  apply (extracts_trans _ [entry] entries _ fs1); [done|]. eapply IH; [|done]. by eapply extracts_staged.
Qed.

Lemma extract_archive destination file fs fs' :
  staged destination fs -> extractCompilerArtifactArchive disk file destination fs = (Ok tt, fs') ->
  exists archive, af_Open file = Ok archive /\ ar_error archive = None /\
    extracts destination (ar_entries archive) fs fs'.
Proof.
  intros Hst (archive & Hopen%wrap_err_Ok & E)%check_inv. apply disk_bind_Ok in E as ([] & fs1 & Hloop & [E ->]%answer_inv).
  exists archive. split; [done|]. destruct (ar_error archive); [done|]. split; [done|]. by eapply extract_entries.
Qed.

(** Extraction writes below the destination only, also when it fails. *)
Lemma stays_extract_file destination p header data names :
  names <> [] -> stays destination (extract_file disk p header data (destination ++ names)).
Proof.
  intros Hne. rewrite /extract_file. destruct (copied disk _ _ _) as [content copyErr]. cbn zeta.
  rewrite removelast_app_ne //. repeat (apply stays_bind; [|intros _]); repeat apply stays_wrapping.
  - apply stays_MkdirAll.
  - apply stays_bind; [apply stays_files|intros; apply stays_answer].
  - by apply stays_set, below_append.
  - apply stays_answer.
  - apply stays_answer.
  - apply stays_answer.
Qed.

(** An entry that names the destination itself: its parents are there, and the
    exclusive create fails. *)
Lemma stays_extract_root destination p header data :
  destination <> [] -> stays destination (extract_file disk p header data destination).
Proof.
  intros Hne fs Hd. rewrite /extract_file. destruct (copied disk _ _ _) as [content copyErr]. cbn zeta.
  rewrite {1}/mbind {1}/disk_bind /wrapping.
  assert (only_below destination fs (snd (MkdirAll disk [] (removelast destination) fs))) as Hm.
  { intros path _. destruct (MkdirAll_changes [] (removelast destination) fs path) as [?|(_ & Hnone & k & Hk & ->)]; [done|].
    exfalso. cbn in Hnone. destruct (exists_last Hne) as (names & name & ->). rewrite removelast_last in Hk, Hnone.
    assert (take k (names ++ [name]) = take k names) as Etake by (apply take_app_le; lia).
    rewrite -Etake Hd // in Hnone. rewrite length_app. lia. }
  pose proof (only_below_directories _ _ _ Hd Hm) as Hd1.
  destruct (MkdirAll disk [] (removelast destination) fs) as [[[]|e] fs1]; [|exact Hm]. cbn [snd wrap_err] in *.
  rewrite {1}/mbind {1}/disk_bind {1}/mbind {1}/disk_bind /files /answer.
  assert (fs1 !! destination = Some DirNode) as ->; [|exact Hm].
  rewrite -{1}(firstn_all destination). apply Hd1. destruct destination; [done|]. cbn. lia.
Qed.

Lemma stays_extract_entry destination entry :
  rooted destination = true -> clean_names destination <> [] ->
  stays (clean_names destination) (extract_entry disk destination entry).
Proof.
  intros Hroot Hne. destruct entry as [header data]. rewrite /extract_entry.
  destruct (safeArchivePath (hd_Name header)) as [p|e] eqn:Hp; [|by intros fs _ path].
  destruct (safeArchivePath_Ok _ _ Hp) as (s & Hs & Hnames).
  intros fs Hd. rewrite {1}/mbind /disk_bind {1}/answer. case_bool_decide; [done|]. cbn zeta.
  destruct (target_inside destination p s Hroot Hs Hnames) as (Htarget & relative & Hrel & Hr & Hpre).
  rewrite Hrel bool_decide_eq_false_2 // Hpre Htarget. cbn [orb].
  destruct (hd_Typeflag header =? TypeDir)%Z; [by apply stays_wrapping; [apply stays_MkdirAll|]|].
  destruct (is_regular header); [|done]. destruct (decide (clean_names p = [])) as [->|Hpne].
  - rewrite app_nil_r. by apply stays_extract_root.
  - by apply stays_extract_file.
Qed.

Lemma stays_extract_archive destination file :
  rooted destination = true -> clean_names destination <> [] ->
  stays (clean_names destination) (extractCompilerArtifactArchive disk file destination).
Proof.
  intros Hroot Hne. apply stays_bind; [apply stays_answer|intros archive].
  apply stays_bind; [|intros; apply stays_answer]. apply stays_each. intros entry _. by apply stays_extract_entry.
Qed.

(** ** Installation in the workspace *)

Lemma walk_below dir fs entry : entry ∈ walk dir fs -> below dir entry.1.
Proof. rewrite /walk merge_sort_Permutation list_elem_of_filter. by intros []. Qed.

Lemma stays_rename workspace source destination node :
  below workspace source -> below workspace destination -> stays workspace (rename_file disk source destination node).
Proof.
  intros Hs Hd. rewrite /rename_file. apply stays_bind; [apply stays_files|intros fs].
  apply stays_bind; [apply stays_answer|]. intros _ fs1 _ path Hp. cbn.
  rewrite lookup_insert_ne; [by intros <-|]. rewrite lookup_delete_ne //. by intros <-.
Qed.

Lemma stays_install staging workspace entry :
  workspace `prefix_of` staging -> below staging entry.1 -> stays workspace (install disk staging workspace entry).
Proof.
  intros Hws (rest & Hr & He)%below_app_names. rewrite /install He.
  rewrite drop_app_length. destruct (entry.2) as [|data mode]; [apply stays_MkdirAll|].
  rewrite removelast_app_ne //. apply stays_bind; [apply stays_MkdirAll|intros _]. apply stays_wrapping, stays_rename.
  - destruct Hws as [mid ->]. by eapply below_deeper, below_append.
  - by apply below_append.
Qed.

(** A file already installed stays: no other entry has its destination, and it
    is not in the staging directory. *)
Lemma install_keeps staging workspace name fs entry fs' rel rel' node :
  staging = workspace ++ [name] -> entry.1 = staging ++ rel' -> rel <> rel' -> head rel <> Some name ->
  install disk staging workspace entry fs = (Ok tt, fs') ->
  fs !! (workspace ++ rel) = Some node -> fs' !! (workspace ++ rel) = Some node.
Proof.
  intros Hst He Hne Hhead E Hnode. rewrite /install He drop_app_length in E. destruct (entry.2) as [|data mode].
  - replace fs' with (snd (MkdirAll disk [] (workspace ++ rel') fs)) by by rewrite E. by apply MkdirAll_keeps.
  - apply disk_bind_Ok in E as ([] & fs1 & Hm & E%wrapping_Ok). apply disk_bind_Ok in E as (fs2 & fs3 & [= <- <-] & E).
    apply check_inv in E as ([] & _ & [= <-]). rewrite lookup_insert_ne; [by intros ?%app_inv_head|].
    rewrite lookup_delete_ne.
    + rewrite Hst -app_assoc. intros ?%app_inv_head. by subst rel.
    + replace fs1 with (snd (MkdirAll disk [] (removelast (workspace ++ rel')) fs)) by by rewrite Hm. by apply MkdirAll_keeps.
Qed.

Lemma installs_contents staging workspace name entries fs fs' rel data mode :
  staging = workspace ++ [name] -> (forall entry, entry ∈ entries -> below staging entry.1) ->
  NoDup (map fst entries) -> head rel <> Some name ->
  ((staging ++ rel, FileNode data mode) ∈ entries) \/
    ((staging ++ rel ∉ map fst entries) /\ fs !! (workspace ++ rel) = Some (FileNode data mode)) ->
  each (install disk staging workspace) entries fs = (Ok tt, fs') ->
  fs' !! (workspace ++ rel) = Some (FileNode data mode).
Proof.
  intros Hst. revert fs. induction entries as [|entry entries IH]; intros fs Hall Hdup Hhead Hin.
  { intros [= <-]. by destruct Hin as [?%elem_of_nil|[_ ?]]. }
  intros ([] & fs1 & Hstep & Hrest)%disk_bind_Ok. rewrite map_cons in Hdup.
  apply NoDup_cons in Hdup as [Hnew Hdup]. apply (IH fs1) with (5 := Hrest); [intros e ?; apply Hall; by right|done|done|].
  destruct Hin as [[<-|Hin]%elem_of_cons|[Hnin Hnode]].
  - right. split; [exact Hnew|]. rewrite /install drop_app_length in Hstep. cbn [snd fst] in Hstep.
    apply disk_bind_Ok in Hstep as ([] & fs2 & _ & E%wrapping_Ok). apply disk_bind_Ok in E as (fs3 & fs4 & [= <- <-] & E).
    apply check_inv in E as ([] & _ & [= <-]). by rewrite lookup_insert_eq.
  - by left.
  - right. apply not_elem_of_cons in Hnin as [Hneq Hnin]. split; [done|].
    destruct (Hall entry) as [[rel' He] _]; [by left|].
    eapply (install_keeps staging workspace name _ _ _ rel rel'); [done|done| |done|exact Hstep|done].
    intros ->. by rewrite He in Hneq.
Qed.

Lemma walk_NoDup dir fs : NoDup (map fst (walk dir fs)).
Proof.
  assert (map fst (walk dir fs) ≡ₚ map fst (filter (fun entry => below dir entry.1) (map_to_list fs))) as ->.
  { by rewrite /walk merge_sort_Permutation. }
  eapply (sublist_NoDup _ ((map_to_list fs).*1)); [apply NoDup_fst_map_to_list|].
  apply fmap_sublist, sublist_filter.
Qed.
End Extraction.

Lemma remove_all_lookup dir (fs : FileSystem) path :
  remove_all dir fs !! path = if bool_decide (dir `prefix_of` path) then None else fs !! path.
Proof.
  rewrite /remove_all. case_bool_decide as Hp.
  - apply map_lookup_filter_None. right. intros node _ Hn. by apply Hn.
  - apply option_eq. intros node. rewrite map_lookup_filter_Some. by split; [intros []|intros ?; split].
Qed.

(** A fresh entry of the workspace is where extraction can start. *)
Lemma fresh_staged staging workspace name fs :
  rooted staging = true -> clean_names staging = clean_names workspace ++ [name] ->
  directories fs (clean_names workspace) -> staged staging (<[clean_names staging := DirNode]> fs).
Proof.
  intros Hroot Hst Hd. split; [done|by rewrite Hst; destruct (clean_names workspace)|]. intros k [Hk1 Hk2].
  destruct (decide (k = length (clean_names staging))) as [->|Hne]; [by rewrite firstn_all lookup_insert_eq|].
  assert (k <= length (clean_names workspace))%nat as Hk by (rewrite Hst length_app /= in Hne, Hk2; lia).
  rewrite lookup_insert_ne.
  - intros E%(f_equal length). rewrite length_take Hst length_app /= in E. lia.
  - rewrite Hst take_app_le //. by apply Hd.
Qed.

(** ** The theorems *)

(** C22 (bounds): an archive that validation accepts is readable to its end,
    holds at most 2048 entries and between 1 and 1024 regular files, every name
    in it is safe, no size is negative and the sizes add up to at most 64 MiB,
    so no sum of the validation overflows. *)
Theorem validated_archive file :
  validateCompilerArtifactArchive file = Ok tt ->
  exists archive, af_Open file = Ok archive /\ ar_error archive = None /\
    let headers := map fst (ar_entries archive) in
    (length headers <= 2048)%nat /\ (1 <= length (regular_sizes headers) <= 1024)%nat /\
    (0 <= sum_sizes (regular_sizes headers) <= 67108864)%Z /\
    Forall (fun size => (0 <= size)%Z) (regular_sizes headers) /\
    Forall (fun h => is_ok (safeArchivePath (hd_Name h)) = true) headers.
Proof.
  rewrite /validateCompilerArtifactArchive. intros ([regular size] & _ & E)%bind_Ok_inv.
  destruct (negb regular); [done|]. destruct (_ <? size)%Z; [done|].
  apply bind_Ok_inv in E as (archive & Hopen%wrap_err_Ok & E).
  apply bind_Ok_inv in E as (tally & Htally%validate_entries & E). exists archive. split; [done|].
  destruct (ar_error archive); [done|]. split; [done|].
  destruct (tl_files tally =? 0)%Z eqn:E0; [done|]. apply Z.eqb_neq in E0.
  destruct Htally as (He & Hf & Hb & Le & Lf & Lb & Hsafe & Hpos).
  pose proof (sum_sizes_nonneg _ Hpos).
  rewrite /maxCompilerArtifactEntries in Le. rewrite /maxCompilerArtifactFiles in Lf.
  change maxCompilerArtifactTotalBytes with 67108864%Z in Lb. split_and!; try done; lia.
Qed.

(** The import of a valid archive, before the staging directory is removed: it
    writes below the workspace only, also when it fails. *)
Lemma imported_below disk file staging workspace name fs :
  rooted staging = true -> clean_names staging = clean_names workspace ++ [name] ->
  directories fs (clean_names workspace) ->
  let dir := clean_names staging in
  let import := extractCompilerArtifactArchive disk file staging;;
    fs1 ← files; each (install disk dir (clean_names workspace)) (walk dir fs1) in
  only_below (clean_names workspace) fs (snd (import (<[dir := DirNode]> fs))).
Proof.
  intros Hroot Hst Hd. cbn zeta. set (dir := clean_names staging) in *. set (ws := clean_names workspace) in *.
  set (fs0 := <[dir := DirNode]> fs).
  assert (below ws dir) as Hbelow by (rewrite Hst; by apply below_append).
  assert (only_below ws fs fs0) as H0 by (intros path Hp; rewrite /fs0 lookup_insert_ne //; by intros <-).
  eapply only_below_trans; [exact H0|].
  assert (staged staging fs0) as [_ Hne Hdir] by by eapply fresh_staged.
  pose proof (stays_extract_archive disk staging file Hroot Hne fs0 Hdir) as Hex. fold dir in Hex.
  assert (only_below ws fs0 (snd (extractCompilerArtifactArchive disk file staging fs0))) as H1.
  { intros path Hp. apply Hex. intros Hb. apply Hp. rewrite Hst in Hb. by eapply below_deeper. }
  rewrite {1}/mbind {1}/disk_bind. destruct (extractCompilerArtifactArchive disk file staging fs0) as [[[]|e] fs1]; [|exact H1].
  eapply only_below_trans; [exact H1|]. rewrite {1}/mbind {1}/disk_bind /files.
  apply (stays_each ws); [|eapply only_below_directories; [|exact H1]; by eapply only_below_directories].
  intros entry He%walk_below. apply stays_install; [rewrite Hst; by apply prefix_app_r|done].
Qed.

(** C23 (safety, functional): importing an archive into a workspace writes
    nothing outside it, whether it succeeds or fails.  When it succeeds no trace
    of the staging directory is left and every regular entry of the archive is
    in the workspace under its own name with its first [Size] bytes and its
    permission bits.  When it fails, either the archive was refused before
    anything was written or the staging directory is removed all the same,
    unless the disk refuses that.  The staging directory is a new entry of the
    workspace, as [os.MkdirTemp] documents; an entry that guesses its name is
    the only one left out. *)
Theorem imported_artifacts disk file staging workspace name fs returned fs' :
  rooted staging = true -> clean_names staging = clean_names workspace ++ [name] ->
  directories fs (clean_names workspace) -> fs !! clean_names staging = None ->
  importCompilerArtifacts disk file (Ok staging) workspace fs = (returned, fs') ->
  only_below (clean_names workspace) fs fs' /\
  match returned with
  | Ok _ =>
      (forall path, clean_names staging `prefix_of` path -> fs' !! path = None) /\
      exists archive, af_Open file = Ok archive /\
        forall header data p, (header, data) ∈ ar_entries archive -> safeArchivePath (hd_Name header) = Ok p ->
          is_regular header = true -> p <> "." -> head (clean_names p) <> Some name ->
          fs' !! (clean_names workspace ++ clean_names p) =
            Some (FileNode (slice_to (Z.to_nat (hd_Size header)) data) (Z.land (hd_Mode header) 511))
  | Err e =>
      (validateCompilerArtifactArchive file = Err e /\ fs' = fs) \/
      (validateCompilerArtifactArchive file = Ok tt /\
       (dk_remove disk (clean_names staging) = Ok tt ->
        forall path, clean_names staging `prefix_of` path -> fs' !! path = None))
  end.
Proof.
  intros Hroot Hst Hd Hfresh E. pose proof (imported_below disk file staging workspace name fs Hroot Hst Hd) as Himport.
  cbn zeta in Himport. revert E. rewrite /importCompilerArtifacts. set (dir := clean_names staging) in *.
  set (ws := clean_names workspace) in *.
  rewrite {1}/mbind {1}/disk_bind {1}/answer.
  destruct (validateCompilerArtifactArchive file) as [[]|e]; [|intros [= <- <-]; split; [done|by left]].
  rewrite {1}/mbind {1}/disk_bind {1}/answer. cbn [wrap_err]. rewrite {1}/mbind {1}/disk_bind {1}/set_node {1}/set_files.
  fold dir. set (fs0 := <[dir := DirNode]> fs) in *. rewrite /removing.
  set (import := mbind _ (extractCompilerArtifactArchive disk file staging)) in *.
  destruct (import fs0) as [returnErr fs2] eqn:Ei. cbn [snd] in Himport.
  assert (below ws dir) as Hbelow by (rewrite Hst; by apply below_append).
  assert (only_below ws fs (remove_all dir fs2)) as Hremoved.
  { intros path Hp. rewrite remove_all_lookup bool_decide_eq_false_2; [|by apply Himport].
    intros [rest ->]. apply Hp. rewrite Hst -app_assoc. by apply below_append. }
  assert (forall path, dir `prefix_of` path -> remove_all dir fs2 !! path = None) as Hgone
    by (intros path Hp; by rewrite remove_all_lookup bool_decide_eq_true_2).
  intros [<- <-]%pair_equal_spec. split; [by destruct (is_ok _)|].
  destruct returnErr as [[]|e]; [|right; split; [done|by intros ->]].
  destruct (dk_remove disk dir) as [[]|e] eqn:Er; [|right; by split].
  split; [exact Hgone|]. subst import.
  apply disk_bind_Ok in Ei as ([] & fs1 & Hextract & Ei). apply disk_bind_Ok in Ei as (fs3 & fs4 & [= <- <-] & Hinstall).
  assert (staged staging fs0) as Hstaged by by eapply fresh_staged.
  destruct (extract_archive disk staging file fs0 fs1 Hstaged Hextract) as (archive & Hopen & _ & Hex).
  exists archive. split; [done|]. intros header data p Hin Hp Hreg Hdot Hhead.
  set (node := FileNode _ _).
  assert (fs1 !! (dir ++ clean_names p) = Some node) as Hnode.
  { apply (ex_written _ _ _ _ Hex (header, data)); [done|]. by exists p. }
  cbn [is_ok]. rewrite remove_all_lookup bool_decide_eq_false_2.
  { rewrite Hst. intros [rest Hr]. rewrite -app_assoc in Hr. apply app_inv_head in Hr. by rewrite Hr in Hhead. }
  eapply (installs_contents disk dir ws name (walk dir fs1) fs1 fs2 (clean_names p));
    [exact Hst|apply walk_below|apply walk_NoDup|done| |exact Hinstall].
  left. rewrite /walk merge_sort_Permutation list_elem_of_filter elem_of_map_to_list. split; [|done].
  apply below_append. intros Hnil. rewrite Hnil app_nil_r in Hnode.
  rewrite (ex_keeps _ _ _ _ Hex dir DirNode) // in Hnode. by rewrite /fs0 lookup_insert_eq.
Qed.

(** ** Examples *)

Definition idle_disk : Disk :=
  mkDisk (fun _ => Ok tt) (fun _ => Ok tt) (fun _ => Ok tt) (fun _ => O) (fun _ => Ok tt) (fun _ => Ok tt) (fun _ => Ok tt)
    (fun _ => Ok tt).

(** A disk that fails the second install. *)
Definition full_disk : Disk :=
  mkDisk (fun _ => Ok tt) (fun _ => Ok tt) (fun _ => Ok tt) (fun _ => O) (fun _ => Ok tt) (fun _ => Ok tt)
    (fun path => if bool_decide (path = ["tmp"; "ws"; "main"]) then Err (LibErr "no space left on device") else Ok tt)
    (fun _ => Ok tt).

Definition sample_archive : Archive :=
  mkArchive [(mkHeader "./" TypeDir 0 448, ""); (mkHeader "./lib/" TypeDir 0 493, "");
             (mkHeader "./lib/a.o" TypeReg 3 420, "abcd"); (mkHeader "main" TypeReg 2 493, "ok")] None.

Definition sample_file : ArchiveFile := mkArchiveFile (Ok (true, 10240%Z)) (Ok sample_archive).

Definition sample_files : FileSystem := {[ ["tmp"] := DirNode; ["tmp"; "ws"] := DirNode ]}.

Lemma validated_archive_witness :
  exists archive, af_Open sample_file = Ok archive /\ ar_error archive = None /\
    (length (map fst (ar_entries archive)) <= 2048)%nat.
Proof.
  destruct (validated_archive sample_file ltac:(reflexivity)) as (archive & Hopen & Herr & Hlen & _).
  by exists archive.
Defined.

Definition sample_import (disk : Disk) : result unit * FileSystem :=
  importCompilerArtifacts disk sample_file (Ok "/tmp/ws/.yexjudge-artifacts-1") "/tmp/ws" sample_files.

(** The failing import leaves what was installed, and no staging directory. *)
Example sample_imports :
  map (fun disk => let '(answer, fs) := sample_import disk in
      (is_ok answer, fs !! ["tmp"; "ws"; "lib"; "a.o"], bool_decide (fs !! ["tmp"; "ws"; "main"] = None),
       bool_decide (fs !! ["tmp"; "ws"; ".yexjudge-artifacts-1"] = None))) [idle_disk; full_disk] =
    [(true, Some (FileNode "abc" 420), false, true); (false, Some (FileNode "abc" 420), true, true)].
Proof. vm_compute. reflexivity. Qed.

Lemma imported_artifacts_witness :
  (is_ok (sample_import idle_disk).1 = true /\ only_below ["tmp"; "ws"] sample_files (sample_import idle_disk).2)
  /\ (is_ok (sample_import full_disk).1 = false /\ only_below ["tmp"; "ws"] sample_files (sample_import full_disk).2
      /\ (sample_import full_disk).2 !! ["tmp"; "ws"; ".yexjudge-artifacts-1"] = None).
Proof.
  pose proof (fun disk => imported_artifacts disk sample_file "/tmp/ws/.yexjudge-artifacts-1" "/tmp/ws"
    ".yexjudge-artifacts-1" sample_files (sample_import disk).1 (sample_import disk).2 ltac:(reflexivity) ltac:(reflexivity)) as H.
  assert (directories sample_files (clean_names "/tmp/ws")) as Hd.
  { intros k Hk. change (length (clean_names "/tmp/ws")) with 2%nat in Hk.
    assert (k = 1 \/ k = 2)%nat as [->| ->] by lia; reflexivity. }
  assert (forall disk, importCompilerArtifacts disk sample_file (Ok "/tmp/ws/.yexjudge-artifacts-1") "/tmp/ws" sample_files =
    ((sample_import disk).1, (sample_import disk).2)) as Hrun by (intros disk; apply surjective_pairing).
  destruct (H idle_disk Hd ltac:(reflexivity) (Hrun _)) as [Hidle _].
  destruct (H full_disk Hd ltac:(reflexivity) (Hrun _)) as [Hfull Hfailed].
  assert (is_ok (sample_import idle_disk).1 = true /\ is_ok (sample_import full_disk).1 = false) as [Eidle Efull]
    by (vm_compute; by split).
  split; [by split|]. split; [exact Efull|]. split; [exact Hfull|].
  destruct ((sample_import full_disk).1) as [[]|e]; [discriminate Efull|].
  destruct Hfailed as [[Hvalid _]|[_ Hgone]]; [vm_compute in Hvalid; discriminate Hvalid|].
  apply Hgone; [reflexivity|]. by exists [].
Defined.

(** A second slash after the dot hides an absolute path from the prefix test;
    extraction still places it below the destination. *)
Example safeArchivePath_absolute : safeArchivePath ".//etc/passwd" = Ok "/etc/passwd".
Proof. reflexivity. Qed.
