(* ===== verification/Service.v ===== *)
(** * The judging of one submission: internal/judge/service.go *)

From S2P Require Import Prelude GoStrings GoJson TypeSyntax Contracts Adapters Harness CppHarness CppClass.
From S2P Require Import PyHarness Languages Validate Verdict TestCases Effects Paths Workspace.

(** What the service asks of a store: the [Update] of the [SubmissionStore]
    interface, on the states [T] of the store. *)
Class SubmissionStore (T : Type) := store_Update : Submission -> T -> result T.

(** What the environment answers while one submission is judged: the operating
    system, the compile workers, the context, the sandbox pool and the
    executor.  The durations are what the clock measured. *)
Record Environment := mkEnvironment {
  en_host : Host;
  en_compile : result (option RunResult);
  en_canceled : bool;
  en_acquire : result (string * SandboxFlags);
  en_prepare : result unit;
  en_supervisor : option (result (option (list (option RunResult))));
  en_runs : nat -> CaseRun;
  en_duration : Timing -> Z }.

(** The text shown to users for every internal failure. *)
Definition internal_error : string :=
  "An internal error occurred while judging this submission. Please retry.".

Section Service.
Context `{Float64} `{UnicodeTables} `{PrintTables} {T : Type} `{SubmissionStore T}.

Definition update (sub : Submission) : eff T Action unit := fun w =>
  match store_Update sub (w_state w) with
  | Ok t => (Ok tt, mkWorld t (w_log w ++ [ActUpdate sub]))
  | Err e => (Err e, mkWorld (w_state w) (w_log w ++ [ActUpdateFailed sub]))
  end.

Definition with_status (status : SubmissionStatus) (sub : Submission) : Submission :=
  mkSubmission (sub_CreatedAt sub) (sub_ID sub) (sub_Job sub) status (sub_Result sub) (sub_StartedAt sub)
    (sub_AttemptCount sub) (sub_LeaseExpiresAt sub) (sub_FailureMessage sub).

Definition with_result (status : SubmissionStatus) (result : Result) (message : string) (sub : Submission)
    : Submission :=
  mkSubmission (sub_CreatedAt sub) (sub_ID sub) (sub_Job sub) status (Some result) (sub_StartedAt sub)
    (sub_AttemptCount sub) (sub_LeaseExpiresAt sub) message.

(** A result without a run. *)
Definition no_run (status : Status) (job : Job) (message : string) : Result :=
  mkResult status 0 (Z.of_nat (length (job_TestCases job))) 0 0 None message.

(** [submission.Status = SubmissionFinished; submission.Result = &result;
    store.Update(submission)] and the return of the result. *)
Definition finish (sub : Submission) (result : Result) : eff T Action Result :=
  update (with_result SubmissionFinished result (sub_FailureMessage sub) sub);;
  mret result.

(** The detail goes to the server's log only. *)
Definition infrastructureFailure (sub : Submission) (detail : string) : eff T Action Result :=
  let result := no_run InfrastructureError (sub_Job sub) internal_error in
  update (with_result SubmissionFailed result internal_error sub);;
  mret result.

Definition observe (env : Environment) (timing : Timing) : eff T Action unit :=
  emit (ActObserve timing (en_duration env timing)).

(** The compile stage: the result that ends the submission, if any. *)
Definition compile_stage (env : Environment) (sub : Submission) (workspace : string)
    : eff T Action (option Result) :=
  let stop (m : eff T Action Result) : eff T Action (option Result) := r ← m; mret (Some r) in
  emit (ActCompile workspace);;
  observe env CompileTiming;;
  match en_compile env with
  | Err e => stop (infrastructureFailure sub ("compile execution: " +:+ Error e))
  | Ok answer =>
      if en_canceled env then stop (infrastructureFailure sub "compile execution was canceled")
      else
        compileRes ← lift (deref answer);
        if rr_TimedOut compileRes then
          stop (infrastructureFailure sub "compile container exceeded the compiler time limit")
        else if rr_OutputLimitExceeded compileRes then
          stop (finish sub
            (no_run OutputLimitExceeded (sub_Job sub) "compiler output exceeded the allowed limit"))
        else if (rr_ExitCode compileRes =? 125)%Z then
          stop (infrastructureFailure sub "compile container failed to start")
        else if negb (rr_ExitCode compileRes =? 0)%Z then
          stop (finish sub (no_run CompilationError (sub_Job sub) (rr_Stderr compileRes)))
        else mret None
  end.

(** The stages with a sandbox. *)
Definition sandbox_stage (env : Environment) (sub : Submission) (workspace sandbox : string)
    (flags : SandboxFlags) : eff T Action Result :=
  emit (ActPrepare sandbox workspace);;
  match en_prepare env with
  | Err e =>
      observe env StagingTiming;;
      infrastructureFailure sub ("prepare sandbox: " +:+ Error e)
  | Ok _ =>
      observe env StagingTiming;;
      emit (ActRunTestCases sandbox);;
      let '(answer, _) := runTestCases (en_supervisor env) (sub_Job sub) (en_runs env) flags in
      observe env TestcaseTiming;;
      emit (ActObserve RuntimeTiming
        (wrap64 (match answer with Ok result => rs_RuntimeMs result | Err _ => 0 end * Millisecond)));;
      match answer with
      | Err e => infrastructureFailure sub ("run test cases: " +:+ Error e)
      | Ok result =>
          if bool_decide (rs_Status result = InfrastructureError) then
            infrastructureFailure sub ("test case execution: " +:+ rs_ErrorMessage result)
          else finish sub result
      end
  end.

(** From the workspace on: the workspace is removed at the end, and an acquired
    sandbox is released before it, in the background when the executor
    supervises the cases itself. *)
Definition workspace_stage (env : Environment) (sub : Submission) (spec : Spec) (workspace : string)
    : eff T Action Result :=
  defer (emit (ActRemoveAll workspace)) (
    ended ← (if sp_NeedsCompile spec then compile_stage env sub workspace else mret None);
    match ended with
    | Some result => mret result
    | None =>
        match en_acquire env with
        | Err e =>
            observe env AcquireTiming;;
            infrastructureFailure sub ("acquire sandbox: " +:+ Error e)
        | Ok (sandbox, flags) =>
            emit (ActAcquire sandbox);;
            observe env AcquireTiming;;
            defer (emit (ActRelease sandbox (negb (is_nil (en_supervisor env)))))
              (sandbox_stage env sub workspace sandbox flags)
        end
    end).

Definition ProcessSubmission (registry : gmap string Spec) (env : Environment) (sub : Submission)
    : eff T Action Result :=
  match ValidateJob (sub_Job sub) with
  | Err e => finish sub (no_run ValidationError (sub_Job sub) (Error e))
  | Ok _ =>
      match registry !! job_Language (sub_Job sub) with
      | None => finish sub (no_run ValidationError (sub_Job sub) "unsupported language")
      | Some spec =>
          let sub := with_status SubmissionRunning sub in
          update sub;;
          created ← attempt (createWorkspace (en_host env) (sub_Job sub) spec);
          match created with
          | Err e => infrastructureFailure sub ("create workspace: " +:+ Error e)
          | Ok workspace => workspace_stage env sub spec workspace
          end
      end
  end.
End Service.
