(* ===== verification/ServiceLaws.v ===== *)
(** * Laws of the service: what one submission leaves behind *)

From S2P Require Import Prelude GoStrings GoJson TypeSyntax Contracts Adapters Harness CppHarness CppClass.
From S2P Require Import PyHarness Languages Validate Verdict TestCases Effects Paths Workspace Service.

(** ** Resources *)

Definition opens (a : Action) : option (string + string) :=
  match a with
  | ActMkdirTemp path => Some (inl path)
  | ActAcquire sandbox => Some (inr sandbox)
  | _ => None
  end.

Definition closes (a : Action) : option (string + string) :=
  match a with
  | ActRemoveAll path => Some (inl path)
  | ActRelease sandbox _ => Some (inr sandbox)
  | _ => None
  end.

(** The updates the store accepted, in order. *)
Definition updates (log : list Action) : list Submission :=
  omap (fun a => match a with ActUpdate sub => Some sub | _ => None end) log.

Lemma updates_app l1 l2 : updates (l1 ++ l2) = updates l1 ++ updates l2.
Proof. apply omap_app. Qed.

Section Laws.
Context `{Float64} `{UnicodeTables} `{PrintTables} {T : Type} `{SubmissionStore T}.

(** Running the accepted updates on a store. *)
Definition replay (subs : list Submission) (t : T) : result T :=
  foldM (fun _ t sub => store_Update sub t) t subs.

Lemma replay_app l1 l2 t t1 : replay l1 t = Ok t1 -> replay (l1 ++ l2) t = replay l2 t1.
Proof.
  rewrite /replay. assert (forall i j t, foldM_from i (fun _ t sub => store_Update sub t) t l2 =
    foldM_from j (fun _ t sub => store_Update sub t) t l2) as Hany.
  { clear. intros i j t. revert i j t. induction l2 as [|x l2 IH]; intros i j t; [done|]. cbn.
    by destruct (store_Update x t); [apply IH|]. }
  intros Hl. assert (forall i, foldM_from i (fun _ t sub => store_Update sub t) t l1 = Ok t1 ->
    foldM_from i (fun _ t sub => store_Update sub t) t (l1 ++ l2) = foldM (fun _ t sub => store_Update sub t) t1 l2) as Hgen.
  { clear Hl. revert t. induction l1 as [|x l1 IH]; intros t i.
    - intros [= ->]. apply Hany.
    - cbn. destruct (store_Update x t) as [t2|]; [|done]. apply IH. }
  by apply Hgen.
Qed.

(** [yields pre m epost post P bad]: starting with [pre] held, [m] ends with
    [post a] held and [P a] of the updates the store accepted when it returns
    [a], and with [epost] held when it fails; the store is what those updates
    make of it, and a failure either satisfies [panics] or is a refused update,
    with [bad] of the accepted updates and the refused one. *)
Context (panics : goerr -> Prop).

Definition yields {A} (pre : list (string + string)) (m : eff T Action A) (epost : list (string + string))
    (post : A -> list (string + string)) (P : A -> list Submission -> Prop) (bad : list Submission -> Prop) : Prop :=
  forall w, exists es, w_log (snd (m w)) = w_log w ++ es /\
    replay (updates es) (w_state w) = Ok (w_state (snd (m w))) /\
    match fst (m w) with
    | Ok a => (forall held, held_after opens closes (pre ++ held) es = Some (post a ++ held)) /\ P a (updates es)
    | Err e =>
        (forall held, held_after opens closes (pre ++ held) es = Some (epost ++ held)) /\
        (panics e \/ exists sub, store_Update sub (w_state (snd (m w))) = Err e /\ bad (updates es ++ [sub]))
    end.

Lemma yields_weaken {A} pre (m : eff T Action A) epost post (P Q : A -> list Submission -> Prop) (bad bad' : list Submission -> Prop) :
  yields pre m epost post P bad -> (forall a us, P a us -> Q a us) -> (forall us, bad us -> bad' us) ->
  yields pre m epost post Q bad'.
Proof.
  intros Hm HPQ Hbad w. destruct (Hm w) as (es & Hl & Hr & Hres). exists es. split_and!; [done..|].
  destruct (fst (m w)); destruct Hres as [Hh HP]; (split; [done|]); [by apply HPQ|].
  destruct HP as [?|(sub & Hs & Hb)]; [by left|]. right. exists sub. auto.
Qed.

Lemma yields_ret {A} pre (a : A) epost bad :
  yields pre (mret a) epost (fun _ => pre) (fun b us => b = a /\ us = []) bad.
Proof. intros w. exists []. by rewrite app_nil_r. Qed.

Lemma yields_lift {A} pre (r : result A) bad :
  (forall e, r = Err e -> panics e) ->
  yields pre (lift r) pre (fun _ => pre) (fun a us => r = Ok a /\ us = []) bad.
Proof.
  intros Hp w. exists []. rewrite app_nil_r. split_and!; [done..|]. destruct r; [done|]. split; [done|]. left. by apply Hp.
Qed.

Lemma yields_emit pre a epost bad :
  opens a = None -> closes a = None -> updates [a] = [] ->
  yields pre (emit a) epost (fun _ => pre) (fun _ us => us = []) bad.
Proof.
  intros Ho Hc Hu w. exists [a]. split_and!; [done|by rewrite Hu|]. cbn [fst emit held_after]. by rewrite Ho Hc.
Qed.

Lemma yields_open pre a x epost bad :
  opens a = Some x -> updates [a] = [] ->
  yields pre (emit a) epost (fun _ => x :: pre) (fun _ us => us = []) bad.
Proof. intros Ho Hu w. exists [a]. split_and!; [done|by rewrite Hu|]. cbn [fst emit held_after]. by rewrite Ho. Qed.

Lemma yields_update pre sub :
  yields pre (update sub) pre (fun _ => pre) (fun _ us => us = [sub]) (fun us => us = [sub]).
Proof.
  intros w. rewrite /update. destruct (store_Update sub (w_state w)) as [t|e] eqn:E.
  - exists [ActUpdate sub]. split_and!; [done| |done].
    change (store_Update sub (w_state w) ≫= (fun t => Ok t) = Ok t). by rewrite E.
  - exists [ActUpdateFailed sub]. split_and!; [done..|]. split; [done|]. right. by exists sub.
Qed.

Lemma yields_bind {A B} pre (m : eff T Action A) (f : A -> eff T Action B) mid epost post P Q (bad' bad : list Submission -> Prop) :
  yields pre m epost mid P bad' -> (forall us, bad' us -> bad us) ->
  (forall a us1, P a us1 ->
    yields (mid a) (f a) epost post (fun b us2 => Q b (us1 ++ us2)) (fun us2 => bad (us1 ++ us2))) ->
  yields pre (m ≫= f) epost post Q bad.
Proof.
  intros Hm Hbad Hf w. destruct (Hm w) as (es1 & Hl1 & Hr1 & Hres1). rewrite /mbind /eff_bind.
  destruct (m w) as [[a|e] w1]; cbn [fst snd] in *.
  2:{ exists es1. split_and!; [done..|apply Hres1|]. destruct Hres1 as [_ [?|(sub & Hs & Hb)]]; [by left|right].
      exists sub. auto. }
  destruct Hres1 as [Hh1 HP]. destruct (Hf a _ HP w1) as (es2 & Hl2 & Hr2 & Hres2). exists (es1 ++ es2).
  split_and!; [by rewrite Hl2 Hl1 app_assoc|by rewrite updates_app (replay_app _ _ _ _ Hr1)|].
  destruct (fst (f a w1)); destruct Hres2 as [Hh2 HQ]; (split; [intros held; by rewrite held_after_app Hh1 Hh2|]).
  - by rewrite updates_app.
  - destruct HQ as [?|(sub & Hs & Hb)]; [by left|right]. exists sub. by rewrite updates_app -app_assoc.
Qed.

(** The usual case: an action that acquires nothing and updates nothing. *)
Lemma yields_step {A} pre a (m : eff T Action A) epost post P bad :
  opens a = None -> closes a = None -> updates [a] = [] ->
  yields pre m epost post P bad -> yields pre (emit a;; m) epost post P bad.
Proof.
  intros Ho Hc Hu Hm. eapply yields_bind; [by apply (yields_emit _ _ _ bad)|done|]. by intros [] us ->.
Qed.

Lemma yields_defer {A} pre x a (m : eff T Action A) P bad :
  opens a = None -> closes a = Some x -> updates [a] = [] ->
  yields (x :: pre) m (x :: pre) (fun _ => x :: pre) P bad ->
  yields (x :: pre) (defer (emit a) m) pre (fun _ => pre) P bad.
Proof.
  intros Ho Hc Hu Hm w. destruct (Hm w) as (es & Hl & Hr & Hres). exists (es ++ [a]). rewrite /defer.
  destruct (m w) as [r w1]; cbn [fst snd emit w_log w_state] in *.
  rewrite updates_app Hu app_nil_r Hl. split_and!; [by rewrite app_assoc|done|].
  destruct r; destruct Hres as [Hh HP]; split; try done; intros held;
    by rewrite held_after_app Hh /= Ho Hc bool_decide_eq_true_2.
Qed.

(** ** How a submission ends

    [fault] lists what the environment can answer so that the submission fails;
    [ending] the ways it ends otherwise. *)

Definition creation (host : Host) (job : Job) (spec : Spec) : result string :=
  fst (createWorkspace (T := unit) host job spec (mkWorld tt [])).

Definition compiled (env : Environment) (spec : Spec) (run : RunResult) : Prop :=
  sp_NeedsCompile spec = true /\ en_compile env = Ok (Some run) /\ en_canceled env = false /\ rr_TimedOut run = false.

Definition program_ready (env : Environment) (job : Job) (spec : Spec) : Prop :=
  is_ok (creation (en_host env) job spec) = true /\
  (sp_NeedsCompile spec = false \/
   exists run, compiled env spec run /\ rr_OutputLimitExceeded run = false /\ rr_ExitCode run = 0%Z).

Definition run_answer (env : Environment) (job : Job) (flags : SandboxFlags) : result Result :=
  fst (runTestCases (en_supervisor env) job (en_runs env) flags).

Inductive fault (env : Environment) (job : Job) (spec : Spec) : Prop :=
  | fault_workspace e : creation (en_host env) job spec = Err e -> fault env job spec
  | fault_compiler ws e :
      creation (en_host env) job spec = Ok ws -> sp_NeedsCompile spec = true ->
      en_compile env = Err e -> fault env job spec
  | fault_canceled ws answer :
      creation (en_host env) job spec = Ok ws -> sp_NeedsCompile spec = true ->
      en_compile env = Ok answer -> en_canceled env = true -> fault env job spec
  | fault_compile_time ws run :
      creation (en_host env) job spec = Ok ws -> sp_NeedsCompile spec = true ->
      en_compile env = Ok (Some run) -> en_canceled env = false -> rr_TimedOut run = true -> fault env job spec
  | fault_container ws run :
      creation (en_host env) job spec = Ok ws -> compiled env spec run ->
      rr_OutputLimitExceeded run = false -> rr_ExitCode run = 125%Z -> fault env job spec
  | fault_sandbox e : program_ready env job spec -> en_acquire env = Err e -> fault env job spec
  | fault_staging sandbox e :
      program_ready env job spec -> en_acquire env = Ok sandbox -> en_prepare env = Err e -> fault env job spec
  | fault_run name flags e :
      program_ready env job spec -> en_acquire env = Ok (name, flags) -> en_prepare env = Ok tt ->
      run_answer env job flags = Err e -> fault env job spec
  | fault_verdict name flags result :
      program_ready env job spec -> en_acquire env = Ok (name, flags) -> en_prepare env = Ok tt ->
      run_answer env job flags = Ok result -> rs_Status result = InfrastructureError -> fault env job spec.

Inductive runnable_ending (env : Environment) (job : Job) (spec : Spec) : SubmissionStatus -> Result -> Prop :=
  | end_fault :
      fault env job spec ->
      runnable_ending env job spec SubmissionFailed (no_run InfrastructureError job internal_error)
  | end_compiler_output ws run :
      creation (en_host env) job spec = Ok ws -> compiled env spec run -> rr_OutputLimitExceeded run = true ->
      runnable_ending env job spec SubmissionFinished
        (no_run OutputLimitExceeded job "compiler output exceeded the allowed limit")
  | end_compilation ws run :
      creation (en_host env) job spec = Ok ws -> compiled env spec run -> rr_OutputLimitExceeded run = false ->
      rr_ExitCode run <> 0%Z -> rr_ExitCode run <> 125%Z ->
      runnable_ending env job spec SubmissionFinished (no_run CompilationError job (rr_Stderr run))
  | end_verdict name flags result :
      program_ready env job spec -> en_acquire env = Ok (name, flags) -> en_prepare env = Ok tt ->
      run_answer env job flags = Ok result -> rs_Status result <> InfrastructureError ->
      runnable_ending env job spec SubmissionFinished result.

Inductive ending (registry : gmap string Spec) (env : Environment) (job : Job) : SubmissionStatus -> Result -> Prop :=
  | end_invalid e :
      ValidateJob job = Err e ->
      ending registry env job SubmissionFinished (no_run ValidationError job (Error e))
  | end_unsupported :
      ValidateJob job = Ok tt -> registry !! job_Language job = None ->
      ending registry env job SubmissionFinished (no_run ValidationError job "unsupported language")
  | end_runnable spec status result :
      ValidateJob job = Ok tt -> registry !! job_Language job = Some spec ->
      runnable_ending env job spec status result -> ending registry env job status result.

(** ** The stages *)

(** The update that records an ending. *)
Definition final (sub : Submission) (status : SubmissionStatus) (result : Result) : Submission :=
  match status with
  | SubmissionFailed => with_result SubmissionFailed result internal_error sub
  | _ => with_result SubmissionFinished result (sub_FailureMessage sub) sub
  end.

Definition ended_by (E : SubmissionStatus -> Result -> Prop) (sub : Submission) (us : list Submission) : Prop :=
  exists status result, E status result /\ us = [final sub status result].

(** [m] ends the submission in one of the ways [E], with one update. *)
Definition concludes (pre : list (string + string)) (sub : Submission) (m : eff T Action Result)
    (E : SubmissionStatus -> Result -> Prop) : Prop :=
  yields pre m pre (fun _ => pre) (fun result us => exists status, E status result /\ us = [final sub status result])
    (ended_by E sub).

Lemma concludes_finish pre sub result (E : SubmissionStatus -> Result -> Prop) :
  E SubmissionFinished result -> concludes pre sub (finish sub result) E.
Proof.
  intros HE. eapply yields_bind; [apply yields_update|intros us ->; by eexists SubmissionFinished, _|]. intros [] us ->.
  eapply (yields_weaken _ _ _ _ _ _ (fun _ => False)); [apply yields_ret| |done].
  intros r us [-> ->]. by exists SubmissionFinished.
Qed.

Lemma concludes_failure pre sub detail (E : SubmissionStatus -> Result -> Prop) :
  E SubmissionFailed (no_run InfrastructureError (sub_Job sub) internal_error) ->
  concludes pre sub (infrastructureFailure sub detail) E.
Proof.
  intros HE. eapply yields_bind; [apply yields_update|intros us ->; by eexists SubmissionFailed, _|]. intros [] us ->.
  eapply (yields_weaken _ _ _ _ _ _ (fun _ => False)); [apply yields_ret| |done].
  intros r us [-> ->]. by exists SubmissionFailed.
Qed.

Lemma concludes_step pre sub a m E :
  opens a = None -> closes a = None -> updates [a] = [] ->
  concludes pre sub m E -> concludes pre sub (emit a;; m) E.
Proof. apply yields_step. Qed.

(** The compile stage either ends the submission or lets it go on. *)
Definition compile_post (env : Environment) (sub : Submission) (spec : Spec) (ended : option Result)
    (us : list Submission) : Prop :=
  match ended with
  | Some result => exists status, runnable_ending env (sub_Job sub) spec status result /\ us = [final sub status result]
  | None => program_ready env (sub_Job sub) spec /\ us = []
  end.

Lemma compile_stop pre env sub spec (m : eff T Action Result) :
  concludes pre sub m (runnable_ending env (sub_Job sub) spec) ->
  yields pre (r ← m; mret (Some r)) pre (fun _ => pre) (compile_post env sub spec)
    (ended_by (runnable_ending env (sub_Job sub) spec) sub).
Proof.
  intros Hm. eapply yields_bind; [exact Hm|done|]. intros r us (status & HE & ->).
  eapply yields_weaken; [apply (yields_ret _ _ _ (fun _ => False))| |done].
  intros ended us [-> ->]. by exists status.
Qed.

Lemma compile_stage_yields pre env sub spec ws :
  (en_compile env = Ok None -> panics nil_panic) ->
  creation (en_host env) (sub_Job sub) spec = Ok ws -> sp_NeedsCompile spec = true ->
  yields pre (compile_stage env sub ws) pre (fun _ => pre) (compile_post env sub spec)
    (ended_by (runnable_ending env (sub_Job sub) spec) sub).
Proof.
  intros Hpanic Hws Hneed. apply yields_step; [done..|]. apply yields_step; [done..|].
  destruct (en_compile env) as [answer|e] eqn:Ec.
  2:{ apply compile_stop, concludes_failure, end_fault. by eapply fault_compiler. }
  destruct (en_canceled env) eqn:Ecancel.
  { apply compile_stop, concludes_failure, end_fault. by eapply fault_canceled. }
  destruct answer as [run|].
  2:{ eapply yields_bind; [apply (yields_lift _ _ (fun _ => False))|done|by intros run us [? _]].
      intros e [= <-]. by apply Hpanic. }
  eapply yields_bind; [by apply (yields_lift _ _ (fun _ => False))|done|]. intros run' us [[= <-] ->]. cbn [app].
  destruct (rr_TimedOut run) eqn:Et.
  { apply compile_stop, concludes_failure, end_fault. by eapply fault_compile_time. }
  assert (compiled env spec run) as Hrun by done.
  destruct (rr_OutputLimitExceeded run) eqn:Eo.
  { eapply compile_stop, concludes_finish, end_compiler_output; done. }
  destruct (Z.eqb_spec (rr_ExitCode run) 125).
  { apply compile_stop, concludes_failure, end_fault. by eapply fault_container. }
  destruct (Z.eqb_spec (rr_ExitCode run) 0).
  - eapply yields_weaken; [apply (yields_ret _ _ _ (fun _ => False))| |done]. intros ended us [-> ->].
    split; [|done]. split; [by rewrite Hws|]. right. by exists run.
  - eapply compile_stop, concludes_finish, end_compilation; done.
Qed.

Lemma sandbox_stage_concludes pre env sub spec ws name flags :
  program_ready env (sub_Job sub) spec -> en_acquire env = Ok (name, flags) ->
  concludes pre sub (sandbox_stage env sub ws name flags) (runnable_ending env (sub_Job sub) spec).
Proof.
  intros Hready Hacq. apply concludes_step; [done..|]. destruct (en_prepare env) as [[]|e] eqn:Ep.
  2:{ apply concludes_step; [done..|]. apply concludes_failure, end_fault. by eapply fault_staging. }
  apply concludes_step; [done..|]. apply concludes_step; [done..|].
  destruct (runTestCases _ _ _ _) as [answer flags'] eqn:Erun.
  assert (run_answer env (sub_Job sub) flags = answer) as Hans by by rewrite /run_answer Erun.
  apply concludes_step; [done..|]. apply concludes_step; [done..|]. destruct answer as [result|e].
  - case_bool_decide.
    + apply concludes_failure, end_fault. by eapply fault_verdict.
    + apply concludes_finish. by eapply end_verdict.
  - apply concludes_failure, end_fault. by eapply fault_run.
Qed.

Lemma workspace_stage_concludes pre env sub spec ws :
  (en_compile env = Ok None -> panics nil_panic) -> creation (en_host env) (sub_Job sub) spec = Ok ws ->
  yields (inl ws :: pre) (workspace_stage env sub spec ws) pre (fun _ => pre)
    (fun result us => exists status, runnable_ending env (sub_Job sub) spec status result /\
       us = [final sub status result]) (ended_by (runnable_ending env (sub_Job sub) spec) sub).
Proof.
  intros Hpanic Hws. eapply yields_defer; [done..|].
  eapply (yields_bind _ _ _ (fun _ => inl ws :: pre) _ _ (compile_post env sub spec) _
    (ended_by (runnable_ending env (sub_Job sub) spec) sub)); [|done|].
  { destruct (sp_NeedsCompile spec) eqn:Hneed; [by apply compile_stage_yields|].
    eapply yields_weaken; [apply (yields_ret _ _ _ (fun _ => False))| |done]. intros ended us [-> ->].
    split; [|done]. split; [by rewrite Hws|by left]. }
  intros [result|] us; cbn [compile_post].
  { intros (status & HE & ->). eapply yields_weaken; [apply (yields_ret _ _ _ (fun _ => False))| |done].
    intros r us [-> ->]. by exists status. }
  intros [Hready ->]. cbn [app]. destruct (en_acquire env) as [[name flags]|e] eqn:Eacq.
  - eapply (yields_bind _ _ _ (fun _ => inr name :: inl ws :: pre)); [by apply (yields_open _ _ _ _ (fun _ => False))|done|].
    intros [] us ->.
    apply yields_step; [done..|]. eapply yields_defer; [done..|]. by eapply sandbox_stage_concludes.
  - apply yields_step; [done..|]. apply (concludes_failure (inl ws :: pre)), end_fault. by eapply fault_sandbox.
Qed.
End Laws.

Section Process.
Context `{Float64} `{UnicodeTables} `{PrintTables} {T : Type} `{SubmissionStore T}.

(** Creating the workspace does not depend on the world; it is open when it was
    created and removed again when it could not be filled. *)
Lemma createWorkspace_runs host job spec (w : World T Action) :
  exists es, createWorkspace host job spec w = (creation host job spec, mkWorld (w_state w) (w_log w ++ es)) /\
    updates es = [] /\
    forall held, held_after opens closes held es =
      Some (match creation host job spec with Ok ws => inl ws :: held | Err _ => held end).
Proof.
  destruct w as [t log]. rewrite /creation /createWorkspace /lift /emit /on_failure /mbind /eff_bind /mret /eff_ret.
  destruct (hs_MkdirTemp host) as [ws|e]; cbn [w_state w_log fst]; [|by exists []; rewrite app_nil_r].
  destruct (workspace_source job spec) as [source|e]; cbn [w_state w_log fst snd].
  2:{ eexists [_; _]. rewrite -app_assoc. split_and!; [done..|]. intros held. cbn. by rewrite bool_decide_eq_true_2. }
  destruct (hs_WriteFile host) as [[]|e]; cbn [w_state w_log fst snd].
  2:{ eexists [_; _; _]. rewrite -!app_assoc. split_and!; [done..|]. intros held. cbn. by rewrite bool_decide_eq_true_2. }
  destruct (rootfulRuntime _ _); cbn [w_state w_log fst snd].
  2:{ eexists [_; _]. rewrite -!app_assoc. by split_and!. }
  destruct (hs_Chown host) as [[]|e]; cbn [w_state w_log fst snd].
  2:{ eexists [_; _; _; _]. rewrite -!app_assoc. split_and!; [done..|]. intros held. cbn. by rewrite bool_decide_eq_true_2. }
  destruct (hs_Chmod host) as [[]|e]; cbn [w_state w_log fst snd].
  2:{ eexists [_; _; _; _; _]. rewrite -!app_assoc. split_and!; [done..|]. intros held. cbn. by rewrite bool_decide_eq_true_2. }
  eexists [_; _; _; _]. rewrite -!app_assoc. by split_and!.
Qed.

(** What a submission's processing leaves, however it ends. *)
Definition processed (registry : gmap string Spec) (env : Environment) (sub : Submission) (result : Result)
    (us : list Submission) : Prop :=
  exists status, ending registry env (sub_Job sub) status result /\
    us = (if is_ok (ValidateJob (sub_Job sub)) && negb (is_nil (registry !! job_Language (sub_Job sub)))
          then [with_status SubmissionRunning sub] else []) ++
         [final sub status result].

Definition attempted (registry : gmap string Spec) (env : Environment) (sub : Submission) (us : list Submission) : Prop :=
  us = [with_status SubmissionRunning sub] \/
  exists status result, ending registry env (sub_Job sub) status result /\
    (us = [final sub status result] \/ us = [with_status SubmissionRunning sub; final sub status result]).

Lemma ProcessSubmission_yields registry env sub :
  yields (fun e => e = nil_panic /\ en_compile env = Ok None) [] (ProcessSubmission registry env sub) [] (fun _ => [])
    (processed registry env sub) (attempted registry env sub).
Proof.
  rewrite /ProcessSubmission /processed. destruct (ValidateJob (sub_Job sub)) as [[]|e] eqn:Hv.
  2:{ eapply yields_weaken; [eapply (concludes_finish _ [] sub _ (ending registry env (sub_Job sub)))|done|].
      - by apply end_invalid.
      - intros us (status & result & HE & ->). right. exists status, result. split; [done|by left]. }
  destruct (registry !! _) as [spec|] eqn:Hspec.
  2:{ eapply yields_weaken; [eapply (concludes_finish _ [] sub _ (ending registry env (sub_Job sub)))|done|].
      - by apply end_unsupported.
      - intros us (status & result & HE & ->). right. exists status, result. split; [done|by left]. }
  set (running := with_status SubmissionRunning sub).
  eapply yields_bind; [apply yields_update|intros us ->; by left|]. intros [] us ->.
  eapply (yields_weaken _ _ _ _ _ (fun result us => exists status,
    runnable_ending env (sub_Job running) spec status result /\ us = [final running status result]) _
    (ended_by (runnable_ending env (sub_Job running) spec) running)).
  3:{ intros us (status & result & HE & ->). right. exists status, result.
      split; [exact (end_runnable registry env (sub_Job sub) spec status result Hv Hspec HE)|right]. by destruct status. }
  2:{ intros result us (status & HE & ->). exists status. split; [exact (end_runnable registry env (sub_Job sub) spec status result Hv Hspec HE)|by destruct status]. }
  intros w. destruct (createWorkspace_runs (en_host env) (sub_Job running) spec w) as (es1 & Hc & Hu & Hheld).
  rewrite /mbind /eff_bind /attempt Hc. clear Hc. destruct (creation _ _ _) as [ws|e] eqn:Hws.
  - destruct (workspace_stage_concludes (fun e => e = nil_panic /\ en_compile env = Ok None) [] env running spec ws
      ltac:(done) Hws (mkWorld (w_state w) (w_log w ++ es1))) as (es2 & Hl & Hr & Hres).
    exists (es1 ++ es2). cbn [w_state w_log] in *. rewrite updates_app Hu app_assoc. split_and!; [done..|].
    destruct (fst _); destruct Hres as [Hh HP]; (split; [intros held; rewrite held_after_app Hheld; apply Hh|done]).
  - destruct (concludes_failure (fun e => e = nil_panic /\ en_compile env = Ok None) [] running
      ("create workspace: " +:+ Error e) (runnable_ending env (sub_Job running) spec)
      (end_fault _ _ _ (fault_workspace _ _ _ e Hws)) (mkWorld (w_state w) (w_log w ++ es1))) as (es2 & Hl & Hr & Hres).
    exists (es1 ++ es2). cbn [w_state w_log] in *. rewrite updates_app Hu app_assoc. split_and!; [done..|].
    destruct (fst _); destruct Hres as [Hh HP]; (split; [intros held; rewrite held_after_app Hheld; apply Hh|done]).
Qed.

(** A faulty environment leaves no other ending than the failure. *)
Lemma fault_ending env job spec status result :
  fault env job spec -> runnable_ending env job spec status result ->
  status = SubmissionFailed /\ result = no_run InfrastructureError job internal_error.
Proof.
  intros Hf He. destruct He as [|ws run Hc (Hn & Hr & Hcan & Ht) Ho|ws run Hc (Hn & Hr & Hcan & Ht) Ho E1 E2
    |name flags res Hready Ha Hp Hrun Hs]; [done|exfalso..].
  all: unfold compiled, program_ready in *; destruct Hf; unfold compiled, program_ready in *;
    repeat match goal with
    | E : _ /\ _ |- _ => destruct E
    | E : _ \/ _ |- _ => destruct E
    | E : exists _, _ |- _ => destruct E
    | E : compiled _ _ _ |- _ => destruct E
    | E : creation ?h ?j ?s = _, F : is_ok (creation ?h ?j ?s) = true |- _ => rewrite E in F
    end; try congruence; try discriminate.
Qed.

(** ** The theorems *)

(** C24 (refinement): processing a submission is one of the endings: the store
    takes exactly the update to running, unless the job is rejected first, and
    then the update that records the result returned; the store differs by
    these updates only.  An error is returned only when the store refuses an
    update, or when the compile workers hand over neither a result nor an
    error. *)
Theorem service_refines_endings registry env sub (w : World T Action) :
  exists es, w_log (snd (ProcessSubmission registry env sub w)) = w_log w ++ es /\
    replay (updates es) (w_state w) = Ok (w_state (snd (ProcessSubmission registry env sub w))) /\
    match fst (ProcessSubmission registry env sub w) with
    | Ok result => processed registry env sub result (updates es)
    | Err e =>
        e = nil_panic /\ en_compile env = Ok None \/
        exists refused, store_Update refused (w_state (snd (ProcessSubmission registry env sub w))) = Err e /\
          attempted registry env sub (updates es ++ [refused])
    end.
Proof.
  destruct (ProcessSubmission_yields registry env sub w) as (es & Hl & Hr & Hres). exists es. split_and!; [done..|].
  by destruct (fst _); destruct Hres as [_ Hres].
Qed.

(** C25 (error): a job that can be judged ends as an infrastructure error
    exactly when the environment is at fault, at whichever stage; the user then
    sees one fixed text, whatever the internal error says. *)
Theorem faults_are_opaque registry env sub spec (w : World T Action) result :
  ValidateJob (sub_Job sub) = Ok tt -> registry !! job_Language (sub_Job sub) = Some spec ->
  fst (ProcessSubmission registry env sub w) = Ok result ->
  (fault env (sub_Job sub) spec <-> rs_Status result = InfrastructureError) /\
  (fault env (sub_Job sub) spec ->
     result = no_run InfrastructureError (sub_Job sub) internal_error /\
     exists before, updates (w_log (snd (ProcessSubmission registry env sub w))) =
       before ++ [with_result SubmissionFailed result internal_error sub]).
Proof.
  intros Hv Hspec Hok. destruct (ProcessSubmission_yields registry env sub w) as (es & Hl & _ & Hres).
  rewrite Hok in Hres. destruct Hres as (_ & status & Hend & Hus).
  assert (runnable_ending env (sub_Job sub) spec status result) as He.
  { destruct Hend as [e He|He Hn|spec' status result He Hs Hrun]; [by rewrite Hv in He|by rewrite Hspec in Hn|].
    rewrite Hspec in Hs. by injection Hs as <-. }
  split.
  - split; [intros Hf; by destruct (fault_ending _ _ _ _ _ Hf He) as [_ ->]|]. by destruct He.
  - intros Hf. destruct (fault_ending _ _ _ _ _ Hf He) as [-> ->]. split; [done|].
    rewrite Hl updates_app Hus Hv Hspec app_assoc. by eexists.
Qed.

(** C26 (safety): however a submission ends, even when the store refuses an
    update or the compile workers misbehave, its workspace is removed and its
    sandbox given back, the sandbox first. *)
Theorem service_releases registry env sub (w : World T Action) :
  exists es, w_log (snd (ProcessSubmission registry env sub w)) = w_log w ++ es /\
    forall held, held_after opens closes held es = Some held.
Proof.
  destruct (ProcessSubmission_yields registry env sub w) as (es & Hl & _ & Hres). exists es. split; [done|].
  by destruct (fst _); destruct Hres as [Hh _].
Qed.
End Process.
