(* ===== verification/Worker.v ===== *)
(** * A worker's turn: cmd/server/main.go over the Postgres store

    [ProcessSubmission] is given the store it runs on in production: updates of
    the submissions table, between which other workers, the lease renewal and
    the recovery change the table too. *)

From S2P Require Import Prelude GoStrings GoJson TypeSyntax Contracts Queries Store Adapters Harness CppHarness.
From S2P Require Import CppClass PyHarness Languages Validate Verdict TestCases Observations Admission Generation.
From S2P Require Import Judging Effects Paths Workspace Service ServiceLaws.

(** The clock at the service's [n]-th update and what the other clients of the
    database did before it. *)
Record Database := mkDatabase {
  db_clock : nat -> Z;
  db_others : nat -> table -> table }.

Section Worker.
Context `{Float64} `{UnicodeTables} `{PrintTables} `{ColumnCodec}.
Context (db : Database).

(** The [Update] of the Postgres store, on the table and the number of updates
    made. *)
#[export] Instance pg_store : SubmissionStore (table * nat) := fun sub state =>
  let '(t, n) := state in
  t ← UpdateContext (db_clock db n) sub (db_others db n t);
  Ok (t, S n).

(** [PostgresSubmissionStore.Get] drops the error. *)
Definition store_Get (id : string) (t : table) : option Submission :=
  match GetContext id t with Ok found => found | Err _ => None end.

(** What the loop of [startWorker] does with one claim: [None] when it goes on
    to the next one without processing. *)
Definition worker_turn (registry : gmap string Spec) (env : Environment) (claim : SubmissionClaim)
    : eff (table * nat) Action (option (result Result)) := fun w =>
  match store_Get (clm_ID claim) (w_state w).1 with
  | None => (Ok None, w)
  | Some submission =>
      if negb (sub_AttemptCount submission =? clm_Attempt claim)%Z then (Ok None, w)
      else if negb (bool_decide (sub_Status submission = SubmissionQueued)) &&
              negb (bool_decide (sub_Status submission = SubmissionRunning)) then (Ok None, w)
      else
        ((if is_nil (sub_CreatedAt submission) then mret tt else observe env QueueWaitTiming);;
         emit ActWorkerStarted;;
         processed ← attempt (ProcessSubmission registry env submission);
         emit ActWorkerFinished;;
         mret (Some processed)) w
  end.

(** ** A claim that is kept is settled *)

(** Attempt [a] of the submission is running, under a lease that lasts beyond
    [time]. *)
Definition held (id : string) (a time : Z) (t : table) : Prop :=
  exists r l, t !! id = Some r /\ r_status r = SubmissionRunning /\ r_attempt_count r = a /\
    r_lease_expires_at r = Some l /\ (time < l)%Z.

(** The lease is renewed in time: before the [n]-th update it lasts beyond
    [until n], and what happens to the table until that update makes it last
    beyond [until (S n)], which the update's clock does not pass. *)
Definition renewed (id : string) (a : Z) (until : nat -> Z) : Prop :=
  forall n, (db_clock db n <= until (S n))%Z /\
    forall t, held id a (until n) t -> held id a (until (S n)) (db_others db n t).

(** The same, and the row holds no result yet. *)
Definition unsettled (id : string) (a time : Z) (t : table) : Prop :=
  exists r l, t !! id = Some r /\ r_status r = SubmissionRunning /\ r_attempt_count r = a /\
    r_lease_expires_at r = Some l /\ (time < l)%Z /\ default "" (r_result r) = "".

Lemma unsettled_held id a time t : unsettled id a time t -> held id a time t.
Proof. intros (r & l & ? & ? & ? & ? & ? & _). by exists r, l. Qed.

(** An update of the claim's own attempt is accepted. *)
Lemma update_accepted sub a until t n :
  renewed (sub_ID sub) a until -> held (sub_ID sub) a (until n) t -> wrap32 (sub_AttemptCount sub) = a ->
  is_ok (marshalResult (sub_Result sub)) = true ->
  exists t' r res, store_Update sub (t, n) = Ok (t', S n) /\ marshalResult (sub_Result sub) = Ok res /\
    t' !! sub_ID sub = Some r /\ r_status r = sub_Status sub /\ r_attempt_count r = a /\ r_result r = res /\
    r_failure_message r = nullableText (sub_FailureMessage sub) /\
    (sub_Status sub = SubmissionFinished \/ sub_Status sub = SubmissionFailed -> r_lease_expires_at r = None) /\
    (sub_Status sub = SubmissionRunning -> res = None -> unsettled (sub_ID sub) a (until (S n)) t').
Proof.
  intros Hrenew Hclaim Ha Hok. destruct (Hrenew n) as [Hclock Hkeep].
  destruct (Hkeep t Hclaim) as (r & l & Hr & Hs & Hat & El & Hl).
  destruct (marshalResult (sub_Result sub)) as [res|] eqn:Hres; [clear Hok|done].
  set (arg := mkUpdateSubmissionParams (sub_Status sub) res (sub_StartedAt sub) (sub_LeaseExpiresAt sub)
    (nullableText (sub_FailureMessage sub)) (sub_ID sub) (wrap32 (sub_AttemptCount sub))).
  exists (<[sub_ID sub := update_set (db_clock db n) arg r]> (db_others db n t)), (update_set (db_clock db n) arg r), res.
  split_and!; [|done|by rewrite lookup_insert_eq|done..|by intros [Hst|Hst]; cbn; rewrite Hst|].
  - rewrite /store_Update /pg_store /UpdateContext Hres bind_Ok. fold arg. rewrite /UpdateSubmission.
    change (up_ID arg) with (sub_ID sub). erewrite update_by_id_hit; [done|done|].
    rewrite /update_cond /= Ha Hat Z.eqb_refl /lease_live El (proj2 (Z.ltb_lt (db_clock db n) l)); [lia|].
    rewrite (proj2 (has_status_spec SubmissionRunning r) Hs). done.
  - intros Hst ->. exists (update_set (db_clock db n) arg r), l. rewrite lookup_insert_eq. cbn. by rewrite Hst.
Qed.

Lemma ending_final registry env sub status result :
  ending registry env (sub_Job sub) status result ->
  (status = SubmissionFinished \/ status = SubmissionFailed) /\
  sub_ID (final sub status result) = sub_ID sub /\ sub_AttemptCount (final sub status result) = sub_AttemptCount sub /\
  sub_Status (final sub status result) = status /\ sub_Result (final sub status result) = Some result.
Proof. destruct 1 as [| |spec status result _ _ []]; split_and!; try done; by (left + right). Qed.

(** The row of a settled submission. *)
Definition settled_with (id : string) (a : Z) (status : SubmissionStatus) (result : Result) (t : table) : Prop :=
  exists r text, t !! id = Some r /\ r_status r = status /\ r_attempt_count r = a /\
    marshalRes result = Ok text /\ r_result r = Some text /\ r_lease_expires_at r = None.

(** The last update settles the row, unless the result column refuses the
    result. *)
Lemma final_update sub a until t n registry env status result :
  renewed (sub_ID sub) a until -> held (sub_ID sub) a (until n) t -> wrap32 (sub_AttemptCount sub) = a ->
  ending registry env (sub_Job sub) status result ->
  match marshalRes result with
  | Ok _ => exists t', store_Update (final sub status result) (t, n) = Ok (t', S n) /\
      settled_with (sub_ID sub) a status result t'
  | Err e => store_Update (final sub status result) (t, n) = Err e
  end.
Proof.
  intros Hren Hcl Ha He. destruct (ending_final _ _ _ _ _ He) as (Hst & Hid & Hat & Hs & Hr).
  rewrite -Hid in Hren, Hcl. rewrite -Hat in Ha. destruct (marshalRes result) as [text|e] eqn:Htext.
  2: { by rewrite /store_Update /pg_store /UpdateContext Hr /= Htext. }
  assert (is_ok (marshalResult (sub_Result (final sub status result))) = true) as Hok by by rewrite Hr /= Htext.
  destruct (update_accepted _ a until t n Hren Hcl Ha Hok) as (t' & r & res & Hu & Hres & Hrow & E1 & E2 & E3 & _ & El & _).
  exists t'. split; [done|]. rewrite Hr /= Htext in Hres. injection Hres as <-.
  exists r, text. rewrite -Hid. split_and!; try done; [by rewrite E1|]. apply El. by rewrite Hs.
Qed.

Lemma running_held sub a until t n :
  renewed (sub_ID sub) a until -> held (sub_ID sub) a (until n) t -> wrap32 (sub_AttemptCount sub) = a ->
  sub_Result sub = None ->
  exists t', store_Update (with_status SubmissionRunning sub) (t, n) = Ok (t', S n) /\
    unsettled (sub_ID sub) a (until (S n)) t'.
Proof.
  intros Hren Hcl Ha Hnone. assert (is_ok (marshalResult (sub_Result sub)) = true) as Hok by by rewrite Hnone.
  destruct (update_accepted (with_status SubmissionRunning sub) a until t n Hren Hcl Ha Hok)
    as (t' & r & res & Hu & Hres & Hrow & _ & _ & _ & _ & _ & Hheld).
  exists t'. split; [done|]. apply Hheld; [done|]. cbn in Hres. rewrite Hnone in Hres. by injection Hres as <-.
Qed.

Lemma replay_one (sub : Submission) (state state' : table * nat) :
  store_Update sub state = Ok state' -> replay [sub] state = Ok state'.
Proof. intros Hu. rewrite /replay /foldM. cbn [foldM_from]. by rewrite Hu bind_Ok. Qed.

(** What processing attempt [a] of a submission leaves, by its answer: a result
    is an ending and settles the row; an error is a compiler that answered
    nothing, or the refusal of the ending's result by the result column, and
    then the row is still running under the attempt, without a result, until the
    lease that was set last expires. *)
Definition processed_row (registry : gmap string Spec) (env : Environment) (id : string) (job : Job) (a : Z)
    (until : nat -> Z) (answer : result Result) (state : table * nat) : Prop :=
  match answer with
  | Ok result => exists status, ending registry env job status result /\
      (status = SubmissionFinished \/ status = SubmissionFailed) /\ settled_with id a status result state.1
  | Err e =>
      (e = nil_panic /\ en_compile env = Ok None) \/
      exists status result, ending registry env job status result /\ marshalRes result = Err e /\
        unsettled id a (until state.2) state.1
  end.

(** While its lease is renewed, no update of a claim is refused for the claim's
    sake, and the last one settles the row if the result can be stored. *)
Lemma claim_processed registry env sub a until t log :
  renewed (sub_ID sub) a until -> unsettled (sub_ID sub) a (until O) t -> wrap32 (sub_AttemptCount sub) = a ->
  sub_Result sub = None ->
  let run := ProcessSubmission registry env sub (mkWorld (t, O) log) in
  processed_row registry env (sub_ID sub) (sub_Job sub) a until (fst run) (w_state (snd run)).
Proof.
  intros Hren Hun Ha Hnone. cbn zeta. pose proof (unsettled_held _ _ _ _ Hun) as Hcl.
  destruct (running_held sub a until t O Hren Hcl Ha Hnone) as (t1 & Hu1 & Hun1).
  pose proof (unsettled_held _ _ _ _ Hun1) as Hcl1.
  destruct (ProcessSubmission_yields registry env sub (mkWorld (t, O) log)) as (es & _ & Hr & Hres).
  cbn [w_state] in Hr. destruct (ProcessSubmission registry env sub _) as [[result|e] [state log']]; cbn [fst snd w_state] in *.
  - destruct Hres as (_ & status & He & Hus). exists status. split; [done|].
    split; [by destruct (ending_final _ _ _ _ _ He)|]. rewrite Hus in Hr.
    assert (forall t n, held (sub_ID sub) a (until n) t ->
      replay [final sub status result] (t, n) = Ok state -> settled_with (sub_ID sub) a status result state.1) as Hlast.
    { intros t2 n2 Hc2. pose proof (final_update sub a until t2 n2 _ _ _ _ Hren Hc2 Ha He) as Hf.
      rewrite /replay /foldM. cbn [foldM_from]. destruct (marshalRes result); [|by rewrite Hf].
      destruct Hf as (t' & -> & Hset). by intros [= <-]. }
    clear Hus. destruct (is_ok _ && negb _); [|exact (Hlast t O Hcl Hr)].
    rewrite (replay_app _ _ _ _ (replay_one _ _ _ Hu1)) in Hr. by eapply Hlast.
  - destruct Hres as (_ & [Hn|(refused & Href & Hatt)]); [by left|]. right.
    destruct Hatt as [E|(status & result & He & [E|E])].
    + apply (app_inj_tail _ []) in E as [Eus ->]. rewrite Eus in Hr. apply (ok_inj (t, O)) in Hr as <-. by rewrite Hu1 in Href.
    + apply (app_inj_tail _ []) in E as [Eus ->]. rewrite Eus in Hr. apply (ok_inj (t, O)) in Hr as <-.
      exists status, result. split; [done|]. split; [|done].
      pose proof (final_update sub a until t O _ _ _ _ Hren Hcl Ha He) as Hf. rewrite Href in Hf.
      destruct (marshalRes result); [by destruct Hf as (? & ? & _)|congruence].
    + apply (app_inj_tail _ [with_status SubmissionRunning sub]) in E as [Eus ->].
      rewrite Eus (replay_one _ _ _ Hu1) in Hr. injection Hr as <-.
      exists status, result. split; [done|]. split; [|done].
      pose proof (final_update sub a until t1 1 _ _ _ _ Hren Hcl1 Ha He) as Hf. rewrite Href in Hf.
      destruct (marshalRes result); [by destruct Hf as (? & ? & _)|congruence].
Qed.

Lemma store_Get_row id t sub :
  store_Get id t = Some sub ->
  exists r, t !! id = Some r /\ sub_ID sub = id /\ sub_Status sub = r_status r /\
    sub_AttemptCount sub = r_attempt_count r /\ sub_CreatedAt sub = Some (r_created_at r) /\
    (sub_Result sub = None -> default "" (r_result r) = "").
Proof.
  rewrite /store_Get /GetContext /GetSubmission. destruct (t !! id) as [r|]; [|done].
  destruct (unmarshalJob _) as [job|]; [|done]. rewrite bind_Ok. intros Hsub. exists r.
  destruct (r_result r) as [[|b text]|] eqn:Er; cbn [default String.length Nat.ltb Nat.leb] in Hsub |- *.
  - rewrite bind_Ok in Hsub. by injection Hsub as <-.
  - destruct (unmarshalRes _) as [x|]; [|done]. rewrite !bind_Ok in Hsub. by injection Hsub as <-.
  - rewrite bind_Ok in Hsub. by injection Hsub as <-.
Qed.

Lemma claim_row q now locked t c t1 time :
  (time < now + lease_interval q)%Z -> claimNextSubmission q now locked t = Ok (Some (c, t1)) ->
  held (clm_ID c) (clm_Attempt c) time t1 /\ (clm_Attempt c < 2^31)%Z.
Proof.
  intros Hl (r & _ & _ & _ & _ & _ & Hlt & ->)%claimNext_Ok. split; [|done].
  eexists _, _. rewrite lookup_insert_eq. split_and!; [done..|]. lia.
Qed.

(** The worker processes what it claimed, whatever the environment answers. *)
Lemma worker_turn_processes q now locked t c t1 until registry env sub log :
  (until O < now + lease_interval q)%Z -> claimNextSubmission q now locked t = Ok (Some (c, t1)) -> (0 <= clm_Attempt c)%Z ->
  store_Get (clm_ID c) t1 = Some sub -> renewed (clm_ID c) (clm_Attempt c) until -> sub_Result sub = None ->
  exists answer, fst (worker_turn registry env c (mkWorld (t1, O) log)) = Ok (Some answer) /\
    processed_row registry env (clm_ID c) (sub_Job sub) (clm_Attempt c) until answer
      (w_state (snd (worker_turn registry env c (mkWorld (t1, O) log)))).
Proof.
  intros Hlease Hclaim H0' Hget Hren Hnone.
  apply (claim_row _ _ _ _ _ _ _ Hlease) in Hclaim as [Hcl Hlt].
  destruct (store_Get_row _ _ _ Hget) as (r & Hr & Hid & Hs & Ha & Hcr & Hempty). specialize (Hempty Hnone).
  destruct Hcl as (r' & l & Hr' & Hst & Hat & Hl & Hlive). rewrite Hr in Hr'. injection Hr' as <-.
  assert (unsettled (clm_ID c) (clm_Attempt c) (until O) t1) as Hun by by exists r, l.
  assert (wrap32 (sub_AttemptCount sub) = clm_Attempt c) as Hwrap.
  { rewrite Ha Hat wrap32_id //. rewrite /in_int32. lia. }
  rewrite -Hid in Hren, Hun.
  set (log' := (log ++ [ActObserve QueueWaitTiming (en_duration env QueueWaitTiming)]) ++ [ActWorkerStarted]).
  pose proof (claim_processed registry env sub _ until t1 log' Hren Hun Hwrap Hnone) as Hrow. cbn zeta in Hrow.
  rewrite /worker_turn. cbn [w_state fst]. rewrite Hget Ha Hat Z.eqb_refl Hs Hst Hcr.
  cbn [negb is_nil]. rewrite (bool_decide_eq_true_2 (SubmissionRunning = SubmissionRunning)) // andb_false_r.
  rewrite /mbind /eff_bind /attempt /observe /emit /mret /eff_ret. cbn [w_state w_log]. fold log'.
  destruct (ProcessSubmission registry env sub (mkWorld (t1, O) log')) as [answer w'].
  exists answer. cbn [fst snd w_state] in *. by rewrite -{1}Hid.
Qed.

(** ** A healthy environment *)

(** Every call of the host, the pool and the executor succeeds, the program
    compiles, no case is cancelled, and every case that is reached has a run
    result: a case is reached when the cases before it passed, so the results of
    a supervisor that stopped at a failing case are enough. *)
Record healthy (env : Environment) (job : Job) (spec : Spec) (results : option (list (option RunResult))) : Prop := {
  he_workspace : is_ok (hs_MkdirTemp (en_host env)) = true;
  he_source : hs_WriteFile (en_host env) = Ok tt;
  he_owner : hs_Chown (en_host env) = Ok tt;
  he_mode : hs_Chmod (en_host env) = Ok tt;
  he_answers : en_compile env <> Ok None;
  he_compile : sp_NeedsCompile spec = true ->
    exists run, compiled env spec run /\ rr_OutputLimitExceeded run = false /\ rr_ExitCode run = 0%Z;
  he_sandbox : is_ok (en_acquire env) = true;
  he_prepare : en_prepare env = Ok tt;
  he_supervisor : supervised_of (en_supervisor env) = Ok results;
  he_runs : answered job results (is_nil (en_supervisor env)) (en_runs env) 0 (job_TestCases job);
  he_alive : forall i, cn_done (en_runs env i) = false }.

(** A generated program has the file name of its language. *)
Lemma program_file job program spec :
  generateModeProgram job = Ok program -> supportedLanguages !! job_Language job = Some spec ->
  gp_SourceFile program = sp_SourceFileName spec.
Proof.
  rewrite /generateModeProgram mode_generator. intros E Hspec.
  destruct (bool_decide (job_Language job = "cpp")) eqn:Ecpp; [|destruct (bool_decide (job_Language job = "python")) eqn:Epy;
    [|done]].
  - apply bool_decide_eq_true in Ecpp. rewrite Ecpp in Hspec. injection Hspec as <-.
    destruct (bool_decide (_ = ModeFunction)); [|destruct (bool_decide (_ = ModeClass)); [|done]];
      cbn [mg_GenerateMode cpp_FunctionGenerator cpp_ClassGenerator] in E;
      rewrite /FunctionGenerator_GenerateMode /ClassGenerator_GenerateMode in E; ok_inv; done.
  - apply bool_decide_eq_true in Epy. rewrite Epy in Hspec. injection Hspec as <-.
    destruct (bool_decide (_ = ModeFunction)); [|destruct (bool_decide (_ = ModeClass)); [|done]];
      cbn [mg_GenerateMode python_FunctionGenerator python_ClassGenerator] in E;
      rewrite /python_FunctionGenerateMode /python_ClassGenerateMode in E; ok_inv; done.
Qed.

Lemma healthy_source job spec :
  admitted job -> supportedLanguages !! job_Language job = Some spec -> is_ok (workspace_source job spec) = true.
Proof.
  intros Hjob Hspec. rewrite /workspace_source. destruct (is_nil _ && is_nil _) eqn:Hnil; [done|].
  destruct (admitted_ready job Hjob) as [(_ & Hf & Hc)|[[program Hp] _]]; [by rewrite Hf Hc in Hnil|].
  rewrite Hp bind_Ok (program_file job program spec Hp Hspec) bool_decide_eq_true_2 //.
Qed.

Lemma healthy_program job env spec results :
  admitted job -> supportedLanguages !! job_Language job = Some spec -> healthy env job spec results ->
  program_ready env job spec.
Proof.
  intros Hjob Hspec Hh. pose proof (healthy_source job spec Hjob Hspec) as Hsrc. split.
  - rewrite /creation /createWorkspace /lift /emit /on_failure /mbind /eff_bind.
    pose proof (he_workspace _ _ _ _ Hh). destruct (hs_MkdirTemp _); [|done].
    destruct (workspace_source job spec); [|done].
    rewrite (he_source _ _ _ _ Hh). destruct (rootfulRuntime _ _); [|done].
    by rewrite (he_owner _ _ _ _ Hh) (he_mode _ _ _ _ Hh).
  - destruct (sp_NeedsCompile spec) eqn:Hn; [right|by left]. exact (he_compile _ _ _ _ Hh Hn).
Qed.

(** The verdict of the cases that ran to their end. *)
Definition case_verdict (env : Environment) (job : Job) (results : option (list (option RunResult))) (result : Result)
    : Prop :=
  verdict job (job_TestCases job) 0 (fun i tc done run => done = false /\
    case_answer results (is_nil (en_supervisor env)) i tc (en_runs env i) = Ok run) result.

Lemma healthy_run job env spec results flags :
  admitted job -> healthy env job spec results ->
  exists result, run_answer env job flags = Ok result /\ case_verdict env job results result /\
    rs_Status result <> InfrastructureError.
Proof.
  intros Hjob Hh.
  destruct (runTestCases_verdict job (en_supervisor env) results (en_runs env) flags Hjob (he_supervisor _ _ _ _ Hh))
    as (result & sandbox' & Hrun & Hv); [exact (he_runs _ _ _ _ Hh)|].
  exists result. split; [by rewrite /run_answer Hrun|]. destruct Hv as [Htotal Hv].
  pose proof (he_alive _ _ _ _ Hh) as Hdone.
  split.
  - split; [done|]. destruct Hv as [(? & ? & ? & Hall)|(i & tc & d & run & Hi & [-> Hr] & Hf & Hn & Hc & Hbefore)]; [left|right].
    + split_and!; try done. intros i tc Hi. destruct (Hall i tc Hi) as (d & run & [-> Hr] & Hp).
      rewrite Hdone in Hp. by exists false, run.
    + rewrite Hdone in Hf. exists i, tc, false, run. split_and!; try done.
      intros j tc' Hlt Hj. destruct (Hbefore j tc' Hlt Hj) as (d & run' & [-> Hr'] & Hp).
      rewrite Hdone in Hp. by exists false, run'.
  - destruct Hv as [(-> & _)|(i & tc & d & run & Hi & [-> _] & Hf & _)]; [done|].
    rewrite Hdone in Hf. by inversion Hf as [| | | |?|? ? ? ? ? ? E].
Qed.

Lemma healthy_ending job env spec results status result :
  admitted job -> ValidateJob job = Ok tt -> supportedLanguages !! job_Language job = Some spec ->
  healthy env job spec results -> ending supportedLanguages env job status result ->
  status = SubmissionFinished /\ case_verdict env job results result.
Proof.
  intros Hjob Hv Hspec Hh He. pose proof (healthy_program _ _ _ _ Hjob Hspec Hh) as [Hc _].
  destruct He as [e He|_ Hn|spec' status result _ Hs He]; [by rewrite Hv in He|by rewrite Hspec in Hn|].
  rewrite Hspec in Hs. injection Hs as <-.
  assert (forall run, compiled env spec run -> rr_OutputLimitExceeded run = false /\ rr_ExitCode run = 0%Z) as Hcomp.
  { intros run (Hn & Hr & _). destruct (he_compile _ _ _ _ Hh Hn) as (run' & (_ & Hr' & _) & Ho & Hx).
    rewrite Hr in Hr'. by injection Hr' as ->. }
  assert (~ fault env job spec) as Hno.
  { pose proof (he_sandbox _ _ _ _ Hh) as Hsb. pose proof (he_prepare _ _ _ _ Hh) as Hpr.
    destruct 1 as [e Hw|ws e _ Hn E|ws answer _ Hn E1 E2|ws run _ Hn E1 E2 E3|ws run _ Hr Ho Hx|e _ E|s e _ _ E
      |name flags e _ _ _ E|name flags res _ _ _ E Ei].
    all: try (destruct (he_compile _ _ _ _ Hh Hn) as (run' & (_ & Hr' & Hcan & Ht) & _ & _)).
    all: try congruence; try by rewrite Hw in Hc.
    - destruct (Hcomp run Hr) as [_ Hx']. congruence.
    - by rewrite E in Hsb.
    - destruct (healthy_run _ _ _ _ flags Hjob Hh) as (r' & E' & _). congruence.
    - destruct (healthy_run _ _ _ _ flags Hjob Hh) as (r' & E' & _ & Hni). congruence. }
  destruct He as [|ws run _ Hr Ho|ws run _ Hr Ho Hx _|name flags res _ _ _ E _]; [done|..].
  - destruct (Hcomp run Hr). congruence.
  - destruct (Hcomp run Hr). congruence.
  - destruct (healthy_run _ _ _ _ flags Hjob Hh) as (r' & E' & Hverdict & _).
    rewrite E in E'. by injection E' as ->.
Qed.

(** ** The theorems *)

(** A claimed submission whose job admission accepts, judged in a healthy
    environment, has the verdict of its cases - accepted when every case passed,
    and the first case that did not pass with the status it earns otherwise -
    and it is stored as finished with it, unless the result column refuses it. *)
Theorem accepted_submission_is_judged q now locked t c t1 until env spec results sub log :
  (until O < now + lease_interval q)%Z -> claimNextSubmission q now locked t = Ok (Some (c, t1)) -> (0 <= clm_Attempt c)%Z ->
  store_Get (clm_ID c) t1 = Some sub -> renewed (clm_ID c) (clm_Attempt c) until -> sub_Result sub = None ->
  ValidateJob (sub_Job sub) = Ok tt -> supportedLanguages !! job_Language (sub_Job sub) = Some spec ->
  healthy env (sub_Job sub) spec results ->
  let state := w_state (snd (worker_turn supportedLanguages env c (mkWorld (t1, O) log))) in
  exists result, case_verdict env (sub_Job sub) results result /\
    match marshalRes result with
    | Ok _ => settled_with (clm_ID c) (clm_Attempt c) SubmissionFinished result state.1
    | Err _ => unsettled (clm_ID c) (clm_Attempt c) (until state.2) state.1
    end.
Proof.
  intros Hlease Hclaim H0' Hget Hren Hnone Hv Hspec Hh. cbn zeta.
  destruct (worker_turn_processes _ _ _ _ _ _ _ supportedLanguages env sub log Hlease Hclaim H0' Hget Hren Hnone)
    as ([result|e] & _ & Hrow).
  - destruct Hrow as (status & He & _ & Hset).
    destruct (healthy_ending _ _ _ _ _ _ (ValidateJob_admitted _ Hv) Hv Hspec Hh He) as [-> Hverdict].
    exists result. split; [done|]. by pose proof Hset as (r & text & _ & _ & _ & -> & _).
  - destruct Hrow as [[_ ?%(he_answers _ _ _ _ Hh)]|(status & result & He & Hm & Hun)]; [done|].
    destruct (healthy_ending _ _ _ _ _ _ (ValidateJob_admitted _ Hv) Hv Hspec Hh He) as [_ Hverdict].
    exists result. by rewrite Hm.
Qed.
End Worker.
