(* ===== verification/Renewal.v ===== *)
(** * Lease renewal and recovery: the tickers of cmd/server/main.go

    [renewSubmissionLease] runs beside the processing of a claim; what it sees
    at each turn of its loop is a [LeaseTurn].  The theorem is that ticks that
    come in time keep the claim held, which is what the theorems of Worker.v
    ask of the database between two updates. *)

From S2P Require Import Prelude GoStrings GoJson TypeSyntax Contracts Queries Store Adapters Harness CppHarness.
From S2P Require Import CppClass PyHarness Languages Validate Verdict TestCases Observations Admission Generation.
From S2P Require Import Judging Effects Paths Workspace Service ServiceLaws Worker.

(** The interval of the ticker, in nanoseconds. *)
Definition renewal_interval (q : SubmissionQueue) : Z :=
  let interval := (q_leaseDuration q / 3)%Z in
  if (interval <? 1000000)%Z then 1000000%Z else interval.

(** The context is done, or the ticker fired: other clients changed the table
    since the last turn, and the renewal runs at [now], unless the database
    fails it. *)
Inductive LeaseTurn :=
  | LeaseContextDone
  | LeaseTick (others : table -> table) (now : Z) (reached : result unit).

Inductive LeaseAction :=
  | LeaseLost (e : goerr)
  | ProcessCanceled
  | LeaseLoopDone.

Section Renewal.
Context `{ColumnCodec}.

Definition renew (q : SubmissionQueue) (claim : SubmissionClaim) (others : table -> table) (now : Z)
    (reached : result unit) : eff table LeaseAction unit := fun w =>
  let t := others (w_state w) in
  match (reached;; RenewLease q now claim t) with
  | Ok t' => (Ok tt, mkWorld t' (w_log w))
  | Err e => (Err e, mkWorld t (w_log w))
  end.

(** The loop, over the turns that are observed; [leaseLost] has room for the
    one error that is sent. *)
Fixpoint renewal_loop (q : SubmissionQueue) (claim : SubmissionClaim) (turns : list LeaseTurn)
    : eff table LeaseAction unit :=
  match turns with
  | [] => mret tt
  | LeaseContextDone :: _ => mret tt
  | LeaseTick others now reached :: turns =>
      renewed ← attempt (renew q claim others now reached);
      match renewed with
      | Err e =>
          emit (LeaseLost e);;
          emit ProcessCanceled
      | Ok _ => renewal_loop q claim turns
      end
  end.

Definition renewSubmissionLease (q : SubmissionQueue) (claim : SubmissionClaim) (turns : list LeaseTurn)
    : eff table LeaseAction unit :=
  defer (emit LeaseLoopDone) (renewal_loop q claim turns).

(** ** Recovery

    [startLeaseRecovery] recovers expired rows at every tick; an error is logged
    and the loop goes on. *)
Definition recovery_interval (interval : Z) : Z := if (interval <=? 0)%Z then second else interval.

Inductive RecoveryTurn :=
  | RecoveryContextDone
  | RecoveryTick (others : table -> table) (now : Z) (locked : gset string) (reached : result unit).

Inductive RecoveryAction :=
  | RecoveryFailed (e : goerr)
  | RecoveredRows (count : Z).

Fixpoint recovery_loop (q : SubmissionQueue) (turns : list RecoveryTurn) : eff table RecoveryAction unit :=
  match turns with
  | [] => mret tt
  | RecoveryContextDone :: _ => mret tt
  | RecoveryTick others now locked reached :: turns => fun w =>
      let t := others (w_state w) in
      match (reached;; RecoverExpired q now locked t) with
      | Err e => recovery_loop q turns (mkWorld t (w_log w ++ [RecoveryFailed e]))
      | Ok (recovered, t') =>
          recovery_loop q turns (mkWorld t' (w_log w ++ if (0 <? recovered)%Z then [RecoveredRows recovered] else []))
      end
  end.

(** ** Ticks in time *)

(** Other clients leave a row alone while a claim holds it: they renew, update
    and recover only what is theirs, queued or expired. *)
Definition harmless (id : string) (a now : Z) (others : table -> table) : Prop :=
  forall t, held id a now t -> held id a now (others t).

(** From [last], every tick comes less than a lease after the one before,
    reaches the database, and meets harmless clients. *)
Inductive timely (q : SubmissionQueue) (claim : SubmissionClaim) : Z -> list LeaseTurn -> Z -> Prop :=
  | timely_none last : timely q claim last [] last
  | timely_tick last others now turns final :
      (last <= now < last + lease_interval q)%Z -> harmless (clm_ID claim) (clm_Attempt claim) now others ->
      timely q claim now turns final -> timely q claim last (LeaseTick others now (Ok tt) :: turns) final.

(** A claim whose lease was set at [last]. *)
Definition leased_at (q : SubmissionQueue) (claim : SubmissionClaim) (last : Z) : table -> Prop :=
  held (clm_ID claim) (clm_Attempt claim) (last + lease_interval q - 1).

Lemma held_earlier id a time time' t : (time' <= time)%Z -> held id a time t -> held id a time' t.
Proof. intros Hle (r & l & ? & ? & ? & ? & ?). exists r, l. split_and!; [done..|lia]. Qed.

Lemma renew_held q claim now t :
  in_int32 (clm_Attempt claim) -> held (clm_ID claim) (clm_Attempt claim) now t ->
  exists t', RenewLease q now claim t = Ok t' /\ leased_at q claim now t'.
Proof.
  intros Ha (r & l & Hr & Hs & Hat & El & Hl). rewrite /RenewLease /RenewSubmissionLease wrap32_id //.
  erewrite update_by_id_hit; [|exact Hr|].
  2:{ rewrite Hat Z.eqb_refl /lease_live El (proj2 (Z.ltb_lt _ _) Hl).
      by rewrite (proj2 (has_status_spec SubmissionRunning r) Hs). }
  cbn. eexists. split; [done|]. eexists _, _. rewrite lookup_insert_eq El. split_and!; [done..|]. lia.
Qed.

Lemma renewals_hold q claim last turns final t log :
  in_int32 (clm_Attempt claim) -> timely q claim last turns final -> leased_at q claim last t ->
  exists t', renewal_loop q claim turns (mkWorld t log) = (Ok tt, mkWorld t' log) /\ leased_at q claim final t'.
Proof.
  intros Ha Hturns. revert t. induction Hturns as [last|last others now turns final Hnow Hoth Hturns IH]; intros t Ht.
  { by exists t. }
  assert (held (clm_ID claim) (clm_Attempt claim) now (others t)) as Hheld.
  { apply Hoth. eapply held_earlier; [|exact Ht]. lia. }
  destruct (renew_held q claim now (others t) Ha Hheld) as (t1 & Hrenew & Ht1).
  destruct (IH t1 Ht1) as (t' & Hloop & Ht'). exists t'. split; [|done].
  cbn [renewal_loop]. rewrite {1}/mbind /eff_bind /attempt /renew. cbn [w_state w_log]. rewrite bind_Ok Hrenew. exact Hloop.
Qed.

(** ** The claim of a worker *)

Context `{Float64} `{UnicodeTables} `{PrintTables}.

(** Between two updates of the worker the database sees the turns of its
    renewal loop and then other clients; [last n] is when the lease was set
    last before the [n]-th update. *)
Record ticking (db : Database) (q : SubmissionQueue) (claim : SubmissionClaim) (turns : nat -> list LeaseTurn)
    (after : nat -> table -> table) (last : nat -> Z) : Prop := {
  ti_timely : forall n, timely q claim (last n) (turns n) (last (S n));
  ti_database : forall n t, db_others db n t = after n (w_state (snd (renewSubmissionLease q claim (turns n) (mkWorld t []))));
  ti_after : forall n, harmless (clm_ID claim) (clm_Attempt claim) (last (S n) + lease_interval q - 1) (after n);
  ti_clock : forall n, (db_clock db n < last (S n) + lease_interval q)%Z }.

Lemma ticking_renewed db q claim turns after last :
  in_int32 (clm_Attempt claim) -> ticking db q claim turns after last ->
  renewed db (clm_ID claim) (clm_Attempt claim) (fun n => last n + lease_interval q - 1)%Z.
Proof.
  intros Ha Ht n. split; [pose proof (ti_clock _ _ _ _ _ _ Ht n); lia|]. intros t Hheld.
  destruct (renewals_hold q claim _ _ _ t [] Ha (ti_timely _ _ _ _ _ _ Ht n) Hheld) as (t' & Hloop & Ht').
  rewrite (ti_database _ _ _ _ _ _ Ht) /renewSubmissionLease /defer Hloop. cbn [snd emit w_state].
  by apply (ti_after _ _ _ _ _ _ Ht n).
Qed.

(** C27 (liveness): a claim that was just taken is processed by its worker
    while [renewSubmissionLease] renews the lease, each tick less than a lease
    after the one before, whatever the environment answers and whatever other
    clients do to other rows; the row holds no result of an earlier attempt.
    The processing ends.  When it returns a result, the row is finished or
    failed, holding that result under the attempt and no lease.  When it returns
    an error, a compiler answered neither a result nor an error (which the
    [Compile] of Docker.v never does), or the result column refused the result of
    the ending (PostgreSQL's [jsonb] refuses a text with U+0000, which a
    contestant can print); the row is then still running under the attempt,
    without a result, until its lease expires and recovery takes it. *)
Theorem renewed_claim_settles db q now locked t c t1 turns after last registry env sub log :
  claimNextSubmission q now locked t = Ok (Some (c, t1)) -> (0 <= clm_Attempt c)%Z -> last O = now ->
  store_Get (clm_ID c) t1 = Some sub -> ticking db q c turns after last -> sub_Result sub = None ->
  exists answer, fst (worker_turn db registry env c (mkWorld (t1, O) log)) = Ok (Some answer) /\
    let state := w_state (snd (worker_turn db registry env c (mkWorld (t1, O) log))) in
    match answer with
    | Ok result => exists status, ending registry env (sub_Job sub) status result /\
        (status = SubmissionFinished \/ status = SubmissionFailed) /\
        settled_with (clm_ID c) (clm_Attempt c) status result state.1
    | Err e =>
        (e = nil_panic /\ en_compile env = Ok None) \/
        exists status result, ending registry env (sub_Job sub) status result /\ marshalRes result = Err e /\
          unsettled (clm_ID c) (clm_Attempt c) (last state.2 + lease_interval q - 1) state.1
    end.
Proof.
  intros Hclaim H0' Hlast Hget Hticking Hnone.
  assert (in_int32 (clm_Attempt c)) as Ha.
  { pose proof Hclaim as (r & _ & _ & _ & _ & _ & Hlt & _)%claimNext_Ok. rewrite /in_int32. lia. }
  apply (worker_turn_processes db q now locked t c t1 (fun n => last n + lease_interval q - 1)%Z); try done.
  - rewrite Hlast. lia.
  - by eapply ticking_renewed.
Qed.

(** ** The worker

    One turn of [startWorker]: whether the context is done at its top, what
    [Dequeue] sees, whether the context is done when it fails, and the
    environment of the claim. *)
Record WorkerTurn := mkWorkerTurn {
  wt_done : bool;
  wt_polls : list poll;
  wt_canceled : bool;
  wt_environment : Environment }.

Fixpoint worker_loop (db : Database) (q : SubmissionQueue) (registry : gmap string Spec) (turns : list WorkerTurn)
    : eff (table * nat) Action unit :=
  match turns with
  | [] => mret tt
  | turn :: turns =>
      if wt_done turn then mret tt
      else match Dequeue q (wt_polls turn) with
           | None => mret tt
           | Some (Err e) => if wt_canceled turn then mret tt else worker_loop db q registry turns
           | Some (Ok (claim, t)) => fun w =>
               (worker_turn db registry (wt_environment turn) claim;;
                worker_loop db q registry turns) (mkWorld (t, (w_state w).2) (w_log w))
           end
  end.

Lemma worker_turn_total db registry env claim (w : World (table * nat) Action) :
  exists done es, fst (worker_turn db registry env claim w) = Ok done /\
    w_log (snd (worker_turn db registry env claim w)) = w_log w ++ es /\
    forall held, held_after opens closes held es = Some held.
Proof.
  rewrite /worker_turn. set (st := pg_store db). destruct (store_Get _ _) as [sub|]; [|by exists None, []; rewrite app_nil_r].
  destruct (negb _); [by exists None, []; rewrite app_nil_r|].
  destruct (_ && _); [by exists None, []; rewrite app_nil_r|].
  set (observed := if is_nil (sub_CreatedAt sub) then [] else [ActObserve QueueWaitTiming (en_duration env QueueWaitTiming)]).
  set (w1 := mkWorld (w_state w) ((w_log w ++ observed) ++ [ActWorkerStarted])).
  destruct (ProcessSubmission_yields registry env sub w1) as (es & Hl & _ & Hres).
  exists (Some (fst (ProcessSubmission registry env sub w1))), (observed ++ ActWorkerStarted :: es ++ [ActWorkerFinished]).
  assert (((if is_nil (sub_CreatedAt sub) then mret tt else observe env QueueWaitTiming);;
           emit ActWorkerStarted;;
           processed ← attempt (ProcessSubmission registry env sub);
           emit ActWorkerFinished;;
           mret (Some processed)) w =
    (Ok (Some (fst (ProcessSubmission registry env sub w1))),
     mkWorld (w_state (snd (ProcessSubmission registry env sub w1)))
       (w_log (snd (ProcessSubmission registry env sub w1)) ++ [ActWorkerFinished]))) as ->.
  { rewrite /mbind /eff_bind /attempt. subst w1 observed. destruct w as [t log].
    destruct (is_nil (sub_CreatedAt sub)); cbn [mret eff_ret observe emit w_state w_log]; rewrite ?app_nil_r;
      match goal with |- context [ProcessSubmission registry env sub ?w] =>
        destruct (ProcessSubmission registry env sub w) as [r w'] end; reflexivity. }
  cbn [fst snd w_log]. rewrite Hl. subst w1. cbn [w_log]. split; [done|]. split; [by rewrite -!app_assoc|].
  intros held. rewrite held_after_app. assert (held_after opens closes held observed = Some held) as ->
    by by subst observed; destruct (is_nil _).
  cbn [held_after opens closes]. rewrite held_after_app.
  assert (held_after opens closes held es = Some held) as -> by (destruct (fst _); destruct Hres as [Hh _]; exact (Hh held)).
  done.
Qed.

(** Over its whole life a worker gives back every workspace and sandbox, and an
    error of one claim never stops it. *)
Lemma worker_loop_releases db q registry turns (w : World (table * nat) Action) :
  exists es, fst (worker_loop db q registry turns w) = Ok tt /\
    w_log (snd (worker_loop db q registry turns w)) = w_log w ++ es /\
    forall held, held_after opens closes held es = Some held.
Proof.
  revert w. induction turns as [|turn turns IH]; intros w; cbn [worker_loop]; [by exists []; rewrite app_nil_r|].
  destruct (wt_done turn); [by exists []; rewrite app_nil_r|].
  destruct (Dequeue q _) as [[[claim t]|e]|]; [| |by exists []; rewrite app_nil_r].
  - destruct (worker_turn_total db registry (wt_environment turn) claim (mkWorld (t, (w_state w).2) (w_log w)))
      as (ended & es1 & Hok & Hl1 & Hh1).
    rewrite /mbind /eff_bind. destruct (worker_turn _ _ _ _ _) as [r w1]. cbn [fst snd w_log] in *. subst r.
    destruct (IH w1) as (es2 & Hok2 & Hl2 & Hh2). exists (es1 ++ es2). split; [done|].
    split; [by rewrite Hl2 Hl1 app_assoc|]. intros held. by rewrite held_after_app Hh1.
  - destruct (wt_canceled turn); [by exists []; rewrite app_nil_r|apply IH].
Qed.
End Renewal.
