(* ===== verification/Pool.v ===== *)
(** * The sandbox pool: internal/judge/pool.go

    The pool is shared by many goroutines.  Each of them is a [Task], a point
    of the code between two atomic actions; [advance] is the action at that
    point, for a choice of the environment (which ready case a [select] takes,
    what the executor answers).  A step of the system lets one task act, starts
    a call of [Acquire], or moves [Close] on. *)

From S2P Require Import Prelude TestCases.

(** A sandbox is known by its address. *)
Definition sandbox := nat.

Record Pool := mkPool {
  pl_available : list sandbox;
  pl_all : gset sandbox;
  pl_capacity : nat;
  pl_starting : Z;
  pl_closed : bool;
  pl_flags : gmap sandbox SandboxFlags;
  (* the executor: the containers whose start succeeded and that were not
     removed, and the next address *)
  pl_live : gset sandbox;
  pl_next : nat }.

Definition clear_flags : SandboxFlags := mkSandboxFlags false false.

Definition flags_of (p : Pool) (s : sandbox) : SandboxFlags := default clear_flags (pl_flags p !! s).

(** [NewExecutorSandboxPoolWithMetrics] over [n] started sandboxes, none of them
    nil; so the test of [Acquire] for an empty slot has no counterpart here. *)
Definition NewExecutorSandboxPool (n : nat) : Pool :=
  mkPool (seq 0 n) (list_to_set (seq 0 n)) n 0 false ∅ (list_to_set (seq 0 n)) n.

(** What follows [removeSandbox]. *)
Inductive After := Finish | ThenReplace | InGoroutine.

Inductive Task :=
  (* Acquire *)
  | Acquiring
  | Taken (s : sandbox)
  | Configuring (s : sandbox)
  (* the caller *)
  | Held (s : sandbox)
  (* Release *)
  | Releasing (s : sandbox)
  | Resetting (s : sandbox)
  (* returnSandbox, in the replacement goroutine or not *)
  | Returning (s : sandbox) (goroutine : bool)
  (* removeSandbox, before and after the deletion from the map *)
  | Removing (s : sandbox) (after : After)
  | Deleted (s : sandbox) (after : After)
  (* replace, before and after the test of [closed] under the lock *)
  | Replacing
  | Locked
  (* the replacement goroutine *)
  | Spawned
  | Blocked
  | Provisioning
  | Provisioned (s : sandbox)
  | Adding (s : sandbox).

Inductive Choice :=
  | ChClosed
  | ChReady
  | ChContextDone
  | ChSucceed
  | ChFail
  | ChSetFlags (flags : SandboxFlags)
  | ChRelease
  | ChGo.

Definition set_available (l : list sandbox) (p : Pool) : Pool :=
  mkPool l (pl_all p) (pl_capacity p) (pl_starting p) (pl_closed p) (pl_flags p) (pl_live p) (pl_next p).
Definition set_all (all : gset sandbox) (p : Pool) : Pool :=
  mkPool (pl_available p) all (pl_capacity p) (pl_starting p) (pl_closed p) (pl_flags p) (pl_live p) (pl_next p).
Definition add_starting (z : Z) (p : Pool) : Pool :=
  mkPool (pl_available p) (pl_all p) (pl_capacity p) (pl_starting p + z) (pl_closed p) (pl_flags p) (pl_live p) (pl_next p).
Definition set_closed (p : Pool) : Pool :=
  mkPool (pl_available p) (pl_all p) (pl_capacity p) (pl_starting p) true (pl_flags p) (pl_live p) (pl_next p).
Definition set_flags (s : sandbox) (flags : SandboxFlags) (p : Pool) : Pool :=
  mkPool (pl_available p) (pl_all p) (pl_capacity p) (pl_starting p) (pl_closed p) (<[s := flags]> (pl_flags p))
    (pl_live p) (pl_next p).
Definition set_live (live : gset sandbox) (p : Pool) : Pool :=
  mkPool (pl_available p) (pl_all p) (pl_capacity p) (pl_starting p) (pl_closed p) (pl_flags p) live (pl_next p).

(** A [StartSandbox] that succeeds: a new container at a new address.  One that
    fails gives the pool no sandbox; what it leaves behind is the executor's
    matter ([StartSandbox_promise] of DockerLaws.v): a container that started is
    removed again, one that a failed docker run may have left is not, and is not
    in [pl_live] either. *)
Definition StartSandbox (p : Pool) : sandbox * Pool :=
  (pl_next p, mkPool (pl_available p) (pl_all p) (pl_capacity p) (pl_starting p) (pl_closed p) (pl_flags p)
    ({[pl_next p]} ∪ pl_live p) (S (pl_next p))).

(** The action of a task.  [Spawned] is the head of the replacement loop, where
    the timer of 500 milliseconds is made: the goroutine reaches the [select]
    that follows before the timer fires, so a pool that is closed by then is the
    only case that is ready. *)
Definition advance (choice : Choice) (task : Task) (p : Pool) : option (list Task * Pool) :=
  match task, choice with
  | Acquiring, ChClosed => if pl_closed p then Some ([], p) else None
  | Acquiring, ChReady =>
      match pl_available p with
      | s :: rest => Some ([Taken s], set_available rest p)
      | [] => None
      end
  | Acquiring, ChContextDone => Some ([], p)
  | Taken s, ChGo => if pl_closed p then Some ([Removing s Finish], p) else Some ([Configuring s], p)
  | Configuring s, ChSucceed => Some ([Held s], p)
  | Configuring s, ChFail =>
      Some ([Releasing s], set_flags s (mkSandboxFlags (sb_restarted (flags_of p s)) true) p)
  | Held s, ChSetFlags flags => Some ([Held s], set_flags s flags p)
  | Held s, ChRelease => Some ([Releasing s], p)
  | Releasing s, ChGo =>
      if pl_closed p then Some ([Removing s Finish], p)
      else if sb_needsReplace (flags_of p s) then
        Some ([Removing s ThenReplace], set_flags s (mkSandboxFlags (sb_restarted (flags_of p s)) false) p)
      else if sb_restarted (flags_of p s) then
        Some ([Returning s false], set_flags s (mkSandboxFlags false (sb_needsReplace (flags_of p s))) p)
      else Some ([Resetting s], p)
  | Resetting s, ChSucceed => Some ([Returning s false], p)
  | Resetting s, ChFail => Some ([Removing s ThenReplace], p)
  | Returning s goroutine, ChClosed =>
      if pl_closed p then Some ([Removing s (if goroutine then InGoroutine else Finish)], p) else None
  | Returning s goroutine, ChReady =>
      if (length (pl_available p) <? pl_capacity p)%nat
      then Some ([], set_available (pl_available p ++ [s]) p) else None
  | Removing s after, ChGo => Some ([Deleted s after], set_all (pl_all p ∖ {[s]}) p)
  | Deleted s after, ChGo =>
      Some (match after with ThenReplace => [Replacing] | _ => [] end, set_live (pl_live p ∖ {[s]}) p)
  | Replacing, ChGo => if pl_closed p then Some ([], p) else Some ([Locked], p)
  | Locked, ChGo => Some ([Spawned], add_starting 1 p)
  | Spawned, ChGo => if pl_closed p then Some ([], add_starting (-1) p) else Some ([Blocked], p)
  | Blocked, ChClosed => if pl_closed p then Some ([], add_starting (-1) p) else None
  | Blocked, ChReady => Some ([Provisioning], p)
  | Provisioning, ChFail => Some ([Spawned], p)
  | Provisioning, ChSucceed => let '(s, p) := StartSandbox p in Some ([Provisioned s], p)
  | Provisioned s, ChGo => Some ([Adding s], add_starting (-1) p)
  | Adding s, ChGo => Some ([Returning s true], set_all ({[s]} ∪ pl_all p) p)
  | _, _ => None
  end.

(** ** Stats and Ready *)

Record PoolStats := mkPoolStats { ps_Total : Z; ps_Available : Z; ps_Busy : Z; ps_Starting : Z }.

Definition Stats (p : Pool) : PoolStats :=
  let available := Z.of_nat (length (pl_available p)) in
  let total := Z.of_nat (pl_capacity p) in
  mkPoolStats total available (total - available - pl_starting p) (pl_starting p).

Definition Ready (p : Pool) : bool :=
  negb (pl_closed p || bool_decide (pl_all p = ∅) || (0 <? pl_starting p)%Z).

(** ** The system *)

(** [Close]: waiting for the replacement goroutines, removing what the map
    held, finished. *)
Inductive Closer :=
  | Open
  | Waiting
  | Sweeping (victims : list sandbox)
  | Closed.

#[export] Instance Closer_eq_dec : EqDecision Closer.
Proof. solve_decision. Defined.

Record System := mkSystem {
  sy_pool : Pool;
  sy_tasks : list Task;
  sy_closer : Closer }.

(** The goroutines [replaceWG] counts. *)
Definition in_group (task : Task) : bool :=
  match task with
  | Spawned | Blocked | Provisioning | Provisioned _ | Adding _ | Returning _ true
  | Removing _ InGoroutine | Deleted _ InGoroutine => true
  | _ => false
  end.

Inductive step : System -> System -> Prop :=
  | step_acquire p tasks closer :
      step (mkSystem p tasks closer) (mkSystem p (Acquiring :: tasks) closer)
  | step_task p l1 task l2 closer choice new p' :
      advance choice task p = Some (new, p') ->
      step (mkSystem p (l1 ++ task :: l2) closer) (mkSystem p' (l1 ++ new ++ l2) closer)
  | step_close p tasks :
      step (mkSystem p tasks Open) (mkSystem (set_closed p) tasks Waiting)
  | step_collect p tasks :
      forallb (fun task => negb (in_group task)) tasks = true ->
      step (mkSystem p tasks Waiting) (mkSystem (set_all ∅ p) tasks (Sweeping (elements (pl_all p))))
  | step_sweep p tasks s victims :
      step (mkSystem p tasks (Sweeping (s :: victims)))
           (mkSystem (set_live (pl_live p ∖ {[s]}) p) tasks (Sweeping victims))
  | step_closed p tasks :
      step (mkSystem p tasks (Sweeping [])) (mkSystem p tasks Closed).

Definition initial_system (n : nat) : System := mkSystem (NewExecutorSandboxPool n) [] Open.

Definition reachable (n : nat) (s : System) : Prop := rtc step (initial_system n) s.

(** A run for the examples: a scheduler picks tasks by position. *)
Inductive Move := MoveAcquire | MoveTask (i : nat) (choice : Choice) | MoveClose.

Definition move (m : Move) (s : System) : option System :=
  let '(mkSystem p tasks closer) := s in
  match m with
  | MoveAcquire => Some (mkSystem p (Acquiring :: tasks) closer)
  | MoveTask i choice =>
      task ← tasks !! i;
      '(new, p') ← advance choice task p;
      Some (mkSystem p' (take i tasks ++ new ++ drop (S i) tasks) closer)
  | MoveClose =>
      match closer with
      | Open => Some (mkSystem (set_closed p) tasks Waiting)
      | Waiting =>
          if forallb (fun task => negb (in_group task)) tasks
          then Some (mkSystem (set_all ∅ p) tasks (Sweeping (elements (pl_all p)))) else None
      | Sweeping (s :: victims) => Some (mkSystem (set_live (pl_live p ∖ {[s]}) p) tasks (Sweeping victims))
      | Sweeping [] => Some (mkSystem p tasks Closed)
      | Closed => None
      end
  end.

Fixpoint moves (ms : list Move) (s : System) : option System :=
  match ms with [] => Some s | m :: ms => s' ← move m s; moves ms s' end.

Lemma move_step m s s' : move m s = Some s' -> step s s'.
Proof.
  destruct s as [p tasks closer], m as [|i choice|]; cbn.
  - intros [= <-]. constructor.
  - destruct (tasks !! i) as [task|] eqn:Hi; [|done]. cbn.
    destruct (advance choice task p) as [[new p']|] eqn:E; [|done]. intros [= <-].
    rewrite -{1}(take_drop_middle tasks i task Hi). by eapply step_task.
  - destruct closer as [| |[|s victims]|]; try (intros [= <-]; constructor).
    destruct (forallb _ _) eqn:E; [|done]. intros [= <-]. by constructor.
Qed.

Lemma moves_reachable n ms s : moves ms (initial_system n) = Some s -> reachable n s.
Proof.
  rewrite /reachable. generalize (initial_system n) as s0. induction ms as [|m ms IH]; intros s0; cbn.
  - by intros [= <-].
  - destruct (move m s0) as [s1|] eqn:E; [|done]. cbn. intros Hrest.
    eapply rtc_l; [by eapply move_step|by apply IH].
Qed.

(** ** What a task holds *)

(** The sandbox it alone may use. *)
Definition owned (task : Task) : list sandbox :=
  match task with
  | Taken s | Configuring s | Held s | Releasing s | Resetting s | Returning s _ | Removing s _ | Deleted s _
  | Provisioned s | Adding s => [s]
  | _ => []
  end.

(** Whether it will bring a sandbox back, as far as the pool stays open. *)
Definition slot (task : Task) : nat :=
  match task with
  | Acquiring | Removing _ (Finish | InGoroutine) | Deleted _ (Finish | InGoroutine) => 0
  | _ => 1
  end.

(** Whether it is counted by [starting]. *)
Definition counted (task : Task) : nat :=
  match task with Spawned | Blocked | Provisioning | Provisioned _ => 1 | _ => 0 end.

Definition all_owned (tasks : list Task) : list sandbox := concat (map owned tasks).
Definition slots (tasks : list Task) : nat := sum_list_with slot tasks.
Definition starters (tasks : list Task) : nat := sum_list_with counted tasks.

Lemma all_owned_app l1 l2 : all_owned (l1 ++ l2) = all_owned l1 ++ all_owned l2.
Proof. by rewrite /all_owned map_app concat_app. Qed.
Lemma slots_app l1 l2 : slots (l1 ++ l2) = (slots l1 + slots l2)%nat.
Proof. apply sum_list_with_app. Qed.
Lemma starters_app l1 l2 : starters (l1 ++ l2) = (starters l1 + starters l2)%nat.
Proof. apply sum_list_with_app. Qed.

(** ** What one action does *)

(** Case analysis over the points of the code and the choices that move. *)
Ltac advance_cases E :=
  match type of E with
  | advance ?choice ?task _ = Some _ =>
      destruct task, choice; cbn [advance StartSandbox] in E; try discriminate E;
      repeat match type of E with
      | (if ?c then _ else _) = _ => destruct c eqn:?; try discriminate E
      | (match ?l with [] => _ | _ => _ end) = _ => destruct l eqn:?; try discriminate E
      end; injection E as <- <-
  end.

Lemma advance_slots choice task p new p' :
  advance choice task p = Some (new, p') ->
  pl_capacity p' = pl_capacity p /\ (pl_closed p' = pl_closed p) /\
  (length (pl_available p') + slots new <= length (pl_available p) + slot task)%nat /\
  (pl_closed p = false -> slot task = 1 \/ task = Acquiring ->
     (length (pl_available p') + slots new = length (pl_available p) + slot task)%nat).
Proof.
  intros E. advance_cases E; cbn; try (destruct (pl_closed p)); repeat case_match; cbn in *;
    rewrite ?length_app; cbn; split_and!; try done; try lia; try (intros; lia).
Qed.
