(* ===== verification/PoolLaws.v ===== *)
(** * Laws of the sandbox pool *)

From S2P Require Import Prelude TestCases Pool.

(** The tasks that only exist once the pool is closed. *)
Definition late (task : Task) : bool :=
  match task with Removing _ (Finish | InGoroutine) | Deleted _ (Finish | InGoroutine) => true | _ => false end.

(** The tasks whose sandbox is ready for another submission. *)
Definition clean (task : Task) : list sandbox :=
  match task with
  | Taken s | Configuring s | Resetting s | Returning s _ | Provisioned s | Adding s => [s]
  | _ => []
  end.

(** The containers outside the map that a task will remove or add. *)
Definition pending (task : Task) : list sandbox :=
  match task with Deleted s _ | Provisioned s | Adding s => [s] | _ => [] end.

Definition victims (closer : Closer) : list sandbox :=
  match closer with Sweeping l => l | _ => [] end.

Definition swept (closer : Closer) : bool :=
  match closer with Sweeping _ | Closed => true | _ => false end.

Lemma NoDup_sub {A} (l k : list A) : l ⊆+ k -> NoDup k -> NoDup l.
Proof. intros [k' ->]%submseteq_Permutation Hk. by apply NoDup_app in Hk as []. Qed.

Lemma advance_owned choice task p new p' :
  advance choice task p = Some (new, p') ->
  pl_next p' = pl_next p /\ pl_available p' ++ all_owned new ⊆+ pl_available p ++ owned task \/
  pl_next p' = S (pl_next p) /\ pl_available p' = pl_available p /\ all_owned new = [pl_next p] /\ owned task = [].
Proof.
  intros E. advance_cases E; cbn; try (by right); left; split; try done; repeat case_match; cbn;
    rewrite ?app_nil_r //.
  1: apply Permutation_submseteq; symmetry; apply Permutation_cons_append.
  all: by apply submseteq_inserts_r.
Qed.

Lemma advance_starting choice task p new p' :
  advance choice task p = Some (new, p') ->
  (pl_starting p' + Z.of_nat (counted task) = pl_starting p + Z.of_nat (starters new))%Z.
Proof. intros E. advance_cases E; cbn; repeat case_match; cbn; lia. Qed.

Lemma advance_late choice task p new p' :
  advance choice task p = Some (new, p') -> late task = false -> pl_closed p = false ->
  Forall (fun t => late t = false) new.
Proof.
  intros E. advance_cases E; cbn; repeat case_match; intros; simplify_eq; try congruence; repeat constructor; try done.
Qed.

(** Only the flags of the task's own sandbox change, and what becomes ready
    for another submission has its flags clear. *)
Lemma advance_flags choice task p new p' :
  advance choice task p = Some (new, p') ->
  NoDup (pl_available p ++ owned task) ->
  (forall x, (pl_next p <= x)%nat -> pl_flags p !! x = None) ->
  (forall x, x ∈ pl_available p ++ owned task -> (x < pl_next p)%nat) ->
  (forall x, x ∈ pl_available p ++ clean task -> flags_of p x = clear_flags) ->
  (forall x, x ∉ owned task -> flags_of p' x = flags_of p x) /\
  (forall x, (pl_next p' <= x)%nat -> pl_flags p' !! x = None) /\
  (forall x, x ∈ pl_available p' ++ concat (map clean new) -> flags_of p' x = clear_flags).
Proof.
  intros E Hdup Hnone Hlt Hclean.
  assert (forall s flags, s ∈ owned task ->
    (forall x, x ∉ owned task -> flags_of (set_flags s flags p) x = flags_of p x) /\
    (forall x, (pl_next p <= x)%nat -> pl_flags (set_flags s flags p) !! x = None) /\
    (forall x, x ∈ pl_available p -> flags_of (set_flags s flags p) x = clear_flags)) as Hset.
  { intros s flags Hs. rewrite /flags_of /set_flags. cbn [pl_flags]. split_and!; intros x Hx.
    - rewrite lookup_insert_ne //. by intros <-.
    - rewrite lookup_insert_ne; [|by apply Hnone]. intros <-. assert (s < pl_next p)%nat; [|lia]. apply Hlt, elem_of_app. by right.
    - rewrite lookup_insert_ne; [|by apply Hclean, elem_of_app; left]. intros <-.
      apply NoDup_app in Hdup as (_ & Hdisj & _). by eapply Hdisj. }
  assert (forall s, sb_restarted (flags_of p s) = false -> sb_needsReplace (flags_of p s) = false ->
    flags_of p s = clear_flags) as Hboth.
  { intros s. destruct (flags_of p s). by cbn; intros -> ->. }
  advance_cases E; cbn [owned clean concat map app] in *; split_and!.
  all: try (intros x Hx; first [done|by apply Hset; [left|]|by apply Hnone; cbn in Hx |- *; lia]).
  all: intros x [Hx|Hx]%elem_of_app; rewrite ?app_nil_r in Hx; rewrite ?list_elem_of_singleton in Hx; subst.
  all: try by destruct (proj1 (elem_of_nil _) Hx).
  all: try (by apply Hclean, elem_of_app; (left + right); rewrite ?list_elem_of_singleton //).
  all: try (by apply Hset; [left|]).
  - apply (Hclean x). right. apply elem_of_app. by left.
  - apply (Hclean s). by left.
  - by rewrite /flags_of /set_flags /= lookup_insert_eq.
  - by apply Hboth.
  - move: Hx. rewrite elem_of_app. intros [Hx| ->%list_elem_of_singleton].
    + apply (Hclean x), elem_of_app. by left.
    + apply (Hclean s), elem_of_app. right. by left.
  - exfalso. move: Hx. destruct after; cbn; apply not_elem_of_nil.
  - by rewrite /flags_of /= Hnone.
Qed.

Lemma advance_live choice task p new p' x :
  advance choice task p = Some (new, p') ->
  (x ∈ pl_live p' -> (x ∈ pl_live p /\ (x ∈ pl_all p -> x ∈ pl_all p' \/ x ∈ concat (map pending new)) /\
                      (x ∈ pending task -> x ∈ pl_all p' \/ x ∈ concat (map pending new)))
                     \/ x ∈ concat (map pending new)).
Proof.
  intros E. advance_cases E; cbn; repeat case_match; cbn; try set_solver.
  intros Hx. destruct (decide (x = s)) as [->|]; [right; by left|left]. split; [done|]. set_solver.
Qed.

(** After the sweep has begun the map stays empty and no replacement gets past
    its first test. *)
Definition settling (task : Task) : Prop := in_group task = false \/ task = Spawned.

Lemma advance_settling choice task p new p' :
  advance choice task p = Some (new, p') -> pl_closed p = true -> pl_all p = ∅ -> settling task ->
  pl_all p' = ∅ /\ Forall settling new.
Proof.
  intros E Hc Hall Ht. rewrite /settling. advance_cases E; cbn; rewrite ?Hall;
    destruct Ht as [Ht|Ht]; try discriminate Ht; try congruence; (split; [set_solver|]).
  all: repeat case_match; repeat constructor; by auto.
Qed.

Record pool_inv (n : nat) (s : System) : Prop := {
  pi_capacity : pl_capacity (sy_pool s) = n;
  pi_bound : (length (pl_available (sy_pool s)) + slots (sy_tasks s) <= n)%nat;
  pi_slots : pl_closed (sy_pool s) = false -> (length (pl_available (sy_pool s)) + slots (sy_tasks s) = n)%nat;
  pi_late : pl_closed (sy_pool s) = false -> Forall (fun t => late t = false) (sy_tasks s);
  pi_starting : pl_starting (sy_pool s) = Z.of_nat (starters (sy_tasks s));
  pi_owner : NoDup (pl_available (sy_pool s) ++ all_owned (sy_tasks s));
  pi_known : forall x, x ∈ pl_available (sy_pool s) ++ all_owned (sy_tasks s) -> (x < pl_next (sy_pool s))%nat;
  pi_fresh : forall x, (pl_next (sy_pool s) <= x)%nat -> pl_flags (sy_pool s) !! x = None;
  pi_clean : forall x, x ∈ pl_available (sy_pool s) ++ concat (map clean (sy_tasks s)) ->
    flags_of (sy_pool s) x = clear_flags;
  pi_closed : pl_closed (sy_pool s) = negb (bool_decide (sy_closer s = Open));
  pi_live : forall x, x ∈ pl_live (sy_pool s) ->
    x ∈ pl_all (sy_pool s) \/ x ∈ concat (map pending (sy_tasks s)) \/ x ∈ victims (sy_closer s);
  pi_swept : swept (sy_closer s) = true -> pl_all (sy_pool s) = ∅ /\ Forall settling (sy_tasks s) }.

(** Sums and lists over the tasks with one of them replaced. *)
Lemma concat_map_app {A} (f : Task -> list A) l1 l2 :
  concat (map f (l1 ++ l2)) = concat (map f l1) ++ concat (map f l2).
Proof. by rewrite map_app concat_app. Qed.

Lemma elem_of_concat_map {A} (f : Task -> list A) tasks x :
  x ∈ concat (map f tasks) <-> exists task, task ∈ tasks /\ x ∈ f task.
Proof.
  induction tasks as [|task tasks IH]; cbn; [split; [by intros ?%elem_of_nil|by intros (? & ?%elem_of_nil & _)]|].
  rewrite elem_of_app IH. set_solver.
Qed.

Lemma clean_owned task x : x ∈ clean task -> x ∈ owned task.
Proof. destruct task; cbn; try done; by intros ?%elem_of_nil. Qed.

Lemma initial_inv n : pool_inv n (initial_system n).
Proof.
  split; cbn; try done.
  - rewrite length_seq. lia.
  - rewrite length_seq. lia.
  - rewrite app_nil_r. apply NoDup_seq.
  - intros x. rewrite app_nil_r elem_of_seq. lia.
  - intros x Hx. left. set_solver.
Qed.

(** The held and idle sandboxes before and after a task's action. *)
Lemma advance_held choice task p new p' l1 l2 :
  advance choice task p = Some (new, p') ->
  pl_next p' = pl_next p /\
    pl_available p' ++ all_owned (l1 ++ new ++ l2) ⊆+ pl_available p ++ all_owned (l1 ++ task :: l2) \/
  pl_next p' = S (pl_next p) /\
    pl_available p' ++ all_owned (l1 ++ new ++ l2) ≡ₚ pl_next p :: pl_available p ++ all_owned (l1 ++ task :: l2).
Proof.
  intros E. assert (forall av ns, av ++ all_owned (l1 ++ ns ++ l2) ≡ₚ (av ++ all_owned ns) ++ all_owned (l1 ++ l2)) as Hperm.
  { intros av ns. rewrite !all_owned_app. solve_Permutation. }
  change (task :: l2) with ([task] ++ l2). rewrite !Hperm.
  assert (all_owned [task] = owned task) as Hone by apply app_nil_r.
  destruct (advance_owned _ _ _ _ _ E) as [[Hn Hsub]|(Hn & Hav & Hnew & Hold)]; [left|right]; (split; [done|]); rewrite Hone.
  - by apply submseteq_skips_r.
  - rewrite Hav Hnew Hold app_nil_r. rewrite -app_assoc /=. by rewrite -Permutation_middle.
Qed.

(** What another task holds is not held by this one. *)
Lemma owned_elsewhere l1 task l2 x :
  NoDup (all_owned (l1 ++ [task] ++ l2)) ->
  x ∈ concat (map clean l1) \/ x ∈ concat (map clean l2) -> x ∉ owned task.
Proof.
  intros Hown Hx Hin. rewrite !all_owned_app /all_owned /= app_nil_r in Hown.
  apply NoDup_app in Hown as (_ & Hdisj & Hown). apply NoDup_app in Hown as (_ & Hdisj' & _).
  destruct Hx as [Hx|Hx]; apply elem_of_concat_map in Hx as (t0 & Ht0 & Hx%clean_owned).
  - apply (Hdisj x); [apply elem_of_concat_map; eauto|]. apply elem_of_app. by left.
  - apply (Hdisj' x); [done|]. apply elem_of_concat_map; eauto.
Qed.

(** A live container stays known, awaited or condemned. *)
Lemma advance_alive choice task p new p' l1 l2 closer :
  advance choice task p = Some (new, p') ->
  (forall x, x ∈ pl_live p ->
     x ∈ pl_all p \/ x ∈ concat (map pending (l1 ++ task :: l2)) \/ x ∈ victims closer) ->
  forall x, x ∈ pl_live p' -> x ∈ pl_all p' \/ x ∈ concat (map pending (l1 ++ new ++ l2)) \/ x ∈ victims closer.
Proof.
  intros E Hlive x Hx. rewrite !concat_map_app !elem_of_app.
  destruct (advance_live _ _ _ _ _ x E Hx) as [(Hold & Hall & Hpend)|?]; [|tauto].
  destruct (Hlive x Hold) as [Ha|[Hp|]]; [destruct (Hall Ha); tauto| |tauto].
  rewrite concat_map_app elem_of_app in Hp. cbn in Hp. rewrite elem_of_app in Hp.
  destruct Hp as [|[Hp|]]; [tauto|destruct (Hpend Hp); tauto|tauto].
Qed.

Lemma task_inv n p l1 task l2 closer choice new p' :
  pool_inv n (mkSystem p (l1 ++ task :: l2) closer) -> advance choice task p = Some (new, p') ->
  pool_inv n (mkSystem p' (l1 ++ new ++ l2) closer).
Proof.
  intros [Hcap Hb Hs Hl Hst Hown Hk Hf Hc Hcl Hlive Hsw] E. cbn [sy_pool sy_tasks sy_closer] in *.
  destruct (advance_slots _ _ _ _ _ E) as (Ecap & Ecl & Eb & Es).
  pose proof (advance_starting _ _ _ _ _ E) as Est.
  assert (pl_available p ++ owned task ⊆+ pl_available p ++ all_owned (l1 ++ task :: l2)) as Hsub.
  { apply submseteq_skips_l. change (task :: l2) with ([task] ++ l2). rewrite !all_owned_app.
    assert (all_owned [task] = owned task) as -> by apply app_nil_r.
    by apply submseteq_inserts_l, submseteq_inserts_r. }
  assert (NoDup (pl_available p ++ owned task)) as Hown1 by by eapply NoDup_sub.
  assert (forall x, x ∈ pl_available p ++ owned task -> (x < pl_next p)%nat) as Hk1.
  { intros x Hx. apply Hk. by eapply elem_of_submseteq. }
  assert (forall x, x ∈ pl_available p ++ clean task -> flags_of p x = clear_flags) as Hc1.
  { intros x. rewrite elem_of_app. intros Hx. apply Hc. rewrite elem_of_app elem_of_concat_map.
    destruct Hx as [|Hx]; [by left|right]. exists task. split; [apply elem_of_app; right; by left|done]. }
  destruct (advance_flags _ _ _ _ _ E Hown1 Hf Hk1 Hc1) as (Fsame & Ffresh & Fclean).
  change (task :: l2) with ([task] ++ l2) in Hb, Hs, Hst.
  rewrite !slots_app in Hb, Hs. rewrite !starters_app in Hst. cbn [slots starters sum_list_with] in *.
  split; cbn [sy_pool sy_tasks sy_closer].
  - by rewrite Ecap.
  - rewrite !slots_app. lia.
  - rewrite Ecl. intros Hcl0. specialize (Hs Hcl0). specialize (Hl Hcl0). specialize (Es Hcl0).
    rewrite !slots_app. apply Forall_app in Hl as [_ [Hl _]%Forall_cons].
    assert (slot task = 1 \/ task = Acquiring) as Hslot 
      by (destruct task as [| | | | | | |? []|? []| | | | | | |]; try discriminate Hl; auto).
    specialize (Es Hslot). lia.
  - rewrite Ecl. intros Hcl0. specialize (Hl Hcl0). rewrite !Forall_app Forall_cons in Hl |- *.
    destruct Hl as (? & ? & ?). split_and!; try done. by eapply advance_late.
  - rewrite !starters_app. lia.
  - destruct (advance_held _ _ _ _ _ l1 l2 E) as [[_ Hsub']|[_ Hperm]]; [by eapply NoDup_sub|].
    rewrite Hperm. apply NoDup_cons. split; [|done]. intros Hin%Hk. lia.
  - intros x Hx. destruct (advance_held _ _ _ _ _ l1 l2 E) as [[-> Hsub']|[-> Hperm]].
    + apply Hk. by eapply elem_of_submseteq.
    + rewrite Hperm in Hx. apply elem_of_cons in Hx as [->|Hx%Hk]; lia.
  - done.
  - intros x. rewrite !concat_map_app !elem_of_app.
    intros [Hx|[Hx|[Hx|Hx]]]; [apply Fclean, elem_of_app; by left| |apply Fclean, elem_of_app; by right|].
    all: rewrite Fsame; [|apply Hc; rewrite concat_map_app !elem_of_app /= ?elem_of_app; tauto].
    all: apply NoDup_app in Hown as (_ & _ & Hown); eapply owned_elsewhere; [exact Hown|tauto].
  - by rewrite Ecl.
  - eapply advance_alive; [exact E|exact Hlive].
  - intros Hsweep. destruct (Hsw Hsweep) as [Hall Hset]. rewrite !Forall_app Forall_cons in Hset |- *.
    destruct Hset as (? & ? & ?).
    destruct (advance_settling _ _ _ _ _ E) as [-> ?]; [|done..|by split_and!].
    rewrite Hcl bool_decide_eq_false_2 //. by destruct closer.
Qed.

Lemma step_inv n s s' : pool_inv n s -> step s s' -> pool_inv n s'.
Proof.
  intros Hinv Hstep. destruct Hstep as [p tasks closer|p l1 task l2 closer choice new p' E|p tasks|p tasks Hgroup
    |p tasks x l|p tasks].
  - destruct Hinv as [Hcap Hb Hs Hl Hst Hown Hk Hf Hc Hcl Hlive Hsw]. split; cbn in *; try done.
    + intros Hcl0. constructor; [done|by apply Hl].
    + intros Hsweep. destruct (Hsw Hsweep). split; [done|]. constructor; [by left|done].
  - by eapply task_inv.
  - destruct Hinv as [Hcap Hb Hs Hl Hst Hown Hk Hf Hc Hcl Hlive Hsw]. by split; cbn in *.
  - destruct Hinv as [Hcap Hb Hs Hl Hst Hown Hk Hf Hc Hcl Hlive Hsw]. split; cbn in *; try done.
    + intros x Hx. destruct (Hlive x Hx) as [?|[?|?]]; [|tauto|set_solver]. right. right. by apply elem_of_elements.
    + intros _. split; [done|]. apply Forall_forall. intros task Htask. left.
      rewrite forallb_forall in Hgroup. apply negb_true_iff, Hgroup. by apply list_elem_of_In.
  - destruct Hinv as [Hcap Hb Hs Hl Hst Hown Hk Hf Hc Hcl Hlive Hsw]. split; cbn in *; try done.
    intros y Hy. destruct (Hlive y) as [?|[?|Hv]]; [set_solver|tauto|tauto|].
    apply elem_of_cons in Hv as [->|?]; [set_solver|tauto].
  - destruct Hinv as [Hcap Hb Hs Hl Hst Hown Hk Hf Hc Hcl Hlive Hsw]. by split; cbn in *.
Qed.

Lemma reachable_inv n s : reachable n s -> pool_inv n s.
Proof.
  rewrite /reachable. assert (pool_inv n (initial_system n)) as Hinit by apply initial_inv.
  revert Hinit. generalize (initial_system n) as s0. intros s0 Hinit Hr.
  induction Hr as [|s1 s2 s3 Hstep _ IH]; [done|]. by eapply IH, step_inv.
Qed.

(** ** The theorems *)

(** The tasks at work on a sandbox, or on the way to one outside the
    replacement goroutines [starting] counts. *)
Definition working (task : Task) : nat := slot task - counted task.

Lemma slots_working tasks : slots tasks = (sum_list_with working tasks + starters tasks)%nat.
Proof.
  rewrite /slots /starters. induction tasks as [|task tasks IH]; cbn; [done|]. rewrite IH.
  assert (counted task <= slot task)%nat by (destruct task as [| | | | | | |? []|? []| | | | | | |]; cbn; lia).
  rewrite /working. lia.
Qed.

(** C28 (invariant): while the pool is open every slot is accounted for: a
    sandbox is idle, at work, or being replaced.  [Stats] reports exactly these
    numbers, none of them negative, and handing a sandbox back never blocks. *)
Theorem pool_accounts n s :
  reachable n s -> pl_closed (sy_pool s) = false ->
  let stats := Stats (sy_pool s) in
  ps_Total stats = Z.of_nat n /\
  ps_Busy stats = Z.of_nat (sum_list_with working (sy_tasks s)) /\
  ps_Starting stats = Z.of_nat (starters (sy_tasks s)) /\
  (ps_Available stats + ps_Busy stats + ps_Starting stats = ps_Total stats)%Z /\
  forall l1 x goroutine l2, sy_tasks s = l1 ++ Returning x goroutine :: l2 ->
    is_Some (advance ChReady (Returning x goroutine) (sy_pool s)).
Proof.
  intros Hr%reachable_inv Hopen. destruct Hr as [Hcap _ Hs _ Hst _ _ _ _ _ _ _]. specialize (Hs Hopen).
  rewrite slots_working in Hs.
  rewrite /Stats. cbn [ps_Total ps_Available ps_Busy ps_Starting]. split_and!; try lia.
  intros l1 x goroutine l2 E. rewrite E sum_list_with_app starters_app /= in Hs.
  rewrite /working /= in Hs. rewrite /advance.
  destruct (Nat.ltb_spec (length (pl_available (sy_pool s))) (pl_capacity (sy_pool s))); [done|lia].
Qed.

(** C29 (safety): a sandbox is never idle and in use at once, nor in use by two
    callers, and an idle sandbox carries none of the marks of its last
    submission. *)
Theorem pool_exclusive n s :
  reachable n s ->
  NoDup (pl_available (sy_pool s) ++ all_owned (sy_tasks s)) /\
  (forall x, x ∈ pl_available (sy_pool s) -> flags_of (sy_pool s) x = clear_flags) /\
  forall l1 x l2, sy_tasks s = l1 ++ Held x :: l2 ->
    (x ∉ pl_available (sy_pool s)) /\ Forall (fun task => x ∉ owned task) (l1 ++ l2).
Proof.
  intros Hr%reachable_inv. pose proof (pi_owner _ _ Hr) as Hown. split_and!; [done| |].
  - intros x Hx. apply (pi_clean _ _ Hr), elem_of_app. by left.
  - intros l1 x l2 E. rewrite E in Hown.
    assert (pl_available (sy_pool s) ++ all_owned (l1 ++ Held x :: l2) ≡ₚ
      x :: pl_available (sy_pool s) ++ all_owned (l1 ++ l2)) as Hperm.
    { change (Held x :: l2) with ([Held x] ++ l2). rewrite !all_owned_app /=. solve_Permutation. }
    rewrite Hperm in Hown. apply NoDup_cons in Hown as [Hx _]. rewrite elem_of_app in Hx.
    split; [tauto|]. apply Forall_forall. intros task Ht Hin. apply Hx. right.
    apply elem_of_concat_map. by exists task.
Qed.

(** C30 (safety): once [Close] has returned and no call is in the middle of
    removing a container, none of the containers that were started for the pool
    is left, whatever was acquired, replaced or released while it ran.  A
    container counts as started when [StartSandbox] returned it. *)
Theorem closed_pool_is_empty n s :
  reachable n s -> sy_closer s = Closed -> Forall (fun task => pending task = []) (sy_tasks s) ->
  pl_live (sy_pool s) = ∅.
Proof.
  intros Hr%reachable_inv Hclosed Hpend. apply set_eq. intros x. split; [|set_solver]. intros Hx.
  destruct (pi_swept _ _ Hr) as [Hall _]; [by rewrite Hclosed|].
  destruct (pi_live _ _ Hr x Hx) as [?|[Hin|Hin]]; [set_solver| |by rewrite Hclosed /= in Hin; apply not_elem_of_nil in Hin].
  apply elem_of_concat_map in Hin as (task & Ht & Hin). rewrite Forall_forall in Hpend.
  rewrite Hpend // in Hin. by apply not_elem_of_nil in Hin.
Qed.

(** ** Examples *)

(** Two submissions; the first sandbox cannot be reset and is replaced, the
    second is handed back after a restart. *)
Definition demo_moves : list Move :=
  [MoveAcquire; MoveTask 0 ChReady; MoveTask 0 ChGo; MoveTask 0 ChSucceed; MoveTask 0 ChRelease; MoveTask 0 ChGo;
   MoveTask 0 ChFail; MoveTask 0 ChGo; MoveTask 0 ChGo; MoveTask 0 ChGo; MoveTask 0 ChGo;
   MoveAcquire; MoveTask 0 ChReady; MoveTask 0 ChGo; MoveTask 0 ChSucceed;
   MoveTask 0 (ChSetFlags (mkSandboxFlags true false))].

Definition demo_system : System := default (initial_system 2) (moves demo_moves (initial_system 2)).

Lemma demo_pool_reachable : reachable 2 demo_system.
Proof. apply (moves_reachable 2 demo_moves). vm_compute. reflexivity. Qed.

Lemma pool_accounts_witness :
  sy_tasks demo_system = [Held 1%nat; Spawned] /\ ps_Busy (Stats (sy_pool demo_system)) = 1%Z.
Proof.
  split; [vm_compute; reflexivity|].
  destruct (pool_accounts 2 demo_system demo_pool_reachable ltac:(vm_compute; reflexivity)) as (_ & Hbusy & _).
  rewrite Hbusy. vm_compute. reflexivity.
Defined.

Lemma pool_exclusive_witness : (1%nat ∉ pl_available (sy_pool demo_system)).
Proof.
  destruct (pool_exclusive 2 demo_system demo_pool_reachable) as (_ & _ & Hheld).
  apply (Hheld [] 1%nat [Spawned]). vm_compute. reflexivity.
Defined.

(** The same run with the pool closed before the second caller releases. *)
Definition closing_moves : list Move :=
  demo_moves ++ [MoveClose; MoveTask 1 ChGo; MoveClose; MoveClose; MoveClose; MoveTask 0 ChRelease; MoveTask 0 ChGo;
    MoveTask 0 ChGo; MoveTask 0 ChGo].

Definition closed_system : System := default (initial_system 2) (moves closing_moves (initial_system 2)).

Lemma closed_pool_is_empty_witness : sy_tasks closed_system = [] /\ pl_live (sy_pool closed_system) = ∅.
Proof.
  split; [vm_compute; reflexivity|].
  apply (closed_pool_is_empty 2 closed_system); [|vm_compute; reflexivity|vm_compute; constructor].
  apply (moves_reachable 2 closing_moves). vm_compute. reflexivity.
Defined.
