(* ===== verification/CompileWorkers.v ===== *)
(** * The compile workers: internal/judge/compile_workers.go

    Submission workers hand compilations to a fixed number of compile workers
    through a channel.  The state holds the channel, the workers, the calls of
    [Compile] and the results sent so far; a step is one atomic action of a
    caller or a worker. *)

From S2P Require Import Prelude TestCases PoolLaws.

Definition answer := result (option RunResult).

Definition context_canceled : goerr := LibErr "context canceled".
Definition pool_closed_error : goerr := Errorf "compile worker pool is closed: %w" [FErr context_canceled].

(** Where a call of [Compile] stands; a request is its number. *)
Inductive Caller :=
  | Submitting
  | Awaiting
  | Answered (a : answer).

Inductive CompileWorker :=
  | Idle
  | Received (request : nat)
  | Compiling (request : nat)
  | Exited.

(** [cw_callers] holds the calls by request number, [cw_done] the requests
    whose context is done with its [ctx.Err()], and [cw_sent] what was sent to
    the result channels, each of which has room for one. *)
Record CompileWorkerPool := mkCompileWorkerPool {
  cw_capacity : nat;
  cw_jobs : list nat;
  cw_workers : list CompileWorker;
  cw_closed : bool;
  cw_callers : list Caller;
  cw_done : gmap nat goerr;
  cw_sent : list (nat * answer) }.

Definition worker_capacity (capacity : Z) : nat := if (capacity <? 1)%Z then 1 else Z.to_nat capacity.

Definition NewCompileWorkerPool (capacity : Z) : CompileWorkerPool :=
  let n := worker_capacity capacity in
  mkCompileWorkerPool n [] (replicate n Idle) false [] ∅ [].

Definition result_of (request : nat) (p : CompileWorkerPool) : option answer :=
  snd <$> head (filter (fun sent => fst sent = request) (cw_sent p)).

(** ** One action *)

Inductive CallerMove := SelectClosed | SelectContext | SelectReady.

Definition set_callers (callers : list Caller) (p : CompileWorkerPool) : CompileWorkerPool :=
  mkCompileWorkerPool (cw_capacity p) (cw_jobs p) (cw_workers p) (cw_closed p) callers (cw_done p) (cw_sent p).
Definition set_jobs (jobs : list nat) (p : CompileWorkerPool) : CompileWorkerPool :=
  mkCompileWorkerPool (cw_capacity p) jobs (cw_workers p) (cw_closed p) (cw_callers p) (cw_done p) (cw_sent p).
Definition set_workers (workers : list CompileWorker) (p : CompileWorkerPool) : CompileWorkerPool :=
  mkCompileWorkerPool (cw_capacity p) (cw_jobs p) workers (cw_closed p) (cw_callers p) (cw_done p) (cw_sent p).
Definition send (request : nat) (a : answer) (p : CompileWorkerPool) : CompileWorkerPool :=
  mkCompileWorkerPool (cw_capacity p) (cw_jobs p) (cw_workers p) (cw_closed p) (cw_callers p) (cw_done p)
    (cw_sent p ++ [(request, a)]).

(** The [select]s of [Compile], for call [request]. *)
Definition caller_step (move : CallerMove) (request : nat) (p : CompileWorkerPool) : option CompileWorkerPool :=
  let finish a := set_callers (<[request := Answered a]> (cw_callers p)) p in
  match cw_callers p !! request, move with
  | Some (Submitting | Awaiting), SelectClosed => if cw_closed p then Some (finish (Err pool_closed_error)) else None
  | Some (Submitting | Awaiting), SelectContext =>
      match cw_done p !! request with Some e => Some (finish (Err e)) | None => None end
  | Some Submitting, SelectReady =>
      if (length (cw_jobs p) <? cw_capacity p)%nat
      then Some (set_jobs (cw_jobs p ++ [request]) (set_callers (<[request := Awaiting]> (cw_callers p)) p)) else None
  | Some Awaiting, SelectReady =>
      match result_of request p with Some a => Some (finish a) | None => None end
  | _, _ => None
  end.

Inductive WorkerMove := WorkerStop | WorkerReceive | WorkerProcess | WorkerCompiled (a : answer).

(** [worker] and [process], for worker [i]. *)
Definition worker_step (move : WorkerMove) (i : nat) (p : CompileWorkerPool) : option CompileWorkerPool :=
  let become w := set_workers (<[i := w]> (cw_workers p)) in
  match cw_workers p !! i, move with
  | Some Idle, WorkerStop => if cw_closed p then Some (become Exited p) else None
  | Some Idle, WorkerReceive =>
      match cw_jobs p with
      | request :: rest => Some (become (Received request) (set_jobs rest p))
      | [] => None
      end
  | Some (Received request), WorkerProcess =>
      match cw_done p !! request with
      | Some e => Some (become Idle (send request (Err e) p))
      | None => Some (become (Compiling request) p)
      end
  | Some (Compiling request), WorkerCompiled a => Some (become Idle (send request a p))
  | _, _ => None
  end.

Inductive compile_step : CompileWorkerPool -> CompileWorkerPool -> Prop :=
  | compile_call p :
      compile_step p (set_callers (cw_callers p ++ [Submitting]) p)
  | compile_cancel p request e :
      cw_done p !! request = None ->
      compile_step p (mkCompileWorkerPool (cw_capacity p) (cw_jobs p) (cw_workers p) (cw_closed p) (cw_callers p)
        (<[request := e]> (cw_done p)) (cw_sent p))
  | compile_close p :
      compile_step p (mkCompileWorkerPool (cw_capacity p) (cw_jobs p) (cw_workers p) true (cw_callers p)
        (cw_done p) (cw_sent p))
  | compile_caller p move request p' :
      caller_step move request p = Some p' -> compile_step p p'
  | compile_worker p move i p' :
      worker_step move i p = Some p' -> compile_step p p'.

Definition compile_reachable (capacity : Z) (p : CompileWorkerPool) : Prop :=
  rtc compile_step (NewCompileWorkerPool capacity) p.

(** ** Where the requests are *)

Definition at_worker (w : CompileWorker) : list nat :=
  match w with Received request | Compiling request => [request] | _ => [] end.

Definition compiling (w : CompileWorker) : bool := match w with Compiling _ => true | _ => false end.

Definition in_play (p : CompileWorkerPool) : list nat :=
  cw_jobs p ++ concat (map at_worker (cw_workers p)) ++ map fst (cw_sent p).

(** A request that was handed over is a call that no longer submits. *)
Definition handed_over (p : CompileWorkerPool) (request : nat) : Prop :=
  exists caller, cw_callers p !! request = Some caller /\ caller <> Submitting.

Definition answered_right (p : CompileWorkerPool) (request : nat) (a : answer) : Prop :=
  cw_closed p = true /\ a = Err pool_closed_error
  \/ (exists e, cw_done p !! request = Some e /\ a = Err e)
  \/ (request, a) ∈ cw_sent p.

Record compile_inv (n : nat) (p : CompileWorkerPool) : Prop := {
  ci_capacity : cw_capacity p = n;
  ci_workers : length (cw_workers p) = n;
  ci_jobs : (length (cw_jobs p) <= n)%nat;
  ci_once : NoDup (in_play p);
  ci_handed : forall request, request ∈ in_play p -> handed_over p request;
  ci_answers : forall request a, cw_callers p !! request = Some (Answered a) -> answered_right p request a }.

Lemma at_worker_insert workers i w w' :
  workers !! i = Some w ->
  at_worker w ++ concat (map at_worker (<[i := w']> workers)) ≡ₚ at_worker w' ++ concat (map at_worker workers).
Proof.
  intros Hi. rewrite -{2}(take_drop_middle workers i w Hi) insert_take_drop; [by eapply lookup_lt_Some|].
  rewrite !map_app !concat_app /=. rewrite !app_assoc. apply Permutation_app_tail.
  rewrite -!app_assoc. solve_Permutation.
Qed.

Lemma result_of_sent request p a : result_of request p = Some a -> (request, a) ∈ cw_sent p.
Proof.
  rewrite /result_of. destruct (head _) as [[r a']|] eqn:E; [|done]. intros [= ->].
  assert ((r, a) ∈ filter (fun sent => sent.1 = request) (cw_sent p)) as [Hr Hin]%list_elem_of_filter.
  { destruct (filter _ _); [done|]. injection E as ->. by left. }
  by rewrite -Hr.
Qed.

Lemma sent_result_of request p a :
  NoDup (map fst (cw_sent p)) -> (request, a) ∈ cw_sent p -> result_of request p = Some a.
Proof.
  rewrite /result_of. induction (cw_sent p) as [|[r b] sent IH]; cbn; [by intros _ ?%elem_of_nil|].
  intros [Hnot Hd]%NoDup_cons [[= -> ->]|Hin]%elem_of_cons; [by rewrite decide_True|].
  rewrite decide_False; [|by apply IH]. intros ->. apply Hnot. apply list_elem_of_In, in_map_iff.
  exists (request, a). split; [done|]. by apply list_elem_of_In.
Qed.

Lemma initial_compile_inv capacity : compile_inv (worker_capacity capacity) (NewCompileWorkerPool capacity).
Proof.
  rewrite /NewCompileWorkerPool. set (n := worker_capacity capacity).
  assert (in_play (mkCompileWorkerPool n [] (replicate n Idle) false [] ∅ []) = []) as Hnone.
  { rewrite /in_play /= app_nil_r. induction n as [|k IH]; [done|]. exact IH. }
  split; rewrite ?Hnone; cbn; try done; rewrite ?length_replicate; try done; try lia.
  - constructor.
  - by intros ? ?%elem_of_nil.
Qed.

(** What a step changes, for each part of the invariant. *)
Lemma compile_inv_play n p p' :
  compile_inv n p ->
  cw_capacity p' = cw_capacity p -> length (cw_workers p') = length (cw_workers p) ->
  (length (cw_jobs p') <= length (cw_jobs p))%nat ->
  in_play p' ⊆+ in_play p ->
  (forall request, handed_over p request -> handed_over p' request) ->
  (forall request a, cw_callers p' !! request = Some (Answered a) -> answered_right p' request a) ->
  compile_inv n p'.
Proof.
  intros [Hcap Hw Hj Hd Hh Ha] E1 E2 E3 Hplay Hhand Hans.
  split; [by rewrite E1|by rewrite E2|lia|by eapply NoDup_sub|idtac|done].
  intros request Hin. apply Hhand, Hh. by eapply elem_of_submseteq.
Qed.

Lemma answered_right_mono p p' request a :
  (cw_closed p = true -> cw_closed p' = true) -> cw_done p ⊆ cw_done p' -> cw_sent p ⊆ cw_sent p' ->
  answered_right p request a -> answered_right p' request a.
Proof.
  intros Hc Hd Hs [[? ?]|[(e & ? & ?)|?]]; [by left; auto|right; left|right; right; by apply Hs].
  exists e. split; [|done]. by eapply lookup_weaken.
Qed.

(** A call that returns. *)
Lemma finish_inv n p request caller a :
  compile_inv n p -> cw_callers p !! request = Some caller -> answered_right p request a ->
  compile_inv n (set_callers (<[request := Answered a]> (cw_callers p)) p).
Proof.
  intros Hinv Hc Hr. apply (compile_inv_play n p); cbn; try done.
  - intros r (c & Hc' & Hne). destruct (decide (r = request)) as [->|].
    + exists (Answered a). split; [|done]. cbn. apply list_lookup_insert_eq. by eapply lookup_lt_Some.
    + exists c. split; [|done]. cbn. by rewrite list_lookup_insert_ne.
  - intros r b. destruct (decide (r = request)) as [->|].
    + rewrite list_lookup_insert_eq; [by eapply lookup_lt_Some|]. by intros [= <-].
    + rewrite list_lookup_insert_ne //. apply (ci_answers _ _ Hinv).
Qed.

Lemma submit_inv n p request :
  compile_inv n p -> cw_callers p !! request = Some Submitting -> (length (cw_jobs p) < cw_capacity p)%nat ->
  compile_inv n (set_jobs (cw_jobs p ++ [request]) (set_callers (<[request := Awaiting]> (cw_callers p)) p)).
Proof.
  intros [Hcap Hw Hj Hd Hh Ha] Hc Hlt.
  assert (request ∉ in_play p) as Hnew.
  { intros (c & Hc' & Hne)%Hh. congruence. }
  assert (forall r, r = request \/ handed_over p r ->
    exists c, <[request := Awaiting]> (cw_callers p) !! r = Some c /\ c <> Submitting) as Hhand.
  { intros r Hr. destruct (decide (r = request)) as [->|].
    - exists Awaiting. rewrite list_lookup_insert_eq //. by eapply lookup_lt_Some.
    - destruct Hr as [|(c & ? & ?)]; [done|]. exists c. by rewrite list_lookup_insert_ne. }
  assert (in_play (set_jobs (cw_jobs p ++ [request]) (set_callers (<[request := Awaiting]> (cw_callers p)) p))
    ≡ₚ request :: in_play p) as Hplay.
  { rewrite /in_play /=. rewrite -app_assoc /=. by rewrite -Permutation_middle. }
  split; try done.
  - cbn. rewrite length_app /=. lia.
  - rewrite Hplay. by apply NoDup_cons.
  - intros r. rewrite Hplay elem_of_cons. intros [->|?]; apply Hhand; [by left|right; auto].
  - intros r b. cbn. destruct (decide (r = request)) as [->|].
    + rewrite list_lookup_insert_eq; [by eapply lookup_lt_Some|done].
    + rewrite list_lookup_insert_ne //. apply Ha.
Qed.

Lemma caller_step_inv n move request p p' :
  compile_inv n p -> caller_step move request p = Some p' -> compile_inv n p'.
Proof.
  rewrite /caller_step. intros Hinv E.
  destruct (cw_callers p !! request) as [[| |]|] eqn:Hc, move; repeat case_match; simplify_eq.
  all: try (eapply finish_inv; [done..|]).
  all: try by left.
  all: try (right; left; by eauto).
  - apply submit_inv; [done..|]. by apply Nat.ltb_lt.
  - right. right. by apply result_of_sent.
Qed.

(** A worker's step moves its request along, from the channel to the worker to
    the results. *)
Lemma in_play_worker p i w w' jobs sent :
  cw_workers p !! i = Some w ->
  jobs ++ at_worker w' ++ sent ≡ₚ cw_jobs p ++ at_worker w ++ map fst (cw_sent p) ->
  jobs ++ concat (map at_worker (<[i := w']> (cw_workers p))) ++ sent ≡ₚ in_play p.
Proof.
  intros Hi Hperm. pose proof (at_worker_insert _ _ _ w' Hi) as Hins. rewrite /in_play.
  apply (Permutation_app_inv_l (at_worker w ++ at_worker w')).
  transitivity (at_worker w' ++ (at_worker w ++ concat (map at_worker (<[i := w']> (cw_workers p)))) ++ jobs ++ sent);
    [solve_Permutation|]. rewrite Hins.
  transitivity (at_worker w' ++ concat (map at_worker (cw_workers p)) ++ (jobs ++ at_worker w' ++ sent));
    [solve_Permutation|]. rewrite Hperm. solve_Permutation.
Qed.

Lemma worker_step_inv n move i p p' :
  compile_inv n p -> worker_step move i p = Some p' -> compile_inv n p'.
Proof.
  rewrite /worker_step. intros Hinv E.
  destruct (cw_workers p !! i) as [[|r|r|]|] eqn:Hi, move; repeat case_match; simplify_eq.
  all: apply (compile_inv_play n p); cbn; rewrite ?length_insert //.
  all: try (intros ? ? Ha; apply (answered_right_mono p); cbn; try done; try by apply (ci_answers _ _ Hinv)).
  all: try set_solver.
  all: try match goal with H : cw_jobs _ = _ |- (_ <= _)%nat => rewrite H; cbn; lia end.
  all: apply Permutation_submseteq; rewrite ?map_app; apply (in_play_worker _ _ _ _ _ _ Hi).
  all: try match goal with H : cw_jobs _ = _ |- _ => rewrite H end.
  all: cbn; solve_Permutation.
Qed.

Lemma compile_step_inv n p p' : compile_inv n p -> compile_step p p' -> compile_inv n p'.
Proof.
  intros Hinv Hstep. destruct Hstep as [p|p request e Hnone|p|p move request p' E|p move i p' E].
  - apply (compile_inv_play n p); cbn; try done.
    + intros request (c & ? & ?). exists c. split; [|done]. cbn. by apply lookup_app_l_Some.
    + intros request a [?|[_ ?]]%lookup_app_Some; [by apply (ci_answers _ _ Hinv)|].
      destruct (_ - _)%nat as [|[]]; by simplify_eq/=.
  - apply (compile_inv_play n p); cbn; try done.
    intros r a Ha%(ci_answers _ _ Hinv). apply (answered_right_mono p); cbn; try done.
    by apply insert_subseteq.
  - apply (compile_inv_play n p); cbn; try done.
    intros r a Ha%(ci_answers _ _ Hinv). by apply (answered_right_mono p).
  - by eapply caller_step_inv.
  - by eapply worker_step_inv.
Qed.

Lemma compile_reachable_inv capacity p :
  compile_reachable capacity p -> compile_inv (worker_capacity capacity) p.
Proof.
  rewrite /compile_reachable. pose proof (initial_compile_inv capacity) as Hinit. revert Hinit.
  generalize (NewCompileWorkerPool capacity) as p0. intros p0 Hinit Hr.
  induction Hr as [|p1 p2 p3 Hstep _ IH]; [done|]. by eapply IH, compile_step_inv.
Qed.

(** C31: at every moment, whatever the number of callers, no more than the
    configured number of compilations run and no more than that many wait; a
    request is handed to one worker only and gets one result, so the result
    channel of size one never blocks a worker; and a call of [Compile] returns
    the error of the closed pool, the error of its own context, or the result
    that a worker sent for this very request. *)
Theorem compilations_are_bounded capacity p :
  compile_reachable capacity p ->
  (length (cw_jobs p) <= worker_capacity capacity)%nat
  /\ (length (List.filter compiling (cw_workers p)) <= worker_capacity capacity)%nat
  /\ NoDup (concat (map at_worker (cw_workers p)) ++ map fst (cw_sent p))
  /\ forall request a, cw_callers p !! request = Some (Answered a) ->
       cw_closed p = true /\ a = Err pool_closed_error
       \/ (exists e, cw_done p !! request = Some e /\ a = Err e)
       \/ result_of request p = Some a.
Proof.
  intros Hinv%compile_reachable_inv. destruct Hinv as [Hcap Hw Hj Hd Hh Ha]. split_and!; [done| | |].
  - rewrite -Hw. apply filter_length_le.
  - by apply NoDup_app in Hd as (_ & _ & Hd).
  - intros request a [?|[?|Hsent]]%Ha; [by left|right; by left|right; right].
    apply sent_result_of; [|done]. rewrite /in_play in Hd. by apply NoDup_app in Hd as (_ & _ & (_ & _ & Hd)%NoDup_app).
Qed.

(** Two calls on a pool of one worker: the first is compiled, the second is
    canceled while it waits. *)
Definition sample_result : RunResult := mkRunResult "" "" 0 false false 7 0.

Lemma compilations_are_bounded_witness : exists p,
  cw_callers p = [Answered (Ok (Some sample_result)); Answered (Err context_canceled)]
  /\ result_of 0 p = Some (Ok (Some sample_result))
  /\ (length (List.filter compiling (cw_workers p)) <= worker_capacity 0)%nat.
Proof.
  assert (exists p, compile_reachable 0 p
    /\ cw_callers p = [Answered (Ok (Some sample_result)); Answered (Err context_canceled)]
    /\ result_of 0 p = Some (Ok (Some sample_result))) as (p & Hr & Hc & Hs).
  { eexists. split.
    - eapply rtc_l; [apply compile_call|]. eapply rtc_l; [apply compile_call|].
      eapply rtc_l; [apply (compile_caller _ SelectReady 0); reflexivity|].
      eapply rtc_l; [apply (compile_worker _ WorkerReceive 0); reflexivity|].
      eapply rtc_l; [apply (compile_caller _ SelectReady 1); reflexivity|].
      eapply rtc_l; [apply (compile_worker _ WorkerProcess 0); reflexivity|].
      eapply rtc_l; [apply (compile_cancel _ 1 context_canceled); reflexivity|].
      eapply rtc_l; [apply (compile_caller _ SelectContext 1); reflexivity|].
      eapply rtc_l; [apply (compile_worker _ (WorkerCompiled (Ok (Some sample_result))) 0); reflexivity|].
      eapply rtc_l; [apply (compile_caller _ SelectReady 0); reflexivity|]. apply rtc_refl.
    - split; reflexivity. }
  exists p. split; [exact Hc|]. split; [exact Hs|]. exact (proj1 (proj2 (compilations_are_bounded 0 p Hr))).
Defined.
