(* ===== verification/Buffers.v ===== *)
(** * Bounded output: the buffers that receive a process's output

    [boundedBuffer] of cmd/yexsupervisor/main.go, [limitedBuffer] of
    internal/runner/docker_runner.go, [cappedCommandBuffer] of
    internal/judge/supervisor_executor.go, [diagnosticBuffer] and
    [boundedArchiveWriter] of internal/judge/executor.go.  [Capped] and
    [Reporting] say what their clients rely on. *)

From S2P Require Import Prelude GoStrings Workspace.

#[local] Open Scope Z_scope.

Definition DefaultOutputLimitBytes : Z := 64 * 1024.

Definition len (s : string) : Z := Z.of_nat (String.length s).

Definition slice (n : Z) (s : string) : string := slice_to (Z.to_nat n) s.

(** ** The buffers *)

(** [onLimit] is given or nil; [bb_calls] counts its calls, and [bb_once] is
    the [sync.Once] around them. *)
Record boundedBuffer := mkBoundedBuffer {
  bb_buffer : string;
  bb_limit : Z;
  bb_exceeded : bool;
  bb_onLimit : bool;
  bb_once : bool;
  bb_calls : nat }.

Definition boundedBuffer_Write (p : string) (b : boundedBuffer) : Z * boundedBuffer :=
  let remaining := bb_limit b - len (bb_buffer b) in
  let remaining := if remaining <? 0 then 0 else remaining in
  if remaining <? len p then
    (len p, mkBoundedBuffer (bb_buffer b +:+ slice remaining p) (bb_limit b) true (bb_onLimit b) true
              (if bb_once b then bb_calls b else if bb_onLimit b then S (bb_calls b) else bb_calls b))
  else (len p, mkBoundedBuffer (bb_buffer b +:+ p) (bb_limit b) (bb_exceeded b) (bb_onLimit b) (bb_once b) (bb_calls b)).

Record limitedBuffer := mkLimitedBuffer {
  lb_buffer : string;
  lb_limit : Z;
  lb_exceeded : bool;
  lb_onExceeded : bool;
  lb_calls : nat }.

Definition limitedBuffer_exceed (b : limitedBuffer) : limitedBuffer :=
  if lb_exceeded b then b
  else mkLimitedBuffer (lb_buffer b) (lb_limit b) true (lb_onExceeded b)
         (if lb_onExceeded b then S (lb_calls b) else lb_calls b).

Definition limitedBuffer_append (p : string) (b : limitedBuffer) : limitedBuffer :=
  mkLimitedBuffer (lb_buffer b +:+ p) (lb_limit b) (lb_exceeded b) (lb_onExceeded b) (lb_calls b).

Definition limitedBuffer_Write (p : string) (b : limitedBuffer) : Z * limitedBuffer :=
  if lb_limit b <=? len (lb_buffer b) then (len p, limitedBuffer_exceed b)
  else
    let remaining := lb_limit b - len (lb_buffer b) in
    if remaining <? len p then (len p, limitedBuffer_exceed (limitedBuffer_append (slice remaining p) b))
    else (len p, limitedBuffer_append p b).

Record cappedCommandBuffer := mkCappedCommandBuffer {
  cb_Buffer : string;
  cb_limit : Z;
  cb_exceeded : bool }.

Definition cappedCommandBuffer_Write (p : string) (b : cappedCommandBuffer) : Z * cappedCommandBuffer :=
  let remaining := cb_limit b - len (cb_Buffer b) in
  let kept := if 0 <? remaining then if remaining <? len p then slice remaining p else p else "" in
  (len p, mkCappedCommandBuffer (cb_Buffer b +:+ kept) (cb_limit b) (cb_exceeded b || (remaining <? len p))).

Record diagnosticBuffer := mkDiagnosticBuffer { db_Buffer : string; db_limit : Z }.

Definition diagnosticBuffer_Write (data : string) (b : diagnosticBuffer) : Z * diagnosticBuffer :=
  let remaining := db_limit b - len (db_Buffer b) in
  let kept := if 0 <? remaining then if remaining <? len data then slice remaining data else data else "" in
  (len data, mkDiagnosticBuffer (db_Buffer b +:+ kept) (db_limit b)).

(** The archive writer passes on to [writer], a pipe whose answer is the number
    of bytes it took and its error; [aw_forwarded] is what the pipe took. *)
Record boundedArchiveWriter := mkBoundedArchiveWriter {
  aw_remaining : Z;
  aw_forwarded : string }.

Definition archive_limit_error : goerr :=
  Errorf "archive exceeds the %d-byte limit" [FInt maxWorkspaceArchiveSize].

Definition boundedArchiveWriter_Write (writer : string -> Z * option goerr) (data : string)
    (w : boundedArchiveWriter) : (Z * option goerr) * boundedArchiveWriter :=
  let pass (part : string) :=
    let '(n, err) := writer part in
    (n, err, mkBoundedArchiveWriter (wrap64 (aw_remaining w - n)) (aw_forwarded w +:+ slice n part)) in
  if len data <=? aw_remaining w then let '(n, err, w') := pass data in ((n, err), w')
  else if aw_remaining w <=? 0 then ((0, Some archive_limit_error), w)
  else
    let '(n, err, w') := pass (slice (aw_remaining w) data) in
    match err with
    | Some e => ((n, Some e), w')
    | None => ((n, Some archive_limit_error), w')
    end.

(** ** What the clients rely on *)

Class Capped (B : Type) := {
  Write : string -> B -> Z * B;
  contents : B -> string;
  limit : B -> Z;
  Write_full p b : fst (Write p b) = len p;
  Write_limit p b : limit (snd (Write p b)) = limit b;
  Write_contents p b : (len (contents b) <= limit b)%Z ->
    contents (snd (Write p b)) = slice (limit b) (contents b +:+ p) }.

Class Reporting (B : Type) `{Capped B} := {
  exceeded : B -> bool;
  Write_exceeded p b : p <> "" -> (len (contents b) <= limit b)%Z ->
    exceeded (snd (Write p b)) = exceeded b || (limit b <? len (contents b) + len p)%Z }.

Lemma len_nonneg s : (0 <= len s)%Z.
Proof. rewrite /len. lia. Qed.

Lemma len_append s t : len (s +:+ t) = (len s + len t)%Z.
Proof. rewrite /len length_append. lia. Qed.

Lemma len_positive p : p <> "" -> (0 < len p)%Z.
Proof. rewrite /len. destruct p; [done|cbn; lia]. Qed.

Lemma len_slice n s : (0 <= n)%Z -> len (slice n s) = Z.min n (len s).
Proof. intros Hn. rewrite /len /slice length_slice_to. lia. Qed.

Lemma slice_all n s : (len s <= n)%Z -> slice n s = s.
Proof. rewrite /len /slice. intros ?. apply slice_to_all. lia. Qed.

Lemma slice_to_append n s t : slice_to (String.length s + n) (s +:+ t) = s +:+ slice_to n t.
Proof. induction s as [|c s IH]; [done|]. exact (f_equal (String c) IH). Qed.

Lemma slice_append_over n s t : (len s <= n)%Z -> slice n (s +:+ t) = s +:+ slice (n - len s) t.
Proof.
  intros Hn. rewrite /slice /len in Hn |- *. rewrite -slice_to_append. f_equal. lia.
Qed.

Lemma slice_slice n s t : slice n (slice n s +:+ t) = slice n (s +:+ t).
Proof.
  rewrite /slice. generalize (Z.to_nat n) as k. clear n. induction s as [|c s IH]; intros k; [by destruct k|].
  destruct k as [|k]; [done|]. exact (f_equal (String c) (IH k)).
Qed.

(** Case analysis on the comparisons of the goal, innermost first. *)
Ltac by_cases :=
  repeat match goal with
  | |- context [if (?a <? ?b)%Z then _ else _] =>
      lazymatch a with context [if _ then _ else _] => fail | _ => destruct (Z.ltb_spec a b) end
  | |- context [if (?a <=? ?b)%Z then _ else _] => destruct (Z.leb_spec a b)
  end.

#[export] Instance boundedBuffer_capped : Capped boundedBuffer.
Proof.
  refine {| Write := boundedBuffer_Write; contents := bb_buffer; limit := bb_limit |};
    rewrite /boundedBuffer_Write; intros p b; [by by_cases|by by_cases|]; intros Hb.
  rewrite slice_append_over //. by_cases; cbn; try done; try lia. rewrite [X in _ = _ +:+ X]slice_all //.
Defined.

#[export] Instance boundedBuffer_reporting : Reporting boundedBuffer.
Proof.
  refine {| exceeded := bb_exceeded |}. cbn. rewrite /boundedBuffer_Write. intros p b Hp Hb.
  destruct (Z.ltb_spec (bb_limit b) (len (bb_buffer b) + len p)); by_cases; cbn; rewrite ?orb_true_r ?orb_false_r; try done; lia.
Defined.

#[export] Instance limitedBuffer_capped : Capped limitedBuffer.
Proof.
  refine {| Write := limitedBuffer_Write; contents := lb_buffer; limit := lb_limit |};
    rewrite /limitedBuffer_Write /limitedBuffer_exceed /limitedBuffer_append; intros p b;
    [by by_cases; cbn; repeat case_match|by by_cases; cbn; repeat case_match|]; intros Hb.
  rewrite slice_append_over //. pose proof (len_nonneg p). by_cases; cbn.
  - assert (lb_limit b - len (lb_buffer b) = 0) as -> by lia. by destruct (lb_exceeded b); rewrite /= append_nil_r.
  - by destruct (lb_exceeded b).
  - assert (lb_limit b - len (lb_buffer b) = 0) as -> by lia. by destruct (lb_exceeded b); rewrite /= append_nil_r.
  - by rewrite [X in _ = _ +:+ X]slice_all.
Defined.

#[export] Instance limitedBuffer_reporting : Reporting limitedBuffer.
Proof.
  refine {| exceeded := lb_exceeded |}. cbn.
  rewrite /limitedBuffer_Write /limitedBuffer_exceed /limitedBuffer_append. intros p b Hp%len_positive Hb.
  destruct (Z.ltb_spec (lb_limit b) (len (lb_buffer b) + len p)); by_cases; cbn; rewrite ?orb_true_r ?orb_false_r;
    try done; try lia; by case_match.
Defined.

#[export] Instance cappedCommandBuffer_capped : Capped cappedCommandBuffer.
Proof.
  refine {| Write := cappedCommandBuffer_Write; contents := cb_Buffer; limit := cb_limit |}; try done.
  rewrite /cappedCommandBuffer_Write. intros p b Hb. rewrite slice_append_over //. by_cases; cbn; try done.
  - by rewrite [X in _ = _ +:+ X]slice_all.
  - by assert (cb_limit b - len (cb_Buffer b) = 0) as -> by lia.
Defined.

#[export] Instance cappedCommandBuffer_reporting : Reporting cappedCommandBuffer.
Proof.
  refine {| exceeded := cb_exceeded |}. cbn. intros p b Hp Hb. f_equal.
  apply eq_true_iff_eq. rewrite !Z.ltb_lt. lia.
Defined.

#[export] Instance diagnosticBuffer_capped : Capped diagnosticBuffer.
Proof.
  refine {| Write := diagnosticBuffer_Write; contents := db_Buffer; limit := db_limit |}; try done.
  rewrite /diagnosticBuffer_Write. intros p b Hb. rewrite slice_append_over //. by_cases; cbn; try done.
  - by rewrite [X in _ = _ +:+ X]slice_all.
  - by assert (db_limit b - len (db_Buffer b) = 0) as -> by lia.
Defined.

(** ** A process that writes chunk after chunk *)

Definition copy {B} `{Capped B} (chunks : list string) (b : B) : B := foldl (fun b p => snd (Write p b)) b chunks.

Definition joined (chunks : list string) : string := Join chunks "".
#[global] Arguments joined : simpl never.

Lemma joined_cons p ps : joined (p :: ps) = p +:+ joined ps.
Proof. destruct ps as [|q ps]; [by rewrite /joined /Join /= append_nil_r|done]. Qed.

Section Copy.
Context {B : Type} `{Capped B}.

Lemma copy_limit ps (b : B) : limit (copy ps b) = limit b.
Proof. revert b. induction ps as [|p ps IH]; intros b; cbn; [done|]. by rewrite IH Write_limit. Qed.

Lemma Write_keeps_bound p (b : B) : (len (contents b) <= limit b)%Z ->
  (len (contents (snd (Write p b))) <= limit (snd (Write p b)))%Z.
Proof.
  intros Hb. rewrite Write_limit Write_contents // len_slice; [|lia]. pose proof (len_nonneg (contents b)). lia.
Qed.

Lemma copy_contents ps (b : B) : (len (contents b) <= limit b)%Z ->
  contents (copy ps b) = slice (limit b) (contents b +:+ joined ps).
Proof.
  revert b. induction ps as [|p ps IH]; intros b Hb; cbn; [by rewrite append_nil_r slice_all|].
  rewrite IH; [by apply Write_keeps_bound|].
  rewrite Write_limit Write_contents // slice_slice joined_cons append_assoc //.
Qed.

Lemma copy_exceeded `{!Reporting B} ps (b : B) : Forall (fun p => p <> "") ps -> (len (contents b) <= limit b)%Z ->
  exceeded b = false -> exceeded (copy ps b) = (limit b <? len (contents b) + len (joined ps))%Z.
Proof.
  assert (forall ps (b : B), Forall (fun p => p <> "") ps -> (len (contents b) <= limit b)%Z ->
    exceeded b = true -> exceeded (copy ps b) = true) as Hstay.
  { clear. induction ps as [|p ps IH]; intros b; [done|]. intros [Hp Hps]%Forall_cons Hb E. cbn.
    apply IH; [done|by apply Write_keeps_bound|]. by rewrite Write_exceeded // E. }
  revert b. induction ps as [|p ps IH]; intros b Hps Hb E; cbn.
  { rewrite E. symmetry. apply Z.ltb_ge. change (len (joined [])) with 0. lia. }
  apply Forall_cons in Hps as [Hp Hps]. rewrite joined_cons len_append.
  pose proof (len_nonneg (joined ps)). pose proof (Write_exceeded p b Hp Hb) as Hw. rewrite E /= in Hw.
  destruct (Z.ltb_spec (limit b) (len (contents b) + len p)).
  - rewrite Hstay //; [by apply Write_keeps_bound|]. symmetry. apply Z.ltb_lt. lia.
  - rewrite IH //; [by apply Write_keeps_bound|]. rewrite Write_limit Write_contents // len_slice; [pose proof (len_nonneg (contents b)); lia|].
    rewrite len_append. f_equal. lia.
Qed.
End Copy.

(** The callback runs once, when the limit is first passed. *)
Definition new_boundedBuffer (n : Z) : boundedBuffer := mkBoundedBuffer "" n false true false 0.
Definition new_limitedBuffer (n : Z) : limitedBuffer := mkLimitedBuffer "" n false true 0.
Definition new_cappedCommandBuffer (n : Z) : cappedCommandBuffer := mkCappedCommandBuffer "" n false.
Definition new_diagnosticBuffer (n : Z) : diagnosticBuffer := mkDiagnosticBuffer "" n.

Lemma copy_inv {B} `{Capped B} (P : B -> Prop) ps b :
  (forall p b, P b -> P (snd (Write p b))) -> P b -> P (copy ps b).
Proof. intros Hstep. revert b. induction ps as [|p ps IH]; intros b Hb; cbn; [done|]. by apply IH, Hstep. Qed.

Lemma boundedBuffer_calls n ps :
  bb_calls (copy ps (new_boundedBuffer n)) = if bb_exceeded (copy ps (new_boundedBuffer n)) then 1%nat else 0%nat.
Proof.
  apply (copy_inv (fun b => bb_onLimit b = true /\ bb_once b = bb_exceeded b /\
    bb_calls b = if bb_exceeded b then 1%nat else 0%nat)); [|done].
  intros p b (Hf & Ho & Hc). cbn [Write boundedBuffer_capped]. rewrite /boundedBuffer_Write. by_cases; cbn; try done.
  all: rewrite Hf Ho Hc; by destruct (bb_exceeded b).
Qed.

Lemma limitedBuffer_calls n ps :
  lb_calls (copy ps (new_limitedBuffer n)) = if lb_exceeded (copy ps (new_limitedBuffer n)) then 1%nat else 0%nat.
Proof.
  apply (copy_inv (fun b => lb_onExceeded b = true /\ lb_calls b = if lb_exceeded b then 1%nat else 0%nat)); [|done].
  intros p b (Hf & Hc). cbn [Write limitedBuffer_capped].
  rewrite /limitedBuffer_Write /limitedBuffer_exceed /limitedBuffer_append.
  by_cases; cbn; destruct (lb_exceeded b) eqn:E; cbn; by rewrite ?E ?Hf ?Hc.
Qed.

(** ** The archive writer in front of a pipe

    A pipe takes a part of what it is given, and reports an error when it does
    not take all of it. *)
Definition pipe_contract (writer : string -> Z * option goerr) : Prop :=
  forall part, 0 <= fst (writer part) <= len part /\ (snd (writer part) = None -> fst (writer part) = len part).

(** [io.Copy] stops at the first error. *)
Fixpoint archive_copy (writer : string -> Z * option goerr) (chunks : list string) (w : boundedArchiveWriter)
    : option goerr * boundedArchiveWriter :=
  match chunks with
  | [] => (None, w)
  | data :: chunks =>
      match boundedArchiveWriter_Write writer data w with
      | ((_, Some e), w') => (Some e, w')
      | ((_, None), w') => archive_copy writer chunks w'
      end
  end.

Definition new_archive_writer : boundedArchiveWriter := mkBoundedArchiveWriter maxWorkspaceArchiveSize "".

Definition archive_inv (w : boundedArchiveWriter) : Prop :=
  0 <= aw_remaining w /\ len (aw_forwarded w) + aw_remaining w = maxWorkspaceArchiveSize.

Lemma archive_Write_spec writer data w n err w' :
  pipe_contract writer -> archive_inv w -> boundedArchiveWriter_Write writer data w = ((n, err), w') ->
  archive_inv w' /\ (err = None -> n = len data /\ aw_forwarded w' = aw_forwarded w +:+ data)
  /\ (aw_remaining w < len data -> err <> None)
  /\ ((forall part, snd (writer part) = None) -> len data <= aw_remaining w -> err = None).
Proof.
  rewrite /boundedArchiveWriter_Write. intros Hpipe [Hr Hsum].
  assert (forall part, len part <= aw_remaining w -> forall k e, writer part = (k, e) ->
    let w' := mkBoundedArchiveWriter (wrap64 (aw_remaining w - k)) (aw_forwarded w +:+ slice k part) in
    archive_inv w') as Hpass.
  { intros part Hpart k e Ew. destruct (Hpipe part) as [Hk _]. rewrite Ew /= in Hk. rewrite /archive_inv. cbn.
    pose proof (len_nonneg (aw_forwarded w)).
    rewrite wrap64_id; [rewrite /in_int64; change maxWorkspaceArchiveSize with 83886080 in Hsum; lia|].
    rewrite len_append len_slice; lia. }
  destruct (Z.leb_spec (len data) (aw_remaining w)) as [Hfit|Hover].
  - destruct (writer data) as [k e] eqn:Ew. intros [= <- <- <-]. split_and!; [by apply (Hpass data Hfit k e)| |intros ?; lia|].
    + intros ->. destruct (Hpipe data) as [_ Hall]. rewrite Ew /= in Hall. rewrite Hall //. by rewrite /= slice_all.
    + intros Hok _. specialize (Hok data). by rewrite Ew in Hok.
  - destruct (Z.leb_spec (aw_remaining w) 0); [intros [= <- <- <-]; split_and!; try done; intros; lia|].
    destruct (writer _) as [k e] eqn:Ew. assert (len (slice (aw_remaining w) data) <= aw_remaining w) as Hfit by (rewrite len_slice; lia).
    pose proof (Hpass _ Hfit _ _ Ew) as Hpass'. destruct e; intros [= <- <- <-]; (split_and!; [apply Hpass'|done|done|intros; lia]).
Qed.

(** What the extractor receives is bounded, and the copy ends without an error
    only if it received everything. *)
Lemma archive_copy_spec writer chunks w err w' :
  pipe_contract writer -> archive_inv w -> archive_copy writer chunks w = (err, w') ->
  archive_inv w' /\ (err = None -> aw_forwarded w' = aw_forwarded w +:+ joined chunks)
  /\ (aw_remaining w < len (joined chunks) -> err <> None)
  /\ ((forall part, snd (writer part) = None) -> len (joined chunks) <= aw_remaining w -> err = None).
Proof.
  intros Hpipe. revert w. induction chunks as [|data chunks IH]; intros w Hw.
  { cbn [archive_copy]. change (joined []) with "". intros [= <- <-]. destruct Hw. split_and!; [done| |change (len "") with 0; intros; lia|done].
    by rewrite append_nil_r. }
  cbn [archive_copy]. destruct (boundedArchiveWriter_Write writer data w) as [[n e] w1] eqn:E.
  destruct (archive_Write_spec _ _ _ _ _ _ Hpipe Hw E) as (Hw1 & Hall & Hover & Hfit). rewrite joined_cons len_append.
  pose proof (len_nonneg (joined chunks)).
  destruct e as [e|]; [intros [= <- <-]; split_and!; try done; intros Hok ?; apply Hfit; [done|lia]|].
  intros E'. destruct (IH _ Hw1 E') as (Hw2 & Hall' & Hover' & Hfit').
  destruct (Hall eq_refl) as [_ Hf1]. destruct Hw as [_ Hsum], Hw1 as [_ Hsum1]. rewrite Hf1 len_append in Hsum1.
  split_and!; [done| |intros ?; apply Hover'; lia|intros ? ?; apply Hfit'; [done|lia]].
  intros He. by rewrite (Hall' He) Hf1 append_assoc.
Qed.

(** C32: whatever a process writes, in chunks of any size, each buffer holds
    exactly the first [n] bytes of it and says so when there was more; the
    process is killed, by the callback, exactly once and only then.  The
    archive writer passes at most [maxWorkspaceArchiveSize] bytes to the
    extractor, and a copy that reports no error has passed on everything. *)
Theorem bounded_output n chunks :
  0 <= n -> Forall (fun chunk => chunk <> "") chunks ->
  let first := slice n (joined chunks) in
  let over := (n <? len (joined chunks))%Z in
  let bounded := copy chunks (new_boundedBuffer n) in
  let limited := copy chunks (new_limitedBuffer n) in
  let capped := copy chunks (new_cappedCommandBuffer n) in
  (bb_buffer bounded = first /\ bb_exceeded bounded = over /\ bb_calls bounded = if over then 1%nat else 0%nat)
  /\ (lb_buffer limited = first /\ lb_exceeded limited = over /\ lb_calls limited = if over then 1%nat else 0%nat)
  /\ (cb_Buffer capped = first /\ cb_exceeded capped = over)
  /\ db_Buffer (copy chunks (new_diagnosticBuffer n)) = first
  /\ forall writer err w, pipe_contract writer -> archive_copy writer chunks new_archive_writer = (err, w) ->
       len (aw_forwarded w) <= maxWorkspaceArchiveSize /\ (err = None -> aw_forwarded w = joined chunks).
Proof.
  intros Hn Hchunks. cbn zeta.
  assert (bb_exceeded (copy chunks (new_boundedBuffer n)) = (n <? len (joined chunks))%Z) as Eb
    by exact (copy_exceeded (B := boundedBuffer) chunks (new_boundedBuffer n) Hchunks Hn eq_refl).
  assert (lb_exceeded (copy chunks (new_limitedBuffer n)) = (n <? len (joined chunks))%Z) as El
    by exact (copy_exceeded (B := limitedBuffer) chunks (new_limitedBuffer n) Hchunks Hn eq_refl).
  rewrite boundedBuffer_calls limitedBuffer_calls Eb El. split_and!; try done.
  - exact (copy_contents (B := boundedBuffer) chunks (new_boundedBuffer n) Hn).
  - exact (copy_contents (B := limitedBuffer) chunks (new_limitedBuffer n) Hn).
  - exact (copy_contents (B := cappedCommandBuffer) chunks (new_cappedCommandBuffer n) Hn).
  - exact (copy_exceeded (B := cappedCommandBuffer) chunks (new_cappedCommandBuffer n) Hchunks Hn eq_refl).
  - exact (copy_contents (B := diagnosticBuffer) chunks (new_diagnosticBuffer n) Hn).
  - intros writer err w Hpipe E.
    assert (archive_inv new_archive_writer) as Hinit by done.
    destruct (archive_copy_spec _ _ _ _ _ Hpipe Hinit E) as ([Hr Hsum] & Hall & _). split; [lia|]. exact Hall.
Qed.

Lemma bounded_output_witness :
  bb_buffer (copy ["ab"; "cd"; "e"] (new_boundedBuffer 3)) = "abc"
  /\ lb_calls (copy ["ab"; "cd"; "e"] (new_limitedBuffer 3)) = 1%nat
  /\ aw_forwarded (snd (archive_copy (fun part => (len part, None)) ["ab"; "cd"] new_archive_writer)) = "abcd".
Proof.
  assert (Forall (fun chunk => chunk <> "") ["ab"; "cd"; "e"]) as Hc by (repeat constructor; discriminate).
  assert (Forall (fun chunk => chunk <> "") ["ab"; "cd"]) as Hd by (repeat constructor; discriminate).
  assert (pipe_contract (fun part => (len part, None))) as Hp by (intros part; cbn; pose proof (len_nonneg part); split; [lia|done]).
  destruct (bounded_output 3 ["ab"; "cd"; "e"] ltac:(lia) Hc) as ((H1 & _) & (_ & _ & H2) & _).
  destruct (bounded_output 3 ["ab"; "cd"] ltac:(lia) Hd) as (_ & _ & _ & _ & H3).
  split; [exact H1|]. split; [exact H2|]. exact (proj2 (H3 _ None _ Hp eq_refl) eq_refl).
Defined.
