(* ===== verification/Seccomp.v ===== *)
(** * The system call filter: installContestantSeccomp of cmd/yexsupervisor/main.go

    The filter is a program for the kernel's classic BPF machine.  The program
    is built here as the source builds it; the machine is [BPF], a class whose
    laws are the documented effect of the four instructions used, and
    [interpreter] is an instance of it. *)

From S2P Require Import Prelude GoStrings.

#[local] Open Scope Z_scope.

(** [syscall.SockFilter] *)
Record SockFilter := mkSockFilter { sf_Code : Z; sf_Jt : nat; sf_Jf : nat; sf_K : Z }.

Definition bpfLDWABS : Z := 0x20.
Definition bpfJMPEQK : Z := 0x15.
Definition bpfJMPJSETK : Z := 0x45.
Definition bpfRETK : Z := 0x06.
Definition seccompErrno : Z := 0x00050000.
Definition seccompAllow : Z := 0x7fff0000.
Definition namespaceOps : Z := 0x7e020080.
Definition x32Syscall : Z := 0x40000000.
Definition EPERM : Z := 1.
Definition ENOSYS : Z := 38.

(** The system call numbers of package syscall for an architecture, in the
    order of the source's list, and [SYS_CLONE]. *)
Record Syscalls := mkSyscalls {
  SETPGID : Z; SETSID : Z; UNSHARE : Z; SHMGET : Z; SHMAT : Z; SHMCTL : Z; SHMDT : Z;
  SEMGET : Z; SEMOP : Z; SEMCTL : Z; MSGGET : Z; MSGSND : Z; MSGRCV : Z; MSGCTL : Z; CLONE : Z }.

Definition amd64_syscalls : Syscalls := mkSyscalls 109 112 272 29 30 31 67 64 65 66 68 69 70 71 56.
Definition arm64_syscalls : Syscalls := mkSyscalls 154 157 97 194 196 195 197 190 193 191 186 189 188 187 220.

Definition unsupported (GOARCH : string) : goerr := Errorf "unsupported architecture %q" [FStr GOARCH].

Definition seccompSyscallNumbers (GOARCH : string) : result (Z * Z) :=
  if bool_decide (GOARCH = "amd64") then Ok (308, 435)
  else if bool_decide (GOARCH = "arm64") then Ok (268, 435)
  else Err (unsupported GOARCH).

Definition seccompAuditArchitecture (GOARCH : string) : result Z :=
  if bool_decide (GOARCH = "amd64") then Ok 0xc000003e
  else if bool_decide (GOARCH = "arm64") then Ok 0xc00000b7
  else Err (unsupported GOARCH).

Definition syscalls (GOARCH : string) : Syscalls :=
  if bool_decide (GOARCH = "arm64") then arm64_syscalls else amd64_syscalls.

(** The numbers the loop denies. *)
Definition denied_numbers (sys : Syscalls) (setns : Z) : list Z :=
  [SETPGID sys; SETSID sys; UNSHARE sys; setns; SHMGET sys; SHMAT sys; SHMCTL sys; SHMDT sys;
   SEMGET sys; SEMOP sys; SEMCTL sys; MSGGET sys; MSGSND sys; MSGRCV sys; MSGCTL sys].

Definition uint32 (z : Z) : Z := z mod 2^32.

Definition deny (number : Z) : list SockFilter :=
  [mkSockFilter bpfJMPEQK 0 1 (uint32 number); mkSockFilter bpfRETK 0 0 (Z.lor seccompErrno EPERM)].

(** The filter [installContestantSeccomp] builds. *)
Definition contestant_filter (GOARCH : string) : result (list SockFilter) :=
  '(setnsNumber, clone3Number) ← seccompSyscallNumbers GOARCH;
  architecture ← seccompAuditArchitecture GOARCH;
  let sys := syscalls GOARCH in
  Ok ([mkSockFilter bpfLDWABS 0 0 4; mkSockFilter bpfJMPEQK 1 0 architecture;
       mkSockFilter bpfRETK 0 0 (Z.lor seccompErrno EPERM); mkSockFilter bpfLDWABS 0 0 0] ++
      (if bool_decide (GOARCH = "amd64") then
         [mkSockFilter bpfJMPJSETK 0 1 x32Syscall; mkSockFilter bpfRETK 0 0 (Z.lor seccompErrno EPERM)]
       else []) ++
      concat (map deny (denied_numbers sys setnsNumber)) ++
      [mkSockFilter bpfJMPEQK 0 1 (uint32 clone3Number); mkSockFilter bpfRETK 0 0 (Z.lor seccompErrno ENOSYS);
       mkSockFilter bpfJMPEQK 0 3 (uint32 (CLONE sys)); mkSockFilter bpfLDWABS 0 0 16;
       mkSockFilter bpfJMPJSETK 0 1 namespaceOps; mkSockFilter bpfRETK 0 0 (Z.lor seccompErrno EPERM);
       mkSockFilter bpfRETK 0 0 seccompAllow]).

(** ** The kernel's machine

    [exec program acc word] runs the rest of a program with the accumulator
    [acc]; [word k] is the 32-bit word of [seccomp_data] at offset [k]. *)
Class BPF := {
  exec : list SockFilter -> Z -> (Z -> Z) -> option Z;
  exec_load jt jf k rest acc word : exec (mkSockFilter bpfLDWABS jt jf k :: rest) acc word = exec rest (word k) word;
  exec_equal jt jf k rest acc word :
    exec (mkSockFilter bpfJMPEQK jt jf k :: rest) acc word = exec (drop (if acc =? k then jt else jf) rest) acc word;
  exec_set jt jf k rest acc word :
    exec (mkSockFilter bpfJMPJSETK jt jf k :: rest) acc word =
      exec (drop (if Z.land acc k =? 0 then jf else jt) rest) acc word;
  exec_return jt jf k rest acc word : exec (mkSockFilter bpfRETK jt jf k :: rest) acc word = Some k }.

(** Jumps go forward, so the length of the program is enough fuel. *)
Fixpoint interpret (fuel : nat) (program : list SockFilter) (acc : Z) (word : Z -> Z) : option Z :=
  match fuel, program with
  | S fuel, i :: rest =>
      if sf_Code i =? bpfLDWABS then interpret fuel rest (word (sf_K i)) word
      else if sf_Code i =? bpfJMPEQK then
        interpret fuel (drop (if acc =? sf_K i then sf_Jt i else sf_Jf i) rest) acc word
      else if sf_Code i =? bpfJMPJSETK then
        interpret fuel (drop (if Z.land acc (sf_K i) =? 0 then sf_Jf i else sf_Jt i) rest) acc word
      else if sf_Code i =? bpfRETK then Some (sf_K i)
      else None
  | _, _ => None
  end.

Lemma interpret_fuel f1 f2 program acc word :
  (length program <= f1)%nat -> (length program <= f2)%nat ->
  interpret f1 program acc word = interpret f2 program acc word.
Proof.
  revert f2 program acc. induction f1 as [|f1 IH]; intros f2 [|i rest] acc H1 H2; cbn in H1, H2; [by destruct f2|lia|by destruct f2|].
  destruct f2 as [|f2]; [lia|]. cbn [interpret].
  assert (forall n a, interpret f1 (drop n rest) a word = interpret f2 (drop n rest) a word) as Hdrop
    by (intros n a; apply IH; rewrite length_drop; lia).
  repeat case_match; try done; try (by apply Hdrop). exact (Hdrop 0%nat _).
Qed.

Lemma interpret_drop n program acc word :
  interpret (length program) (drop n program) acc word = interpret (length (drop n program)) (drop n program) acc word.
Proof. apply interpret_fuel; rewrite ?length_drop; lia. Qed.

Definition interpreter : BPF.
Proof.
  by refine {| exec program acc word := interpret (length program) program acc word |};
    intros; cbn [length interpret sf_Code sf_K sf_Jt sf_Jf]; rewrite ?interpret_drop.
Defined.

(** ** What the filter decides *)

(** [seccomp_data]: the architecture, the number and the low word of the first
    argument at the offsets the filter reads. *)
Record Call := mkCall { call_arch : Z; call_number : Z; call_flags : Z }.

Definition seccomp_word (call : Call) (offset : Z) : Z :=
  if offset =? 4 then call_arch call
  else if offset =? 0 then call_number call
  else if offset =? 16 then call_flags call
  else 0.

Inductive Decision := Allowed | Refused (errno : Z).

(** The documented return values of a filter: [SECCOMP_RET_ALLOW], and
    [SECCOMP_RET_ERRNO] with the error number in the low half. *)
Definition verdict_word (d : Decision) : Z :=
  match d with Allowed => 0x7fff0000 | Refused errno => 0x50000 + errno end.

(** The calls a contestant may not make, with their numbers in the kernel's
    tables for amd64 and for arm64.  This list is written from those tables,
    not from the source: [semtimedop] is not in it (see [semtimedop_number]). *)
Definition refused_calls : list (string * Z * Z) :=
  [("setpgid", 109, 154); ("setsid", 112, 157); ("unshare", 272, 97); ("setns", 308, 268);
   ("shmget", 29, 194); ("shmat", 30, 196); ("shmctl", 31, 195); ("shmdt", 67, 197);
   ("semget", 64, 190); ("semop", 65, 193); ("semctl", 66, 191);
   ("msgget", 68, 186); ("msgsnd", 69, 189); ("msgrcv", 70, 188); ("msgctl", 71, 187)].

Definition semtimedop_number (GOARCH : string) : Z := if bool_decide (GOARCH = "amd64") then 220 else 192.

(** The number of a table's row on an architecture. *)
Definition number_on (GOARCH : string) (row : string * Z * Z) : Z :=
  if bool_decide (GOARCH = "amd64") then row.1.2 else row.2.

(** [CLONE_NEWTIME], [NEWNS], [NEWCGROUP], [NEWUTS], [NEWIPC], [NEWUSER],
    [NEWPID] and [NEWNET] of the kernel's sched.h. *)
Definition namespace_flags : list Z :=
  [0x80; 0x20000; 0x2000000; 0x4000000; 0x8000000; 0x10000000; 0x20000000; 0x40000000].

(** The policy: the machine's own architecture only ([AUDIT_ARCH_X86_64] or
    [AUDIT_ARCH_AARCH64]), no x32 calls (bit 30 of the number), none of the
    refused calls, [clone3] reported missing so that C libraries fall back to
    [clone], and [clone] with no namespace flag. *)
Definition policy (GOARCH : string) (call : Call) : Decision :=
  let number row := number_on GOARCH row in
  if negb (call_arch call =? number ("audit architecture", 0xc000003e, 0xc00000b7)) then Refused 1
  else if bool_decide (GOARCH = "amd64") && negb (Z.land (call_number call) 0x40000000 =? 0) then Refused 1
  else if existsb (fun row => call_number call =? number row) refused_calls then Refused 1
  else if call_number call =? number ("clone3", 435, 435) then Refused 38
  else if (call_number call =? number ("clone", 56, 220)) &&
          existsb (fun flag => negb (Z.land (call_flags call) flag =? 0)) namespace_flags then Refused 1
  else Allowed.

Section Filter.
Context `{machine : BPF}.

Definition decide_call (program : list SockFilter) (call : Call) : option Z := exec program 0 (seccomp_word call).

Lemma exec_deny numbers rest acc word :
  Forall (fun n => uint32 n = n) numbers ->
  exec (concat (map deny numbers) ++ rest) acc word =
    if bool_decide (acc ∈ numbers) then Some (Z.lor seccompErrno EPERM) else exec rest acc word.
Proof.
  induction numbers as [|n numbers IH]; [done|]. intros [Hn Hns]%Forall_cons. cbn [map concat deny app].
  rewrite exec_equal Hn. destruct (Z.eqb_spec acc n) as [->|Hne]; cbn [drop].
  - rewrite exec_return bool_decide_true //. by left.
  - rewrite IH //. do 2 case_bool_decide; set_solver.
Qed.

(** One test of the mask is a test of each flag. *)
Lemma mask_flags word flags :
  negb (Z.land word (foldr Z.lor 0 flags) =? 0) = existsb (fun flag => negb (Z.land word flag =? 0)) flags.
Proof.
  induction flags as [|flag flags IH]; cbn [foldr existsb]; [by rewrite Z.land_0_r|].
  rewrite -IH Z.land_lor_distr_r -negb_andb. f_equal. apply Bool.eq_iff_eq_true.
  rewrite andb_true_iff !Z.eqb_eq. apply Z.lor_eq_0_iff.
Qed.

Lemma denied_refused n rows GOARCH :
  bool_decide (n ∈ map (number_on GOARCH) rows) = existsb (fun row => n =? number_on GOARCH row) rows.
Proof.
  apply Bool.eq_iff_eq_true. rewrite bool_decide_eq_true existsb_exists list_elem_of_fmap.
  split; intros (row & H1 & H2); exists row; [|apply Z.eqb_eq in H2]; rewrite ?Z.eqb_eq -?list_elem_of_In in H1 |- *;
    by auto.
Qed.

Lemma supported GOARCH : is_ok (contestant_filter GOARCH) = true -> GOARCH = "amd64" \/ GOARCH = "arm64".
Proof.
  rewrite /contestant_filter /seccompSyscallNumbers. case_bool_decide; [by left|]. case_bool_decide; [by right|]. done.
Qed.

(** The part after the denied numbers. *)
Definition clone_rules (clone3 clone : Z) : list SockFilter :=
  [mkSockFilter bpfJMPEQK 0 1 (uint32 clone3); mkSockFilter bpfRETK 0 0 (Z.lor seccompErrno ENOSYS);
   mkSockFilter bpfJMPEQK 0 3 (uint32 clone); mkSockFilter bpfLDWABS 0 0 16;
   mkSockFilter bpfJMPJSETK 0 1 namespaceOps; mkSockFilter bpfRETK 0 0 (Z.lor seccompErrno EPERM);
   mkSockFilter bpfRETK 0 0 seccompAllow].

Lemma exec_clone_rules clone3 clone call :
  uint32 clone3 = clone3 -> uint32 clone = clone ->
  exec (clone_rules clone3 clone) (call_number call) (seccomp_word call) =
    Some (verdict_word (if call_number call =? clone3 then Refused 38
      else if (call_number call =? clone) &&
              existsb (fun flag => negb (Z.land (call_flags call) flag =? 0)) namespace_flags then Refused 1
      else Allowed)).
Proof.
  intros H3 Hc. rewrite -mask_flags. change (foldr Z.lor 0 namespace_flags) with namespaceOps.
  rewrite /clone_rules exec_equal H3 Hc. destruct (call_number call =? clone3); cbn [drop].
  { by rewrite exec_return. }
  rewrite exec_equal. destruct (call_number call =? clone); cbn [drop andb]; [|by rewrite exec_return].
  rewrite exec_load exec_set. cbn [seccomp_word Z.eqb]. change (seccomp_word call 16) with (call_flags call).
  destruct (_ =? 0); cbn [drop negb]; by rewrite exec_return.
Qed.

(** C33: on every supported architecture the filter fits the 44 instructions
    reserved for it, and the kernel's machine decides each system call by
    [policy], which is written from the kernel's tables: the calls of
    [refused_calls] - those that join or leave a process group, session or
    namespace, and the System V shared memory, semaphore and message queue calls
    but one - and a [clone] with any namespace flag are refused with EPERM, and
    so is any call made through a foreign or x32 entry; [clone3] fails with
    ENOSYS; every other call is allowed.  The System V call that is not refused
    is [semtimedop]. *)
Theorem filter_decides GOARCH filter :
  contestant_filter GOARCH = Ok filter ->
  (GOARCH = "amd64" \/ GOARCH = "arm64") /\ (length filter <= 44)%nat /\
  (forall call, decide_call filter call = Some (verdict_word (policy GOARCH call))) /\
  forall architecture flags, seccompAuditArchitecture GOARCH = Ok architecture ->
    decide_call filter (mkCall architecture (semtimedop_number GOARCH) flags) = Some seccompAllow.
Proof.
  intros E. assert (GOARCH = "amd64" \/ GOARCH = "arm64") as HG by (apply supported; by rewrite E).
  assert (forall call, decide_call filter call = Some (verdict_word (policy GOARCH call))) as Hdecide.
  { intros call. destruct HG as [-> | ->]; apply ok_inj in E; subst filter.
    all: rewrite /decide_call; cbn [app bool_decide decide_rel]; rewrite exec_load exec_equal.
    all: change (seccomp_word call 4) with (call_arch call); rewrite /policy -denied_refused.
    - change (map (number_on "amd64") refused_calls) with (denied_numbers (syscalls "amd64") 308).
      destruct (call_arch call =? _); cbn [drop negb]; [|by rewrite exec_return].
      rewrite exec_load; change (seccomp_word call 0) with (call_number call).
      rewrite (bool_decide_true ("amd64" = "amd64")) //. cbn [app andb]. rewrite exec_set.
      destruct (Z.land (call_number call) x32Syscall =? 0) eqn:E32; rewrite E32; cbn [drop negb]; [|by rewrite exec_return].
      rewrite exec_deny; [by repeat constructor|]. case_bool_decide; [done|].
      by apply (exec_clone_rules 435 56).
    - change (map (number_on "arm64") refused_calls) with (denied_numbers (syscalls "arm64") 268).
      destruct (call_arch call =? _); cbn [drop negb]; [|by rewrite exec_return].
      rewrite exec_load; change (seccomp_word call 0) with (call_number call).
      rewrite (bool_decide_false ("arm64" = "amd64")) //. cbn [app andb].
      rewrite exec_deny; [by repeat constructor|]. case_bool_decide; [done|].
      by apply (exec_clone_rules 435 220). }
  split_and!; [done| |done|].
  - destruct HG as [-> | ->]; apply ok_inj in E; subst filter; by apply Nat.leb_le.
  - intros architecture flags Ha. rewrite Hdecide. by destruct HG as [-> | ->]; apply ok_inj in Ha; subst architecture.
Qed.
End Filter.

(** On amd64 [unshare] and [clone] with a new user namespace are refused, a
    plain [clone] and [write] are not. *)
Lemma filter_decides_witness :
  exists filter, contestant_filter "amd64" = Ok filter
  /\ decide_call (machine := interpreter) filter (mkCall 0xc000003e 272 0) = Some 0x50001
  /\ decide_call (machine := interpreter) filter (mkCall 0xc000003e 56 0x10000000) = Some 0x50001
  /\ decide_call (machine := interpreter) filter (mkCall 0xc000003e 56 0x11) = Some seccompAllow
  /\ decide_call (machine := interpreter) filter (mkCall 0xc000003e 1 0) = Some seccompAllow.
Proof.
  assert (exists filter, contestant_filter "amd64" = Ok filter) as [filter E] by by eexists.
  exists filter. split; [exact E|].
  destruct (filter_decides (machine := interpreter) "amd64" filter E) as (_ & _ & Hdecides & _).
  split_and!; by rewrite Hdecides.
Defined.
