(* ===== verification/GoStruct.v ===== *)
(** * Structs and streams of the JSON package

    [Unmarshal] into a Go struct and into [[]string], the encoding of both, and
    [Decoder], which reads one value after another from a stream. *)

From S2P Require Import Prelude GoStrings Contracts GoJson.

(** ** Decoding a struct

    A member goes to the field whose name it folds to: letters match in either
    case, and the Kelvin sign and the long s fold to [k] and [s].  Field names
    are ASCII, so the folding of other runes does not matter. *)
Definition fold_rune (r : rune) : rune :=
  if (97 <=? r)%Z && (r <=? 122)%Z then (r - 32)%Z
  else if (r =? 383)%Z then 83%Z
  else if (r =? 8490)%Z then 75%Z
  else r.

Definition fold_name (s : string) : list rune := map fold_rune (runes s).

(** A field: its name and how it takes the text of a value. *)
Definition field (T : Type) : Type := string * (string -> T -> result T).

Section Struct.
Context {T : Type} (fields : list (field T)) (strict : bool).

Definition field_of (key : string) : option (field T) :=
  head (filter (fun f => fold_name f.1 = fold_name key) fields).

Definition set_member (_ : nat) (t : T) (member : string * string) : result T :=
  match unquote member.1 with
  | None => Err syntax_error
  | Some key =>
      match field_of key with
      | Some f => f.2 member.2 t
      | None => if strict then Err (Errorf "json: unknown field %q" [FStr key]) else Ok t
      end
  end.

Definition raw_members (ms : list (string * json)) : list (string * string) := map (fun m => (m.1, raw_of m.2)) ms.

(** [null] leaves the struct as it is. *)
Definition Unmarshal_struct (raw : string) (t : T) : result T :=
  v ← checked raw;
  match v with
  | JNull => Ok t
  | JObj _ ms => foldM set_member t (raw_members ms)
  | _ => Err (type_error "struct")
  end.
End Struct.

(** [null] leaves a field as it is. *)
Definition into {A} (decode : string -> result A) (old : A) (raw : string) : result A :=
  v ← checked raw;
  match v with JNull => Ok old | _ => decode raw end.

Definition Unmarshal_int (raw : string) : result Z :=
  v ← checked raw;
  match v with
  | JNull => Ok 0%Z
  | JNum text => match ParseInt text 64 with Ok z => Ok z | Err _ => Err (type_error "int") end
  | _ => Err (type_error "int")
  end.

(** A slice: [null] makes it nil; an element decodes over the one that an
    earlier member of the same name left at its place, if any. *)
Definition decode_slice {A} (decode : string -> A -> result A) (zero : A) (raw : string) (old : list A)
    : result (list A) :=
  elems ← Unmarshal_array raw;
  imapM (fun i x => decode x (default zero (old !! i))) elems.

(** A pointer: [null] makes it nil. *)
Definition decode_pointer {A} (decode : string -> A -> result A) (zero : A) (raw : string) (old : option A)
    : result (option A) :=
  v ← checked raw;
  match v with
  | JNull => Ok None
  | _ => x ← decode raw (default zero old); Ok (Some x)
  end.

(** [json.RawMessage] takes the text of any value. *)
Definition decode_raw (raw : string) (_ : string) : result string := Ok raw.

Definition decode_string (raw : string) (old : string) : result string := into Unmarshal_string old raw.
Definition decode_int (raw : string) (old : Z) : result Z := into Unmarshal_int old raw.
Definition decode_bool (raw : string) (old : bool) : result bool := into Unmarshal_bool old raw.
Definition decode_strings : string -> list string -> result (list string) := decode_slice decode_string "".

(** ** Encoding *)

Definition encode_bool (b : bool) : string := if b then "true" else "false".
Definition encode_strings (escapeHTML : bool) (l : list string) : string := array_text (map (encode_string escapeHTML) l).

(** A decoded string is valid UTF-8: each byte that belongs to no character
    becomes U+FFFD. *)
Definition valid_text (s : string) : string := string_of_runes (runes s).

(** ** Streams: [Decoder.Decode] *)

Inductive Decoded :=
  | DecodedValue (raw rest : string)
  | DecodedEOF
  | DecodedError (e : goerr).

Definition Decode (s : string) : Decoded :=
  let s := skip_ws s in
  if bool_decide (s = "") then DecodedEOF
  else match scan_value maxNestingDepth s with
       | Some (v, rest) => DecodedValue (raw_of v) rest
       | None => DecodedError syntax_error
       end.

(** ** Laws *)

Lemma into_not_null {A} (decode : string -> result A) old raw a :
  decode raw = Ok a -> parse_json raw <> None -> parse_json raw <> Some JNull -> into decode old raw = Ok a.
Proof. rewrite /into /checked. intros Hd Hn Hnull. destruct (parse_json raw) as [[]|]; cbn; congruence. Qed.

Lemma Unmarshal_struct_text {T} (fields : list (field T)) strict l ms t :
  (S l <= maxNestingDepth)%nat -> Forall (member_ok l) ms ->
  Unmarshal_struct fields strict (object_text ms) t = foldM (set_member fields strict) t ms.
Proof.
  intros Hle Hall. rewrite /Unmarshal_struct /checked.
  destruct (scan_object_join l ms "" Hall) as (vs & Hvk & Hvs & Hs). rewrite append_nil_r in Hs.
  destruct (scan_value_local _ _ Hle _ _ _ Hs) as (_ & _ & Hl). specialize (Hl "" eq_refl).
  rewrite append_nil_r in Hl. cbn [raw_of] in Hl.
  rewrite (value_text_scanned _ _ Hl eq_refl) /=. f_equal.
  clear Hs Hl Hall. revert ms Hvk Hvs. induction vs as [|[k v] vs IH]; intros [|[k' c] ms] Hk Hv; simplify_eq/=; [done|].
  f_equal. by apply IH.
Qed.

Lemma value_text_string l html s : value_text l (encode_string html s).
Proof.
  rewrite /encode_string /quoted. exists (JStr (escape_segments html (segments s))).
  split; [|done]. assert (forall k x, scan_value k (String dq x) = scan_scalar (String dq x)) as -> by by intros [|].
  cbn [scan_scalar]. by rewrite encode_string_scans.
Qed.

Lemma value_text_bool l b : value_text l (encode_bool b).
Proof. exists (JBool b). by destruct l, b. Qed.

Lemma Unmarshal_int_Itoa z : in_int64 z -> Unmarshal_int (Itoa z) = Ok z.
Proof.
  intros Hz. rewrite /Unmarshal_int /checked (value_text_scanned _ (JNum (Itoa z))).
  - apply scan_value_number, scan_number_Itoa.
  - done.
  - by rewrite bind_Ok ParseInt_Itoa.
Qed.

Lemma Unmarshal_bool_encoded b : Unmarshal_bool (encode_bool b) = Ok b.
Proof.
  rewrite /Unmarshal_bool /checked (value_text_scanned _ (JBool b)); [|by destruct b..|done].
  by destruct maxNestingDepth, b.
Qed.

Lemma parse_Itoa z : parse_json (Itoa z) = Some (JNum (Itoa z)).
Proof. apply value_text_scanned; [apply scan_value_number, scan_number_Itoa|done]. Qed.

Lemma parse_bool b : parse_json (encode_bool b) = Some (JBool b).
Proof. apply value_text_scanned; [by destruct maxNestingDepth, b|by destruct b]. Qed.

Lemma decode_string_encoded html s old : decode_string (encode_string html s) old = Ok (valid_text s).
Proof. apply into_not_null; [apply Unmarshal_string_encoded| |]; by rewrite parse_json_encoded. Qed.

Lemma decode_int_encoded z old : in_int64 z -> decode_int (Itoa z) old = Ok z.
Proof. intros Hz. apply into_not_null; [by apply Unmarshal_int_Itoa| |]; by rewrite parse_Itoa. Qed.

Lemma decode_bool_encoded b old : decode_bool (encode_bool b) old = Ok b.
Proof. apply into_not_null; [apply Unmarshal_bool_encoded| |]; by rewrite parse_bool. Qed.

Lemma decode_strings_encoded html l old : decode_strings (encode_strings html l) old = Ok (map valid_text l).
Proof.
  assert (Forall (value_text 0) (map (encode_string html) l)) as Hall
    by (apply Forall_map, Forall_true; intros; apply value_text_string).
  assert (1 <= maxNestingDepth)%nat as Hdepth by (by apply Nat.leb_le).
  rewrite /decode_strings /decode_slice (Unmarshal_array_text _ _ Hdepth Hall). rewrite bind_Ok.
  apply imapM_from_Ok. split; [by rewrite !length_map|]. intros j x y. rewrite !list_lookup_fmap.
  destruct (l !! j) as [s|]; [|done]. cbn [fmap option_fmap option_map]. intros [= <-] [= <-].
  apply decode_string_encoded.
Qed.

(** A stream that starts with a printed object. *)
Lemma Decode_object l ms rest :
  (S l <= maxNestingDepth)%nat -> Forall (member_ok l) ms -> head_is num_stop rest = true ->
  Decode (object_text ms +:+ rest) = DecodedValue (object_text ms) rest.
Proof.
  intros Hle Hall Hr. destruct (value_text_head (S l) (object_text ms) rest (value_text_object _ _ Hall))
    as (Hne & Hskip & _). rewrite /Decode Hskip.
  destruct (scan_object_join l ms "" Hall) as (vs & _ & _ & Hs). rewrite append_nil_r in Hs.
  destruct (scan_value_local _ _ Hle _ _ _ Hs) as (_ & _ & Hl). specialize (Hl rest Hr). cbn [raw_of] in Hl.
  rewrite bool_decide_false; [|by rewrite Hl]. by destruct (object_text ms).
Qed.

Lemma Decode_newline s : Decode (newline +:+ s) = Decode s.
Proof. done. Qed.
