(* ===== verification/Docker.v ===== *)
(** * The Docker executor: internal/judge/executor.go and
    internal/runner/docker_runner.go

    Every call of the executor is a few runs of the docker command.  [runner]
    answers the [n]-th of them; the log keeps the runs and what is done to the
    host's directories. *)

From S2P Require Import Prelude GoStrings GoJson TypeSyntax Contracts Adapters Harness CppHarness CppClass.
From S2P Require Import PyHarness Languages Validate Verdict TestCases Effects Paths Workspace Buffers.
From Stdlib Require Import Ascii.

#[local] Open Scope Z_scope.

(** ** DockerRunner.Run *)

(** What [Wait] returns. *)
Inductive WaitError :=
  | WaitOk
  | ExitError (code : Z)
  | WaitFailed (e : goerr).

(** [ctx.Err()] of a context that is done. *)
Inductive ContextError := DeadlineExceeded | Canceled.

#[export] Instance ContextError_eq_dec : EqDecision ContextError.
Proof. solve_decision. Defined.

Definition context_error (e : ContextError) : goerr :=
  match e with
  | DeadlineExceeded => LibErr "context deadline exceeded"
  | Canceled => LibErr "context canceled"
  end.

(** One process: whether it started, the chunks it wrote, how it ended, the
    context's error at that time and the time it took. *)
Record Process := mkProcess {
  pr_Start : result unit;
  pr_stdout : list string;
  pr_stderr : list string;
  pr_Wait : WaitError;
  pr_ctx : option ContextError;
  pr_elapsed : Z }.

Definition DockerRunner_Run (process : Process) : result RunResult :=
  pr_Start process;;
  let stdoutBuf := copy (pr_stdout process) (new_limitedBuffer DefaultOutputLimitBytes) in
  let stderrBuf := copy (pr_stderr process) (new_limitedBuffer DefaultOutputLimitBytes) in
  let result code :=
    mkRunResult (lb_buffer stdoutBuf) (lb_buffer stderrBuf) code
      (bool_decide (pr_ctx process = Some DeadlineExceeded))
      (lb_exceeded stdoutBuf || lb_exceeded stderrBuf) (pr_elapsed process) 0 in
  match pr_Wait process with
  | WaitOk => Ok (result 0)
  | ExitError code => Ok (result code)
  | WaitFailed e =>
      if negb (lb_exceeded stdoutBuf) && negb (lb_exceeded stderrBuf) && is_nil (pr_ctx process) then Err e
      else Ok (result 0)
  end.

(** ** Texts *)

Definition dockerCommandError (action : string) (answer : option RunResult) : result unit :=
  match answer with
  | None => Err (Errorf "%s returned no result" [FStr action])
  | Some result =>
      if rr_ExitCode result =? 0 then Ok tt
      else
        let message := TrimSpace (rr_Stderr result) in
        let message := if DefaultOutputLimitBytes <? len message then slice DefaultOutputLimitBytes message else message in
        if bool_decide (message = "") then
          Err (Errorf "%s exited with code %d" [FStr action; FInt (rr_ExitCode result)])
        else Err (Errorf "%s exited with code %d: %s" [FStr action; FInt (rr_ExitCode result); FStr message])
  end.

(** [strings.LastIndex] and [strings.IndexByte] *)
Fixpoint LastIndex (s substr : string) : option nat :=
  match s with
  | EmptyString => if bool_decide (substr = "") then Some 0%nat else None
  | String c s' =>
      match LastIndex s' substr with
      | Some i => Some (S i)
      | None => if HasPrefix s substr then Some 0%nat else None
      end
  end.

Fixpoint IndexByte (s : string) (c : Ascii.ascii) : option nat :=
  match s with
  | EmptyString => None
  | String d s' => if Ascii.eqb d c then Some 0%nat else S <$> IndexByte s' c
  end.

Definition extractMeasuredMemory (stderr marker : string) : string * Z :=
  match LastIndex stderr marker with
  | None => (stderr, 0)
  | Some markerIndex =>
      let memoryOutput := slice_from (markerIndex + String.length marker) stderr in
      let memoryOutput :=
        match IndexByte memoryOutput "010"%char with Some newline => slice_to newline memoryOutput | None => memoryOutput end in
      match ParseInt (TrimSpace memoryOutput) 64 with
      | Err _ => (stderr, 0)
      | Ok memoryKB =>
          if memoryKB <? 0 then (stderr, 0) else (slice_to markerIndex stderr, wrap64 (memoryKB * 1024))
      end
  end.

Fixpoint ReplaceByte (s : string) (c : Ascii.ascii) (by_text : string) : string :=
  match s with
  | EmptyString => ""
  | String d s' => (if Ascii.eqb d c then by_text else String d "") +:+ ReplaceByte s' c by_text
  end.

Definition shellQuote (value : string) : string := "'" +:+ ReplaceByte value "'" "'\''" +:+ "'".

Definition compileContainerUser (uid gid : Z) (uid_map : result string) : string :=
  if rootfulRuntime uid uid_map then "10001:10001" else Itoa uid +:+ ":" +:+ Itoa gid.

(** ** The runs of the docker command *)

Inductive DockerAction :=
  | DockerRun (args : list string)
  | Transfer (container workspace : string)
  | MadeDirectory (path : string)
  | RemovedDirectory (path : string)
  | Chowned (path : string).

(** The sandbox's container is started again from its image. *)
Definition restarts (container : string) (action : DockerAction) : bool :=
  match action with
  | DockerRun args => bool_decide (args = ["restart"; "-t"; "0"; container])
  | _ => false
  end.

Definition RuntimeSandboxImage : string := "yexjudge-runtime:latest".
Definition MinCompileMemoryLimitMb : Z := 512.
Definition compileWorkspaceTmpfsBytes : Z := Z.shiftl 128 20.
Definition compileTemporaryTmpfsBytes : Z := Z.shiftl 256 20.
Definition compileFileSizeLimitBytes : Z := Z.shiftl 128 20.
Definition compileArtifactArchiveBytes : Z := Z.shiftl 80 20.

(** The state of a call, read and replaced. *)
Definition get {T} : eff T DockerAction T := fun w => (Ok (w_state w), w).
Definition put {T} (t : T) : eff T DockerAction unit := fun w => (Ok tt, mkWorld t (w_log w)).

Section Executor.
Context (runner : nat -> list string -> string -> result (option RunResult)).

Section Runs.
Context {T : Type}.

Definition Run (input : string) (args : list string) : eff T DockerAction (option RunResult) := fun w =>
  (runner (length (w_log w)) args input, mkWorld (w_state w) (w_log w ++ [DockerRun args])).

(** A run whose error or exit code is the error of the call. *)
Definition command (action : string) (args : list string) : eff T DockerAction unit :=
  answer ← Run "" args;
  lift (dockerCommandError action answer).

(** The loop asks every 50 milliseconds; [polls] more times before its context
    is done. *)
Fixpoint waitForSandboxReady (polls : nat) (container : string) : eff T DockerAction unit :=
  checked ← attempt (command "check sandbox readiness" ["exec"; container; "true"]);
  match checked, polls with
  | Ok _, _ => mret tt
  | Err lastErr, O => lift (Err (Errorf "sandbox %s did not become ready: %w" [FStr container; FErr lastErr]))
  | Err _, S polls => waitForSandboxReady polls container
  end.

Definition RemoveSandbox (container : string) : eff T DockerAction unit :=
  attempt (Run "" ["rm"; "-f"; container]);; mret tt.

Definition ConfigureSandbox (container : string) (limits : Limits) : eff T DockerAction unit :=
  let memoryLimit := Itoa (MemoryLimitMb limits) +:+ "m" in
  command "configure sandbox"
    ["update"; "--memory"; memoryLimit; "--memory-swap"; memoryLimit; "--cpus"; "1"; "--pids-limit"; "64"; container].

Definition ResetSandbox (polls : nat) (container : string) : eff T DockerAction unit :=
  command "reset sandbox" ["restart"; "-t"; "0"; container];;
  waitForSandboxReady polls container.

(** The argument list of [StartSandbox], and the call; [now] is
    [time.Now().UnixNano()]. *)
Definition sandbox_args (containerName : string) : list string :=
  ["run"; "-d"; "--name"; containerName;
   "--memory"; Itoa MaxMemoryLimitMb +:+ "m"; "--memory-swap"; Itoa MaxMemoryLimitMb +:+ "m";
   "--cpus"; "1"; "--network"; "none"; "--pids-limit"; "64"; "--ulimit"; "nofile=1024:1024"] ++
  ["--init"; "--shm-size"; "16m"; "--cap-drop"; "ALL"; "--cap-add"; "SETUID"; "--cap-add"; "SETGID";
   "--cap-add"; "KILL"; "--cap-add"; "DAC_OVERRIDE"; "--cap-add"; "FOWNER"; "--user"; "0:0";
   "--security-opt"; "no-new-privileges"; "--read-only";
   "--tmpfs"; "/workspace:rw,exec,size=64m,mode=1777"; "--tmpfs"; "/tmp:rw,noexec,nosuid,size=16m,mode=1777"] ++
  ["--workdir"; "/workspace"; RuntimeSandboxImage; "sleep"; "infinity"].

Definition StartSandbox (now : Z) (polls : nat) : eff T DockerAction string :=
  let containerName := "yexjudge-" +:+ Itoa now in
  command "start sandbox" (sandbox_args containerName);;
  on_failure (RemoveSandbox containerName) (waitForSandboxReady polls containerName);;
  mret containerName.
End Runs.

(** ** RunTestCase *)

(** What surrounds one run: the clock, the context's error after it and the
    readiness polls its clean-up context allows. *)
Record RunContext := mkRunContext {
  rc_now : Z;
  rc_Err : option ContextError;
  rc_polls : nat }.

Definition set_needsReplace (flags : SandboxFlags) : SandboxFlags := mkSandboxFlags (sb_restarted flags) true.
Definition set_restarted (flags : SandboxFlags) : SandboxFlags := mkSandboxFlags true (sb_needsReplace flags).

Definition modify (f : SandboxFlags -> SandboxFlags) : eff SandboxFlags DockerAction unit :=
  flags ← get; put (f flags).

(** The restart after a run that was cut short: [RunTestCase] and
    [restartSandboxAfterInterruptedRun]. *)
Definition restart_sandbox (action : string) (polls : nat) (container : string)
    : eff SandboxFlags DockerAction unit :=
  on_failure (modify set_needsReplace) (
    answer ← attempt (Run "" ["restart"; "-t"; "0"; container]);
    result ← lift (wrap_err (fun e => Errorf (action +:+ ": %w") [FErr e]) answer);
    lift (dockerCommandError action result);;
    waitForSandboxReady polls container);;
  modify set_restarted.

Definition timed_out (result : RunResult) : RunResult :=
  mkRunResult (rr_Stdout result) (rr_Stderr result) (rr_ExitCode result) true (rr_OutputLimitExceeded result)
    (rr_TimeUsed result) (rr_MemoryUsed result).

Definition measured (marker : string) (result : RunResult) : RunResult :=
  let '(stderr, memory) := extractMeasuredMemory (rr_Stderr result) marker in
  mkRunResult (rr_Stdout result) stderr (rr_ExitCode result) (rr_TimedOut result) (rr_OutputLimitExceeded result)
    (rr_TimeUsed result) memory.

Definition memory_marker (ctx : RunContext) : string := "__YEXJUDGE_MAX_RSS_KB_" +:+ Itoa (rc_now ctx) +:+ ":".

Definition RunTestCase (ctx : RunContext) (container input : string) (spec : Spec)
    : eff SandboxFlags DockerAction RunResult :=
  let memoryMarker := memory_marker ctx in
  answer ← Run (input +:+ newline)
    (["exec"; "--user"; "10001:10001"; "-i"; container; "/usr/bin/time"; "-f"; memoryMarker +:+ "%M\n"; "--"] ++
     sp_RunCommand spec);
  result ← lift (deref answer);
  let result := measured memoryMarker result in
  (if rr_OutputLimitExceeded result || negb (is_nil (rc_Err ctx))
   then restart_sandbox "restart sandbox after canceled execution" (rc_polls ctx) container
   else mret tt);;
  mret (if bool_decide (rc_Err ctx = Some DeadlineExceeded) then timed_out result else result).

(** ** Compile *)

(** What the host answers to one [Compile]. *)
Record CompileHost := mkCompileHost {
  ch_now : Z;
  ch_Stat : result unit;
  ch_MkdirTemp : result string;
  ch_uid : Z;
  ch_gid : Z;
  ch_uid_map : result string;
  ch_Chown : result unit;
  ch_disk : Disk;
  ch_archive : ArchiveFile;
  ch_staging : result string;
  ch_Err : option ContextError }.

Definition compile_script (sourceName : string) : string :=
  "cp -- /source/" +:+ shellQuote sourceName +:+ " /workspace/" +:+ shellQuote sourceName +:+ " || exit $?" +:+ newline +:+
  String "034"%char ("$@" +:+ String "034"%char " || exit $?") +:+ newline +:+
  "tar -C /workspace -cf /artifacts/artifacts.tar . || exit $?" +:+ newline +:+
  "archive_size=$(wc -c < /artifacts/artifacts.tar) || exit $?" +:+ newline +:+
  "[ " +:+ String "034"%char ("$archive_size" +:+ String "034"%char " -le ") +:+ Itoa compileArtifactArchiveBytes +:+
  " ] || { echo 'compiler artifact archive exceeds the allowed size' >&2; exit 1; }".

Definition mebibytes (bytes : Z) : string := Itoa (Z.quot bytes (Z.shiftl 1 20)) +:+ "m".

Definition compile_args (host : CompileHost) (container workspace archiveDirectory sourceName : string)
    (spec : Spec) (limits : Limits) : list string :=
  let compileMemoryMb := if MemoryLimitMb limits <? MinCompileMemoryLimitMb then MinCompileMemoryLimitMb else MemoryLimitMb limits in
  ["run"; "--rm"; "--name"; container; "--network"; "none";
   "--memory"; Itoa compileMemoryMb +:+ "m"; "--memory-swap"; Itoa compileMemoryMb +:+ "m";
   "--cpus"; "1"; "--pids-limit"; "128"; "--cap-drop"; "ALL"; "--security-opt"; "no-new-privileges"; "--read-only";
   "--tmpfs"; "/workspace:rw,exec,size=" +:+ mebibytes compileWorkspaceTmpfsBytes +:+ ",mode=700";
   "--tmpfs"; "/tmp:rw,exec,nosuid,size=" +:+ mebibytes compileTemporaryTmpfsBytes +:+ ",mode=700";
   "--env"; "HOME=/tmp"; "--env"; "GOCACHE=/tmp/go-build"; "--env"; "GOMODCACHE=/tmp/go-mod";
   "--ulimit"; "nofile=1024:1024";
   "--ulimit"; "fsize=" +:+ Itoa compileFileSizeLimitBytes +:+ ":" +:+ Itoa compileFileSizeLimitBytes;
   "--user"; compileContainerUser (ch_uid host) (ch_gid host) (ch_uid_map host); "--workdir"; "/workspace";
   "-v"; workspace +:+ ":/source:ro"; "-v"; archiveDirectory +:+ ":/artifacts:rw";
   sp_CompileImage spec; "sh"; "-c"; compile_script sourceName; "yexjudge-compile"] ++ sp_CompileCommand spec.

(** The import changes the files, also when it fails. *)
Definition import_artifacts (host : CompileHost) (workspace : string) : eff FileSystem DockerAction unit := fun w =>
  let '(imported, fs) := importCompilerArtifacts (ch_disk host) (ch_archive host) (ch_staging host) workspace (w_state w) in
  (wrap_err (fun e => Errorf "import compiler artifacts: %w" [FErr e]) imported, mkWorld fs (w_log w)).

(** The artifacts are imported only after a compilation that succeeded within
    its limits; a result that comes with an error is dropped by the callers. *)
Definition Compile (host : CompileHost) (workspace : string) (spec : Spec) (limits : Limits)
    : eff FileSystem DockerAction RunResult :=
  let compileContainer := "yexjudge-compile-" +:+ Itoa (ch_now host) in
  defer (RemoveSandbox compileContainer) (
    let sourceName := Base (sp_SourceFileName spec) in
    lift (fail_if bool_decide (sourceName = ".") || bool_decide (sourceName = "/") ||
                  negb (bool_decide (sourceName = sp_SourceFileName spec))
          with Errorf "invalid compiler source filename %q" [FStr (sp_SourceFileName spec)];; Ok tt);;
    lift (wrap_err (fun e => Errorf "stat compiler source: %w" [FErr e]) (ch_Stat host));;
    archiveDirectory ← lift (wrap_err (fun e => Errorf "create compiler archive directory: %w" [FErr e]) (ch_MkdirTemp host));
    emit (MadeDirectory archiveDirectory);;
    defer (emit (RemovedDirectory archiveDirectory)) (
      (if rootfulRuntime (ch_uid host) (ch_uid_map host) then
         emit (Chowned archiveDirectory);;
         lift (wrap_err (fun e => Errorf "set compiler archive directory owner: %w" [FErr e]) (ch_Chown host))
       else mret tt);;
      answer ← Run "" (compile_args host compileContainer workspace archiveDirectory sourceName spec limits);
      result ← lift (match answer with
                     | Some result => Ok result
                     | None => Err (Errorf "compile container returned no result" [])
                     end);
      if negb (rr_ExitCode result =? 0) || rr_OutputLimitExceeded result || negb (is_nil (ch_Err host)) then mret result
      else
        import_artifacts host workspace;;
        mret result)).

(** ** PrepareSandbox *)

(** What [transferWorkspaceArchive] hears, in the order of its [select]; after
    the last event the staging context is done. *)
Inductive TransferEvent :=
  | ProducerDone (err : option goerr)
  | ExtractorDone (err : option goerr)
  | StagingDone (err : ContextError).

(** [tr_reap_producer] and [tr_reap_extractor] answer the reaping of a killed
    command: nothing when the clean-up context is done first. *)
Record TransferHost := mkTransferHost {
  tr_start_extractor : result unit;
  tr_start_producer : result unit;
  tr_events : list TransferEvent;
  tr_last : ContextError;
  tr_reap_producer : option (option goerr);
  tr_reap_extractor : option (option goerr) }.

Definition nil_error (e : option goerr) : farg := match e with Some e => FErr e | None => FStr "<nil>" end.

Fixpoint stopAndReapCommands (commands : list (option (option goerr))) : list (option goerr) :=
  match commands with
  | [] => []
  | Some err :: commands => err :: stopAndReapCommands commands
  | None :: commands => Some (context_error DeadlineExceeded) :: map (fun _ => None) commands
  end.

(** [reapErrors[i]] *)
Definition reaped (i : nat) (commands : list (option (option goerr))) : option goerr :=
  match stopAndReapCommands commands !! i with Some err => err | None => None end.

Definition transfer_canceled (host : TransferHost) (producerFinished : bool) (err : ContextError) : result unit :=
  if producerFinished then
    Err (Errorf "transfer workspace archive canceled: %w (extractor: %v)"
           [FErr (context_error err); nil_error (reaped 0 [tr_reap_extractor host])])
  else
    let commands := [tr_reap_producer host; tr_reap_extractor host] in
    Err (Errorf "transfer workspace archive canceled: %w (producer: %v, extractor: %v)"
           [FErr (context_error err); nil_error (reaped 0 commands); nil_error (reaped 1 commands)]).

Fixpoint transfer_loop (host : TransferHost) (events : list TransferEvent) (producerFinished : bool) : result unit :=
  match events with
  | [] => transfer_canceled host producerFinished (tr_last host)
  | ProducerDone None :: events => transfer_loop host events true
  | ProducerDone (Some producerErr) :: _ =>
      match reaped 0 [tr_reap_extractor host] with
      | Some e => Err (Errorf "archive workspace: %w (extractor: %v)" [FErr producerErr; FErr e])
      | None => Err (Errorf "archive workspace: %w" [FErr producerErr])
      end
  | ExtractorDone extractorErr :: _ =>
      if producerFinished then
        match extractorErr with
        | Some e => Err (Errorf "extract workspace into sandbox: %w" [FErr e])
        | None => Ok tt
        end
      else
        match extractorErr, reaped 0 [tr_reap_producer host] with
        | Some e, _ =>
            Err (Errorf "extract workspace into sandbox: %w: extractor exited before archive completed" [FErr e])
        | None, Some producerErr =>
            Err (Errorf "extractor exited before archive completed (producer: %v)" [FErr producerErr])
        | None, None => Err (Errorf "extractor exited before archive completed" [])
        end
  | StagingDone err :: _ => transfer_canceled host producerFinished err
  end.

Definition transferWorkspaceArchive (host : TransferHost) : result unit :=
  wrap_err (fun e => Errorf "start docker extract: %w" [FErr e]) (tr_start_extractor host);;
  match tr_start_producer host with
  | Err e =>
      match reaped 0 [tr_reap_extractor host] with
      | Some reap => Err (Errorf "start tar archive: %w (reap extractor: %v)" [FErr e; FErr reap])
      | None => Err (Errorf "start tar archive: %w" [FErr e])
      end
  | Ok _ => transfer_loop host (tr_events host) false
  end.

(** What the host answers to one [PrepareSandbox]: the walk over the workspace,
    the transfer and the diagnostics of its two commands. *)
Record StagingHost := mkStagingHost {
  sg_ctx : option goerr;
  sg_visits : list Visit;
  sg_transfer : TransferHost;
  sg_tar : list string;
  sg_docker : list string }.

Definition clear_args (container : string) : list string :=
  ["exec"] ++ ["--user"; "0:0"] ++ [container; "sh"; "-c"; "rm -rf /workspace/* /workspace/.[!.]* /workspace/..?*"].

Definition permissionScript : string :=
  "find /workspace -type d -exec chmod 755 {} + && find /workspace -type f -exec chmod go-w {} + && chmod 1777 /workspace && if [ -f /workspace/main ]; then chmod ".

Definition chmod_args (container : string) : list string :=
  ["exec"] ++ ["--user"; "0:0"] ++ [container; "sh"; "-c"; permissionScript +:+ "755" +:+ " /workspace/main; fi"].

Definition diagnostics (chunks : list string) : string :=
  db_Buffer (copy chunks (new_diagnosticBuffer DefaultOutputLimitBytes)).

Definition PrepareSandbox {T} (host : StagingHost) (container workspace : string) : eff T DockerAction unit :=
  lift (validateWorkspaceForTransfer (sg_ctx host) (sg_visits host));;
  command "clear sandbox workspace" (clear_args container);;
  emit (Transfer container workspace);;
  lift (wrap_err (fun e => Errorf "transfer workspace archive: %w; tar: %s; docker: %s"
                   [FErr e; FStr (diagnostics (sg_tar host)); FStr (diagnostics (sg_docker host))])
         (transferWorkspaceArchive (sg_transfer host)));;
  command "set sandbox executable permissions" (chmod_args container).
End Executor.

(** ** Laws *)

(** A transfer succeeds only when tar ended without an error and the extractor
    did so after it. *)
Lemma transfer_loop_Ok host events finished :
  transfer_loop host events finished = Ok tt ->
  exists before after, events = before ++ ExtractorDone None :: after
  /\ Forall (fun e => e = ProducerDone None) before /\ (finished = true \/ ProducerDone None ∈ before).
Proof.
  revert finished. induction events as [|[[e|]|[e|]|e] events IH]; intros finished; cbn.
  - by destruct finished.
  - by case_match.
  - intros (before & after & -> & Hall & _)%IH. exists (ProducerDone None :: before), after.
    split_and!; [done|by constructor|right; by left].
  - by destruct finished.
  - destruct finished; [|by case_match]. intros _. exists [], events. split_and!; [done..|by left].
  - by destruct finished.
Qed.

Lemma transfer_Ok host :
  transferWorkspaceArchive host = Ok tt ->
  exists before after, tr_events host = before ++ ExtractorDone None :: after
  /\ Forall (fun e => e = ProducerDone None) before /\ ProducerDone None ∈ before.
Proof.
  rewrite /transferWorkspaceArchive. intros (_ & _ & H)%bind_Ok_inv.
  destruct (tr_start_producer host); [|by case_match].
  destruct (transfer_loop_Ok _ _ _ H) as (before & after & E & Hall & [?|Hin]); [done|]. by exists before, after.
Qed.
