(* ===== verification/Wire.v ===== *)
(** * The supervisor protocol

    The judge sends one request with the inputs of all cases to the supervisor
    in the sandbox and reads one result for each case that was run:
    internal/judge/supervisor_executor.go on one side, [runSupervisor] of
    cmd/yexsupervisor/main.go on the other. *)

From S2P Require Import Prelude GoStrings GoJson TypeSyntax Contracts Adapters Harness CppHarness CppClass.
From S2P Require Import PyHarness Languages Validate Verdict TestCases Effects Paths Workspace Buffers GoStruct Docker.

#[local] Open Scope Z_scope.

(** ** Messages *)

Record supervisorRequest := mkSupervisorRequest {
  sq_Command : list string;
  sq_Inputs : list string;
  sq_TimeLimitMs : Z;
  sq_OutputLimit : Z }.

(** [caseResult], and [supervisorResult] on the judge's side. *)
Record caseResult := mkCaseResult {
  cs_Stdout : string;
  cs_Stderr : string;
  cs_ExitCode : Z;
  cs_CPUMs : Z;
  cs_MaxRssKb : Z;
  cs_TimedOut : bool;
  cs_OutputLimit : bool }.

(** [json.Marshal] of a request and [Encoder.Encode] of a result. *)
Definition request_members (r : supervisorRequest) : list (string * string) :=
  [("command", encode_strings true (sq_Command r)); ("inputs", encode_strings true (sq_Inputs r));
   ("timeLimitMs", Itoa (sq_TimeLimitMs r)); ("outputLimit", Itoa (sq_OutputLimit r))].

Definition Marshal_request (r : supervisorRequest) : string := object_text (request_members r).

Definition result_members (r : caseResult) : list (string * string) :=
  [("stdout", encode_string true (cs_Stdout r)); ("stderr", encode_string true (cs_Stderr r));
   ("exitCode", Itoa (cs_ExitCode r)); ("cpuMs", Itoa (cs_CPUMs r)); ("maxRssKb", Itoa (cs_MaxRssKb r));
   ("timedOut", encode_bool (cs_TimedOut r)); ("outputLimit", encode_bool (cs_OutputLimit r))].

Definition Encode_result (r : caseResult) : string := object_text (result_members r) +:+ newline.

(** Both sides decode into structs that start as zero values. *)
Definition request_fields : list (field supervisorRequest) :=
  [("command", fun raw r => x ← decode_strings raw (sq_Command r);
      Ok (mkSupervisorRequest x (sq_Inputs r) (sq_TimeLimitMs r) (sq_OutputLimit r)));
   ("inputs", fun raw r => x ← decode_strings raw (sq_Inputs r);
      Ok (mkSupervisorRequest (sq_Command r) x (sq_TimeLimitMs r) (sq_OutputLimit r)));
   ("timeLimitMs", fun raw r => x ← decode_int raw (sq_TimeLimitMs r);
      Ok (mkSupervisorRequest (sq_Command r) (sq_Inputs r) x (sq_OutputLimit r)));
   ("outputLimit", fun raw r => x ← decode_int raw (sq_OutputLimit r);
      Ok (mkSupervisorRequest (sq_Command r) (sq_Inputs r) (sq_TimeLimitMs r) x))].

Definition result_fields : list (field caseResult) :=
  let keep r a b c d e f g := mkCaseResult (default (cs_Stdout r) a) (default (cs_Stderr r) b)
    (default (cs_ExitCode r) c) (default (cs_CPUMs r) d) (default (cs_MaxRssKb r) e) (default (cs_TimedOut r) f)
    (default (cs_OutputLimit r) g) in
  [("stdout", fun raw r => x ← decode_string raw (cs_Stdout r); Ok (keep r (Some x) None None None None None None));
   ("stderr", fun raw r => x ← decode_string raw (cs_Stderr r); Ok (keep r None (Some x) None None None None None));
   ("exitCode", fun raw r => x ← decode_int raw (cs_ExitCode r); Ok (keep r None None (Some x) None None None None));
   ("cpuMs", fun raw r => x ← decode_int raw (cs_CPUMs r); Ok (keep r None None None (Some x) None None None));
   ("maxRssKb", fun raw r => x ← decode_int raw (cs_MaxRssKb r); Ok (keep r None None None None (Some x) None None));
   ("timedOut", fun raw r => x ← decode_bool raw (cs_TimedOut r); Ok (keep r None None None None None (Some x) None));
   ("outputLimit", fun raw r => x ← decode_bool raw (cs_OutputLimit r); Ok (keep r None None None None None None (Some x)))].

Definition zero_request : supervisorRequest := mkSupervisorRequest [] [] 0 0.
Definition zero_result : caseResult := mkCaseResult "" "" 0 0 0 false false.

Definition EOF : goerr := LibErr "EOF".

(** ** The supervisor's side: the request *)

Definition maxCases : Z := 500.

Definition ensureJSONEOF (rest : string) : result unit :=
  match Decode rest with
  | DecodedEOF => Ok tt
  | _ => Err (Errorf "supervisor request contains trailing JSON data" [])
  end.

Definition validate_request (request : supervisorRequest) : result unit :=
  fail_if match sq_Command request with [] => true | name :: _ => bool_decide (name = "") end
  with Errorf "supervisor command is empty" [];;
  fail_if (Z.of_nat (length (sq_Inputs request)) =? 0) || (maxCases <? Z.of_nat (length (sq_Inputs request)))
  with Errorf "supervisor case count must be between 1 and %d" [FInt maxCases];;
  fail_if (sq_TimeLimitMs request <=? 0) || (30000 <? sq_TimeLimitMs request)
  with Errorf "invalid per-case time limit" [];;
  fail_if (sq_OutputLimit request <=? 0) || (Z.shiftl 1 20 <? sq_OutputLimit request)
  with Errorf "invalid per-case output limit" [];;
  Ok tt.

(** [runSupervisor] up to the validated request. *)
Definition read_request (euid : Z) (stdin : string) : result supervisorRequest :=
  fail_if negb (euid =? 0) with Errorf "supervisor must run as root" [];;
  let wrap e := Errorf "decode supervisor request: %w" [FErr e] in
  match Decode (slice (Z.shiftl 16 20) stdin) with
  | DecodedEOF => Err (wrap EOF)
  | DecodedError e => Err (wrap e)
  | DecodedValue raw rest =>
      request ← wrap_err wrap (Unmarshal_struct request_fields false raw zero_request);
      ensureJSONEOF rest;;
      validate_request request;;
      Ok request
  end.

(** ** The judge's side: the results *)

Definition stops (r : caseResult) : bool := negb (cs_ExitCode r =? 0) || cs_TimedOut r || cs_OutputLimit r.

Definition run_stops (r : RunResult) : bool :=
  negb (rr_ExitCode r =? 0) || rr_TimedOut r || rr_OutputLimitExceeded r.

Definition to_run (r : caseResult) : RunResult :=
  mkRunResult (cs_Stdout r) (cs_Stderr r) (cs_ExitCode r) (cs_TimedOut r) (cs_OutputLimit r)
    (wrap64 (cs_CPUMs r * Millisecond)) (wrap64 (cs_MaxRssKb r * 1024)).

Definition required_fields : list string :=
  ["stdout"; "stderr"; "exitCode"; "cpuMs"; "maxRssKb"; "timedOut"; "outputLimit"].

(** One turn of the loop; [n] is the number of the case. *)
Definition decode_result (n : Z) (raw : string) : result RunResult :=
  let not_object := Errorf "decode supervisor testcase %d: result must be a JSON object" [FInt n] in
  fields ← match Unmarshal_object raw with Ok (Some fields) => Ok fields | _ => Err not_object end;
  iterM (fun _ name =>
    fail_if is_nil (fields !! name) with Errorf "decode supervisor testcase %d: missing %q field" [FInt n; FStr name];;
    Ok tt) required_fields;;
  result ← wrap_err (fun e => Errorf "decode supervisor testcase %d: %w" [FInt n; FErr e])
             (Unmarshal_struct result_fields false raw zero_result);
  fail_if (cs_CPUMs result <? 0) || (cs_MaxRssKb result <? 0)
  with Errorf "invalid measurements for supervisor testcase %d" [FInt n];;
  Ok (to_run result).

(** [remaining] turns are left; the results so far, and what is left of the
    output. *)
Fixpoint decode_loop (remaining : nat) (output : string) (results : list RunResult)
    : result (list RunResult * string) :=
  match remaining with
  | O => Ok (results, output)
  | S remaining =>
      let n := Z.of_nat (length results) + 1 in
      let failed e := Err (Errorf "decode supervisor testcase %d: %w" [FInt n; FErr e]) in
      match Decode output with
      | DecodedEOF =>
          match last results with
          | Some r => if run_stops r then Ok (results, output) else failed EOF
          | None => failed EOF
          end
      | DecodedError e => failed e
      | DecodedValue raw rest =>
          r ← decode_result n raw;
          if run_stops r then Ok (results ++ [r], rest) else decode_loop remaining rest (results ++ [r])
      end
  end.

Definition decodeSupervisorResults (output : string) (expected : nat) : result (list RunResult) :=
  '(results, rest) ← decode_loop expected output [];
  fail_if bool_decide (results = []) with Errorf "supervisor returned no testcase results" [];;
  match Decode rest with
  | DecodedEOF => Ok results
  | _ => Err (Errorf "supervisor returned trailing data" [])
  end.

(** ** RunTestCases *)

(** The supervisor's command: what it wrote when given a request, its error, and
    the context's error when it ended and after the restart. *)
Record SupervisorRun := mkSupervisorRun {
  su_stdout : string -> list string;
  su_stderr : string -> list string;
  su_Run : option goerr;
  su_Err : option ContextError;
  su_Err_later : option ContextError;
  su_polls : nat }.

(** [(len(inputs)+1) * (12*limit + 4096)] *)
Definition transport_limit (cases : nat) : Z :=
  wrap64 ((Z.of_nat cases + 1) * (12 * DefaultOutputLimitBytes + 4096)).

Section RunTestCases.
Context (runner : nat -> list string -> string -> result (option RunResult)).

Definition supervisor_args (container : string) : list string :=
  ["exec"; "--user"; "0:0"; "-i"; container; "/usr/local/bin/yexsupervisor"; "run"].

Definition supervisor_request (inputs : list string) (spec : Spec) (timeLimit : Z) : supervisorRequest :=
  mkSupervisorRequest (sp_RunCommand spec) inputs (Milliseconds timeLimit) DefaultOutputLimitBytes.

(** [nil] for no inputs; [spec] is never nil here. *)
Definition RunTestCases (run : SupervisorRun) (container : string) (inputs : list string) (spec : Spec) (timeLimit : Z)
    : eff SandboxFlags DockerAction (option (list RunResult)) :=
  if bool_decide (inputs = []) then mret None
  else
    lift (fail_if (timeLimit <=? 0) || (Milliseconds timeLimit =? 0)
          with Errorf "testcase time limit must be at least one millisecond" [];;
          fail_if bool_decide (sp_RunCommand spec = []) with Errorf "supervisor testcase command is empty" [];;
          Ok tt);;
    let request := Marshal_request (supervisor_request inputs spec timeLimit) in
    let stdout := copy (su_stdout run request) (new_cappedCommandBuffer (transport_limit (length inputs))) in
    let stderr := copy (su_stderr run request) (new_cappedCommandBuffer DefaultOutputLimitBytes) in
    emit (DockerRun (supervisor_args container));;
    match su_Err run with
    | Some _ =>
        restart_sandbox runner "restart sandbox after interrupted supervisor execution" (su_polls run) container;;
        lift (match su_Err_later run with
              | Some e => Err (context_error e)
              | None => Err (Errorf "docker supervisor execution canceled: %w" [nil_error (su_Run run)])
              end)
    | None =>
        on_failure (modify set_needsReplace) (
          lift (fail_if cb_exceeded stdout with Errorf "supervisor output exceeded transport limit" [];;
                match su_Run run with
                | Some e => Err (Errorf "run supervisor test cases: %w: %s" [FErr e; FStr (TrimSpace (cb_Buffer stderr))])
                | None => Ok tt
                end;;
                results ← decodeSupervisorResults (cb_Buffer stdout) (length inputs);
                Ok (Some results)))
    end.
End RunTestCases.
