(* ===== verification/DockerLaws.v ===== *)
(** * What the executor's calls leave behind *)

From S2P Require Import Prelude GoStrings GoJson TypeSyntax Contracts Adapters Harness CppHarness CppClass.
From S2P Require Import PyHarness Languages Validate Verdict TestCases Effects Paths Workspace Buffers GoStruct Docker.
From S2P Require Import Wire.

#[local] Open Scope Z_scope.

Section Laws.
Context (runner : nat -> list string -> string -> result (option RunResult)).

(** The call keeps the state and only adds to the log. *)
Definition extends {T A} (m : eff T DockerAction A) : Prop := forall w,
  w_state (snd (m w)) = w_state w /\ w_log w `prefix_of` w_log (snd (m w)).

Lemma extends_bind {T A B} (m : eff T DockerAction A) (f : A -> eff T DockerAction B) :
  extends m -> (forall a, extends (f a)) -> extends (m ≫= f).
Proof.
  intros Hm Hf w. rewrite /mbind /eff_bind. destruct (Hm w) as [Hs Hl]. destruct (m w) as [[a|e] w1]; [|by split].
  cbn in Hs, Hl. destruct (Hf a w1) as [Hs' Hl']. split; [by rewrite Hs'|by etransitivity].
Qed.

Lemma extends_lift {T A} (r : result A) : extends (T := T) (lift r).
Proof. by intros w. Qed.

Lemma extends_attempt {T A} (m : eff T DockerAction A) : extends m -> extends (attempt m).
Proof. intros Hm w. rewrite /attempt. specialize (Hm w). by destruct (m w). Qed.

Lemma extends_Run {T} input args : extends (T := T) (Run runner input args).
Proof. intros w. split; [done|]. by eexists. Qed.

Lemma extends_emit {T} action : extends (T := T) (emit action).
Proof. intros w. split; [done|]. by eexists. Qed.

Lemma extends_command {T} action args : extends (T := T) (command runner action args).
Proof. apply extends_bind; [apply extends_Run|intros; apply extends_lift]. Qed.

Lemma extends_ready {T} polls container : extends (T := T) (waitForSandboxReady runner polls container).
Proof.
  induction polls as [|polls IH]; (apply extends_bind; [apply extends_attempt, extends_command|]);
    intros [a|e]; by (apply IH || apply extends_lift || intros w).
Qed.

Lemma extends_remove {T} container : extends (T := T) (RemoveSandbox runner container).
Proof. apply extends_bind; [apply extends_attempt, extends_Run|by intros ? w]. Qed.

(** The last docker command that was run is the readiness check of the
    container, and it ended with exit code 0. *)
Definition ready {T} (container : string) (w : World T DockerAction) : Prop := exists log res,
  w_log w = log ++ [DockerRun ["exec"; container; "true"]]
  /\ runner (length log) ["exec"; container; "true"] "" = Ok (Some res) /\ rr_ExitCode res = 0.

Lemma dockerCommandError_Ok action answer :
  dockerCommandError action answer = Ok tt <-> exists res, answer = Some res /\ rr_ExitCode res = 0.
Proof.
  destruct answer as [res|]; cbn; [|by split; [|intros (? & ? & _)]]. destruct (Z.eqb_spec (rr_ExitCode res) 0) as [E|E].
  - split; [by eexists|done].
  - split; [by repeat case_match|]. by intros (? & [= <-] & ?).
Qed.

Lemma ready_Ok {T} polls container (w : World T DockerAction) :
  fst (waitForSandboxReady runner polls container w) = Ok tt ->
  ready container (snd (waitForSandboxReady runner polls container w)).
Proof.
  revert w. induction polls as [|polls IH]; intros w; cbn [waitForSandboxReady].
  all: rewrite /attempt /command /Run /lift /mbind /eff_bind.
  all: destruct (runner (length (w_log w)) ["exec"; container; "true"] "") as [answer|e] eqn:E; [|done || by apply IH].
  all: destruct (dockerCommandError _ answer) as [[]|] eqn:Ed; [|done || by apply IH].
  all: intros _; apply dockerCommandError_Ok in Ed as (res & -> & Hres); by exists (w_log w), res.
Qed.

(** ** The restart of a sandbox *)

Definition restart_action (container : string) : DockerAction := DockerRun ["restart"; "-t"; "0"; container].

(** The world after a restart of the container that came first after [w]: it
    answered again and the flags say so, or the sandbox must be replaced. *)
Definition restarted_or_replaced {A} (container : string) (w : World SandboxFlags DockerAction)
    (answer : result A) (w' : World SandboxFlags DockerAction) : Prop :=
  w_log w ++ [restart_action container] `prefix_of` w_log w'
  /\ (is_ok answer = true /\ w_state w' = set_restarted (w_state w) /\ ready container w'
      \/ is_ok answer = false /\ w_state w' = set_needsReplace (w_state w)).

Lemma restart_spec action polls container w answer w' :
  restart_sandbox runner action polls container w = (answer, w') -> restarted_or_replaced container w answer w'.
Proof.
  rewrite /restart_sandbox /on_failure /attempt /Run /lift /modify /get /put /mbind /eff_bind.
  set (w1 := mkWorld (w_state w) (w_log w ++ [restart_action container])).
  fold (restart_action container). fold w1. rewrite /restarted_or_replaced.
  destruct (wrap_err _ _) as [res|e]; cbn [snd w_state w_log].
  2: { intros [= <- <-]. split; [done|]. by right. }
  destruct (dockerCommandError action res) as [[]|e]; cbn [snd w_state w_log].
  2: { intros [= <- <-]. split; [done|]. by right. }
  pose proof (extends_ready polls container w1) as [Hs Hl]. pose proof (ready_Ok polls container w1) as Hready.
  destruct (waitForSandboxReady runner polls container w1) as [[[]|e] w2]; cbn in Hs, Hl, Hready.
  - intros [= <- <-]. split; [done|]. left. cbn. rewrite Hs. split_and!; [done..|]. by apply Hready.
  - intros [= <- <-]. split; [done|]. right. cbn. by rewrite Hs.
Qed.

(** ** RunTestCase and RunTestCases *)

(** The command a case runs. *)
Definition case_args (ctx : RunContext) (container : string) (spec : Spec) : list string :=
  ["exec"; "--user"; "10001:10001"; "-i"; container; "/usr/bin/time"; "-f"; memory_marker ctx +:+ "%M\n"; "--"] ++
  sp_RunCommand spec.

(** The run was cut short: its deadline passed, its context was cancelled, or
    it wrote more than the output limit. *)
Definition cut_short (ctx : RunContext) (run : RunResult) : bool :=
  rr_OutputLimitExceeded run || negb (is_nil (rc_Err ctx)).

(** The result keeps what the docker command answered; the memory comes from
    the marker, and a deadline that passed is a time-out. *)
Definition reports (ctx : RunContext) (run r : RunResult) : Prop :=
  rr_Stdout r = rr_Stdout run /\ rr_ExitCode r = rr_ExitCode run /\ rr_TimeUsed r = rr_TimeUsed run
  /\ rr_OutputLimitExceeded r = rr_OutputLimitExceeded run
  /\ (rr_Stderr r, rr_MemoryUsed r) = extractMeasuredMemory (rr_Stderr run) (memory_marker ctx)
  /\ rr_TimedOut r = rr_TimedOut run || bool_decide (rc_Err ctx = Some DeadlineExceeded).

Lemma reports_measured ctx run :
  let r := measured (memory_marker ctx) run in
  reports ctx run (if bool_decide (rc_Err ctx = Some DeadlineExceeded) then timed_out r else r).
Proof.
  cbn zeta. rewrite /measured /reports. destruct (extractMeasuredMemory _ _) as [stderr memory].
  case_bool_decide; cbn; rewrite ?orb_true_r ?orb_false_r; by split_and!.
Qed.

Definition RunTestCase_promise (ctx : RunContext) (container input : string) (spec : Spec)
    (w : World SandboxFlags DockerAction) (answer : result RunResult) (w' : World SandboxFlags DockerAction) : Prop :=
  let w1 := mkWorld (w_state w) (w_log w ++ [DockerRun (case_args ctx container spec)]) in
  match runner (length (w_log w)) (case_args ctx container spec) (input +:+ newline) with
  | Err e => answer = Err e /\ w' = w1
  | Ok None => answer = Err nil_panic /\ w' = w1
  | Ok (Some run) =>
      (forall r, answer = Ok r -> reports ctx run r) /\
      if cut_short ctx run then restarted_or_replaced container w1 answer w' else is_ok answer = true /\ w' = w1
  end.

Lemma RunTestCase_spec ctx container input spec w answer w' :
  RunTestCase runner ctx container input spec w = (answer, w') ->
  RunTestCase_promise ctx container input spec w answer w'.
Proof.
  rewrite /RunTestCase /RunTestCase_promise. cbn zeta. rewrite /Run /lift. rewrite /mbind /eff_bind.
  fold (case_args ctx container spec). set (w1 := mkWorld (w_state w) _).
  destruct (runner _ _ _) as [[run|]|e]; [|by intros [= <- <-]..].
  cbn [deref]. pose proof (reports_measured ctx run) as Hr. cbn zeta in Hr.
  assert (rr_OutputLimitExceeded (measured (memory_marker ctx) run) = rr_OutputLimitExceeded run) as ->
    by (rewrite /measured; by destruct (extractMeasuredMemory _ _)).
  fold (cut_short ctx run). destruct (cut_short ctx run).
  - destruct (restart_sandbox _ _ _ _ _) as [[[]|e] w2] eqn:Er; apply restart_spec in Er.
    + intros [= <- <-]. split; [by intros r [= <-]|done].
    + intros [= <- <-]. by split.
  - intros [= <- <-]. split; [by intros r [= <-]|done].
Qed.

(** What the judge may ask of the supervisor. *)
Definition askable (spec : Spec) (timeLimit : Z) : Prop := Millisecond <= timeLimit /\ sp_RunCommand spec <> [].

Definition RunTestCases_promise (run : SupervisorRun) (container : string) (inputs : list string) (spec : Spec)
    (timeLimit : Z) (w : World SandboxFlags DockerAction) (answer : result (option (list RunResult)))
    (w' : World SandboxFlags DockerAction) : Prop :=
  let w1 := mkWorld (w_state w) (w_log w ++ [DockerRun (supervisor_args container)]) in
  (inputs = [] /\ answer = Ok None /\ w' = w)
  \/ (inputs <> [] /\ ~ askable spec timeLimit /\ is_ok answer = false /\ w' = w)
  \/ (inputs <> [] /\ askable spec timeLimit /\
      match su_Err run with
      | Some _ => is_ok answer = false /\ exists restart : result unit, restarted_or_replaced container w1 restart w'
      | None => w_log w' = w_log w1 /\
          w_state w' = if is_ok answer then w_state w else set_needsReplace (w_state w)
      end).

Lemma askable_checks spec timeLimit :
  (timeLimit <=? 0) || (Milliseconds timeLimit =? 0) = false -> sp_RunCommand spec <> [] -> askable spec timeLimit.
Proof.
  intros Ht Hc. bool_prop. split; [|done]. rewrite /Milliseconds /Millisecond in H0 |- *.
  destruct (Z.le_gt_cases 1000000 timeLimit) as [|Hlt]; [done|]. by rewrite Z.quot_small in H0; [lia|].
Qed.

Lemma not_askable_time spec timeLimit :
  (timeLimit <=? 0) || (Milliseconds timeLimit =? 0) = true -> ~ askable spec timeLimit.
Proof.
  intros Ht [Hle _]. rewrite /Millisecond in Hle. apply orb_true_iff in Ht as [Ht%Z.leb_le|Ht%Z.eqb_eq]; [lia|].
  rewrite /Milliseconds in Ht. pose proof (Z.quot_le_mono 1000000 timeLimit 1000000 ltac:(lia) Hle) as Hq.
  rewrite Z.quot_same in Hq; [lia|]. rewrite /Millisecond in Ht. lia.
Qed.

Lemma RunTestCases_spec run container inputs spec timeLimit w answer w' :
  RunTestCases runner run container inputs spec timeLimit w = (answer, w') ->
  RunTestCases_promise run container inputs spec timeLimit w answer w'.
Proof.
  rewrite /RunTestCases /RunTestCases_promise. case_bool_decide as Hin; [by intros [= <- <-]; left|].
  intros E. right. revert E.
  destruct (_ || _) eqn:Et.
  { intros [= <- <-]. left. split_and!; [done|by apply not_askable_time|done|done]. }
  case_bool_decide as Hc.
  { intros [= <- <-]. left. split_and!; [done| |done|done]. by intros [_ ?]. }
  pose proof (askable_checks _ _ Et Hc) as Hask.
  rewrite /lift /emit /mbind /eff_bind. cbn zeta. intros E. right. do 2 (split; [done|]). revert E.
  destruct (su_Err run) as [err|].
  - destruct (restart_sandbox _ _ _ _ _) as [[[]|e] w2] eqn:Er; apply restart_spec in Er.
    + destruct (su_Err_later run); intros [= <- <-]; by (split; [|eexists; exact Er]).
    + intros [= <- <-]. by (split; [|eexists; exact Er]).
  - rewrite /on_failure. match goal with |- match ?m with _ => _ end = _ -> _ => destruct m as [answer1|e] end;
      by intros [= <- <-].
Qed.

(** ** StartSandbox *)

Definition remove_action (container : string) : DockerAction := DockerRun ["rm"; "-f"; container].

(** [docker run] itself succeeded. *)
Definition started (answer : result (option RunResult)) : Prop :=
  exists res, answer = Ok (Some res) /\ rr_ExitCode res = 0.

Definition StartSandbox_promise {T} (now : Z) (w : World T DockerAction) (answer : result string)
    (w' : World T DockerAction) : Prop :=
  let container := "yexjudge-" +:+ Itoa now in
  let start := DockerRun (sandbox_args container) in
  let start_answer := runner (length (w_log w)) (sandbox_args container) "" in
  w_state w' = w_state w /\
  ((started start_answer /\ answer = Ok container /\ ready container w' /\ w_log w ++ [start] `prefix_of` w_log w')
   \/ (started start_answer /\ is_ok answer = false /\
      exists checks, w_log w' = w_log w ++ start :: checks ++ [remove_action container])
   \/ (~ started start_answer /\ is_ok answer = false /\ w_log w' = w_log w ++ [start])).

Lemma command_spec {T} action args (w : World T DockerAction) :
  let answer := runner (length (w_log w)) args "" in
  snd (command runner action args w) = mkWorld (w_state w) (w_log w ++ [DockerRun args])
  /\ (fst (command runner action args w) = Ok tt /\ started answer
      \/ is_ok (fst (command runner action args w)) = false /\ ~ started answer).
Proof.
  cbn zeta. rewrite /command /Run /lift /mbind /eff_bind /started.
  destruct (runner _ _ _) as [answer|e]; cbn [fst snd]; (split; [done|]); [|right; by split; [|intros (? & ? & _)]].
  destruct (dockerCommandError action answer) as [[]|] eqn:Ed.
  - left. split; [done|]. apply dockerCommandError_Ok in Ed as (res & -> & Hres). by exists res.
  - right. split; [done|]. intros (res & [= ->] & Hres).
    assert (dockerCommandError action (Some res) = Ok tt) as Hok by (apply dockerCommandError_Ok; by exists res). congruence.
Qed.

Lemma StartSandbox_spec {T} now polls (w : World T DockerAction) answer w' :
  StartSandbox runner now polls w = (answer, w') -> StartSandbox_promise now w answer w'.
Proof.
  rewrite /StartSandbox /StartSandbox_promise. cbn zeta. set (container := _ +:+ Itoa now).
  rewrite {1}/mbind {1}/eff_bind.
  destruct (command_spec "start sandbox" (sandbox_args container) w) as [Hw Ha]. cbn zeta in Ha.
  destruct (command _ _ _ w) as [started_answer w1]. cbn [fst snd] in Hw, Ha. subst w1.
  destruct Ha as [[-> Hs]|[Ha Hs]].
  2:{ destruct started_answer as [|e]; [done|]. intros [= <- <-]. split; [done|]. right. by right. }
  set (w1 := mkWorld _ _). rewrite {1}/mbind {1}/eff_bind /on_failure.
  pose proof (extends_ready polls container w1) as [Hst [checks Hl]]. pose proof (ready_Ok polls container w1) as Hready.
  destruct (waitForSandboxReady runner polls container w1) as [[[]|e] w2]; cbn in Hst, Hl, Hready.
  - intros [= <- <-]. split; [done|]. left. split_and!; [done..|by apply Hready|by exists checks].
  - intros [= <- <-]. split; [done|]. right. left. split_and!; [done..|]. exists checks. cbn. by rewrite Hl -!app_assoc.
Qed.

(** ** Compile *)

Definition logs {T A} (m : eff T DockerAction A) : Prop := forall w, w_log w `prefix_of` w_log (snd (m w)).

Lemma extends_logs {T A} (m : eff T DockerAction A) : extends m -> logs m.
Proof. intros Hm w. apply Hm. Qed.

Lemma logs_bind {T A B} (m : eff T DockerAction A) (f : A -> eff T DockerAction B) :
  logs m -> (forall a, logs (f a)) -> logs (m ≫= f).
Proof.
  intros Hm Hf w. rewrite /mbind /eff_bind. specialize (Hm w). destruct (m w) as [[a|e] w1]; [|done].
  etransitivity; [exact Hm|apply Hf].
Qed.

Lemma defer_inv {T A} cleanup (m : eff T DockerAction A) w answer w' :
  defer cleanup m w = (answer, w') -> exists w1, m w = (answer, w1) /\ w' = snd (cleanup w1).
Proof. rewrite /defer. destruct (m w) as [r w1]. intros [= <- <-]. by exists w1. Qed.

(** A check that does not touch the world. *)
Lemma lift_inv {T A B} (r : result A) (f : A -> eff T DockerAction B) w answer w' :
  (lift r ≫= f) w = (answer, w') -> w' = w \/ exists a, f a w = (answer, w').
Proof. rewrite /mbind /eff_bind /lift. destruct r as [a|e]; [right; by exists a|intros [= _ <-]; by left]. Qed.

Definition compile_container (host : CompileHost) : string := "yexjudge-compile-" +:+ Itoa (ch_now host).

(** Whatever happens to a compilation, its container is removed last, and a
    directory that was made for the archive is removed before that. *)
Lemma Compile_spec host workspace spec limits w answer w' :
  Compile runner host workspace spec limits w = (answer, w') ->
  exists middle, w_log w' = w_log w ++ middle ++ [remove_action (compile_container host)]
  /\ (middle = [] \/ exists directory rest, middle = MadeDirectory directory :: rest ++ [RemovedDirectory directory]).
Proof.
  intros (w1 & E & ->)%defer_inv.
  assert (exists middle, w_log w1 = w_log w ++ middle /\
    (middle = [] \/ exists directory rest, middle = MadeDirectory directory :: rest ++ [RemovedDirectory directory]))
    as (middle & El & Hm).
  2: { exists middle. split; [|done]. rewrite app_assoc -El.
       rewrite /RemoveSandbox /attempt /Run /mbind /eff_bind. done. }
  apply lift_inv in E as [->|[_ E]]; [exists []; rewrite app_nil_r; by split; [|left]|].
  apply lift_inv in E as [->|[_ E]]; [exists []; rewrite app_nil_r; by split; [|left]|].
  apply lift_inv in E as [->|[directory E]]; [exists []; rewrite app_nil_r; by split; [|left]|].
  rewrite {1}/mbind {1}/eff_bind /emit in E. apply defer_inv in E as (w2 & E & ->).
  match type of E with ?m ?w0 = _ => assert (logs m) as Hlogs end.
  { apply logs_bind; [case_match; [|by intros w0]; apply logs_bind; [apply extends_logs, extends_emit|
      intros; apply extends_logs, extends_lift]|].
    intros _. apply logs_bind; [apply extends_logs, extends_Run|]. intros result.
    apply logs_bind; [apply extends_logs, extends_lift|]. intros res. destruct (negb _ || _ || negb _); [by intros w0|].
    apply logs_bind; [|by intros _ w0]. intros w0. rewrite /import_artifacts.
    by destruct (importCompilerArtifacts _ _ _ _ _). }
  specialize (Hlogs (mkWorld (w_state w) (w_log w ++ [MadeDirectory directory]))). rewrite E in Hlogs. destruct Hlogs as [rest Hrest]. cbn in Hrest.
  exists (MadeDirectory directory :: rest ++ [RemovedDirectory directory]). split; [|right; by exists directory, rest].
  cbn. by rewrite Hrest -!app_assoc.
Qed.

(** ** PrepareSandbox *)

Lemma PrepareSandbox_Ok {T} host container workspace (w w' : World T DockerAction) :
  PrepareSandbox runner host container workspace w = (Ok tt, w') ->
  validateWorkspaceForTransfer (sg_ctx host) (sg_visits host) = Ok tt
  /\ (exists before after, tr_events (sg_transfer host) = before ++ ExtractorDone None :: after
       /\ Forall (fun e => e = ProducerDone None) before /\ ProducerDone None ∈ before)
  /\ w_log w' = w_log w ++ [DockerRun (clear_args container); Transfer container workspace; DockerRun (chmod_args container)].
Proof.
  rewrite /PrepareSandbox /command /Run /lift /emit /mbind /eff_bind.
  destruct (validateWorkspaceForTransfer _ _) as [[]|]; [|done].
  destruct (runner _ _ _) as [answer|]; [|done]. destruct (dockerCommandError _ _) as [[]|]; [|done].
  destruct (wrap_err _ _) as [[]|] eqn:Et; [|done]. apply wrap_err_Ok, transfer_Ok in Et.
  destruct (runner _ _ _) as [answer'|]; [|done]. destruct (dockerCommandError _ _) as [[]|]; [|done].
  intros [= <-]. split_and!; [done..|]. cbn. by rewrite -!app_assoc.
Qed.
End Laws.

(** C36: every call of the executor accounts for the container it used.
    [RunTestCase]: a run whose docker command failed leaves the sandbox's flags
    as they were, and the caller's reset is what cleans it; a run that was cut
    short - deadline, cancellation or output limit - is followed at once by a
    restart, after which the container answered again and is marked restarted,
    or the call fails and the sandbox is marked to be replaced; any other run
    changes nothing, and a result reports what docker answered, with a passed
    deadline as a time-out.  [RunTestCases]: a request that cannot be asked runs
    nothing; an interrupted session fails after the same restart; any other
    failure - the transport limit, the docker command, the protocol - marks the
    sandbox to be replaced, and a success leaves it as it was.  [StartSandbox]:
    a container that started answers, or is removed last and the call fails; a
    docker run that failed is reported and nothing is removed.  [Compile]: the
    container is removed, last, on every path, and its archive directory before.
    [PrepareSandbox] succeeds only if the whole workspace was archived and then
    extracted. *)
Theorem executor_accounts runner :
  (forall ctx container input spec w answer w',
     RunTestCase runner ctx container input spec w = (answer, w') ->
     RunTestCase_promise runner ctx container input spec w answer w')
  /\ (forall run container inputs spec timeLimit w answer w',
     RunTestCases runner run container inputs spec timeLimit w = (answer, w') ->
     RunTestCases_promise runner run container inputs spec timeLimit w answer w')
  /\ (forall now polls (w : World SandboxFlags DockerAction) answer w',
     StartSandbox runner now polls w = (answer, w') -> StartSandbox_promise runner now w answer w')
  /\ (forall host workspace spec limits w answer w',
     Compile runner host workspace spec limits w = (answer, w') ->
     exists middle, w_log w' = w_log w ++ middle ++ [remove_action (compile_container host)]
     /\ (middle = [] \/ exists directory rest, middle = MadeDirectory directory :: rest ++ [RemovedDirectory directory]))
  /\ (forall host container workspace (w w' : World SandboxFlags DockerAction),
     PrepareSandbox runner host container workspace w = (Ok tt, w') ->
     validateWorkspaceForTransfer (sg_ctx host) (sg_visits host) = Ok tt
     /\ (exists before after, tr_events (sg_transfer host) = before ++ ExtractorDone None :: after
          /\ Forall (fun e => e = ProducerDone None) before /\ ProducerDone None ∈ before)
     /\ w_log w' = w_log w ++ [DockerRun (clear_args container); Transfer container workspace; DockerRun (chmod_args container)]).
Proof.
  split_and!; intros *; [apply RunTestCase_spec|apply RunTestCases_spec|apply StartSandbox_spec|apply Compile_spec|apply PrepareSandbox_Ok].
Qed.

(** A run that is stopped by its deadline, on a docker that always works, and
    on one whose restarts fail. *)
Definition sample_docker (restarts : bool) (_ : nat) (args : list string) (_ : string) : result (option RunResult) :=
  Ok (Some (mkRunResult "partial" "" (if restarts || negb (bool_decide (args = ["restart"; "-t"; "0"; "box"])) then 0 else 1)
    false false 0 0)).

Definition sample_run_case (restarts : bool) : result RunResult * World SandboxFlags DockerAction :=
  RunTestCase (sample_docker restarts) (mkRunContext 1 (Some DeadlineExceeded) 3) "box" "1" language_Python
    (mkWorld (mkSandboxFlags false false) []).

Lemma executor_accounts_witness :
  (is_ok (sample_run_case true).1 = true /\ w_state (sample_run_case true).2 = mkSandboxFlags true false
   /\ ready (sample_docker true) "box" (sample_run_case true).2)
  /\ (is_ok (sample_run_case false).1 = false /\ w_state (sample_run_case false).2 = mkSandboxFlags false true).
Proof.
  pose proof (fun restarts => proj1 (executor_accounts (sample_docker restarts)) (mkRunContext 1 (Some DeadlineExceeded) 3)
    "box" "1" language_Python (mkWorld (mkSandboxFlags false false) []) (sample_run_case restarts).1
    (sample_run_case restarts).2 (surjective_pairing _)) as H.
  destruct (H true) as [_ [_ [(Hok & Hs & Hr)|[Hok _]]]]; [|vm_compute in Hok; discriminate Hok].
  destruct (H false) as [_ [_ [[Hok' _]|(Hok' & Hs')]]]; [vm_compute in Hok'; discriminate Hok'|].
  split; [by split|by split].
Defined.
