(* ===== verification/WireLaws.v ===== *)
(** * Laws of the supervisor protocol *)

From S2P Require Import Prelude GoStrings GoJson TypeSyntax Contracts Adapters Harness CppHarness CppClass.
From S2P Require Import PyHarness Languages Validate Verdict TestCases Effects Paths Workspace Buffers GoStruct Docker.
From S2P Require Import Wire.

#[local] Open Scope Z_scope.

(** ** What is decoded is what was encoded *)

Fixpoint plain_text (s : string) : bool :=
  match s with EmptyString => true | String c s' => plain_byte c && plain_text s' end.

Lemma plain_text_key s : plain_text s = true -> unquote s = Some s -> plain_key s.
Proof.
  intros Hp Hu. split; [|done]. clear Hu. induction s as [|c s IH]; [apply transparent_nil|].
  cbn [plain_text] in Hp. apply andb_true_iff in Hp as [Hc Hs]. apply transparent_cons; [done|by apply IH].
Qed.

Lemma request_members_ok r : Forall (member_ok 1) (request_members r).
Proof.
  assert (forall l, value_text 1 (encode_strings true l)) as Hl
    by (intros l; apply value_text_array, Forall_map, Forall_true; intros; apply value_text_string).
  repeat (constructor; [split; [by apply plain_text_key|by (apply Hl || apply value_text_Itoa)]|]). constructor.
Qed.

Lemma result_members_ok r : Forall (member_ok 0) (result_members r).
Proof.
  repeat (constructor; [split; [by apply plain_text_key|by (apply value_text_string || apply value_text_Itoa || apply value_text_bool)]|]).
  constructor.
Qed.

Lemma depth_two : (2 <= maxNestingDepth)%nat.
Proof. by apply Nat.leb_le. Qed.

(** The text fields come back as valid UTF-8. *)
Definition valid_result (r : caseResult) : caseResult :=
  mkCaseResult (valid_text (cs_Stdout r)) (valid_text (cs_Stderr r)) (cs_ExitCode r) (cs_CPUMs r) (cs_MaxRssKb r)
    (cs_TimedOut r) (cs_OutputLimit r).

Definition valid_request (r : supervisorRequest) : supervisorRequest :=
  mkSupervisorRequest (map valid_text (sq_Command r)) (map valid_text (sq_Inputs r)) (sq_TimeLimitMs r) (sq_OutputLimit r).

(** The numbers fit their types and the measurements are not negative. *)
Definition sane (r : caseResult) : Prop :=
  in_int64 (cs_ExitCode r) /\ in_int64 (cs_CPUMs r) /\ in_int64 (cs_MaxRssKb r) /\ 0 <= cs_CPUMs r /\ 0 <= cs_MaxRssKb r.

Lemma set_member_field {T} (fields : list (field T)) j t k raw f :
  unquote k = Some k -> field_of fields k = Some f -> set_member fields false j t (k, raw) = f.2 raw t.
Proof. intros Hk Hf. by rewrite /set_member /= Hk Hf. Qed.

(** One member after another goes to its field. *)
Ltac take_field fields n :=
  let f := eval hnf in (nth n fields (EmptyString, fun _ => Ok)) in
  rewrite (set_member_field _ _ _ _ _ f) //; cbn [snd];
  rewrite ?decode_strings_encoded ?decode_string_encoded ?decode_bool_encoded ?decode_int_encoded // ?bind_Ok; cbn [default].

Lemma decode_request r t : in_int64 (sq_TimeLimitMs r) -> in_int64 (sq_OutputLimit r) ->
  Unmarshal_struct request_fields false (Marshal_request r) t = Ok (valid_request r).
Proof.
  intros Ht Ho. rewrite /Marshal_request (Unmarshal_struct_text _ _ 1) //; [apply depth_two|apply request_members_ok|].
  rewrite /foldM /request_members. cbn [foldM_from].
  take_field request_fields 0%nat. take_field request_fields 1%nat.
  take_field request_fields 2%nat. take_field request_fields 3%nat.
Qed.

Lemma decode_fields r t : sane r ->
  Unmarshal_struct result_fields false (object_text (result_members r)) t = Ok (valid_result r).
Proof.
  intros (He & Hc & Hm & _). rewrite (Unmarshal_struct_text _ _ 0) //; [pose proof depth_two; lia|apply result_members_ok|].
  rewrite /foldM /result_members. cbn [foldM_from].
  take_field result_fields 0%nat. take_field result_fields 1%nat. take_field result_fields 2%nat.
  take_field result_fields 3%nat. take_field result_fields 4%nat. take_field result_fields 5%nat.
  take_field result_fields 6%nat.
Qed.

Lemma decode_result_encoded n r :
  sane r -> decode_result n (object_text (result_members r)) = Ok (to_run (valid_result r)).
Proof.
  intros Hs. rewrite /decode_result (Unmarshal_object_text 0); [pose proof depth_two; lia|apply result_members_ok|].
  rewrite bind_Ok decode_fields //.
  rewrite /iterM (proj2 (iterM_from_Ok _ 0 required_fields)); [|rewrite !bind_Ok; destruct Hs as (_ & _ & _ & Hc & Hm)].
  - intros j name Hj. assert (is_nil (foldl (fun (m : gmap string string) '(k, c) => <[k:=c]> m) ∅ (result_members r) !! name) = false) as ->; [|done].
    apply list_elem_of_lookup_2 in Hj. rewrite !elem_of_cons in Hj. cbn [foldl result_members].
    destruct Hj as [->|[->|[->|[->|[->|[->|[->|?%elem_of_nil]]]]]]]; rewrite !lookup_insert; by repeat case_decide.
  - cbn [valid_result cs_CPUMs cs_MaxRssKb].
    by rewrite (proj2 (Z.ltb_ge _ _) Hc) (proj2 (Z.ltb_ge _ _) Hm).
Qed.

(** ** Sessions *)

(** The results the supervisor wrote for at most [n] cases: only the last may
    end the session, and it does when there are fewer than [n]. *)
Fixpoint session (n : nat) (results : list caseResult) : Prop :=
  match n, results with
  | _, [] => n = 0%nat
  | O, _ :: _ => False
  | S n, r :: results => sane r /\ if stops r then results = [] else session n results
  end.

Lemma run_stops_valid r : run_stops (to_run (valid_result r)) = stops r.
Proof. done. Qed.

Lemma Decode_encoded r rest : Decode (Encode_result r +:+ rest) = DecodedValue (object_text (result_members r)) (newline +:+ rest).
Proof.
  rewrite /Encode_result -append_assoc. apply (Decode_object 0); [pose proof depth_two; lia|apply result_members_ok|done].
Qed.

Lemma Decode_newline_encoded r rest : Decode (newline +:+ Encode_result r +:+ rest) = Decode (Encode_result r +:+ rest).
Proof. done. Qed.

(** White space in front does not matter to the loop. *)
Lemma decode_loop_session n results acc output :
  session n results -> Decode output = Decode (joined (map Encode_result results)) ->
  exists rest, decode_loop n output acc = Ok (acc ++ map (fun r => to_run (valid_result r)) results, rest)
    /\ Decode rest = DecodedEOF.
Proof.
  revert results acc output. induction n as [|n IH]; intros [|r results] acc output; cbn [session]; try done.
  - intros _ Ho. exists output. split; [by rewrite app_nil_r|by rewrite Ho].
  - intros [Hs Hrest] Ho. cbn [map] in Ho. rewrite joined_cons Decode_encoded in Ho. cbn [decode_loop]. rewrite Ho.
    rewrite decode_result_encoded // bind_Ok run_stops_valid. destruct (stops r).
    + subst results. by eexists.
    + destruct (IH results (acc ++ [to_run (valid_result r)]) (newline +:+ joined (map Encode_result results)) Hrest) as (rest & -> & Hend).
      { by rewrite Decode_newline. }
      exists rest. by rewrite -app_assoc.
Qed.

Lemma session_nonempty n results : session (S n) results -> results <> [].
Proof. by destruct results. Qed.

Lemma decode_session n results :
  session (S n) results ->
  decodeSupervisorResults (joined (map Encode_result results)) (S n) = Ok (map (fun r => to_run (valid_result r)) results).
Proof.
  intros Hs. rewrite /decodeSupervisorResults.
  destruct (decode_loop_session _ _ [] _ Hs eq_refl) as (rest & -> & Hrest). rewrite bind_Ok app_nil_l.
  rewrite bool_decide_false; [by apply session_nonempty in Hs; destruct results|]. by rewrite Hrest.
Qed.

(** ** The transport limit *)

Lemma escape_segment_length html r b : (1 <= String.length b)%nat ->
  (String.length (escape_segment html (r, b)) <= 6 * String.length b)%nat.
Proof.
  intros Hb. rewrite /escape_segment /u00 /GoJson.hex_digit. repeat case_match; rewrite ?length_append /=; lia.
Qed.

Lemma escape_segments_length html l : Forall (fun seg => 1 <= String.length seg.2)%nat l ->
  (String.length (escape_segments html l) <= 6 * String.length (unsegment l))%nat.
Proof.
  induction l as [|[r b] l IH]; [done|]. intros [Hb Hl]%Forall_cons. cbn [escape_segments unsegment].
  rewrite !length_append. pose proof (escape_segment_length html r b Hb). specialize (IH Hl). lia.
Qed.

Lemma encode_string_length html s : len (encode_string html s) <= 6 * len s + 2.
Proof.
  rewrite /len /encode_string /quoted. cbn [String.length]. rewrite length_append. cbn [String.length].
  assert (Forall (fun seg => 1 <= String.length seg.2)%nat (segments s)) as Hall.
  { apply Forall_forall. intros [r b] Hin%segments_nonempty. cbn. destruct b; [done|cbn; lia]. }
  pose proof (escape_segments_length html _ Hall) as H. rewrite unsegment_segments in H. lia.
Qed.

Lemma pretty_go_length k x s : (x < 10 ^ k)%N ->
  (String.length (pretty_N_go x s) <= N.to_nat k + String.length s)%nat.
Proof.
  revert x s. induction k as [|k IH] using N.peano_ind; intros x s Hx.
  { assert (x = 0)%N as -> by lia. rewrite pretty_N_go_0. lia. }
  destruct (N.eq_0_gt_0_cases x) as [->|Hpos]; [rewrite pretty_N_go_0; lia|]. rewrite pretty_N_go_step //.
  etransitivity; [apply IH|cbn [String.length]; lia].
  rewrite N.pow_succ_r' in Hx. apply N.Div0.div_lt_upper_bound. lia.
Qed.

Lemma Itoa_length z : in_int64 z -> len (Itoa z) <= 21.
Proof.
  rewrite /in_int64 /len. intros Hz.
  assert (forall n, (n <= 2 ^ 63)%N -> (String.length (pretty n) <= 20)%nat) as Hn.
  { intros n Hn. unfold pretty, pretty_N. case_decide; [cbn; lia|].
    etransitivity; [apply (pretty_go_length 20); lia|cbn; lia]. }
  destruct (Itoa_cases z) as [[Hs ->]|[Hs ->]].
  - specialize (Hn (Z.to_N z)). lia.
  - cbn [String.length]. specialize (Hn (Z.to_N (- z))). lia.
Qed.

Lemma encode_bool_length b : len (encode_bool b) <= 5.
Proof. by destruct b. Qed.

(** What the supervisor keeps of each stream is bounded. *)
Definition fits (r : caseResult) : Prop :=
  len (cs_Stdout r) <= DefaultOutputLimitBytes /\ len (cs_Stderr r) <= DefaultOutputLimitBytes.

Lemma len_String c s : len (String c s) = 1 + len s.
Proof. rewrite /len. cbn [String.length]. lia. Qed.

Lemma Encode_result_length r : sane r -> fits r -> len (Encode_result r) <= 12 * DefaultOutputLimitBytes + 4096.
Proof.
  intros (He & Hc & Hm & _) [Ho Hr].
  pose proof (encode_string_length true (cs_Stdout r)). pose proof (encode_string_length true (cs_Stderr r)).
  pose proof (Itoa_length _ He). pose proof (Itoa_length _ Hc). pose proof (Itoa_length _ Hm).
  pose proof (encode_bool_length (cs_TimedOut r)). pose proof (encode_bool_length (cs_OutputLimit r)).
  rewrite /Encode_result /object_text /result_members. cbn [map]. rewrite !Join_cons2.
  change (Join [?x] ",") with x. rewrite /member_text /quoted. cbn [fst snd].
  rewrite !len_append !len_String !len_append !len_String. change (len "") with 0. change (len newline) with 1.
  repeat (change (len (String ?c ?s)) with (1 + len s)). rewrite /encode_string /quoted !len_String !len_append !len_String in H.
  rewrite /encode_string /quoted !len_String !len_append !len_String in H0.
  change (len "") with 0 in H, H0. change DefaultOutputLimitBytes with 65536 in *. lia.
Qed.

Lemma joined_length results : Forall (fun r => sane r /\ fits r) results ->
  len (joined (map Encode_result results)) <= Z.of_nat (length results) * (12 * DefaultOutputLimitBytes + 4096).
Proof.
  induction results as [|r results IH]; [done|]. intros [[Hs Hf] Hrest]%Forall_cons. cbn [map]. rewrite joined_cons len_append.
  pose proof (Encode_result_length _ Hs Hf). specialize (IH Hrest). cbn [length]. lia.
Qed.

Lemma transport_limit_value cases : (cases <= 500)%nat ->
  transport_limit cases = (Z.of_nat cases + 1) * (12 * DefaultOutputLimitBytes + 4096).
Proof. intros Hc. rewrite /transport_limit wrap64_id // /in_int64 /DefaultOutputLimitBytes. lia. Qed.
