(* ===== verification/Supervisor.v ===== *)
(** * The supervisor in the sandbox: cmd/yexsupervisor/main.go

    The supervisor runs the cases of one request one after another, as an
    unprivileged user on a workspace that root staged.  Between two cases it
    kills what the user left running and removes what the user left in the
    file system.

    The container's files are a map from the names of an absolute path to what
    is there.  [Container] answers the system calls; [contestant] is the submitted
    program. *)

From S2P Require Import Prelude GoStrings GoJson TypeSyntax Contracts Effects Paths Workspace Buffers GoStruct.
From S2P Require Import TestCases Docker Wire.
From Stdlib Require Import Ascii.

#[local] Open Scope Z_scope.

Definition contestantUID : Z := 10001.
Definition contestantGID : Z := 10001.

(** ** Files *)

Inductive Kind := Directory | Regular | Special.

#[export] Instance Kind_eq_dec : EqDecision Kind.
Proof. solve_decision. Defined.

(** [os.Lstat] and the contents. *)
Record File := mkFile { fi_kind : Kind; fi_perm : Z; fi_uid : Z; fi_data : string }.

#[export] Instance File_eq_dec : EqDecision File.
Proof. solve_decision. Defined.

Definition Files : Type := gmap (list string) File.

Definition workspacePath : list string := ["workspace"].

(** [info.Mode().Perm()&0022 != 0] *)
Definition writable (file : File) : bool := negb (Z.land (Z.land (fi_perm file) 511) 18 =? 0).

(** [workspaceEntry]: the mode, with the directory bit apart. *)
Record workspaceEntry := mkWorkspaceEntry { we_mode : Z; we_directory : bool }.

Definition Baseline : Type := gmap (list string) workspaceEntry.

Definition shown (rel : list string) : farg := FStr (Join rel "/").

Definition is_directory (file : File) : bool := bool_decide (fi_kind file = Directory).
Definition is_regular_file (file : File) : bool := bool_decide (fi_kind file = Regular).

(** What is below a directory, as [filepath.WalkDir] visits it. *)
Definition path_le (a b : list string * File) : Prop := names_le a.1 b.1 = true.

#[export] Instance path_le_decision : RelDecision path_le.
Proof. intros a b. rewrite /path_le. apply _. Defined.

Definition entries_below (dir : list string) (fs : Files) : list (list string * File) :=
  merge_sort path_le (filter (fun entry => below dir entry.1) (map_to_list fs)).

Definition snapshot_entry (_ : nat) (baseline : Baseline) (entry : list string * File) : result Baseline :=
  let '(path, info) := entry in
  let rel := drop (length workspacePath) path in
  fail_if negb (is_directory info) && negb (is_regular_file info)
  with Errorf "unsupported staged workspace entry %q" [shown rel];;
  fail_if negb (fi_uid info =? 0) with Errorf "staged workspace entry %q is not root-owned" [shown rel];;
  fail_if writable info with Errorf "staged workspace entry %q is writable by contestant" [shown rel];;
  Ok (<[rel := mkWorkspaceEntry (fi_perm info) (is_directory info)]> baseline).

Definition no_such_file : goerr := LibErr "no such file or directory".

(** The walk fails at a root that is not there. *)
Definition snapshotWorkspace (fs : Files) : result Baseline :=
  match fs !! workspacePath with
  | None => Err no_such_file
  | Some _ => foldM snapshot_entry ∅ (entries_below workspacePath fs)
  end.

Definition validate_protected (fs : Files) (_ : nat) (entry : list string * workspaceEntry) : result unit :=
  let '(rel, expected) := entry in
  match fs !! (workspacePath ++ rel) with
  | None => Err (Errorf "protected staged path %q disappeared: %w" [shown rel; FErr no_such_file])
  | Some info =>
      fail_if negb (Bool.eqb (we_directory expected) (is_directory info)) ||
              (negb (we_directory expected) && negb (is_regular_file info))
      with Errorf "protected staged path %q changed type" [shown rel];;
      fail_if negb (fi_uid info =? 0) with Errorf "protected staged path %q changed owner" [shown rel];;
      fail_if writable info with Errorf "protected staged path %q became writable" [shown rel];;
      Ok tt
  end.

Definition validateWorkspaceBaseline (baseline : Baseline) (fs : Files) : result unit :=
  iterM (validate_protected fs) (map_to_list baseline).

(** ** Clearing directories *)

(** [os.ReadDir]: the names in a directory, in order. *)
Definition entry_in (dir path : list string) : option string :=
  match drop (length dir) path with
  | [name] => if bool_decide (path = dir ++ [name]) then Some name else None
  | _ => None
  end.

Definition names_in (dir : list string) (fs : Files) : list string :=
  merge_sort String.le (omap (fun entry => entry_in dir entry.1) (map_to_list fs)).

Definition ReadDir (dir : list string) (fs : Files) : result (list string) :=
  match fs !! dir with
  | None => Err no_such_file
  | Some info => fail_if negb (is_directory info) with not_a_directory;; Ok (names_in dir fs)
  end.

(** [os.RemoveAll]; [remove] is what the disk answers. *)
Definition RemoveAll (remove : list string -> result unit) (dir : list string) (fs : Files) : result Files :=
  remove dir;;
  Ok (filter (fun entry => ~ dir `prefix_of` entry.1) fs).

Section Clear.
Context (remove : list string -> result unit) (baseline : Baseline).

(** [fuel] is the depth of the tree below the directory. *)
Fixpoint clearWorkspace (fuel : nat) (rel : list string) (fs : Files) : result Files :=
  entries ← ReadDir (workspacePath ++ rel) fs;
  foldM (fun _ fs name =>
    let childRel := rel ++ [name] in
    let child := workspacePath ++ childRel in
    match baseline !! childRel with
    | None => RemoveAll remove child fs
    | Some _ =>
        match fs !! child with
        | None => Ok fs
        | Some info =>
            if is_directory info then
              match fuel with O => Ok fs | S fuel => clearWorkspace fuel childRel fs end
            else
              fail_if negb (is_regular_file info)
              with Errorf "protected path %q changed type" [shown childRel];;
              Ok fs
        end
    end) fs entries.

Definition clearDirectory (dir : list string) (fs : Files) : result Files :=
  entries ← ReadDir dir fs;
  foldM (fun _ fs name => RemoveAll remove (dir ++ [name]) fs) fs entries.

Definition max_depth (fs : Files) : nat := foldr (fun entry n => Nat.max (length entry.1) n) 0%nat (map_to_list fs).

Definition scratch_directories : list (list string) := [["tmp"]; ["dev"; "shm"]].

Definition resetCaseFilesystem (fs : Files) : result Files :=
  fs ← wrap_err (fun e => Errorf "clear workspace: %w" [FErr e]) (clearWorkspace (max_depth fs) [] fs);
  foldM (fun _ fs dir =>
    wrap_err (fun e => Errorf "clear %s: %w" [FStr ("/" +:+ Join dir "/"); FErr e]) (clearDirectory dir fs))
    fs scratch_directories.
End Clear.

(** ** The contestant's processes *)

(** One directory entry of /proc with the contents of its status file; a
    process that is gone in between is [Gone]. *)
Inductive Status_file := Status_text (text : string) | Gone | Unreadable (e : goerr).

Section Processes.


(** [strings.Split(text, newline)] *)
Fixpoint lines (s : string) : list string :=
  match s with
  | EmptyString => [""]
  | String c s' =>
      if Ascii.eqb c "010" then "" :: lines s'
      else match lines s' with line :: rest => String c line :: rest | [] => [String c ""] end
  end.

(** The loop over the lines of a status file, up to the [Uid:] line. *)
Fixpoint status_uid (pid : Z) (text : list string) : result bool :=
  match text with
  | [] => Ok false
  | line :: text =>
      if HasPrefix line "Uid:" then
        match Fields (TrimPrefix line "Uid:") with
        | _ :: effective :: _ =>
            uid ← Atoi effective;
            Ok (uid =? contestantUID)
        | _ => Err (Errorf "invalid UID for pid %d" [FInt pid])
        end
      else status_uid pid text
  end.

Definition contestant_entry (_ : nat) (pids : list Z) (entry : string * Status_file) : result (list Z) :=
  match Atoi entry.1 with
  | Err _ => Ok pids
  | Ok pid =>
      match entry.2 with
      | Gone => Ok pids
      | Unreadable e => Err e
      | Status_text text =>
          found ← status_uid pid (lines text);
          Ok (if found : bool then pids ++ [pid] else pids)
      end
  end.

Definition contestantPIDs (proc : result (list (string * Status_file))) : result (list Z) :=
  entries ← proc;
  foldM contestant_entry [] entries.

(** What one turn of the loop sees: /proc, and the error of a kill other than
    that the process is gone. *)
Record Sweep := mkSweep {
  sw_proc : result (list (string * Status_file));
  sw_kill : Z -> result unit }.

(** [turns] more turns fit before the deadline. *)
Fixpoint cleanupContestantProcesses (turns : nat) (sweeps : nat -> Sweep) : result unit :=
  pids ← contestantPIDs (sw_proc (sweeps turns));
  if bool_decide (pids = []) then Ok tt
  else
    iterM (fun _ pid =>
      wrap_err (fun e => Errorf "kill contestant process %d: %w" [FInt pid; FErr e]) (sw_kill (sweeps turns) pid)) pids;;
    match turns with
    | O => Err (Errorf "contestant processes remain after cleanup: %v" (map FInt pids))
    | S turns => cleanupContestantProcesses turns sweeps
    end.
End Processes.

(** ** One case *)

(** [syscall.Timeval] and the parts of [syscall.Rusage] that are read. *)
Record Timeval := mkTimeval { tv_Sec : Z; tv_Usec : Z }.
Record Rusage := mkRusage { ru_Utime : Timeval; ru_Stime : Timeval; ru_Maxrss : Z }.

Definition Microsecond : Z := 1000.

Definition timevalDuration (value : Timeval) : Z :=
  wrap64 (wrap64 (tv_Sec value * Second) + wrap64 (tv_Usec value * Microsecond)).

(** How one process of the contestant ended: [os.Executable], what it wrote,
    the error of [Run], its exit code with its usage, and whether the case's
    deadline passed. *)
Record CaseProcess := mkCaseProcess {
  cp_Executable : result string;
  cp_stdout : list string;
  cp_stderr : list string;
  cp_Run : option goerr;
  cp_State : option (Z * option Rusage);
  cp_deadline : bool }.

Definition wall_limit (timeLimitMs : Z) : Z :=
  wrap64 (wrap64 (2 * wrap64 (timeLimitMs * Millisecond)) + 500 * Millisecond).

Section RunCase.
Context `{PrintTables}.

Definition runCase (request : supervisorRequest) (process : CaseProcess) : caseResult :=
  match cp_Executable process with
  | Err e => mkCaseResult "" (Error e) 125 0 0 false false
  | Ok _ =>
      let limit := wrap64 (sq_TimeLimitMs request * Millisecond) in
      let stdout := copy (cp_stdout process) (new_boundedBuffer (sq_OutputLimit request)) in
      let stderr := copy (cp_stderr process) (new_boundedBuffer (sq_OutputLimit request)) in
      let '(code, cpuTime, rss, extra) :=
        match cp_State process with
        | Some (code, Some usage) =>
            (code, wrap64 (timevalDuration (ru_Utime usage) + timevalDuration (ru_Stime usage)),
             (if 0 <? ru_Maxrss usage then ru_Maxrss usage else 0), "")
        | Some (code, None) => (code, 0, 0, "")
        | None => (125, 0, 0, match cp_Run process with Some e => Error e | None => "" end)
        end in
      let timedOut := cp_deadline process || ((0 <? cpuTime) && (limit <=? cpuTime)) in
      mkCaseResult (bb_buffer stdout) (bb_buffer stderr +:+ extra) (if timedOut then 124 else code)
        (Milliseconds cpuTime) rss timedOut (bb_exceeded stdout || bb_exceeded stderr)
  end.

(** ** The session *)

(** What a run of the submitted program comes to: how its process ended, the
    files then, and what the processes it left running do to the files, again
    and again, for as long as they run. *)
Record Outcome := mkOutcome {
  oc_process : CaseProcess;
  oc_files : Files;
  oc_running : Files -> Files }.

(** [contestant] is the submitted program, started on an input with the files
    as they are; [sweeps] and [remove] are the system's answers. *)
Record Container := mkContainer {
  wd_euid : Z;
  wd_contestant : string -> Files -> Outcome;
  wd_remove : list string -> result unit;
  wd_turns : nat;
  wd_sweeps : nat -> nat -> Sweep;
  wd_write : result unit }.

(** The clean-up of the processes that are left: a search of /proc that finds
    none of the contestant's ends it, and then nothing of it runs any more. *)
Definition kill_contestant (world : Container) (i : nat) (running : Files -> Files) : result (Files -> Files) :=
  wrap_err (fun e => Errorf "cleanup contestant processes: %w" [FErr e])
    (cleanupContestantProcesses (wd_turns world) (wd_sweeps world i));;
  Ok (fun fs => fs).

(** One case: the files are reset before and after it, and what still runs may
    touch them between any two steps. *)
Definition supervise_case (world : Container) (request : supervisorRequest) (baseline : Baseline) (i : nat)
    (input : string) (fs : Files) : result (caseResult * Files) :=
  fs ← wrap_err (fun e => Errorf "reset before case: %w" [FErr e]) (resetCaseFilesystem (wd_remove world) baseline fs);
  let outcome := wd_contestant world input fs in
  let result := runCase request (oc_process outcome) in
  let fs := oc_running outcome (oc_files outcome) in
  running ← kill_contestant world i (oc_running outcome);
  fs ← wrap_err (fun e => Errorf "cleanup case filesystem: %w" [FErr e])
         (resetCaseFilesystem (wd_remove world) baseline (running fs));
  validateWorkspaceBaseline baseline (running fs);;
  wrap_err (fun e => Errorf "write case result: %w" [FErr e]) (wd_write world);;
  Ok (result, running fs).

(** The loop over the inputs: the results written, the error that ended it and
    the files. *)
Fixpoint supervise (world : Container) (request : supervisorRequest) (baseline : Baseline) (i : nat)
    (inputs : list string) (fs : Files) : list caseResult * result Files :=
  match inputs with
  | [] => ([], Ok fs)
  | input :: inputs =>
      match supervise_case world request baseline i input fs with
      | Err e => ([], Err e)
      | Ok (result, fs) =>
          if stops result then ([result], Ok fs)
          else let '(results, ended) := supervise world request baseline (S i) inputs fs in (result :: results, ended)
      end
  end.

(** [runSupervisor]: what it writes, and how it ends. *)
Definition runSupervisor (world : Container) (stdin : string) (fs : Files) : list string * result Files :=
  match read_request (wd_euid world) stdin with
  | Err e => ([], Err e)
  | Ok request =>
      match wrap_err (fun e => Errorf "validate staged workspace: %w" [FErr e]) (snapshotWorkspace fs) with
      | Err e => ([], Err e)
      | Ok baseline =>
          let '(results, ended) := supervise world request baseline 0 (sq_Inputs request) fs in
          (map Encode_result results, ended)
      end
  end.

(** ** The child: execChild and applyChildLimits *)

(** Resource, soft and hard limit; the resources are RLIMIT_CORE, RLIMIT_FSIZE,
    RLIMIT_NPROC, RLIMIT_NOFILE and RLIMIT_CPU. *)
Definition child_limits (timeLimitMs : Z) : list (Z * Z * Z) :=
  let cpuSeconds := (Z.quot (wrap64 (timeLimitMs + 999)) 1000) mod 2^64 in
  [(4, 0, 0); (1, Z.shiftl 16 20, Z.shiftl 16 20); (6, 64, 64); (7, 256, 256);
   (0, cpuSeconds, (cpuSeconds + 1) mod 2^64)].

Definition applyChildLimits (Setrlimit : Z * Z * Z -> result unit) (timeLimitMs : Z) : result unit :=
  iterM (fun _ limit => wrap_err (fun e => Errorf "set rlimit %d: %w" [FInt limit.1.1; FErr e]) (Setrlimit limit))
    (child_limits timeLimitMs).

(** The program to be executed with its arguments; [install] is the filter's
    installation and [LookPath] the search for the command. *)
Definition execChild (euid egid : Z) (Setrlimit : Z * Z * Z -> result unit) (install : result unit)
    (LookPath : string -> result string) (args : list string) : result (list string) :=
  let invalid := Errorf "invalid child execution context" [] in
  match args with
  | limit :: name :: rest =>
      fail_if negb (euid =? contestantUID) || negb (egid =? contestantGID) with invalid;;
      limitMs ← match Atoi limit with
                | Ok limitMs => fail_if limitMs <=? 0 with Errorf "invalid child time limit" [];; Ok limitMs
                | Err _ => Err (Errorf "invalid child time limit" [])
                end;
      applyChildLimits Setrlimit limitMs;;
      wrap_err (fun e => Errorf "install syscall restrictions: %w" [FErr e]) install;;
      resolved ← wrap_err (fun e => Errorf "resolve contestant command: %w" [FErr e]) (LookPath name);
      Ok (resolved :: rest)
  | _ => Err invalid
  end.
End RunCase.
