(* ===== verification/SupervisorLaws.v ===== *)
(** * What one case leaves for the next

    The files a case starts with do not depend on the cases before it. *)

From S2P Require Import Prelude GoStrings GoJson TypeSyntax Contracts Effects Paths Workspace Buffers GoStruct.
From S2P Require Import TestCases Docker Wire Supervisor.

#[local] Open Scope Z_scope.

(** ** Trees of files *)

(** Every entry is in a directory; the root is one. *)
Definition tree (fs : Files) : Prop :=
  forall dir name, dir <> [] -> is_Some (fs !! (dir ++ [name])) ->
    exists info, fs !! dir = Some info /\ fi_kind info = Directory.

Definition restrict (P : list string -> Prop) `{forall path, Decision (P path)} (fs : Files) : Files :=
  filter (fun entry => P entry.1) fs.

Lemma restrict_lookup P `{forall path, Decision (P path)} fs path :
  restrict P fs !! path = if decide (P path) then fs !! path else None.
Proof.
  apply option_eq. intros info. rewrite /restrict map_lookup_filter_Some /=. case_decide; naive_solver.
Qed.

Lemma restrict_Some P `{forall path, Decision (P path)} fs path info :
  restrict P fs !! path = Some info <-> P path /\ fs !! path = Some info.
Proof. rewrite restrict_lookup. case_decide; split; intros; try done; by destruct_and?. Qed.

Lemma restrict_ext P Q `{forall path, Decision (P path)} `{forall path, Decision (Q path)} fs :
  (forall path info, fs !! path = Some info -> P path <-> Q path) -> restrict P fs = restrict Q fs.
Proof.
  intros HPQ. apply map_eq. intros path. rewrite !restrict_lookup.
  destruct (fs !! path) as [info|] eqn:E; [|by do 2 case_decide].
  specialize (HPQ path info E). do 2 case_decide; try done; exfalso; tauto.
Qed.

Lemma restrict_restrict P Q `{forall path, Decision (P path)} `{forall path, Decision (Q path)} fs :
  restrict Q (restrict P fs) = restrict (fun path => P path /\ Q path) fs.
Proof. apply map_eq. intros path. rewrite !restrict_lookup. repeat case_decide; tauto. Qed.

Lemma tree_restrict P `{forall path, Decision (P path)} fs :
  (forall dir name, P (dir ++ [name]) -> dir <> [] -> P dir) -> tree fs -> tree (restrict P fs).
Proof.
  intros Hclosed Ht dir name Hne [info [HP Hin]%restrict_Some].
  destruct (Ht dir name Hne) as (d & Hd & Hk); [by eexists|]. exists d. split; [|done].
  apply restrict_Some. split; [by eapply Hclosed|done].
Qed.

(** Whatever is below a directory is below one of its entries. *)
Lemma tree_child fs dir name rest :
  tree fs -> dir <> [] -> is_Some (fs !! (dir ++ name :: rest)) -> is_Some (fs !! (dir ++ [name])).
Proof.
  intros Ht Hne. induction rest as [|last rest IH] using rev_ind; [done|].
  intros Hin. apply IH. replace (dir ++ name :: rest ++ [last]) with ((dir ++ name :: rest) ++ [last]) in Hin by by rewrite -app_assoc.
  destruct (Ht (dir ++ name :: rest) last) as (info & -> & _); [by destruct dir|done|by eexists].
Qed.

Lemma below_app dir path : below dir path <-> exists name rest, path = dir ++ name :: rest.
Proof.
  rewrite /below. split.
  - intros [[[|name rest] ->] Hne]; [by rewrite app_nil_r in Hne|eauto].
  - intros (name & rest & ->). split; [by eexists|]. intros E. apply (f_equal length) in E. rewrite length_app /= in E. lia.
Qed.

Lemma prefix_below dir name path : dir ++ [name] `prefix_of` path -> below dir path.
Proof. intros [rest ->]. apply below_app. exists name, rest. by rewrite -app_assoc. Qed.

(** A file has nothing below it. *)
Lemma tree_leaf fs dir info path :
  tree fs -> dir <> [] -> fs !! dir = Some info -> fi_kind info <> Directory -> below dir path -> fs !! path = None.
Proof.
  intros Ht Hne Hdir Hk (name & rest & ->)%below_app. destruct (fs !! (dir ++ name :: rest)) as [f|] eqn:E; [|done].
  destruct (tree_child fs dir name rest Ht Hne) as [g Hg]; [by eexists|].
  destruct (Ht dir name Hne) as (d & Hd & Hkd); [by eexists|]. congruence.
Qed.

Lemma ReadDir_Ok dir fs names :
  ReadDir dir fs = Ok names <->
  (exists info, fs !! dir = Some info /\ fi_kind info = Directory) /\ names = names_in dir fs.
Proof.
  rewrite /ReadDir /is_directory. destruct (fs !! dir) as [info|]; [|by split; [|intros [(? & ? & _) _]]].
  case_bool_decide as Hk; cbn [negb]; rewrite ?bind_Ok; split.
  - intros [= <-]. split; [by exists info|done].
  - by intros [_ ->].
  - done.
  - by intros [(? & [= <-] & ?) _].
Qed.

Lemma names_in_elem dir fs name : name ∈ names_in dir fs <-> is_Some (fs !! (dir ++ [name])).
Proof.
  rewrite /names_in merge_sort_Permutation list_elem_of_omap. split.
  - intros ([path info] & Hin%elem_of_map_to_list & He). revert He. rewrite /entry_in. cbn.
    destruct (drop _ _) as [|n [|]]; try done. case_bool_decide; [|done]. intros [= ->]. subst path. by eexists.
  - intros [info Hin]. exists (dir ++ [name], info). split; [by apply elem_of_map_to_list|].
    rewrite /entry_in /= drop_app_length. by rewrite bool_decide_true.
Qed.

(** ** Clearing *)

Definition bounded (n : nat) (fs : Files) : Prop := forall path, is_Some (fs !! path) -> (length path <= n)%nat.

Lemma bounded_restrict n P `{forall path, Decision (P path)} fs : bounded n fs -> bounded n (restrict P fs).
Proof. intros Hb path [info [_ Hin]%restrict_Some]. apply Hb. by eexists. Qed.

Lemma foldr_max (l : list (list string * File)) e :
  e ∈ l -> (length e.1 <= foldr (fun entry n => Nat.max (length entry.1) n) 0%nat l)%nat.
Proof. induction l as [|d l IH]; cbn; [by intros ?%elem_of_nil|]. intros [->|Hin%IH]%elem_of_cons; lia. Qed.

Lemma bounded_max_depth fs : bounded (max_depth fs) fs.
Proof. intros path [info Hin]. apply (foldr_max _ (path, info)). by apply elem_of_map_to_list. Qed.

Lemma below_snoc dir d name : below dir d -> below dir (d ++ [name]).
Proof. intros (n & rest & ->)%below_app. apply below_app. exists n, (rest ++ [name]). by rewrite -app_assoc. Qed.

(** Nothing is below a path that is not there, or below one at full depth. *)
Lemma tree_none fs dir path : tree fs -> fs !! dir = None -> below dir path -> dir <> [] -> fs !! path = None.
Proof.
  intros Ht Hdir (name & rest & ->)%below_app Hne. destruct (fs !! (dir ++ name :: rest)) as [f|] eqn:E; [|done].
  destruct (tree_child fs dir name rest Ht Hne) as [g Hg]; [by eexists|].
  destruct (Ht dir name Hne) as (d & Hd & _); [by eexists|]. congruence.
Qed.

Lemma bounded_none n fs dir path : bounded n fs -> below dir path -> (n <= length dir)%nat -> fs !! path = None.
Proof.
  intros Hb (name & rest & ->)%below_app Hn. destruct (fs !! (dir ++ name :: rest)) as [f|] eqn:E; [|done].
  assert (length (dir ++ name :: rest) <= n)%nat by (apply Hb; by eexists). rewrite length_app /= in H. lia.
Qed.

Section Sweep.
(** [K] are the paths that stay; a path that stays has its directories stay. *)
Context (K : list string -> Prop) `{forall path, Decision (K path)}.
Context (K_up : forall dir name, K (dir ++ [name]) -> dir <> [] -> K dir).

Definition swept (dir path : list string) : Prop := below dir path -> K path.

#[export] Instance swept_decision dir path : Decision (swept dir path).
Proof. rewrite /swept. apply _. Defined.

Lemma K_prefix dir rest : K (dir ++ rest) -> dir <> [] -> K dir.
Proof.
  induction rest as [|last rest IH] using rev_ind; [by rewrite app_nil_r|].
  rewrite app_assoc. intros Hk Hne. apply IH; [|done]. eapply K_up; [done|by destruct dir].
Qed.

(** The loop over the names of a directory, from what each turn does. *)
Lemma sweep_loop n (step : nat -> Files -> string -> result Files) (dir : list string) names fs fs' :
  dir <> [] -> tree fs -> bounded n fs ->
  (forall i fs name fs', tree fs -> bounded n fs -> step i fs name = Ok fs' ->
     fs' = restrict (fun path => dir ++ [name] `prefix_of` path -> K path) fs) ->
  foldM step fs names = Ok fs' ->
  fs' = restrict (fun path => Forall (fun name => dir ++ [name] `prefix_of` path -> K path) names) fs.
Proof.
  intros Hne Ht Hb Hstep. rewrite /foldM. generalize 0%nat. revert fs Ht Hb.
  induction names as [|name names IH]; intros fs Ht Hb i; cbn.
  { intros [= <-]. apply map_eq. intros path. rewrite restrict_lookup. destruct (decide _) as [|Hn]; [done|]. by destruct Hn. }
  intros (fs1 & H1%Hstep & H2)%bind_Ok_inv; [|done..].
  assert (tree fs1) as Ht1.
  { rewrite H1. apply tree_restrict; [|done]. intros d m Hd Hdne Hpre.
    eapply K_up; [apply Hd|done]. by apply prefix_app_r. }
  rewrite (IH fs1 Ht1 _ (S i) H2); [rewrite H1; by apply bounded_restrict|]. rewrite H1 restrict_restrict.
  apply restrict_ext. intros path info _. by rewrite Forall_cons.
Qed.

Lemma sweep_names dir fs :
  dir <> [] -> tree fs ->
  restrict (fun path => Forall (fun name => dir ++ [name] `prefix_of` path -> K path) (names_in dir fs)) fs =
  restrict (swept dir) fs.
Proof.
  intros Hne Ht. apply restrict_ext. intros path info Hin. rewrite Forall_forall /swept. split.
  - intros Hn (name & rest & ->)%below_app. apply (Hn name).
    + apply names_in_elem. eapply tree_child; [done..|by eexists].
    + exists rest. by rewrite -app_assoc.
  - intros Hb name _ Hpre. apply Hb. by eapply prefix_below.
Qed.
End Sweep.

Lemma RemoveAll_Ok remove dir fs fs' :
  RemoveAll remove dir fs = Ok fs' -> fs' = restrict (fun path => ~ dir `prefix_of` path) fs.
Proof. rewrite /RemoveAll. by intros (_ & _ & [= <-])%bind_Ok_inv. Qed.

(** A directory is emptied. *)
Lemma clearDirectory_Ok remove dir fs fs' :
  dir <> [] -> tree fs -> clearDirectory remove dir fs = Ok fs' -> fs' = restrict (fun path => ~ below dir path) fs.
Proof.
  intros Hne Ht (names & [_ ->]%ReadDir_Ok & H)%bind_Ok_inv. rewrite -(restrict_ext (swept (fun path => ~ below dir path) dir)); [intros path info _; rewrite /swept; tauto|].
  rewrite -sweep_names //. eapply sweep_loop; [|done|done|apply bounded_max_depth| |exact H].
  - intros d name Hd _ Hbelow. by apply Hd, below_snoc.
  - intros i fs1 name fs2 _ _ ->%RemoveAll_Ok. apply restrict_ext. intros path info _.
    split; [tauto|]. intros Hb Hpre. by eapply Hb, prefix_below.
Qed.

Section ClearLaws.
Context (remove : list string -> result unit) (baseline : Baseline).

(** A staged path's directories are staged. *)
Definition closed : Prop := forall rel name, rel <> [] -> is_Some (baseline !! (rel ++ [name])) -> is_Some (baseline !! rel).

(** Outside the workspace, or staged. *)
Definition kept (path : list string) : Prop :=
  ~ below workspacePath path \/ is_Some (baseline !! drop (length workspacePath) path).

#[export] Instance kept_decision path : Decision (kept path).
Proof. rewrite /kept. apply _. Defined.

Context (baseline_closed : closed).

Lemma kept_up dir name : kept (dir ++ [name]) -> dir <> [] -> kept dir.
Proof.
  intros Hk Hne. rewrite /kept. destruct (decide (below workspacePath dir)) as [Hb|]; [|by left]. right.
  destruct Hk as [Hk|Hk]; [by exfalso; apply Hk, below_snoc|].
  apply below_app in Hb as (n & rest & ->). by apply (baseline_closed (n :: rest) name).
Qed.

(** One turn, for a name that is not staged and for one that is. *)
Lemma turn_removed rel name fs :
  baseline !! (rel ++ [name]) = None ->
  restrict (fun path => ~ workspacePath ++ rel ++ [name] `prefix_of` path) fs =
  restrict (fun path => workspacePath ++ rel ++ [name] `prefix_of` path -> kept path) fs.
Proof.
  intros Eb. apply restrict_ext. intros path info _. split; [tauto|]. intros Hk Hpre. specialize (Hk Hpre).
  destruct Hpre as [rest ->]. apply (K_prefix kept kept_up) in Hk; [|done].
  destruct Hk as [Hout|[entry Hin]]; [|by replace (drop _ _) with (rel ++ [name]) in Hin by done; rewrite Eb in Hin].
  apply Hout, below_app. destruct rel; by eexists _, _.
Qed.

Lemma turn_kept child fs (step : Files -> Files) :
  kept child ->
  step fs = restrict (swept kept child) fs \/ (step fs = fs /\ forall path, below child path -> fs !! path = None) ->
  step fs = restrict (fun path => child `prefix_of` path -> kept path) fs.
Proof.
  intros Hkept [-> |[-> Hnone]].
  - apply restrict_ext. rewrite /swept. intros path info _. split; [|intros Hk [Hpre _]; by apply Hk].
    intros Hk Hpre. destruct (decide (path = child)) as [->|]; [done|]. by apply Hk.
  - apply map_eq. intros path. rewrite restrict_lookup. destruct (decide _) as [|Hn]; [done|].
    apply Hnone. split; [by apply dec_stable; intros ?; apply Hn|]. intros ->. by apply Hn.
Qed.

Lemma clearWorkspace_Ok fuel rel fs fs' :
  tree fs -> bounded (S (length (workspacePath ++ rel) + fuel)) fs ->
  clearWorkspace remove baseline fuel rel fs = Ok fs' ->
  fs' = restrict (swept kept (workspacePath ++ rel)) fs.
Proof.
  revert rel fs fs'. induction fuel as [|fuel IH]; intros rel fs fs' Ht Hb H; cbn [clearWorkspace] in H;
    apply bind_Ok_inv in H as (names & [_ ->]%ReadDir_Ok & H).
  all: rewrite -sweep_names //; eapply sweep_loop; [apply kept_up|done|done|exact Hb| |exact H].
  all: intros i fs1 name fs2 Ht1 Hb1 E; cbn beta zeta in E.
  all: rewrite -app_assoc.
  all: destruct (baseline !! (rel ++ [name])) as [entry|] eqn:Eb; [|by apply RemoveAll_Ok in E; rewrite E turn_removed].
  all: assert (kept (workspacePath ++ rel ++ [name])) as Hself by (right; by eexists).
  all: apply (turn_kept _ fs1 (fun _ => fs2) Hself).
  all: destruct (fs1 !! (workspacePath ++ rel ++ [name])) as [info|] eqn:Ef.
  all: try (right; injection E as <-; split; [done|]; intros path Hbelow; by apply (tree_none _ _ _ Ht1 Ef Hbelow)).
  all: destruct (is_directory info) eqn:Ed.
  - right. injection E as <-. split; [done|]. intros path Hbelow. apply (bounded_none _ _ _ _ Hb1 Hbelow).
    rewrite !length_app /=. lia.
  - right. destruct (negb _); [done|]. injection E as <-. split; [done|]. intros path.
    apply (tree_leaf fs1 _ info path Ht1); [done|done|by apply bool_decide_eq_false in Ed].
  - left. apply IH in E; [done..|]. intros path Hp%Hb1. rewrite !length_app /= in Hp |- *. lia.
  - right. destruct (negb _); [done|]. injection E as <-. split; [done|]. intros path.
    apply (tree_leaf fs1 _ info path Ht1); [done|done|by apply bool_decide_eq_false in Ed].
Qed.
End ClearLaws.

(** ** The snapshot of the staged workspace *)

Definition staged (info : File) : Prop :=
  (fi_kind info = Directory \/ fi_kind info = Regular) /\ fi_uid info = 0 /\ writable info = false.

Definition entry_of (info : File) : workspaceEntry := mkWorkspaceEntry (fi_perm info) (is_directory info).

Lemma snapshot_entry_Ok i b path info b' :
  snapshot_entry i b (path, info) = Ok b' ->
  staged info /\ b' = <[drop (length workspacePath) path := entry_of info]> b.
Proof.
  rewrite /snapshot_entry /staged /is_directory /is_regular_file. intros H. ok_inv. bool_prop.
  split; [|done]. split_and!; [|done|done].
  destruct (fi_kind info); [by left|by right|]. by cbn in E.
Qed.

Lemma snapshot_fold i b l b' :
  foldM_from i snapshot_entry b l = Ok b' ->
  (forall entry, entry ∈ l -> staged entry.2 /\ is_Some (b' !! drop (length workspacePath) entry.1)) /\
  (forall rel e, b' !! rel = Some e -> b !! rel = Some e \/
     exists entry, entry ∈ l /\ rel = drop (length workspacePath) entry.1 /\ e = entry_of entry.2) /\
  (forall rel, is_Some (b !! rel) -> is_Some (b' !! rel)).
Proof.
  revert i b. induction l as [|[path info] l IH]; intros i b; cbn [foldM_from].
  { intros [= <-]. split_and!; [by intros ? ?%elem_of_nil|by left|done]. }
  intros (b1 & [Hst ->]%snapshot_entry_Ok & (Hall & Hinv & Hmono)%IH)%bind_Ok_inv. split_and!.
  - intros entry [->|Hin]%elem_of_cons; [|by apply Hall]. split; [done|]. apply Hmono. cbn. rewrite lookup_insert_eq. by eexists.
  - intros rel e [Hb|(entry & Hin & Hrel)]%Hinv; [|right; exists entry; split; [by right|done]].
    apply lookup_insert_Some in Hb as [[<- <-]|[_ Hb]]; [|by left]. right. exists (path, info). split; [by left|done].
  - intros rel Hrel. apply Hmono. destruct (decide (drop (length workspacePath) path = rel)) as [<-|];
      [rewrite lookup_insert_eq; by eexists|by rewrite lookup_insert_ne].
Qed.

Lemma entries_below_elem dir fs path info : (path, info) ∈ entries_below dir fs <-> below dir path /\ fs !! path = Some info.
Proof. by rewrite /entries_below merge_sort_Permutation list_elem_of_filter elem_of_map_to_list. Qed.

Lemma snapshot_spec fs baseline :
  snapshotWorkspace fs = Ok baseline ->
  (forall rel info, rel <> [] -> fs !! (workspacePath ++ rel) = Some info -> staged info /\ baseline !! rel = Some (entry_of info)) /\
  (forall rel, is_Some (baseline !! rel) -> rel <> [] /\ is_Some (fs !! (workspacePath ++ rel))).
Proof.
  rewrite /snapshotWorkspace. destruct (fs !! workspacePath) as [root|]; [|done]. intros (Hall & Hinv & _)%snapshot_fold.
  assert (forall rel e, baseline !! rel = Some e ->
    rel <> [] /\ exists info, fs !! (workspacePath ++ rel) = Some info /\ e = entry_of info) as Hfrom.
  { intros rel e [He|([path info] & [(name & rest & ->)%below_app Hin]%entries_below_elem & -> & ->)]%Hinv; [done|].
    split; [done|]. exists info. by split. }
  split.
  - intros rel info Hne Hin. destruct (Hall (workspacePath ++ rel, info)) as [Hst [e He]].
    { apply entries_below_elem. split; [|done]. apply below_app. destruct rel as [|n r]; [done|by exists n, r]. }
    split; [done|]. change (baseline !! rel = Some e) in He. destruct (Hfrom _ _ He) as (_ & info' & Hin' & ->).
    rewrite Hin' in Hin. by injection Hin as ->.
  - intros rel [e He]. destruct (Hfrom _ _ He) as (Hne & info & Hin & _). split; [done|by eexists].
Qed.

(** ** Resetting *)

Lemma foldM_from_total {A S} (P : S -> Prop) (f : nat -> S -> A -> result S) i s l :
  (forall j a x, x ∈ l -> P a -> exists b, f j a x = Ok b /\ P b) -> P s -> exists t, foldM_from i f s l = Ok t /\ P t.
Proof.
  revert i s. induction l as [|x l IH]; intros i s Hstep Hs; cbn; [by exists s|].
  destruct (Hstep i s x) as (b & -> & Hb); [by left|done|]. rewrite bind_Ok. apply IH; [|done].
  intros j a y Hy. apply Hstep. by right.
Qed.

Definition scratch (path : list string) : Prop := below ["tmp"] path \/ below ["dev"; "shm"] path.

#[export] Instance scratch_decision path : Decision (scratch path).
Proof. rewrite /scratch. apply _. Defined.

(** The paths a case starts with. *)
Definition clean (baseline : Baseline) (path : list string) : Prop := kept baseline path /\ ~ scratch path.

#[export] Instance clean_decision baseline path : Decision (clean baseline path).
Proof. rewrite /clean. apply _. Defined.

Lemma reset_Ok remove baseline fs fs' :
  closed baseline -> tree fs -> resetCaseFilesystem remove baseline fs = Ok fs' -> fs' = restrict (clean baseline) fs.
Proof.
  intros Hc Ht. rewrite /resetCaseFilesystem. intros (fs1 & H1%wrap_err_Ok & H2)%bind_Ok_inv.
  apply clearWorkspace_Ok in H1; [|done|done|intros path Hp%bounded_max_depth; cbn; lia].
  assert (restrict (swept (kept baseline) workspacePath) fs = restrict (kept baseline) fs) as Eq.
  { apply restrict_ext. intros path info _. rewrite /swept. split; [|tauto]. intros Hk.
    destruct (decide (below workspacePath path)); [by apply Hk|by left]. }
  change (workspacePath ++ []) with workspacePath in H1. rewrite Eq in H1. subst fs1. clear Eq.
  cbn in H2. apply bind_Ok_inv in H2 as (fs2 & H2%wrap_err_Ok & (fs3 & H3%wrap_err_Ok & [= <-])%bind_Ok_inv).
  assert (tree (restrict (kept baseline) fs)) as Ht1 by by apply tree_restrict; [apply kept_up|].
  apply clearDirectory_Ok in H2; [|done..]. subst fs2. apply clearDirectory_Ok in H3; [|done|].
  - rewrite H3 !restrict_restrict. apply restrict_ext. intros path info _. rewrite /clean /scratch. tauto.
  - apply tree_restrict; [|done]. intros d name Hd _ Hb. by apply Hd, below_snoc.
Qed.

(** The kernel confines what the contestant does by the permission bits: what it
    changes is below the workspace or a scratch directory, and there root's files
    that nobody else may write stay as they are. *)
Record confined_step (step : Files -> Files) : Prop := {
  cf_tree : forall fs, tree fs -> tree (step fs);
  cf_elsewhere : forall fs path, ~ below workspacePath path -> ~ scratch path -> step fs !! path = fs !! path;
  cf_staged : forall fs path info, below workspacePath path -> fs !! path = Some info -> staged info ->
    step fs !! path = Some info }.

(** So it is with the program and with every process it leaves running. *)
Record confined (contestant : string -> Files -> Outcome) : Prop := {
  cf_run : forall input, confined_step (fun fs => oc_files (contestant input fs));
  cf_running : forall input fs, confined_step (oc_running (contestant input fs)) }.

(** The files when the clean-up of the processes is done. *)
Definition after_run (contestant : string -> Files -> Outcome) (input : string) (fs : Files) : Files :=
  oc_running (contestant input fs) (oc_files (contestant input fs)).

Lemma after_run_confined contestant input : confined contestant -> confined_step (after_run contestant input).
Proof.
  intros [Hrun Hrunning]. rewrite /after_run. split.
  - intros fs Ht. by apply Hrunning, (cf_tree _ (Hrun input)).
  - intros fs path Hb Hs. rewrite (cf_elsewhere _ (Hrunning input fs)) //. by apply (cf_elsewhere _ (Hrun input)).
  - intros fs path info Hb Hin Hst. apply (cf_staged _ (Hrunning input fs)); [done| |done].
    by apply (cf_staged _ (Hrun input)).
Qed.

Section Isolation.
Context `{PrintTables}.
Context (world : Container) (request : supervisorRequest) (fs0 : Files) (baseline : Baseline).
Context (Htree : tree fs0) (Hconfined : confined (wd_contestant world)) (Hsnapshot : snapshotWorkspace fs0 = Ok baseline).

Definition start : Files := restrict (clean baseline) fs0.

Lemma baseline_closed : closed baseline.
Proof using Htree Hsnapshot.
  destruct (snapshot_spec _ _ Hsnapshot) as [Hin Hfrom]. intros rel name Hne Hb.
  destruct (Hfrom _ Hb) as [_ Hfs]. rewrite app_assoc in Hfs.
  destruct (Htree _ _ (ltac:(done) : workspacePath ++ rel <> []) Hfs) as (info & Hinfo & _).
  destruct (Hin rel info Hne Hinfo) as [_ ->]. by eexists.
Qed.

Lemma start_tree : tree start.
Proof using Htree Hsnapshot.
  apply tree_restrict; [|done]. intros dir name [Hk Hs] Hne. split; [eapply kept_up; [apply baseline_closed|done..]|].
  intros [Hb|Hb]; apply Hs; [left|right]; by apply below_snoc.
Qed.

Lemma start_clean : restrict (clean baseline) start = start.
Proof. rewrite /start restrict_restrict. apply restrict_ext. tauto. Qed.

(** What is left of the files after a run and a reset. *)
Lemma contestant_clean input : restrict (clean baseline) (after_run (wd_contestant world) input start) = start.
Proof using Htree Hconfined Hsnapshot.
  pose proof (after_run_confined _ input Hconfined) as Hstep.
  rewrite -[RHS]start_clean. apply map_eq. intros path.
  rewrite (restrict_lookup _ (after_run _ _ _)) (restrict_lookup _ start). case_decide as Hc; [|done].
  destruct (decide (below workspacePath path)) as [Hb|Hb].
  - destruct Hc as [[?|Hk] Hs]; [done|]. destruct (snapshot_spec _ _ Hsnapshot) as [Hin Hfrom].
    destruct (Hfrom _ Hk) as [Hne [info Hinfo]]. pose proof Hb as Hpath.
    apply below_app in Hpath as (name & rest & ->). destruct (Hin _ _ Hne Hinfo) as [Hst _].
    assert (start !! (workspacePath ++ name :: rest) = Some info) as Hstart
      by (apply restrict_Some; split; [by split; [right|]|exact Hinfo]).
    rewrite Hstart. by eapply (cf_staged _ Hstep).
  - apply (cf_elsewhere _ Hstep); [done|apply Hc].
Qed.

Lemma supervise_case_Ok i input fs r fs' :
  tree fs -> restrict (clean baseline) fs = start ->
  supervise_case world request baseline i input fs = Ok (r, fs') ->
  r = runCase request (oc_process (wd_contestant world input start)) /\ fs' = start.
Proof using Htree Hconfined Hsnapshot.
  intros Ht Hfs. rewrite /supervise_case. intros (fs1 & H1%wrap_err_Ok & E)%bind_Ok_inv.
  apply reset_Ok in H1; [|apply baseline_closed|done]. rewrite Hfs in H1. subst fs1.
  pose proof (contestant_clean input) as Hclean.
  pose proof (cf_tree _ (after_run_confined _ input Hconfined) _ start_tree) as Ht2. cbn zeta in E.
  apply bind_Ok_inv in E as (running & (_ & _ & [= <-])%bind_Ok_inv & E).
  apply bind_Ok_inv in E as (fs3 & H3%wrap_err_Ok & (_ & _ & (_ & _ & [= <- <-])%bind_Ok_inv)%bind_Ok_inv).
  apply reset_Ok in H3; [|apply baseline_closed|done]. rewrite /after_run in Hclean. by rewrite H3.
Qed.

(** The calls that may fail do not. *)
Definition cooperative : Prop :=
  (forall dir, wd_remove world dir = Ok tt) /\
  (forall i, cleanupContestantProcesses (wd_turns world) (wd_sweeps world i) = Ok tt) /\ wd_write world = Ok tt.

(** No staged path is neither a directory nor a file. *)
Definition ordinary (fs : Files) : Prop :=
  forall rel info, is_Some (baseline !! rel) -> fs !! (workspacePath ++ rel) = Some info -> fi_kind info <> Special.

Lemma ordinary_restrict P `{forall path, Decision (P path)} fs : ordinary fs -> ordinary (restrict P fs).
Proof. intros Ho rel info Hb [_ Hin]%restrict_Some. by eapply Ho. Qed.

(** The directories that are read are there. *)
Definition is_dir (dir : list string) (fs : Files) : Prop :=
  exists info, fs !! dir = Some info /\ fi_kind info = Directory.

Lemma clearWorkspace_total fuel rel fs :
  (forall dir, wd_remove world dir = Ok tt) -> ordinary fs -> is_dir (workspacePath ++ rel) fs ->
  exists fs', clearWorkspace (wd_remove world) baseline fuel rel fs = Ok fs' /\ ordinary fs'.
Proof.
  intros Hrm. revert rel fs. induction fuel as [|fuel IH]; intros rel fs Ho Hd; cbn [clearWorkspace];
    (rewrite (proj2 (ReadDir_Ok _ _ _) (conj Hd eq_refl)) bind_Ok);
    (apply foldM_from_total; [|done]); intros j fs1 name _ Ho1; cbn beta zeta.
  all: destruct (baseline !! (rel ++ [name])) as [e|] eqn:Eb;
    [|rewrite /RemoveAll Hrm bind_Ok; eexists; split; [done|];
      exact (ordinary_restrict (fun path => ~ workspacePath ++ rel ++ [name] `prefix_of` path) fs1 Ho1)].
  all: destruct (fs1 !! (workspacePath ++ rel ++ [name])) as [info|] eqn:Ef; [|by eexists].
  all: destruct (is_directory info) eqn:Ed;
    [first [by eexists|apply IH; [done|exists info; split; [exact Ef|by apply bool_decide_eq_true in Ed]]]|].
  all: assert (is_regular_file info = true) as ->; [|by eexists].
  all: apply bool_decide_eq_true; apply bool_decide_eq_false in Ed; destruct (fi_kind info) eqn:Ek; try done.
  all: exfalso; by eapply (Ho1 (rel ++ [name]) info); [rewrite Eb; eexists|..].
Qed.

(** The directories of a reset are in place. *)
Definition in_place (fs : Files) : Prop := Forall (fun dir => is_dir dir fs) (workspacePath :: scratch_directories).

Lemma in_place_clean fs : restrict (clean baseline) fs = start -> in_place fs0 -> in_place fs.
Proof.
  intros Hfs Hin. apply Forall_forall. intros dir Hdir. rewrite /in_place Forall_forall in Hin.
  destruct (Hin dir Hdir) as (info & Hinfo & Hk). exists info. split; [|done].
  assert (restrict (clean baseline) fs !! dir = Some info) as [_ H1]%restrict_Some; [|done]. rewrite Hfs.
  apply restrict_Some. split; [|done]. split; [left|].
  all: rewrite !elem_of_cons in Hdir; destruct Hdir as [->|[->|[->|?%elem_of_nil]]]; [..|done].
  all: try first [by intros [[] _]|by intros [_ ?]].
  all: intros [Hb|Hb]; apply below_app in Hb as (? & ? & E); by inversion E.
Qed.

Lemma clearDirectory_total dir fs : (forall path, wd_remove world path = Ok tt) -> is_dir dir fs ->
  exists fs', clearDirectory (wd_remove world) dir fs = Ok fs'.
Proof.
  intros Hrm Hd. rewrite /clearDirectory (proj2 (ReadDir_Ok _ _ _) (conj Hd eq_refl)) bind_Ok.
  destruct (foldM_from_total (fun _ => True) (fun _ fs name => RemoveAll (wd_remove world) (dir ++ [name]) fs) 0
    fs (names_in dir fs)) as (t & Ht & _); [|done|by exists t].
  intros j a name _ _. rewrite /RemoveAll Hrm bind_Ok. by eexists.
Qed.

Lemma is_dir_restrict P `{forall path, Decision (P path)} dir fs : P dir -> is_dir dir fs -> is_dir dir (restrict P fs).
Proof. intros HP (info & Hin & Hk). exists info. split; [by apply restrict_Some|done]. Qed.

Lemma reset_total fs : (forall dir, wd_remove world dir = Ok tt) -> tree fs -> ordinary fs -> in_place fs ->
  exists fs', resetCaseFilesystem (wd_remove world) baseline fs = Ok fs'.
Proof using Htree Hsnapshot.
  intros Hrm Ht Ho. rewrite /in_place /scratch_directories !Forall_cons. intros (Hw & Htmp & Hshm & _).
  rewrite /resetCaseFilesystem.
  destruct (clearWorkspace_total (max_depth fs) [] fs Hrm Ho Hw) as (fs1 & H1 & _). rewrite H1. cbn [wrap_err]. rewrite bind_Ok.
  apply clearWorkspace_Ok in H1; [|apply baseline_closed|done|intros path Hp%bounded_max_depth; cbn; lia].
  assert (tree fs1) as Ht1 by (rewrite H1; apply tree_restrict; [|done]; intros dir name Hk Hne Hb;
    by eapply kept_up; [apply baseline_closed|apply Hk, below_snoc|]).
  assert (forall dir, ~ below workspacePath dir -> is_dir dir fs -> is_dir dir fs1) as Hkeep.
  { intros dir Hb Hd. rewrite H1. apply is_dir_restrict; [|done]. by intros ?. }
  apply Hkeep in Htmp, Hshm; [|by intros [[] _]..].
  destruct (clearDirectory_total ["tmp"] fs1 Hrm Htmp) as [fs2 H2].
  cbn [foldM foldM_from scratch_directories]. rewrite /foldM /scratch_directories. cbn [foldM_from]. rewrite H2. cbn [wrap_err]. rewrite bind_Ok.
  apply clearDirectory_Ok in H2; [|done..].
  assert (is_dir ["dev"; "shm"] fs2) as Hshm2 by (rewrite H2; apply is_dir_restrict; [by intros [[] _]|done]).
  destruct (clearDirectory_total ["dev"; "shm"] fs2 Hrm Hshm2) as [fs3 H3]. rewrite H3. cbn [wrap_err]. by eexists.
Qed.

Lemma ordinary_staged fs : restrict (clean baseline) fs = start -> ordinary fs.
Proof using Hsnapshot.
  intros Hfs rel info Hb Hin. destruct (snapshot_spec _ _ Hsnapshot) as [Hall Hfrom].
  destruct (Hfrom _ Hb) as [Hne [info0 Hin0]]. destruct (Hall _ _ Hne Hin0) as [[Hk _] _].
  assert (clean baseline (workspacePath ++ rel)) as Hclean.
  { split; [by right|]. by intros [[[] _]|[[] _]]. }
  assert (restrict (clean baseline) fs !! (workspacePath ++ rel) = Some info) as H1 by by apply restrict_Some.
  rewrite Hfs in H1. apply restrict_Some in H1 as [_ H1]. intros Hs. destruct Hk; congruence.
Qed.

Lemma validate_start : validateWorkspaceBaseline baseline start = Ok tt.
Proof using Hsnapshot.
  apply iterM_from_Ok. intros j [rel e] Hj%list_elem_of_lookup_2%elem_of_map_to_list.
  destruct (snapshot_spec _ _ Hsnapshot) as [Hall Hfrom]. destruct (Hfrom rel) as [Hne [info Hin]]; [by eexists|].
  destruct (Hall _ _ Hne Hin) as [(Hk & Hu & Hw) Hb]. rewrite Hb in Hj. injection Hj as <-.
  assert (start !! (workspacePath ++ rel) = Some info) as Hstart.
  { apply restrict_Some. split; [|done]. split; [right; by rewrite Hb; eexists|]. by intros [[[] _]|[[] _]]. }
  rewrite /validate_protected Hstart /entry_of Hu Hw /is_directory /is_regular_file. cbn [we_directory].
  by destruct Hk as [-> | ->].
Qed.

Lemma supervise_case_total i input fs :
  cooperative -> in_place fs0 -> tree fs -> restrict (clean baseline) fs = start ->
  exists r, supervise_case world request baseline i input fs = Ok (r, start).
Proof using Htree Hconfined Hsnapshot.
  intros (Hrm & Hsweep & Hwrite) Hplace Ht Hfs. rewrite /supervise_case.
  destruct (reset_total fs Hrm Ht (ordinary_staged _ Hfs) (in_place_clean _ Hfs Hplace)) as [fs1 H1].
  rewrite H1. apply reset_Ok in H1; [|apply baseline_closed|done]. rewrite Hfs in H1. subst fs1. cbn [wrap_err]. rewrite bind_Ok.
  pose proof (contestant_clean input) as Hclean.
  pose proof (cf_tree _ (after_run_confined _ input Hconfined) _ start_tree) as Ht2.
  cbn zeta. rewrite /kill_contestant Hsweep. cbn [wrap_err]. rewrite !bind_Ok. fold (after_run (wd_contestant world) input start).
  destruct (reset_total _ Hrm Ht2 (ordinary_staged _ Hclean) (in_place_clean _ Hclean Hplace)) as [fs3 H3].
  rewrite H3. apply reset_Ok in H3; [|apply baseline_closed|done]. rewrite Hclean in H3. subst fs3.
  cbn [wrap_err]. rewrite bind_Ok validate_start bind_Ok Hwrite. by eexists.
Qed.

Lemma supervise_spec inputs i fs results ended :
  tree fs -> restrict (clean baseline) fs = start ->
  supervise world request baseline i inputs fs = (results, ended) ->
  (forall j r, results !! j = Some r ->
     (exists input, inputs !! j = Some input /\ r = runCase request (oc_process (wd_contestant world input start)))
     /\ (stops r = true -> length results = S j))
  /\ (forall fs', ended = Ok fs' -> inputs <> [] -> fs' = start)
  /\ (cooperative -> in_place fs0 -> is_ok ended = true
        /\ (length results = length inputs \/ exists r, last results = Some r /\ stops r = true)).
Proof using Htree Hconfined Hsnapshot.
  revert i fs results ended. induction inputs as [|input inputs IH]; intros i fs results ended Ht Hfs; cbn [supervise].
  { intros [= <- <-]. split_and!; [done..|]. intros _ _. split; [done|by left]. }
  destruct (supervise_case world request baseline i input fs) as [[r fs1]|e] eqn:E.
  2: { intros [= <- <-]. split_and!; [done..|]. intros Hc Hplace.
       destruct (supervise_case_total i input fs Hc Hplace Ht Hfs) as [r Hr]. congruence. }
  apply supervise_case_Ok in E as [Er ->]; [|done..]. destruct (stops r) eqn:Es.
  { intros [= <- <-]. split_and!; [|by intros fs' [= <-]|].
    - intros [|j] r'; [|done]. intros [= <-]. split; [by exists input|done].
    - intros _ _. split; [done|]. right. by exists r. }
  destruct (supervise world request baseline (S i) inputs start) as [rs end1] eqn:E1.
  intros [= <- <-]. destruct (IH _ _ _ _ start_tree start_clean E1) as (Hall & Hend & Hlive). split_and!.
  - intros [|j] r'; cbn; [intros [= <-]; split; [by exists input|congruence]|].
    intros Hj. destruct (Hall j r' Hj) as [Hr Hstop]. split; [done|]. intros Hs. by rewrite (Hstop Hs).
  - intros fs' -> _. destruct inputs; [by injection E1 as _ ->|by apply Hend].
  - intros Hc Hplace. destruct (Hlive Hc Hplace) as [Hok Hlen]. split; [done|].
    destruct Hlen as [Hlen|(r' & Hl & Hs)]; [left; cbn; by rewrite Hlen|right]. exists r'. split; [|done]. by destruct rs.
Qed.
End Isolation.

(** C35: the supervisor runs the cases of a submission in isolation.  On a
    staged workspace, and a kernel that confines the contestant by permission
    bits, the result of each case is that of running it alone on the staged
    files with empty scratch directories, whatever the cases before it wrote;
    the session leaves exactly these files behind; it stops after the first
    case that fails; and when no system call fails and the workspace, /tmp and
    /dev/shm are there it ends without an error, having run every case or stopped
    at a failing one.  Processes that a case leaves running write until they are
    killed, which is before the files are reset for the next case. *)
Theorem cases_are_isolated `{PrintTables} world request fs baseline results ended :
  tree fs -> confined (wd_contestant world) -> snapshotWorkspace fs = Ok baseline ->
  supervise world request baseline 0 (sq_Inputs request) fs = (results, ended) ->
  (forall i r, results !! i = Some r ->
     (exists input, sq_Inputs request !! i = Some input
        /\ r = runCase request (oc_process (wd_contestant world input (start fs baseline))))
     /\ (stops r = true -> length results = S i))
  /\ (forall fs', ended = Ok fs' -> sq_Inputs request <> [] -> fs' = start fs baseline)
  /\ (cooperative world -> in_place fs -> is_ok ended = true
        /\ (length results = length (sq_Inputs request) \/ exists r, last results = Some r /\ stops r = true)).
Proof. intros Ht Hc Hs. by apply (supervise_spec world request fs baseline Ht Hc Hs). Qed.

(** A program that prints its input, leaves a file in the workspace and a
    process that writes that file again. *)
Definition sample_files : Files :=
  {[ ["workspace"] := mkFile Directory 1023 0 ""; ["workspace"; "main"] := mkFile Regular 493 0 "binary";
     ["tmp"] := mkFile Directory 1023 0 ""; ["dev"] := mkFile Directory 493 0 "";
     ["dev"; "shm"] := mkFile Directory 1023 0 "" ]}.

Definition left_behind : list string := ["workspace"; "out"].

Definition leave_behind (text : string) (fs : Files) : Files :=
  if decide (fi_kind <$> fs !! workspacePath = Some Directory /\ fs !! left_behind = None)
  then <[left_behind := mkFile Regular 420 10001 text]> fs else fs.

Definition sample_contestant (input : string) (fs : Files) : Outcome :=
  mkOutcome (mkCaseProcess (Ok "yexsupervisor") [input] [] None (Some (0, None)) false)
    (leave_behind input fs) (leave_behind "again").

Lemma leave_behind_confined text : confined_step (leave_behind text).
Proof.
  split; rewrite /leave_behind; intros fs; case_decide as Hc; try done; destruct Hc as [Hw Hn].
  - intros Ht dir name Hne [info Hin]. destruct (decide (dir ++ [name] = left_behind)) as [E|E].
    + apply (app_inj_tail dir workspacePath) in E as [-> _].
      destruct (fs !! workspacePath) as [w|] eqn:Ew; [|done]. exists w. split; [|by injection Hw].
      rewrite lookup_insert_ne //.
    + rewrite lookup_insert_ne // in Hin. destruct (Ht dir name Hne) as (d & Hd & Hk); [by eexists|].
      exists d. split; [|done]. rewrite lookup_insert_ne //. intros <-. congruence.
  - intros path Hb _. rewrite lookup_insert_ne //. intros <-. apply Hb, below_app. by exists "out", [].
  - intros path info _ Hin _. rewrite lookup_insert_ne //. intros <-. congruence.
Qed.

Lemma sample_confined : confined sample_contestant.
Proof. split; intros; apply leave_behind_confined. Qed.

Definition sample_container : Container :=
  mkContainer 0 sample_contestant (fun _ => Ok tt) 3 (fun _ _ => mkSweep (Ok []) (fun _ => Ok tt)) (Ok tt).

Definition sample_request : supervisorRequest := mkSupervisorRequest ["/workspace/main"] ["a"; "b"] 1000 65536.

Lemma paths_in (fs : Files) (paths : list (list string)) path info :
  forallb (fun e => bool_decide (e.1 ∈ paths)) (map_to_list fs) = true -> fs !! path = Some info -> path ∈ paths.
Proof.
  rewrite forallb_forall. intros Hall Hin. apply (bool_decide_eq_true (path ∈ paths)).
  apply (Hall (path, info)), list_elem_of_In. by apply elem_of_map_to_list.
Qed.

Lemma sample_tree : tree sample_files.
Proof.
  intros dir name Hne [info Hin].
  pose proof (paths_in sample_files [["tmp"]; ["workspace"]; ["dev"]; ["workspace"; "main"]; ["dev"; "shm"]]
    (dir ++ [name]) info) as Hp.
  specialize (Hp ltac:(by vm_compute) Hin).
  rewrite !elem_of_cons in Hp. destruct Hp as [E|[E|[E|[E|[E|?%elem_of_nil]]]]]; [..|done].
  1-3: by apply (app_inj_tail dir []) in E as [-> _].
  - apply (app_inj_tail dir ["workspace"]) in E as [-> _]. by eexists.
  - apply (app_inj_tail dir ["dev"]) in E as [-> _]. by eexists.
Qed.

Lemma sample_in_place : in_place sample_files.
Proof.
  rewrite /in_place /scratch_directories !Forall_cons. split_and!; [..|done].
  all: eexists; split; [vm_compute; reflexivity|reflexivity].
Qed.

Lemma cases_are_isolated_witness :
  let run := @supervise latin1_print sample_container sample_request in
  exists baseline results, snapshotWorkspace sample_files = Ok baseline
  /\ run baseline 0%nat ["a"; "b"] sample_files = (results, Ok (start sample_files baseline))
  /\ map cs_Stdout results = ["a"; "b"]
  /\ start sample_files baseline !! left_behind = None.
Proof.
  cbn zeta.
  assert (match snapshotWorkspace sample_files with
          | Ok baseline => (map cs_Stdout (fst (@supervise latin1_print sample_container sample_request baseline 0 ["a"; "b"]
                              sample_files)), bool_decide (start sample_files baseline !! left_behind = None))
          | Err _ => ([], false)
          end = (["a"; "b"], true)) as Ecomputed by (vm_compute; reflexivity).
  destruct (snapshotWorkspace sample_files) as [baseline|e] eqn:Es; [|discriminate Ecomputed].
  destruct (@supervise latin1_print sample_container sample_request baseline 0 ["a"; "b"]
    sample_files) as [results ended] eqn:E.
  apply pair_equal_spec in Ecomputed as [Eout Egone].
  destruct (@cases_are_isolated latin1_print sample_container sample_request sample_files
    baseline results ended sample_tree sample_confined Es E) as (Hall & Hend & Hlive).
  destruct Hlive as [Hok _]; [by split_and!|exact sample_in_place|]. destruct ended as [fs'|e]; [|done].
  exists baseline, results. split; [done|].
  pose proof (Hend fs' eq_refl ltac:(done)) as ->. split; [exact E|]. split; [exact Eout|].
  by apply bool_decide_eq_true in Egone.
Defined.
