(* ===== verification/Protocol.v ===== *)
(** * The judge and the supervisor together

    [RunTestCases] of the judge over [runSupervisor] in the sandbox. *)

From S2P Require Import Prelude GoStrings GoJson TypeSyntax Contracts Adapters Harness CppHarness CppClass.
From S2P Require Import PyHarness Languages Validate Verdict TestCases Observations Admission Generation Judging.
From S2P Require Import Effects Paths Workspace Buffers GoStruct Docker Wire WireLaws Supervisor SupervisorLaws.

#[local] Open Scope Z_scope.

(** A request within the supervisor's limits. *)
Record acceptable (r : supervisorRequest) : Prop := {
  ac_command : exists name args, sq_Command r = name :: args /\ name <> "";
  ac_inputs : sq_Inputs r <> [] /\ (length (sq_Inputs r) <= 500)%nat;
  ac_time : 0 < sq_TimeLimitMs r <= 30000;
  ac_output : 0 < sq_OutputLimit r <= 1048576;
  ac_text : Forall (fun s => valid_text s = s) (sq_Command r ++ sq_Inputs r);
  ac_size : len (Marshal_request r) <= Z.shiftl 16 20 }.

Lemma valid_request_id r : Forall (fun s => valid_text s = s) (sq_Command r ++ sq_Inputs r) -> valid_request r = r.
Proof.
  intros [Hc Hi]%Forall_app. destruct r as [command inputs t o]. rewrite /valid_request. cbn in Hc, Hi |- *.
  assert (forall l, Forall (fun s => valid_text s = s) l -> map valid_text l = l) as Hmap.
  { induction l as [|s l IH]; [done|]. intros [Hs Hl]%Forall_cons. cbn. by rewrite Hs IH. }
  by rewrite !Hmap.
Qed.

(** The supervisor reads the request that the judge wrote. *)
Lemma read_request_encoded r : acceptable r -> read_request 0 (Marshal_request r) = Ok r.
Proof.
  intros [(name & args & Ec & Hn) [Hi Hi'] Ht Ho Htext Hsize]. rewrite /read_request slice_all //.
  change (negb (0 =? 0)) with false. cbn iota.
  rewrite -{1}(append_nil_r (Marshal_request r)) (Decode_object 1) //; [apply depth_two|apply request_members_ok|].
  rewrite decode_request; [rewrite /in_int64; lia|rewrite /in_int64; lia|]. rewrite valid_request_id //.
  cbn [wrap_err]. rewrite bind_Ok. change (ensureJSONEOF "") with (Ok tt : result unit). rewrite bind_Ok.
  rewrite /validate_request Ec. rewrite bool_decide_false //. cbn iota.
  assert ((Z.of_nat (length (sq_Inputs r)) =? 0) || (maxCases <? Z.of_nat (length (sq_Inputs r))) = false) as ->.
  { rewrite /maxCases orb_false_iff Z.eqb_neq Z.ltb_ge. destruct (sq_Inputs r); [done|]. cbn [length] in Hi' |- *. lia. }
  assert ((sq_TimeLimitMs r <=? 0) || (30000 <? sq_TimeLimitMs r) = false) as ->
    by (rewrite orb_false_iff Z.leb_gt Z.ltb_ge; lia).
  assert ((sq_OutputLimit r <=? 0) || (Z.shiftl 1 20 <? sq_OutputLimit r) = false) as ->; [|done].
  change (Z.shiftl 1 20) with 1048576. rewrite orb_false_iff Z.leb_gt Z.ltb_ge. lia.
Qed.

Section Session.
Context `{PrintTables}.

(** What the supervisor writes before it ends well is a session. *)
Lemma supervise_session world request baseline i inputs fs results fs' :
  supervise world request baseline i inputs fs = (results, Ok fs') -> Forall sane results ->
  session (length inputs) results.
Proof.
  revert i fs results. induction inputs as [|input inputs IH]; intros i fs results; cbn [supervise length].
  { by intros [= <- _] _. }
  destruct (supervise_case _ _ _ _ _ _) as [[r fs1]|]; [|done]. destruct (stops r) eqn:Es.
  { intros [= <- _] [Hr _]%Forall_cons. cbn [session]. by rewrite Es. }
  destruct (supervise _ _ _ _ _ _) as [rs end1] eqn:E. intros [= <- ->] [Hr Hrs]%Forall_cons. cbn [session].
  rewrite Es. split; [done|]. by eapply IH.
Qed.

Lemma session_length n results : session n results -> (length results <= n)%nat.
Proof.
  revert n. induction results as [|r results IH]; intros [|n]; cbn [session length]; try lia.
  intros [_ Hr]. destruct (stops r); [subst; cbn; lia|]. specialize (IH n Hr). lia.
Qed.
End Session.

(** ** The results that are decoded are enough for a verdict *)

(** The loop ends with the expected number of results, or at one that did not
    end well. *)
Lemma decode_loop_end remaining output results final rest :
  decode_loop remaining output results = Ok (final, rest) ->
  length final = (length results + remaining)%nat \/ exists r, last final = Some r /\ run_stops r = true.
Proof.
  revert output results. induction remaining as [|remaining IH]; intros output results; cbn [decode_loop].
  { intros [= <- _]. left. lia. }
  destruct (Decode output) as [raw rest'| |e].
  - intros (r & _ & Hr)%bind_Ok_inv. destruct (run_stops r) eqn:Es.
    + injection Hr as <- _. right. exists r. by rewrite last_snoc.
    + destruct (IH _ _ Hr) as [Hlen|?]; [left|by right]. rewrite Hlen length_app. cbn. lia.
  - destruct (last results) as [r|] eqn:El; [|done]. destruct (run_stops r) eqn:Es; [|done].
    intros [= <- _]. right. by exists r.
  - done.
Qed.

Lemma decoded_end output expected results :
  decodeSupervisorResults output expected = Ok results ->
  length results = expected \/ exists r, last results = Some r /\ run_stops r = true.
Proof.
  rewrite /decodeSupervisorResults. intros ([final rest] & Hloop & H)%bind_Ok_inv.
  assert (results = final) as -> by (repeat (case_match; try done); congruence). exact (decode_loop_end _ _ _ _ _ Hloop).
Qed.

(** A case that passed did not stop the supervisor. *)
Lemma passes_goes_on `{Float64} `{UnicodeTables} `{PrintTables} job tc done run : passes job tc done run -> run_stops run = false.
Proof. intros (_ & Ho & Ht & He & _). by rewrite /run_stops Ho Ht He. Qed.

(** Every case that is reached has one of the decoded results: when they are
    fewer than the cases, the last one did not end well, and no case after it is
    reached. *)
Lemma decoded_answered `{Float64} `{UnicodeTables} `{PrintTables} job output results runs :
  decodeSupervisorResults output (length (job_TestCases job)) = Ok results ->
  answered job (Some (map Some results)) false runs 0 (job_TestCases job).
Proof.
  intros Hend%decoded_end k tc Hk Hprev. cbn [Nat.add] in *.
  assert (k < length results)%nat as Hlt.
  { destruct Hend as [->|(r & Hr & Hs)]; [by apply lookup_lt_Some in Hk|].
    destruct (Nat.lt_ge_cases k (length results)) as [|Hge]; [done|exfalso].
    rewrite last_lookup in Hr. destruct (length results) as [|n] eqn:En; [by destruct results|]. cbn [Nat.pred] in Hr.
    destruct (job_TestCases job !! n) as [tc'|] eqn:Htc'.
    - destruct (Hprev n tc') as (run & Hrun & Hpass); [lia|done|]. apply passes_goes_on in Hpass.
      rewrite /case_answer /case_run list_lookup_fmap Hr in Hrun. injection Hrun as ->. congruence.
    - apply lookup_ge_None in Htc'. apply lookup_lt_Some in Hk. lia. }
  apply lookup_lt_is_Some in Hlt as [r Hr]. exists r. by rewrite /case_answer /case_run list_lookup_fmap Hr.
Qed.

(** C34: the two sides of the supervisor protocol agree.  When the docker
    command delivers what the supervisor wrote, [RunTestCases] returns, for a
    request within the limits, exactly the results of the cases that were run,
    in order, with the output texts as valid UTF-8; the output never exceeds
    the transport limit and the sandbox is not marked. *)
Theorem supervised_results `{PrintTables} runner run container inputs spec timeLimit world fs
    baseline results fs' w :
  let request := supervisor_request inputs spec timeLimit in
  let stdin := Marshal_request request in
  acceptable request ->
  wd_euid world = 0 -> snapshotWorkspace fs = Ok baseline ->
  supervise world request baseline 0 inputs fs = (results, Ok fs') ->
  Forall (fun r => sane r /\ fits r) results ->
  joined (su_stdout run stdin) = joined (fst (runSupervisor world stdin fs)) ->
  Forall (fun chunk => chunk <> "") (su_stdout run stdin) -> su_Err run = None -> su_Run run = None ->
  RunTestCases runner run container inputs spec timeLimit w =
    (Ok (Some (map (fun r => to_run (valid_result r)) results)),
     mkWorld (w_state w) (w_log w ++ [DockerRun (supervisor_args container)])).
Proof.
  intros request stdin Hok Heuid Hsnap Hsup Hall Hout Hchunks Herr Hrun.
  pose proof (ac_inputs _ Hok) as [Hne Hmax]. cbn in Hne, Hmax.
  assert (joined (su_stdout run stdin) = joined (map Encode_result results)) as Htext.
  { rewrite Hout /runSupervisor Heuid read_request_encoded // Hsnap. cbn [wrap_err].
    change (sq_Inputs request) with inputs. by rewrite Hsup. }
  assert (session (length inputs) results) as Hsession.
  { eapply supervise_session; [exact Hsup|]. by eapply Forall_impl; [exact Hall|intros r []]. }
  assert (len (joined (su_stdout run stdin)) <= transport_limit (length inputs)) as Hfit.
  { rewrite Htext transport_limit_value //. pose proof (joined_length _ Hall).
    pose proof (session_length _ _ Hsession). change DefaultOutputLimitBytes with 65536 in *. lia. }
  rewrite /RunTestCases bool_decide_false //.
  assert ((timeLimit <=? 0) || (Milliseconds timeLimit =? 0) = false) as ->.
  { pose proof (ac_time _ Hok) as Ht. cbn in Ht. rewrite /Milliseconds in Ht |- *.
    destruct (Z.leb_spec timeLimit 0) as [Hle|]; [|lia]. pose proof (Z.quot_le_mono timeLimit 0 1000000 ltac:(lia) Hle) as Hq.
    rewrite Z.quot_0_l // in Hq. lia. }
  destruct (ac_command _ Hok) as (name & args & Ec & Hname). cbn in Ec.
  rewrite bool_decide_false; [by rewrite Ec|]. cbn zeta. rewrite Herr Hrun.
  fold request. fold stdin.
  pose proof (transport_limit_value _ Hmax) as Hlimit.
  assert (0 <= transport_limit (length inputs)) as Hpos by (rewrite Hlimit; change DefaultOutputLimitBytes with 65536; lia).
  pose proof (copy_exceeded (B := cappedCommandBuffer) (su_stdout run stdin)
    (new_cappedCommandBuffer (transport_limit (length inputs))) Hchunks Hpos eq_refl) as Hexc.
  pose proof (copy_contents (B := cappedCommandBuffer) (su_stdout run stdin)
    (new_cappedCommandBuffer (transport_limit (length inputs))) Hpos) as Hcont.
  cbn [exceeded contents limit cappedCommandBuffer_reporting cappedCommandBuffer_capped new_cappedCommandBuffer
    cb_limit cb_Buffer] in Hexc, Hcont. rewrite append_empty_l slice_all // in Hcont.
  change (len "") with 0 in Hexc. rewrite Z.add_0_l in Hexc. rewrite (proj2 (Z.ltb_ge _ _) Hfit) in Hexc.
  destruct (length inputs) as [|n] eqn:En; [by destruct inputs|].
  cbn [mbind eff_bind lift]. rewrite /lift /emit /on_failure. cbn [w_state w_log].
  rewrite Hexc Hcont Htext decode_session //.
Qed.

(** The two cases of [sample_request], judged through the protocol. *)
Definition sample_output : list caseResult :=
  [mkCaseResult "a" "" 0 0 0 false false; mkCaseResult "b" "" 0 0 0 false false].

Definition sample_run : SupervisorRun :=
  mkSupervisorRun (fun _ => map Encode_result sample_output) (fun _ => []) None None None 0.

Lemma sample_acceptable : acceptable (supervisor_request ["a"; "b"] language_C 1000000000).
Proof.
  split.
  - by exists "/workspace/main", [].
  - split; [done|cbn; lia].
  - by vm_compute.
  - by vm_compute.
  - by repeat (constructor; [vm_compute; reflexivity|]).
  - by vm_compute.
Qed.

Lemma supervised_results_witness :
  exists answer w, @RunTestCases (fun _ _ _ => Ok None) sample_run "box" ["a"; "b"] language_C 1000000000
    (mkWorld (mkSandboxFlags false false) []) = (Ok (Some answer), w)
  /\ map rr_Stdout answer = ["a"; "b"].
Proof.
  assert (match snapshotWorkspace sample_files with
          | Ok baseline => let '(results, ended) := @supervise latin1_print sample_container
              (supervisor_request ["a"; "b"] language_C 1000000000) baseline 0 ["a"; "b"] sample_files in
              (results, is_ok ended)
          | Err _ => ([], false)
          end = (sample_output, true)) as Esup by (vm_compute; reflexivity).
  destruct (snapshotWorkspace sample_files) as [baseline|e] eqn:Es; [|discriminate Esup].
  destruct (@supervise latin1_print sample_container (supervisor_request ["a"; "b"] language_C 1000000000) baseline 0
    ["a"; "b"] sample_files) as [results [fs'|e]] eqn:E; [|discriminate Esup].
  injection Esup as ->.
  eexists _, _. split.
  - apply (@supervised_results latin1_print _ _ _ _ _ _ sample_container sample_files baseline sample_output fs').
    + exact sample_acceptable.
    + reflexivity.
    + exact Es.
    + exact E.
    + repeat (constructor; [by repeat split; vm_compute|]). constructor.
    + rewrite /runSupervisor. rewrite (read_request_encoded _ sample_acceptable) Es. cbn [wrap_err].
      change (sq_Inputs (supervisor_request ["a"; "b"] language_C 1000000000)) with ["a"; "b"]. rewrite E. reflexivity.
    + by repeat (constructor; [by vm_compute|]).
    + reflexivity.
    + reflexivity.
  - vm_compute. reflexivity.
Defined.
