(* ===== verification/GoScanner.v ===== *)
(** * The incremental scanner of the JSON package

    [Decoder.Decode] finds an error at the byte that no value can continue, and
    asks for more input otherwise: which of the two came first decides how a
    truncated request body is answered.  The states are those of
    [encoding/json]'s scanner.go. *)

From S2P Require Import Prelude GoStrings GoJson GoStruct.
From Stdlib Require Import Ascii.

Inductive Place := ObjectKey | ObjectValue | ArrayValue.

Inductive State :=
  | BeginValue
  | BeginValueOrEmpty
  | BeginString
  | BeginStringOrEmpty
  | EndValue
  | InString
  | InStringEsc
  | InStringEscU (digits : nat)
  | Neg | Num0 | Num1 | Dot | Dot0 | Exp | ExpSign | Exp0
  | Literal (rest : string).

(** The open brackets, innermost first. *)
Record Scanner := mkScanner { sc_state : State; sc_places : list Place }.

Definition start : Scanner := mkScanner BeginValue [].

(** [stateBeginValue]; more than [maxNestingDepth] open brackets are an error. *)
Definition begin_value (c : ascii) (places : list Place) : option Scanner :=
  let go state := Some (mkScanner state places) in
  let push state place :=
    if (length places <? maxNestingDepth)%nat then Some (mkScanner state (place :: places)) else None in
  if Ascii.eqb c "{" then push BeginStringOrEmpty ObjectKey
  else if Ascii.eqb c "[" then push BeginValueOrEmpty ArrayValue
  else if Ascii.eqb c dq then go InString
  else if Ascii.eqb c "-" then go Neg
  else if Ascii.eqb c "0" then go Num0
  else if json_digit c then go Num1
  else if Ascii.eqb c "t" then go (Literal "rue")
  else if Ascii.eqb c "f" then go (Literal "alse")
  else if Ascii.eqb c "n" then go (Literal "ull")
  else None.

(** [stateEndValue], inside brackets. *)
Definition end_value (c : ascii) (places : list Place) : option Scanner :=
  match places with
  | [] => Some (mkScanner EndValue [])
  | place :: outer =>
      if json_space c then Some (mkScanner EndValue places)
      else match place with
           | ObjectKey => if Ascii.eqb c ":" then Some (mkScanner BeginValue (ObjectValue :: outer)) else None
           | ObjectValue =>
               if Ascii.eqb c "," then Some (mkScanner BeginString (ObjectKey :: outer))
               else if Ascii.eqb c "}" then Some (mkScanner EndValue outer) else None
           | ArrayValue =>
               if Ascii.eqb c "," then Some (mkScanner BeginValue places)
               else if Ascii.eqb c "]" then Some (mkScanner EndValue outer) else None
           end
  end.

(** [stateBeginString]: a key. *)
Definition begin_string (c : ascii) (places : list Place) : option Scanner :=
  if Ascii.eqb c dq then Some (mkScanner InString places) else None.

Definition is_exp (c : ascii) : bool := Ascii.eqb c "e" || Ascii.eqb c "E".

Definition scan_step (s : Scanner) (c : ascii) : option Scanner :=
  let places := sc_places s in
  let go state := Some (mkScanner state places) in
  match sc_state s with
  | BeginValue => if json_space c then Some s else begin_value c places
  | BeginValueOrEmpty =>
      if json_space c then Some s
      else if Ascii.eqb c "]" then end_value c places else begin_value c places
  | BeginString => if json_space c then Some s else begin_string c places
  | BeginStringOrEmpty =>
      if json_space c then Some s
      else if Ascii.eqb c "}" then end_value c (ObjectValue :: tail places) else begin_string c places
  | EndValue => end_value c places
  | InString =>
      if Ascii.eqb c dq then go EndValue
      else if Ascii.eqb c bs then go InStringEsc
      else if (byte_of c <? 32)%Z then None else Some s
  | InStringEsc =>
      if existsb (Ascii.eqb c) ["b"; "f"; "n"; "r"; "t"; bs; "/"; dq]%char then go InString
      else if Ascii.eqb c "u" then go (InStringEscU 4) else None
  | InStringEscU digits => if json_hex c then go (match digits with S (S n) => InStringEscU (S n) | _ => InString end) else None
  | Neg => if Ascii.eqb c "0" then go Num0 else if json_digit c then go Num1 else None
  | Num1 =>
      if json_digit c then Some s
      else if Ascii.eqb c "." then go Dot else if is_exp c then go Exp else end_value c places
  | Num0 => if Ascii.eqb c "." then go Dot else if is_exp c then go Exp else end_value c places
  | Dot => if json_digit c then go Dot0 else None
  | Dot0 => if json_digit c then Some s else if is_exp c then go Exp else end_value c places
  | Exp =>
      if Ascii.eqb c "+" || Ascii.eqb c "-" then go ExpSign else if json_digit c then go Exp0 else None
  | ExpSign => if json_digit c then go Exp0 else None
  | Exp0 => if json_digit c then Some s else end_value c places
  | Literal rest =>
      match rest with
      | String d rest' =>
          if Ascii.eqb c d then go (if bool_decide (rest' = "") then EndValue else Literal rest') else None
      | EmptyString => None
      end
  end.

Fixpoint scan_bytes (s : Scanner) (text : string) : option Scanner :=
  match text with
  | EmptyString => Some s
  | String c text => s ← scan_step s c; scan_bytes s text
  end.

(** The text can still be continued to a value. *)
Definition unfinished (text : string) : bool := if scan_bytes start text is Some _ then true else false.

(** ** A decoder over a stream that may not end well *)

(** How the stream ends after its text. *)
Inductive StreamEnd := StreamEOF | StreamError (e : goerr).

(** A value that has a closing bracket is complete at once; any other one needs
    one more byte, or the end of the input. *)
Definition bracketed (raw : string) : bool :=
  match parse_json raw with Some (JArr _ _ | JObj _ _) => true | _ => false end.

Definition DecodeStream (text : string) (ending : StreamEnd) : Decoded :=
  match ending with
  | StreamEOF => Decode text
  | StreamError e =>
      match Decode text with
      | DecodedValue raw rest =>
          if bracketed raw || negb (bool_decide (rest = "")) then DecodedValue raw rest else DecodedError e
      | DecodedEOF => DecodedError e
      | DecodedError syntax => DecodedError (if unfinished text then e else syntax)
      end
  end.

Example sample_unfinished :
  map unfinished ["{"; "{" ; "[1, 2"; "[1 2"; "-"; "tru"; "trx"; ""; "  ["; "]"; "[1.5e+"; "[1.5e+x"] =
  [true; true; true; false; true; true; false; true; true; false; true; false].
Proof. vm_compute. reflexivity. Qed.
