(* ===== verification/JobJson.v ===== *)
(** * The JSON of a job: the tags of internal/judge/types.go

    How [encoding/json] decodes a request body, or the [job] column, into a
    [Job]: member by member over the zero value.  [strict] is
    [DisallowUnknownFields]. *)

From S2P Require Import Prelude GoStrings GoJson Contracts GoStruct.

(** A field of a struct: its tag, how its value decodes over the old one, and
    where it is kept. *)
Definition member {T A} (name : string) (decode : string -> A -> result A) (get : T -> A) (set : A -> T -> T)
    : field T :=
  (name, fun raw t => x ← decode raw (get t); Ok (set x t)).

Definition zero_OperationCall : OperationCall := mkOperationCall "" [].
Definition zero_TestCase : TestCase := mkTestCase 0 "" "" "" [] "" [] [].
Definition zero_FunctionParam : FunctionParam := mkFunctionParam "" "".
Definition zero_ObservationSpec : ObservationSpec := mkObservationSpec "" 0 "" false.
Definition zero_PostconditionSpec : PostconditionSpec := mkPostconditionSpec "" "" 0.
Definition zero_FunctionComparisonSpec : FunctionComparisonSpec := mkFunctionComparisonSpec "".
Definition zero_FunctionSpec : FunctionSpec := mkFunctionSpec "" "" [] [] [] None.
Definition zero_ClassOperationSpec : ClassOperationSpec := mkClassOperationSpec "" "" [].
Definition zero_ClassSpec : ClassSpec := mkClassSpec "" [] [].
Definition zero_Limits : Limits := mkLimits 0 0.
Definition zero_Job : Job := mkJob "" "" "" None None [] zero_Limits.

Section Decode.
Context (strict : bool).

Definition decode_struct {T} (fields : list (field T)) (raw : string) (t : T) : result T :=
  Unmarshal_struct fields strict raw t.

Definition decode_raws : string -> list RawMessage -> result (list RawMessage) := decode_slice decode_raw "".

Definition OperationCall_fields : list (field OperationCall) :=
  [member "name" decode_string oc_Name (fun x c => mkOperationCall x (oc_Args c));
   member "args" decode_raws oc_Args (fun x c => mkOperationCall (oc_Name c) x)].

Definition TestCase_fields : list (field TestCase) :=
  [member "id" decode_int tc_ID (fun x c => mkTestCase x (tc_Input c) (tc_ExpectedOutput c) (tc_ActualOutput c)
     (tc_Args c) (tc_Expected c) (tc_ConstructorArgs c) (tc_Operations c));
   member "input" decode_string tc_Input (fun x c => mkTestCase (tc_ID c) x (tc_ExpectedOutput c) (tc_ActualOutput c)
     (tc_Args c) (tc_Expected c) (tc_ConstructorArgs c) (tc_Operations c));
   member "expectedOutput" decode_string tc_ExpectedOutput (fun x c => mkTestCase (tc_ID c) (tc_Input c) x
     (tc_ActualOutput c) (tc_Args c) (tc_Expected c) (tc_ConstructorArgs c) (tc_Operations c));
   member "actualOutput" decode_string tc_ActualOutput (fun x c => mkTestCase (tc_ID c) (tc_Input c)
     (tc_ExpectedOutput c) x (tc_Args c) (tc_Expected c) (tc_ConstructorArgs c) (tc_Operations c));
   member "args" decode_raws tc_Args (fun x c => mkTestCase (tc_ID c) (tc_Input c) (tc_ExpectedOutput c)
     (tc_ActualOutput c) x (tc_Expected c) (tc_ConstructorArgs c) (tc_Operations c));
   member "expected" decode_raw tc_Expected (fun x c => mkTestCase (tc_ID c) (tc_Input c) (tc_ExpectedOutput c)
     (tc_ActualOutput c) (tc_Args c) x (tc_ConstructorArgs c) (tc_Operations c));
   member "constructorArgs" decode_raws tc_ConstructorArgs (fun x c => mkTestCase (tc_ID c) (tc_Input c)
     (tc_ExpectedOutput c) (tc_ActualOutput c) (tc_Args c) (tc_Expected c) x (tc_Operations c));
   member "operations" (decode_slice (decode_struct OperationCall_fields) zero_OperationCall) tc_Operations
     (fun x c => mkTestCase (tc_ID c) (tc_Input c) (tc_ExpectedOutput c) (tc_ActualOutput c) (tc_Args c)
       (tc_Expected c) (tc_ConstructorArgs c) x)].

Definition FunctionParam_fields : list (field FunctionParam) :=
  [member "name" decode_string fp_Name (fun x p => mkFunctionParam x (fp_Type p));
   member "type" decode_string fp_Type (fun x p => mkFunctionParam (fp_Name p) x)].

Definition decode_params : string -> list FunctionParam -> result (list FunctionParam) :=
  decode_slice (decode_struct FunctionParam_fields) zero_FunctionParam.

Definition ObservationSpec_fields : list (field ObservationSpec) :=
  [member "kind" decode_string ob_Kind (fun x o => mkObservationSpec x (ob_Parameter o) (ob_View o) (ob_LengthFromReturn o));
   member "parameter" decode_int ob_Parameter (fun x o => mkObservationSpec (ob_Kind o) x (ob_View o) (ob_LengthFromReturn o));
   member "view" decode_string ob_View (fun x o => mkObservationSpec (ob_Kind o) (ob_Parameter o) x (ob_LengthFromReturn o));
   member "lengthFromReturn" decode_bool ob_LengthFromReturn
     (fun x o => mkObservationSpec (ob_Kind o) (ob_Parameter o) (ob_View o) x)].

Definition PostconditionSpec_fields : list (field PostconditionSpec) :=
  [member "kind" decode_string pc_Kind (fun x p => mkPostconditionSpec x (pc_Subject p) (pc_FromParameter p));
   member "subject" decode_string pc_Subject (fun x p => mkPostconditionSpec (pc_Kind p) x (pc_FromParameter p));
   member "fromParameter" decode_int pc_FromParameter (fun x p => mkPostconditionSpec (pc_Kind p) (pc_Subject p) x)].

Definition FunctionComparisonSpec_fields : list (field FunctionComparisonSpec) :=
  [member "returnArrayOrder" decode_string fc_ReturnArrayOrder (fun x _ => mkFunctionComparisonSpec x)].

Definition FunctionSpec_fields : list (field FunctionSpec) :=
  [member "name" decode_string fn_Name (fun x f => mkFunctionSpec x (fn_ReturnType f) (fn_Params f)
     (fn_Observations f) (fn_Postconditions f) (fn_Comparison f));
   member "returnType" decode_string fn_ReturnType (fun x f => mkFunctionSpec (fn_Name f) x (fn_Params f)
     (fn_Observations f) (fn_Postconditions f) (fn_Comparison f));
   member "params" decode_params fn_Params (fun x f => mkFunctionSpec (fn_Name f) (fn_ReturnType f) x
     (fn_Observations f) (fn_Postconditions f) (fn_Comparison f));
   member "observations" (decode_slice (decode_struct ObservationSpec_fields) zero_ObservationSpec) fn_Observations
     (fun x f => mkFunctionSpec (fn_Name f) (fn_ReturnType f) (fn_Params f) x (fn_Postconditions f) (fn_Comparison f));
   member "postconditions" (decode_slice (decode_struct PostconditionSpec_fields) zero_PostconditionSpec)
     fn_Postconditions
     (fun x f => mkFunctionSpec (fn_Name f) (fn_ReturnType f) (fn_Params f) (fn_Observations f) x (fn_Comparison f));
   member "comparison" (decode_pointer (decode_struct FunctionComparisonSpec_fields) zero_FunctionComparisonSpec)
     fn_Comparison
     (fun x f => mkFunctionSpec (fn_Name f) (fn_ReturnType f) (fn_Params f) (fn_Observations f) (fn_Postconditions f) x)].

Definition ClassOperationSpec_fields : list (field ClassOperationSpec) :=
  [member "name" decode_string co_Name (fun x o => mkClassOperationSpec x (co_ReturnType o) (co_Params o));
   member "returnType" decode_string co_ReturnType (fun x o => mkClassOperationSpec (co_Name o) x (co_Params o));
   member "params" decode_params co_Params (fun x o => mkClassOperationSpec (co_Name o) (co_ReturnType o) x)].

(** [ClassConstructorSpec] has one field. *)
Definition ClassConstructorSpec_fields : list (field (list FunctionParam)) :=
  [member "params" decode_params (fun params => params) (fun x _ => x)].

Definition ClassSpec_fields : list (field ClassSpec) :=
  [member "name" decode_string cl_Name (fun x c => mkClassSpec x (cl_ConstructorParams c) (cl_Operations c));
   member "constructor" (decode_struct ClassConstructorSpec_fields) cl_ConstructorParams
     (fun x c => mkClassSpec (cl_Name c) x (cl_Operations c));
   member "operations" (decode_slice (decode_struct ClassOperationSpec_fields) zero_ClassOperationSpec) cl_Operations
     (fun x c => mkClassSpec (cl_Name c) (cl_ConstructorParams c) x)].

Definition Limits_fields : list (field Limits) :=
  [member "timeLimitMs" decode_int TimeLimitMs (fun x l => mkLimits x (MemoryLimitMb l));
   member "memoryLimitMb" decode_int MemoryLimitMb (fun x l => mkLimits (TimeLimitMs l) x)].

Definition Job_fields : list (field Job) :=
  [member "language" decode_string job_Language (fun x j => mkJob x (job_Mode j) (job_SourceCode j) (job_Function j)
     (job_Class j) (job_TestCases j) (job_Limits j));
   member "mode" decode_string job_Mode (fun x j => mkJob (job_Language j) x (job_SourceCode j) (job_Function j)
     (job_Class j) (job_TestCases j) (job_Limits j));
   member "sourceCode" decode_string job_SourceCode (fun x j => mkJob (job_Language j) (job_Mode j) x (job_Function j)
     (job_Class j) (job_TestCases j) (job_Limits j));
   member "function" (decode_pointer (decode_struct FunctionSpec_fields) zero_FunctionSpec) job_Function
     (fun x j => mkJob (job_Language j) (job_Mode j) (job_SourceCode j) x (job_Class j) (job_TestCases j) (job_Limits j));
   member "class" (decode_pointer (decode_struct ClassSpec_fields) zero_ClassSpec) job_Class
     (fun x j => mkJob (job_Language j) (job_Mode j) (job_SourceCode j) (job_Function j) x (job_TestCases j) (job_Limits j));
   member "testCases" (decode_slice (decode_struct TestCase_fields) zero_TestCase) job_TestCases
     (fun x j => mkJob (job_Language j) (job_Mode j) (job_SourceCode j) (job_Function j) (job_Class j) x (job_Limits j));
   member "limits" (decode_struct Limits_fields) job_Limits
     (fun x j => mkJob (job_Language j) (job_Mode j) (job_SourceCode j) (job_Function j) (job_Class j) (job_TestCases j) x)].

Definition Unmarshal_Job (raw : string) : result Job := decode_struct Job_fields raw zero_Job.
End Decode.
