(* ===== verification/Metrics.v ===== *)
(** * Counters and histograms: internal/observability/metrics.go

    Every operation holds its histogram's mutex, or is one atomic addition, so
    a run of the metrics is a sequence of operations.  Durations are int64
    nanoseconds; [SumMs] is the float64 of the sum kept here. *)

From S2P Require Import Prelude GoStrings Contracts Workspace.

Record Histogram := mkHistogram {
  h_count : Z;
  h_sum : Z;
  h_buckets : list Z;
  h_counts : list Z }.

Record HistogramSnapshot := mkHistogramSnapshot {
  hs_Count : Z;
  hs_Sum : Z;
  hs_Buckets : gmap string Z }.

Record Metrics := mkMetrics {
  m_workerBusy : Z;
  m_queueWait : Histogram;
  m_compile : Histogram;
  m_acquire : Histogram;
  m_staging : Histogram;
  m_testcase : Histogram;
  m_reset : Histogram;
  m_runtime : Histogram }.

Record Snapshot := mkSnapshot {
  sn_WorkerBusy : Z;
  sn_Timings : gmap string HistogramSnapshot }.

Definition ms : Z := 1000000.
Definition defaultBuckets : list Z :=
  [10 * ms; 50 * ms; 100 * ms; 250 * ms; 500 * ms; 1000 * ms; 5000 * ms; 10000 * ms]%Z.

Definition init : Histogram := mkHistogram 0 0 defaultBuckets (replicate (length defaultBuckets + 1) 0%Z).

Definition NewMetrics : Metrics := mkMetrics 0 init init init init init init init.

Definition int64_add (a b : Z) : Z := wrap64 (a + b).

(** The loop over the buckets: the first one that is not below the value. *)
Fixpoint bucket_index (value : Z) (buckets : list Z) : nat :=
  match buckets with
  | [] => 0
  | bucket :: buckets => if (value <=? bucket)%Z then 0 else S (bucket_index value buckets)
  end.

Definition Observe (value : Z) (h : Histogram) : Histogram :=
  mkHistogram (int64_add (h_count h) 1) (int64_add (h_sum h) value) (h_buckets h)
    (alter (fun n => int64_add n 1) (bucket_index value (h_buckets h)) (h_counts h)).

Definition WorkerStarted (m : Metrics) : Metrics :=
  mkMetrics (int64_add (m_workerBusy m) 1) (m_queueWait m) (m_compile m) (m_acquire m) (m_staging m) (m_testcase m)
    (m_reset m) (m_runtime m).
Definition WorkerFinished (m : Metrics) : Metrics :=
  mkMetrics (int64_add (m_workerBusy m) (-1)) (m_queueWait m) (m_compile m) (m_acquire m) (m_staging m) (m_testcase m)
    (m_reset m) (m_runtime m).

Definition ObserveQueueWait (value : Z) (m : Metrics) : Metrics :=
  mkMetrics (m_workerBusy m) (Observe value (m_queueWait m)) (m_compile m) (m_acquire m) (m_staging m) (m_testcase m) (m_reset m) (m_runtime m).
Definition ObserveCompile (value : Z) (m : Metrics) : Metrics :=
  mkMetrics (m_workerBusy m) (m_queueWait m) (Observe value (m_compile m)) (m_acquire m) (m_staging m) (m_testcase m) (m_reset m) (m_runtime m).
Definition ObserveAcquire (value : Z) (m : Metrics) : Metrics :=
  mkMetrics (m_workerBusy m) (m_queueWait m) (m_compile m) (Observe value (m_acquire m)) (m_staging m) (m_testcase m) (m_reset m) (m_runtime m).
Definition ObserveStaging (value : Z) (m : Metrics) : Metrics :=
  mkMetrics (m_workerBusy m) (m_queueWait m) (m_compile m) (m_acquire m) (Observe value (m_staging m)) (m_testcase m) (m_reset m) (m_runtime m).
Definition ObserveTestcase (value : Z) (m : Metrics) : Metrics :=
  mkMetrics (m_workerBusy m) (m_queueWait m) (m_compile m) (m_acquire m) (m_staging m) (Observe value (m_testcase m)) (m_reset m) (m_runtime m).
Definition ObserveReset (value : Z) (m : Metrics) : Metrics :=
  mkMetrics (m_workerBusy m) (m_queueWait m) (m_compile m) (m_acquire m) (m_staging m) (m_testcase m) (Observe value (m_reset m)) (m_runtime m).
Definition ObserveRuntime (value : Z) (m : Metrics) : Metrics :=
  mkMetrics (m_workerBusy m) (m_queueWait m) (m_compile m) (m_acquire m) (m_staging m) (m_testcase m) (m_reset m) (Observe value (m_runtime m)).

(** What an action of the judge records. *)
Definition recorded (m : Metrics) (action : Action) : Metrics :=
  match action with
  | ActWorkerStarted => WorkerStarted m
  | ActWorkerFinished => WorkerFinished m
  | ActObserve QueueWaitTiming value => ObserveQueueWait value m
  | ActObserve CompileTiming value => ObserveCompile value m
  | ActObserve AcquireTiming value => ObserveAcquire value m
  | ActObserve StagingTiming value => ObserveStaging value m
  | ActObserve TestcaseTiming value => ObserveTestcase value m
  | ActObserve RuntimeTiming value => ObserveRuntime value m
  | _ => m
  end.

(** ** [Duration.String] *)

(** The digits after the point of [v / 10^prec], without trailing zeros. *)
Fixpoint frac_digits (prec : nat) (v : Z) (tail : string) : string :=
  match prec with
  | O => if bool_decide (tail = "") then "" else "." +:+ tail
  | S prec =>
      let digit := (v mod 10)%Z in
      frac_digits prec (v / 10) (if (digit =? 0)%Z && bool_decide (tail = "") then "" else Itoa digit +:+ tail)
  end.

Definition fixed (prec : nat) (v : Z) : string := Itoa (v / 10 ^ Z.of_nat prec) +:+ frac_digits prec v "".

Definition duration_String (d : Z) : string :=
  let u := Z.abs d in
  let text :=
    if (u =? 0)%Z then "0s"
    else if (u <? 1000)%Z then Itoa u +:+ "ns"
    else if (u <? 1000000)%Z then fixed 3 u +:+ "µs"
    else if (u <? 1000000000)%Z then fixed 6 u +:+ "ms"
    else
      let minutes := (u / 60000000000)%Z in
      let seconds := fixed 9 (u mod 60000000000) +:+ "s" in
      if (minutes =? 0)%Z then seconds
      else let hours := (minutes / 60)%Z in
           if (hours =? 0)%Z then Itoa minutes +:+ "m" +:+ seconds
           else Itoa hours +:+ "h" +:+ Itoa (minutes mod 60) +:+ "m" +:+ seconds in
  if (d <? 0)%Z then "-" +:+ text else text.

Definition histogram_Snapshot (h : Histogram) : HistogramSnapshot :=
  mkHistogramSnapshot (h_count h) (h_sum h)
    (<["+Inf" := default 0%Z (last (h_counts h))]>
       (foldl (fun m b => <[b.1 := b.2]> m) ∅ (zip (map duration_String (h_buckets h)) (h_counts h)))).

Definition metrics_Snapshot (m : Metrics) : Snapshot :=
  mkSnapshot (m_workerBusy m)
    (list_to_map
       [("queueWait", histogram_Snapshot (m_queueWait m)); ("compile", histogram_Snapshot (m_compile m));
        ("sandboxAcquire", histogram_Snapshot (m_acquire m)); ("staging", histogram_Snapshot (m_staging m));
        ("testcase", histogram_Snapshot (m_testcase m)); ("sandboxReset", histogram_Snapshot (m_reset m));
        ("runtime", histogram_Snapshot (m_runtime m))]).

Example sample_snapshot :
  let h := Observe (75 * ms) (Observe (2000 * ms) (Observe (20000 * ms) init)) in
  hs_Count (histogram_Snapshot h) = 3%Z /\ hs_Sum (histogram_Snapshot h) = (22075 * ms)%Z /\
  (fun key => hs_Buckets (histogram_Snapshot h) !! key) <$>
    ["10ms"; "50ms"; "100ms"; "250ms"; "500ms"; "1s"; "5s"; "10s"; "+Inf"] =
  [Some 0; Some 0; Some 1; Some 0; Some 0; Some 0; Some 1; Some 0; Some 1]%Z.
Proof. split_and!; vm_compute; reflexivity. Qed.

(** ** The metrics of a run *)

Definition observed (values : list Z) : Histogram := foldl (fun h value => Observe value h) init values.

(** A value falls in the bucket whose bound it does not exceed and whose
    predecessors' bounds it does; the last bucket has no bound. *)
Lemma bucket_index_spec value buckets i :
  bucket_index value buckets = i <->
  (i <= length buckets)%nat /\ (forall bound, buckets !! i = Some bound -> (value <= bound)%Z) /\
  (forall j bound, (j < i)%nat -> buckets !! j = Some bound -> (bound < value)%Z).
Proof.
  revert i. induction buckets as [|b buckets IH]; intros i; cbn.
  { split; [intros <-; split_and!; [lia|done|lia]|intros (? & _); lia]. }
  destruct (Z.leb_spec value b) as [Hle|Hlt].
  - split.
    + intros <-. split_and!; [lia|by intros ? [= <-]|lia].
    + intros (_ & _ & Hb). destruct i as [|i]; [done|]. specialize (Hb 0%nat b ltac:(lia) eq_refl). lia.
  - destruct i as [|i].
    + split; [done|]. intros (_ & Hb & _). specialize (Hb b eq_refl). lia.
    + split.
      * intros [= E]. apply IH in E as (Hi & Hb & Hj). split_and!; [lia|done|].
        intros [|j] bound; [by intros _ [= <-]|]. intros. eapply (Hj j); [lia|done].
      * intros (Hi & Hb & Hj). f_equal. apply IH. split_and!; [lia|done|].
        intros j bound Hlt'. apply (Hj (S j)). lia.
Qed.

Lemma bucket_index_le value buckets : (bucket_index value buckets <= length buckets)%nat.
Proof. by apply (bucket_index_spec value buckets (bucket_index value buckets)). Qed.

Definition tally (i : nat) (values : list Z) : Z :=
  Z.of_nat (length (filter (fun value => bucket_index value defaultBuckets = i) values)).

Lemma int64_add_small a b : in_int64 (a + b) -> int64_add a b = (a + b)%Z.
Proof. apply wrap64_id. Qed.

Lemma observed_spec values :
  (Z.of_nat (length values) < 2 ^ 63)%Z ->
  h_buckets (observed values) = defaultBuckets /\ h_count (observed values) = Z.of_nat (length values) /\
  h_counts (observed values) = (fun i => tally i values) <$> seq 0 9.
Proof.
  rewrite /observed. induction values as [|v values IH] using rev_ind; [done|].
  rewrite length_app. cbn [length]. intros Hlen. destruct IH as (Hb & Hc & Hcs); [lia|].
  rewrite foldl_app. cbn [foldl]. set (h := foldl _ _ _) in *. rewrite /Observe Hb Hc Hcs. cbn [h_buckets h_count h_counts]. split_and!; [done|..].
  - rewrite int64_add_small; [rewrite /in_int64; lia|lia].
  - apply list_eq. intros i. rewrite list_lookup_fmap. destruct (decide (i < 9)%nat) as [Hi|Hi].
    + rewrite (lookup_seq_lt 0 9 i Hi). cbn [fmap option_fmap option_map Nat.add].
      assert (tally i (values ++ [v]) = tally i values + (if decide (bucket_index v defaultBuckets = i) then 1 else 0))%Z as ->.
      { rewrite /tally filter_app length_app filter_cons filter_nil. destruct (decide _); cbn [length]; lia. }
      assert (tally i values < 2 ^ 63 - 1)%Z.
      { rewrite /tally. pose proof (length_filter (fun value => bucket_index value defaultBuckets = i) values). lia. }
      destruct (decide (bucket_index v defaultBuckets = i)) as [E|Hne].
      * rewrite E list_lookup_alter_eq list_lookup_fmap (lookup_seq_lt 0 9 i Hi). cbn [fmap option_fmap option_map Nat.add].
        rewrite int64_add_small; [|done]. rewrite /in_int64. assert (0 <= tally i values)%Z by (rewrite /tally; lia). lia.
      * rewrite list_lookup_alter_ne // list_lookup_fmap (lookup_seq_lt 0 9 i Hi). cbn [fmap option_fmap option_map Nat.add].
        f_equal. lia.
    + rewrite lookup_seq_ge; [lia|]. apply lookup_ge_None. rewrite length_alter length_fmap length_seq. lia.
Qed.

Lemma snapshot_buckets (f : nat -> Z) i bound inf :
  defaultBuckets !! i = Some bound ->
  <["+Inf" := inf]> (foldl (fun (m : gmap string Z) b => <[b.1 := b.2]> m) ∅ (zip (map duration_String defaultBuckets) (f <$> seq 0 9)))
    !! duration_String bound = Some (f i).
Proof. intros Hi. do 8 (destruct i as [|i]; [injection Hi as <-; vm_compute; reflexivity|]). done. Qed.

(** What a snapshot shows of the values observed: their number, and for each
    bucket the number of values that fall in it. *)
Lemma histogram_shown values :
  (Z.of_nat (length values) < 2 ^ 63)%Z ->
  let shown := histogram_Snapshot (observed values) in
  hs_Count shown = Z.of_nat (length values) /\
  (forall i bound, defaultBuckets !! i = Some bound -> hs_Buckets shown !! duration_String bound = Some (tally i values)) /\
  hs_Buckets shown !! "+Inf" = Some (tally 8 values).
Proof.
  intros Hlen shown. destruct (observed_spec values Hlen) as (Hb & Hc & Hcs).
  split_and!; [done|..]; subst shown; rewrite /histogram_Snapshot; cbn [hs_Buckets]; rewrite Hb Hcs.
  - intros i bound Hi. by apply (snapshot_buckets (fun i => tally i values)).
  - by rewrite lookup_insert_eq.
Qed.
