(* ===== verification/Migrations.v ===== *)
(** * Schema migrations: db/embed.go

    [Apply] on a database that holds a schema of a type [S], on which a script
    acts in a way given by [exec], and the [schema_migrations] table.  The whole
    of it is one transaction, and the advisory lock is its first statement, so
    two processes run it one after the other; an error rolls it back. *)

From S2P Require Import Prelude GoStrings Paths Workspace.

Section Migrations.
Context {S : Type} (exec : string -> S -> result S).

(** The table does not exist before the first run. *)
Record database := mkDatabase { db_schema : S; db_migrations : option (gset string) }.

(** Whether each of the other statements succeeds.  A commit may also be lost:
    it takes place, and the caller gets an error. *)
Inductive Commit := Committed | RolledBack (e : goerr) | CommitLost (e : goerr).

Record Connection := mkConnection {
  cx_begin : result unit;
  cx_lock : result unit;
  cx_create : result unit;
  cx_check : string -> result unit;
  cx_record : string -> result unit;
  cx_commit : Commit }.

Definition migration_step (cx : Connection) (files : string -> result string) (_ : nat)
    (state : S * gset string) (migrationPath : string) : result (S * gset string) :=
  let version := Base migrationPath in
  let '(schema, applied) := state in
  contents ← wrap_err (fun e => Errorf "read migration %s: %w" [FStr version; FErr e]) (files migrationPath);
  fail_if bool_decide (TrimSpace contents = "") with Errorf "migration %s is empty" [FStr version];;
  wrap_err (fun e => Errorf "check migration %s: %w" [FStr version; FErr e]) (cx_check cx version);;
  if bool_decide (version ∈ applied) then Ok (schema, applied)
  else
    schema' ← wrap_err (fun e => Errorf "apply migration %s: %w" [FStr version; FErr e]) (exec contents schema);
    wrap_err (fun e => Errorf "record migration %s: %w" [FStr version; FErr e]) (cx_record cx version);;
    Ok (schema', {[version]} ∪ applied).

(** The transaction up to its commit. *)
Definition transaction (cx : Connection) (migrations : list string) (files : string -> result string)
    (db : database) : result database :=
  wrap_err (fun e => Errorf "begin schema migrations: %w" [FErr e]) (cx_begin cx);;
  wrap_err (fun e => Errorf "lock schema migrations: %w" [FErr e]) (cx_lock cx);;
  wrap_err (fun e => Errorf "create schema migrations table: %w" [FErr e]) (cx_create cx);;
  '(schema, applied) ← foldM (migration_step cx files) (db_schema db, default ∅ (db_migrations db)) migrations;
  Ok (mkDatabase schema (Some applied)).

(** [listed] is what [fs.Glob] finds among the embedded files.  The result comes
    with the state of the database, which is untouched until the commit. *)
Definition Apply (cx : Connection) (listed : result (list string)) (files : string -> result string)
    (database : option database) : result unit * option Migrations.database :=
  match database with
  | None => (Err (Errorf "database is nil" []), None)
  | Some db =>
      match wrap_err (fun e => Errorf "list migrations: %w" [FErr e]) listed with
      | Err e => (Err e, Some db)
      | Ok names =>
          match transaction cx (sort_Strings names) files db with
          | Err e => (Err e, Some db)
          | Ok db' =>
              match cx_commit cx with
              | Committed => (Ok tt, Some db')
              | RolledBack e => (Err (Errorf "commit schema migrations: %w" [FErr e]), Some db)
              | CommitLost e => (Err (Errorf "commit schema migrations: %w" [FErr e]), Some db')
              end
          end
      end
  end.

(** ** What is applied *)

(** The scripts of the migrations that are not [applied], one after the other. *)
Fixpoint upgrade (files : string -> result string) (applied : gset string) (migrations : list string) (schema : S)
    : result S :=
  match migrations with
  | [] => Ok schema
  | m :: migrations =>
      if bool_decide (Base m ∈ applied) then upgrade files applied migrations schema
      else contents ← files m; schema' ← exec contents schema; upgrade files applied migrations schema'
  end.

Definition versions (migrations : list string) : gset string := list_to_set (map Base migrations).

Definition readable (files : string -> result string) (m : string) : Prop :=
  exists contents, files m = Ok contents /\ TrimSpace contents <> "".

Definition applied_to (db : database) : gset string := default ∅ (db_migrations db).

Record upgraded (files : string -> result string) (names : list string) (db db' : database) : Prop := {
  ug_schema : upgrade files (applied_to db) (sort_Strings names) (db_schema db) = Ok (db_schema db');
  ug_versions : db_migrations db' = Some (versions names ∪ applied_to db);
  ug_readable : Forall (readable files) names }.

Record answering (cx : Connection) : Prop := {
  an_begin : cx_begin cx = Ok tt;
  an_lock : cx_lock cx = Ok tt;
  an_create : cx_create cx = Ok tt;
  an_check : forall version, cx_check cx version = Ok tt;
  an_record : forall version, cx_record cx version = Ok tt;
  an_commit : cx_commit cx = Committed }.

(** Versions that are not among the migrations do not matter. *)
Lemma upgrade_irrelevant files version applied migrations schema :
  version ∉ map Base migrations ->
  upgrade files ({[version]} ∪ applied) migrations schema = upgrade files applied migrations schema.
Proof.
  revert schema. induction migrations as [|m migrations IH]; intros schema; [done|].
  rewrite map_cons not_elem_of_cons. intros [Hne Hnot]. cbn [upgrade].
  rewrite (bool_decide_ext (Base m ∈ {[version]} ∪ applied) (Base m ∈ applied)); [set_solver|].
  rewrite IH //. destruct (bool_decide _); [done|]. destruct (files m) as [c|]; [|done]. cbn.
  destruct (exec c schema); [|done]. by rewrite /= IH.
Qed.

Lemma migration_steps cx files migrations i schema applied schema' applied' :
  NoDup (map Base migrations) ->
  foldM_from i (migration_step cx files) (schema, applied) migrations = Ok (schema', applied') ->
  upgrade files applied migrations schema = Ok schema' /\ applied' = versions migrations ∪ applied /\
  Forall (readable files) migrations.
Proof.
  revert i schema applied. induction migrations as [|m migrations IH]; intros i schema applied Hnd; cbn [foldM_from].
  { intros [= <- <-]. split_and!; [done| |done]. by rewrite /versions /= (left_id_L ∅ _). }
  rewrite map_cons in Hnd. apply NoDup_cons in Hnd as [Hnot Hnd].
  intros ([schema1 applied1] & Hstep & H)%bind_Ok_inv. apply IH in H as (Hup & -> & Hr); [|done].
  rewrite /migration_step in Hstep. ok_inv. bool_prop.
  assert (readable files m) as Hm by (by exists a). cbn [upgrade]. rewrite /versions map_cons list_to_set_cons.
  destruct (bool_decide (Base m ∈ applied)) eqn:Hin; ok_inv; bool_prop.
  - split_and!; [done| |by constructor]. rewrite /versions. set_solver.
  - rewrite upgrade_irrelevant // in Hup.
    split_and!; [by rewrite E1 /= E3|rewrite /versions; set_solver|by constructor].
Qed.

Lemma versions_sorted names : versions (sort_Strings names) = versions names.
Proof. rewrite /versions. apply list_to_set_perm_L. by rewrite (sort_Strings_perm names). Qed.

Lemma sorted_NoDup names : NoDup (map Base names) -> NoDup (map Base (sort_Strings names)).
Proof. by rewrite (sort_Strings_perm names). Qed.

Lemma transaction_upgrades cx names files db db' :
  NoDup (map Base names) -> transaction cx (sort_Strings names) files db = Ok db' -> upgraded files names db db'.
Proof.
  intros Hnd H. rewrite /transaction in H. ok_inv. destruct a2 as [schema applied]. ok_inv.
  apply migration_steps in E2 as (Hup & -> & Hr); [|by apply sorted_NoDup].
  split; cbn; [done|by rewrite versions_sorted|]. by rewrite -(sort_Strings_perm names).
Qed.

(** A database that has every version is left as it is. *)
Lemma migration_steps_idle cx files migrations i schema applied :
  answering cx -> Forall (readable files) migrations -> (forall m, m ∈ migrations -> Base m ∈ applied) ->
  foldM_from i (migration_step cx files) (schema, applied) migrations = Ok (schema, applied).
Proof.
  intros Hcx Hall. revert i. induction Hall as [|m migrations (contents & Hm & Hne) Hall IH]; intros i Hin; [done|].
  cbn [foldM_from]. assert (migration_step cx files i (schema, applied) m = Ok (schema, applied)) as ->.
  { rewrite /migration_step Hm bind_Ok bool_decide_eq_false_2 // (an_check _ Hcx) /=.
    rewrite bool_decide_eq_true_2 //. apply Hin. by left. }
  apply IH. intros m' Hm'. apply Hin. by right.
Qed.

Lemma upgraded_idle cx names files db db' :
  answering cx -> upgraded files names db db' -> Apply cx (Ok names) files (Some db') = (Ok tt, Some db').
Proof.
  intros Hcx [_ Hv Hr]. destruct db' as [schema applied]. cbn in Hv. subst applied.
  rewrite /Apply /transaction (an_begin _ Hcx) (an_lock _ Hcx) (an_create _ Hcx) /=.
  rewrite /foldM migration_steps_idle //; [by rewrite (sort_Strings_perm names)| |by rewrite /= (an_commit _ Hcx)].
  intros m. rewrite (sort_Strings_perm names) /versions => Hm. apply elem_of_union_l, elem_of_list_to_set.
  by apply list_elem_of_fmap_2.
Qed.

(** C39: the migrations are applied all or not at all: whatever fails, the database
    is what it was, unless only the answer to the commit was lost.  Otherwise
    the scripts of the missing versions ran once each, in the order of their
    names, and every later run, of this process or of another, changes
    nothing. *)
Theorem migrations_apply_once cx names files db outcome db' :
  NoDup (map Base names) -> Apply cx (Ok names) files (Some db) = (outcome, db') ->
  (is_ok outcome = false /\ db' = Some db) \/
  (exists after, db' = Some after /\ upgraded files names db after /\
    (outcome = Ok tt \/ exists e, cx_commit cx = CommitLost e) /\
    forall cx', answering cx' -> Apply cx' (Ok names) files (Some after) = (Ok tt, Some after)).
Proof.
  intros Hnd. rewrite /Apply. cbn [wrap_err]. destruct (transaction _ _ _ _) as [after|e] eqn:Ht.
  2:{ intros [= <- <-]. by left. }
  apply transaction_upgrades in Ht; [|done].
  assert (forall cx', answering cx' -> Apply cx' (Ok names) files (Some after) = (Ok tt, Some after)) as Hidle
    by by intros; eapply upgraded_idle.
  destruct (cx_commit cx) as [|e|e]; intros [= <- <-]; [right|by left|right]; exists after; split_and!; eauto.
Qed.
End Migrations.

(** ** The migrations of the repository, on a schema that is the list of its scripts *)

Definition connected : Connection :=
  mkConnection (Ok tt) (Ok tt) (Ok tt) (fun _ => Ok tt) (fun _ => Ok tt) Committed.

Definition sample_names : list string := ["migrations/002_queue_leases.sql"; "migrations/001_submissions.sql"].

Definition sample_exec (script : string) (schema : list string) : result (list string) := Ok (schema ++ [script]).

Example fresh_database :
  Apply sample_exec connected (Ok sample_names) Ok (Some (mkDatabase [] None)) =
  (Ok tt, Some (mkDatabase ["migrations/001_submissions.sql"; "migrations/002_queue_leases.sql"]
                  (Some {["001_submissions.sql"; "002_queue_leases.sql"]}))).
Proof. vm_compute. reflexivity. Qed.

(** The deployment that has the first migration gets the second one only. *)
Definition deployed : database := mkDatabase ["migrations/001_submissions.sql"] (Some {["001_submissions.sql"]}).

Definition deployed_outcome := Apply sample_exec connected (Ok sample_names) Ok (Some deployed).

Example deployed_upgraded :
  deployed_outcome.1 = Ok tt /\
  option_map db_schema deployed_outcome.2 = Some ["migrations/001_submissions.sql"; "migrations/002_queue_leases.sql"].
Proof. vm_compute. split; reflexivity. Qed.

Lemma migrations_apply_once_witness :
  NoDup (map Base sample_names) /\
  ((is_ok deployed_outcome.1 = false /\ deployed_outcome.2 = Some deployed) \/
   (exists after, deployed_outcome.2 = Some after /\ upgraded sample_exec Ok sample_names deployed after /\
     (deployed_outcome.1 = Ok tt \/ exists e, cx_commit connected = CommitLost e) /\
     forall cx', answering cx' -> Apply sample_exec cx' (Ok sample_names) Ok (Some after) = (Ok tt, Some after))).
Proof.
  assert (NoDup (map Base sample_names)) as Hnd by (apply (bool_decide_unpack _); vm_compute; done).
  split; [exact Hnd|].
  exact (migrations_apply_once sample_exec connected sample_names Ok deployed _ _ Hnd
    (surjective_pairing (Apply sample_exec connected (Ok sample_names) Ok (Some deployed)))).
Defined.
