(* ===== verification/Http.v ===== *)
(** * The HTTP server: cmd/server

    A handler is a sequence of calls on the [ResponseWriter], on the validation
    slots and on the database; the calls are its log, from which the response
    is read off.  The value given to [json.NewEncoder(w).Encode] is kept as the
    [Payload] it is. *)

From S2P Require Import Prelude GoStrings GoJson Contracts Queries Store GoStruct GoScanner JobJson.
From S2P Require Import Adapters Harness CppHarness CppClass PyHarness Languages Validate Effects Buffers Pool Metrics.
From Stdlib Require Import Ascii.

(** ** Requests and responses *)

(** [rq_RequestID] is the X-Request-ID header, empty when there is none;
    [rq_Ending] is how reading the body ends. *)
Record Request := mkRequest {
  rq_Method : string;
  rq_Path : string;
  rq_RequestID : string;
  rq_Body : string;
  rq_Ending : StreamEnd }.

Record Diagnostics := mkDiagnostics {
  dg_Timestamp : Z;
  dg_Submissions : Z * Z * Z;
  dg_CompileSlots : Z;
  dg_WorkersBusy : Z;
  dg_WorkersTotal : Z;
  dg_Sandboxes : PoolStats;
  dg_Timings : gmap string HistogramSnapshot }.

Inductive Payload :=
  | APIError (code message requestID : string)
  | SubmissionAcceptedResponse (submissionID : string) (status : SubmissionStatus)
  | SubmissionResponse (id : string) (status : SubmissionStatus) (result : option Result)
  | HealthResponse (status : string)
  | ReadinessResponse (status : string) (checks : gmap string string)
  | DiagnosticsResponse (diagnostics : Diagnostics)
  | NotFoundText.

Inductive Call :=
  | SlotTaken
  | SlotFreed
  | SetHeader (key value : string)
  | WriteHeader (status : Z)
  | Encode (payload : Payload).

(** [w.Header().Get(key)]. *)
Definition header_of (log : list Call) (key : string) : string :=
  foldl (fun old call => match call with
    | SetHeader key' value => if bool_decide (key' = key) then value else old
    | _ => old
    end) "" log.

(** The status sent is the first one written, or 200 with the first body. *)
Fixpoint status_of (log : list Call) : option Z :=
  match log with
  | [] => None
  | WriteHeader status :: _ => Some status
  | Encode _ :: _ => Some 200%Z
  | _ :: log => status_of log
  end.

Definition payloads (log : list Call) : list Payload :=
  omap (fun call => match call with Encode payload => Some payload | _ => None end) log.

Definition StatusOK : Z := 200.
Definition StatusAccepted : Z := 202.
Definition StatusBadRequest : Z := 400.
Definition StatusNotFound : Z := 404.
Definition StatusMethodNotAllowed : Z := 405.
Definition StatusRequestEntityTooLarge : Z := 413.
Definition StatusInternalServerError : Z := 500.
Definition StatusServiceUnavailable : Z := 503.
Definition MethodGet : string := "GET".
Definition MethodPost : string := "POST".

(** ** http.go *)

Definition maxRequestBodyBytes : Z := Z.shiftl 1 20.

Definition request_id_rune (char : rune) : bool :=
  (97 <=? char)%Z && (char <=? 122)%Z || (65 <=? char)%Z && (char <=? 90)%Z || (48 <=? char)%Z && (char <=? 57)%Z ||
  existsb (Z.eqb char) [45; 95; 46]%Z.

Definition validRequestID (value : string) : bool :=
  if bool_decide (value = "") || (128 <? Z.of_nat (String.length value))%Z then false
  else forallb request_id_rune (runes value).

(** [fmt.Sprintf("%x", n)] of a clock after 1970. *)
Fixpoint trim_zeros (s : string) : string :=
  match s with
  | String c s' => if Ascii.eqb c "0" && negb (bool_decide (s' = "")) then trim_zeros s' else s
  | EmptyString => ""
  end.
Definition hexadecimal (n : Z) : string := trim_zeros (hex_digits 16 n).

(** [http.MaxBytesReader]: a body over the limit is cut there, and ends in its
    error. *)
Definition MaxBytesError : goerr := LibErr "http: request body too large".

Definition max_bytes (limit : Z) (body : string) (ending : StreamEnd) : string * StreamEnd :=
  if (limit <? Z.of_nat (String.length body))%Z then (slice limit body, StreamError MaxBytesError) else (body, ending).

Definition is_MaxBytesError (err : option goerr) : bool :=
  match err with Some (LibErr what) => bool_decide (what = "http: request body too large") | _ => false end.

Section Handlers.
Context `{Float64} `{UnicodeTables} `{PrintTables} `{ColumnCodec}.

Abbreviation handler := (eff table Call).

Definition get_header (key : string) : handler string := fun w => (Ok (header_of (w_log w) key), w).

Definition writeAPIError (status : Z) (code message : string) : handler unit :=
  emit (SetHeader "Content-Type" "application/json");;
  emit (WriteHeader status);;
  requestID ← get_header "X-Request-ID";
  emit (Encode (APIError code message requestID)).

Definition writeJSONDecodeError (err : option goerr) : handler unit :=
  if is_MaxBytesError err
  then writeAPIError StatusRequestEntityTooLarge "request_too_large" "request body is too large"
  else writeAPIError StatusBadRequest "invalid_request" "invalid request payload".

(** [requestIDMiddleware] around [next]. *)
Definition requestIDMiddleware (nanos : Z) (next : Request -> handler unit) (r : Request) : handler unit :=
  let requestID := if validRequestID (rq_RequestID r) then rq_RequestID r else hexadecimal nanos in
  emit (SetHeader "X-Request-ID" requestID);;
  next r.

(** The error of decoding one value and nothing after it; [Some None] is the
    nil error of a second value that decodes. *)
Definition decode_body {T} (fields : list (field T)) (zero : T) (r : Request) : option goerr + T :=
  let '(text, ending) := max_bytes maxRequestBodyBytes (rq_Body r) (rq_Ending r) in
  match DecodeStream text ending with
  | DecodedEOF => inl (Some (LibErr "EOF"))
  | DecodedError e => inl (Some e)
  | DecodedValue raw rest =>
      match Unmarshal_struct fields true raw zero with
      | Err e => inl (Some e)
      | Ok destination =>
          match DecodeStream rest ending with
          | DecodedEOF => inr destination
          | DecodedError e => inl (Some e)
          | DecodedValue _ _ => inl None
          end
      end
  end.

Definition decodeJSONBody {T} (fields : list (field T)) (zero : T) (r : Request) : handler (option T) :=
  match decode_body fields zero r with
  | inl err => writeJSONDecodeError err;; mret None
  | inr destination => mret (Some destination)
  end.

Definition decodeJudgeJob (r : Request) : handler (option Job) := decodeJSONBody (Job_fields true) zero_Job r.

(** ** http_limits.go *)

Definition maxConcurrentValidations : nat := 16.
Definition submitResponseOverhead : Z := 15 * second.

(** The write timeout of the server, on 64 bits. *)
Definition newHTTPServer_writeTimeout (submitTimeout : Z) : Z :=
  let writeTimeout := wrap64 (submitTimeout + submitResponseOverhead) in
  if (writeTimeout <? 20 * second)%Z then (20 * second)%Z else writeTimeout.

(** [busy] slots are taken when the request comes. *)
Definition acquireValidationSlot (busy : nat) : handler bool :=
  if (busy <? maxConcurrentValidations)%nat then emit SlotTaken;; mret true
  else
    emit (SetHeader "Retry-After" "1");;
    writeAPIError StatusServiceUnavailable "validation_busy" "submission validation is busy; retry later";;
    mret false.

Definition releaseValidationSlot : handler unit := emit SlotFreed.

Definition decodeAndValidateJudgeJob (busy : nat) (r : Request) : handler (option Job) :=
  acquired ← acquireValidationSlot busy;
  if negb acquired then mret None
  else
    defer releaseValidationSlot
      (decoded ← decodeJudgeJob r;
       match decoded with
       | None => mret None
       | Some job =>
           match ValidateJob job with
           | Err e => writeAPIError StatusBadRequest "validation_error" (Error e);; mret None
           | Ok _ => mret (Some job)
           end
       end).

Definition is_ErrQueueFull (e : goerr) : bool :=
  match e with Errorf format [] => bool_decide (format = "submission queue is full") | _ => false end.

Definition writeSubmissionAdmissionError (e : goerr) : handler unit :=
  if is_ErrQueueFull e then
    emit (SetHeader "Retry-After" "5");;
    writeAPIError StatusServiceUnavailable "queue_full" "submission queue is full; retry later"
  else writeAPIError StatusInternalServerError "internal_error" "internal error".

(** ** main.go: creating a submission

    What the handlers ask of the store and the queue: [st_SaveAdmitted] is the
    [AdmittingSubmissionStore] interface, which a store may lack. *)
Record Persistence := mkPersistence {
  st_SaveAdmitted : option (Submission -> table -> result unit * table);
  st_Save : Submission -> table -> result unit * table;
  st_Update : Submission -> table -> result unit * table;
  st_Get : string -> table -> result (option Submission);
  st_Ready : option (result unit);
  st_Counts : option (table -> result (Z * Z * Z));
  qu_Enqueue : string -> result unit }.

Definition on_table (op : table -> result unit * table) : handler unit := fun w =>
  let '(r, t) := op (w_state w) in (r, mkWorld t (w_log w)).

Definition getSubmission (ps : Persistence) (id : string) : handler (result (option Submission)) := fun w =>
  (Ok (st_Get ps id (w_state w)), w).

Definition createAndQueueSubmission (ps : Persistence) (nanos : Z) (job : Job) : handler Submission :=
  let submission := mkSubmission None (Itoa nanos) job SubmissionQueued None None 0 None "" in
  match st_SaveAdmitted ps with
  | Some save =>
      on_table (save submission);;
      mret submission
  | None =>
      on_table (st_Save ps submission);;
      match qu_Enqueue ps (sub_ID submission) with
      | Ok _ => mret submission
      | Err e =>
          updated ← attempt (on_table (st_Update ps
            (mkSubmission None (Itoa nanos) job SubmissionFailed None None 0 None "")));
          match updated with
          | Err updateErr => lift (Err (Errorf "enqueue failed: %v; failed to update submission: %w" [FErr e; FErr updateErr]))
          | Ok _ => lift (Err e)
          end
      end
  end.

(** What the world answers to one request: the clocks, the slots taken, the
    store, the tables that [waitForSubmission] sees at its polls, and the
    state of the process. *)
Inductive Wake := WakeContext | WakeDeadline (latest : result (option Submission)) | WakeTick.

Record SubmitPoll := mkSubmitPoll {
  sp_contextDone : bool;
  sp_answer : result (option Submission);
  sp_wake : Wake }.

Record Exchange := mkExchange {
  ex_requestNanos : Z;
  ex_busySlots : nat;
  ex_submissionNanos : Z;
  ex_persistence : Persistence;
  ex_polls : string -> list SubmitPoll;
  ex_draining : bool;
  ex_pool : option Pool;
  ex_metrics : option Metrics;
  ex_workers : Z;
  ex_compileSlots : Z;
  ex_now : Z }.

Definition method_not_allowed : handler unit :=
  writeAPIError StatusMethodNotAllowed "method_not_allowed" "method not allowed".

Definition createSubmissionHandler (ex : Exchange) (r : Request) : handler unit :=
  if negb (bool_decide (rq_Method r = MethodPost)) then method_not_allowed
  else
    decoded ← decodeAndValidateJudgeJob (ex_busySlots ex) r;
    match decoded with
    | None => mret tt
    | Some job =>
        created ← attempt (createAndQueueSubmission (ex_persistence ex) (ex_submissionNanos ex) job);
        match created with
        | Err e => writeSubmissionAdmissionError e
        | Ok submission =>
            emit (SetHeader "Content-Type" "application/json");;
            emit (SetHeader "Location" ("/submissions/" +:+ sub_ID submission));;
            emit (WriteHeader StatusAccepted);;
            emit (Encode (SubmissionAcceptedResponse (sub_ID submission) (sub_Status submission)))
        end
    end.

Definition submissionsCollectionHandler (ex : Exchange) (r : Request) : handler unit :=
  if bool_decide (rq_Method r = MethodPost) then createSubmissionHandler ex r else method_not_allowed.

(** ** submissions.go *)

Definition submissionHandler (ex : Exchange) (r : Request) : handler unit :=
  if negb (bool_decide (rq_Method r = MethodGet)) then method_not_allowed
  else
    let id := TrimPrefix (rq_Path r) "/submissions/" in
    if bool_decide (id = "") || bool_decide (id = rq_Path r)
    then writeAPIError StatusBadRequest "invalid_submission_id" "submission id is required"
    else
      found ← getSubmission (ex_persistence ex) id;
      match found with
      | Err _ =>
          writeAPIError StatusServiceUnavailable "persistence_unavailable" "submission storage is temporarily unavailable"
      | Ok None => writeAPIError StatusNotFound "not_found" "submission not found"
      | Ok (Some submission) =>
          emit (SetHeader "Content-Type" "application/json");;
          emit (Encode (SubmissionResponse (sub_ID submission) (sub_Status submission) (sub_Result submission)))
      end.

(** ** submit.go *)

Definition writeJSON (status : Z) (value : Payload) : handler unit :=
  emit (SetHeader "Content-Type" "application/json");;
  emit (WriteHeader status);;
  emit (Encode value).

Definition is_settled (submission : Submission) : bool :=
  bool_decide (sub_Status submission = SubmissionFinished) || bool_decide (sub_Status submission = SubmissionFailed).

(** [None] for the submission is the zero value; the whole is [None] when the
    polls run out while it waits. *)
Fixpoint waitForSubmission (polls : list SubmitPoll) : option (option Submission * bool) :=
  match polls with
  | [] => None
  | p :: polls =>
      if sp_contextDone p then Some (None, false)
      else match sp_answer p with
           | Err _ => Some (None, false)
           | Ok found =>
               if match found with Some submission => is_settled submission | None => false end then Some (found, true)
               else match sp_wake p with
                    | WakeContext => Some (found, false)
                    | WakeDeadline (Ok (Some latest)) => Some (Some latest, false)
                    | WakeDeadline _ => Some (found, false)
                    | WakeTick => waitForSubmission polls
                    end
           end
  end.

(** The handler answers once the wait is over. *)
Definition submitHandler (ex : Exchange) (r : Request) : handler unit :=
  if negb (bool_decide (rq_Method r = MethodPost)) then method_not_allowed
  else
    decoded ← decodeAndValidateJudgeJob (ex_busySlots ex) r;
    match decoded with
    | None => mret tt
    | Some job =>
        created ← attempt (createAndQueueSubmission (ex_persistence ex) (ex_submissionNanos ex) job);
        match created with
        | Err e => writeSubmissionAdmissionError e
        | Ok submission =>
            emit (SetHeader "Location" ("/submissions/" +:+ sub_ID submission));;
            match waitForSubmission (ex_polls ex (sub_ID submission)) with
            | None => mret tt
            | Some (found, completed) =>
                let result := default submission found in
                if negb completed
                then writeJSON StatusAccepted (SubmissionAcceptedResponse (sub_ID submission) (sub_Status result))
                else writeJSON StatusOK (SubmissionResponse (sub_ID result) (sub_Status result) (sub_Result result))
            end
        end
    end.

(** ** health.go and diagnostics.go *)

Definition healthHandler : handler unit :=
  emit (SetHeader "Content-Type" "application/json");;
  emit (Encode (HealthResponse "ok")).

Definition readiness (ex : Exchange) : gmap string string * bool :=
  let ready := true in
  let checks : gmap string string := ∅ in
  let '(checks, ready) :=
    if ex_draining ex then (<["server" := "draining"]> checks, false) else (<["server" := "ready"]> checks, ready) in
  let '(checks, ready) :=
    match st_Ready (ex_persistence ex) with
    | Some (Err _) => (<["postgres" := "unavailable"]> checks, false)
    | Some (Ok _) => (<["postgres" := "ready"]> checks, ready)
    | None => (<["postgres" := "unconfigured"]> checks, false)
    end in
  if match ex_pool ex with None => true | Some pool => negb (Ready pool) end
  then (<["runtime" := "unavailable"]> checks, false)
  else (<["runtime" := "ready"]> checks, ready).

Definition readinessHandler (ex : Exchange) : handler unit :=
  let '(checks, ready) := readiness ex in
  emit (SetHeader "Content-Type" "application/json");;
  emit (WriteHeader (if ready then StatusOK else StatusServiceUnavailable));;
  emit (Encode (ReadinessResponse (if ready then "ready" else "not_ready") checks)).

Definition diagnostics_unavailable : handler unit :=
  writeAPIError StatusServiceUnavailable "diagnostics_unavailable" "submission statistics are unavailable".

Definition diagnosticsHandler (ex : Exchange) (r : Request) : handler unit :=
  if negb (bool_decide (rq_Method r = MethodGet)) then method_not_allowed
  else
    match st_Counts (ex_persistence ex) with
    | None => diagnostics_unavailable
    | Some counts =>
        answer ← (fun w => (Ok (counts (w_state w)), w)) : handler (result (Z * Z * Z));
        match answer with
        | Err _ => diagnostics_unavailable
        | Ok submissions =>
            let snapshot := metrics_Snapshot (default NewMetrics (ex_metrics ex)) in
            let poolStats := match ex_pool ex with Some pool => Stats pool | None => mkPoolStats 0 0 0 0 end in
            emit (SetHeader "Content-Type" "application/json");;
            emit (Encode (DiagnosticsResponse (mkDiagnostics (ex_now ex) submissions (ex_compileSlots ex)
              (sn_WorkerBusy snapshot) (ex_workers ex) poolStats (sn_Timings snapshot))))
        end
    end.

(** ** main: the routes

    A path without an exact route goes to the longest route ending in a slash
    that is a prefix of it; [ServeMux] redirects paths that are not clean before
    it routes them. *)
Definition notFound : handler unit :=
  emit (SetHeader "Content-Type" "text/plain; charset=utf-8");;
  emit (SetHeader "X-Content-Type-Options" "nosniff");;
  emit (WriteHeader StatusNotFound);;
  emit (Encode NotFoundText).

Definition mux (ex : Exchange) (r : Request) : handler unit :=
  let path := rq_Path r in
  if bool_decide (path = "/health") then healthHandler
  else if bool_decide (path = "/ready") then readinessHandler ex
  else if bool_decide (path = "/diagnostics") then diagnosticsHandler ex r
  else if bool_decide (path = "/judge") then createSubmissionHandler ex r
  else if bool_decide (path = "/submissions") then submissionsCollectionHandler ex r
  else if HasPrefix path "/submissions/" then submissionHandler ex r
  else if bool_decide (path = "/submit") then submitHandler ex r
  else notFound.

Definition serve (ex : Exchange) : Request -> handler unit := requestIDMiddleware (ex_requestNanos ex) (mux ex).

(** ** The Postgres store behind the handlers

    A statement may fail before anything happens, or its commit may take place
    and the answer be lost. *)
Inductive Reach := Reached | Unreachable (what : string) | AnswerLost (what : string).

Definition through (reach : Reach) (others : table -> table) (op : table -> result table) (t : table)
    : result unit * table :=
  match reach with
  | Unreachable what => (Err (LibErr what), t)
  | Reached => match op t with Ok t' => (Ok tt, t') | Err e => (Err e, others t) end
  | AnswerLost what => match op t with Ok t' => (Err (LibErr what), t') | Err e => (Err e, others t) end
  end.

(** [others] is what other clients commit while [SaveAdmitted] waits between
    its count and its insertion. *)
Definition postgres (maxQueued now : Z) (reach : Reach) (others : table -> table) (read : result unit)
    (queue : SubmissionQueue) : Persistence :=
  mkPersistence
    (Some (fun sub t => through reach (if is_ok (SaveAdmitted_count maxQueued t) then others else id)
                          (SaveAdmitted maxQueued now others sub) t))
    (fun sub => through reach id (SaveContext now sub))
    (fun sub => through reach id (UpdateContext now sub))
    (fun id t => read;; GetContext id t)
    (Some read)
    (Some (fun t => read;; Ok (Counts t)))
    (queue_Enqueue queue).
End Handlers.
