(* ===== verification/HttpLaws.v ===== *)
(** * Answers of the HTTP server *)

From S2P Require Import Prelude GoStrings GoJson Contracts Queries Store GoStruct GoScanner JobJson.
From S2P Require Import Adapters Harness CppHarness CppClass PyHarness Languages Validate Effects Buffers Pool Metrics Http.

(** ** Reading the log *)

Lemma header_of_app l1 l2 key :
  header_of (l1 ++ l2) key =
    foldl (fun old call => match call with
      | SetHeader key' value => if bool_decide (key' = key) then value else old
      | _ => old
      end) (header_of l1 key) l2.
Proof. apply foldl_app. Qed.

Lemma payloads_app l1 l2 : payloads (l1 ++ l2) = payloads l1 ++ payloads l2.
Proof. apply omap_app. Qed.

(** Before anything is written, a log only sets headers and moves slots. *)
Definition unwritten (log : list Call) : bool := bool_decide (status_of log = None) && bool_decide (payloads log = []).

(** The calls of [writeAPIError]. *)
Definition error_calls (status : Z) (code message requestID : string) : list Call :=
  [SetHeader "Content-Type" "application/json"; WriteHeader status; Encode (APIError code message requestID)].

Section Runs.
Context `{Float64} `{UnicodeTables} `{PrintTables} `{ColumnCodec}.

(** [m] makes the calls [calls], which may depend on the request's id, and
    leaves the table alone. *)
Definition makes {A} (m : eff table Call A) (a : A) (calls : string -> list Call) : Prop :=
  forall w, m w = (Ok a, mkWorld (w_state w) (w_log w ++ calls (header_of (w_log w) "X-Request-ID"))).

Lemma makes_ret {A} (a : A) : makes (mret a) a (fun _ => []).
Proof. intros [t log]. by rewrite app_nil_r. Qed.

Lemma makes_emit call : makes (emit call) tt (fun _ => [call]).
Proof. done. Qed.

(** The calls of a part do not change the request's id. *)
Definition keeps_id (calls : string -> list Call) : Prop :=
  forall log id, header_of (log ++ calls id) "X-Request-ID" = header_of log "X-Request-ID".

Lemma makes_bind {A B} (m : eff table Call A) (f : A -> eff table Call B) a b c1 c2 :
  makes m a c1 -> keeps_id c1 -> makes (f a) b c2 -> makes (m ≫= f) b (fun id => c1 id ++ c2 id).
Proof.
  intros Hm Hid Hf w. rewrite /mbind /eff_bind Hm Hf. cbn [w_state w_log]. by rewrite Hid app_assoc.
Qed.

Lemma makes_writeAPIError status code message :
  makes (writeAPIError status code message) tt (error_calls status code message).
Proof.
  intros [t log]. rewrite /writeAPIError /emit /get_header /mbind /eff_bind. cbn [w_state w_log].
  rewrite -!app_assoc header_of_app. done.
Qed.

Lemma makes_defer {A} call (m : eff table Call A) a calls :
  makes m a calls -> makes (defer (emit call) m) a (fun id => calls id ++ [call]).
Proof. intros Hm w. by rewrite /defer Hm /= app_assoc. Qed.

Lemma keeps_error status code message : keeps_id (error_calls status code message).
Proof. intros log id. by rewrite header_of_app. Qed.

(** ** The job of a request *)

Record Refusal := mkRefusal {
  rf_status : Z;
  rf_code : string;
  rf_message : string;
  rf_retry : option string }.

Definition validation_busy : Refusal :=
  mkRefusal 503 "validation_busy" "submission validation is busy; retry later" (Some "1").
Definition request_too_large : Refusal := mkRefusal 413 "request_too_large" "request body is too large" None.
Definition invalid_request : Refusal := mkRefusal 400 "invalid_request" "invalid request payload" None.
Definition validation_error (e : goerr) : Refusal := mkRefusal 400 "validation_error" (Error e) None.
Definition queue_full : Refusal := mkRefusal 503 "queue_full" "submission queue is full; retry later" (Some "5").
Definition internal_failure : Refusal := mkRefusal 500 "internal_error" "internal error" None.

(** The job of the body, or why it is refused. *)
Definition job_of_body (r : Request) : Refusal + Job :=
  match decode_body (Job_fields true) zero_Job r with
  | inl err => inl (if is_MaxBytesError err then request_too_large else invalid_request)
  | inr job => match ValidateJob job with Err e => inl (validation_error e) | Ok _ => inr job end
  end.

(** The job a request is about, or why it is refused before anything is
    stored. *)
Definition check_job (busy : nat) (r : Request) : Refusal + Job :=
  if (busy <? 16)%nat then job_of_body r else inl validation_busy.

Definition refusal_calls (rf : Refusal) (requestID : string) : list Call :=
  (match rf_retry rf with Some seconds => [SetHeader "Retry-After" seconds] | None => [] end) ++
  error_calls (rf_status rf) (rf_code rf) (rf_message rf) requestID.

Lemma keeps_refusal rf : keeps_id (refusal_calls rf).
Proof. intros log id. rewrite header_of_app /refusal_calls. by destruct (rf_retry rf). Qed.

Definition body_calls (r : Request) (requestID : string) : list Call :=
  match job_of_body r with inl rf => refusal_calls rf requestID | inr _ => [] end.

Definition check_calls (busy : nat) (r : Request) (requestID : string) : list Call :=
  if (busy <? 16)%nat then SlotTaken :: body_calls r requestID ++ [SlotFreed]
  else refusal_calls validation_busy requestID.

Definition job_or_none (checked : Refusal + Job) : option Job := match checked with inr job => Some job | inl _ => None end.

Lemma keeps_check busy r : keeps_id (check_calls busy r).
Proof.
  intros log id. rewrite header_of_app /check_calls /body_calls. destruct (busy <? 16)%nat; [|done].
  destruct (job_of_body r) as [rf|job]; [|done]. rewrite /refusal_calls. by destruct (rf_retry rf).
Qed.

Lemma makes_refused {A} (m : eff table Call unit) rf (a : A) :
  makes m tt (refusal_calls rf) -> makes (m;; mret a) a (refusal_calls rf).
Proof. intros Hm w. by rewrite /mbind /eff_bind Hm. Qed.

Lemma makes_body r :
  makes (decoded ← decodeJudgeJob r;
         match decoded with
         | None => mret None
         | Some job =>
             match ValidateJob job with
             | Err e => writeAPIError StatusBadRequest "validation_error" (Error e);; mret None
             | Ok _ => mret (Some job)
             end
         end) (job_or_none (job_of_body r)) (body_calls r).
Proof.
  intros w. rewrite /body_calls /job_of_body /decodeJudgeJob /decodeJSONBody.
  destruct (decode_body _ _ r) as [err|job].
  - rewrite /writeJSONDecodeError. destruct (is_MaxBytesError err); rewrite /mbind /eff_bind makes_writeAPIError //.
  - rewrite /mbind /eff_bind. cbn [mret eff_ret].
    destruct (ValidateJob job); [by destruct w; rewrite /= app_nil_r|]. by rewrite makes_writeAPIError.
Qed.

Lemma makes_check busy r :
  makes (decodeAndValidateJudgeJob busy r) (job_or_none (check_job busy r)) (check_calls busy r).
Proof.
  rewrite /check_calls /check_job /decodeAndValidateJudgeJob /acquireValidationSlot.
  change maxConcurrentValidations with 16%nat. destruct (busy <? 16)%nat.
  - intros w. rewrite /mbind /eff_bind /emit. cbn [mret eff_ret negb].
    rewrite (makes_defer SlotFreed _ _ _ (makes_body r)). cbn [w_state w_log].
    rewrite header_of_app -app_assoc. done.
  - intros w. rewrite /mbind /eff_bind /emit makes_writeAPIError. cbn [w_state w_log mret eff_ret negb].
    by rewrite header_of_app -app_assoc.
Qed.

(** ** A posted submission *)

Definition new_submission (ex : Exchange) (job : Job) : Submission :=
  mkSubmission None (Itoa (ex_submissionNanos ex)) job SubmissionQueued None None 0 None "".

Definition admission_refusal (e : goerr) : Refusal := if is_ErrQueueFull e then queue_full else internal_failure.

Lemma writeSubmissionAdmissionError_makes e :
  makes (writeSubmissionAdmissionError e) tt (refusal_calls (admission_refusal e)).
Proof.
  intros w. rewrite /writeSubmissionAdmissionError /admission_refusal. destruct (is_ErrQueueFull e).
  - rewrite /mbind /eff_bind /emit makes_writeAPIError. cbn [w_state w_log]. by rewrite header_of_app -app_assoc.
  - by rewrite makes_writeAPIError.
Qed.

Lemma create_runs ps save nanos job (w : World table Call) :
  st_SaveAdmitted ps = Some save ->
  createAndQueueSubmission ps nanos job w =
    let submission := mkSubmission None (Itoa nanos) job SubmissionQueued None None 0 None "" in
    let '(stored, t) := save submission (w_state w) in
    (match stored with Ok _ => Ok submission | Err e => Err e end, mkWorld t (w_log w)).
Proof.
  intros Hs. rewrite /createAndQueueSubmission Hs /on_table /mbind /eff_bind.
  by destruct (save _ (w_state w)) as [[[]|e] t].
Qed.

(** What is sent once the submission is stored: nothing yet when the wait of
    /submit is not over. *)
Definition reply (ex : Exchange) (path : string) (submission : Submission) : option (Z * Payload) :=
  if bool_decide (path = "/submit") then
    match waitForSubmission (ex_polls ex (sub_ID submission)) with
    | None => None
    | Some (found, completed) =>
        let result := default submission found in
        Some (if completed : bool
              then (StatusOK, SubmissionResponse (sub_ID result) (sub_Status result) (sub_Result result))
              else (StatusAccepted, SubmissionAcceptedResponse (sub_ID submission) (sub_Status result)))
    end
  else Some (StatusAccepted, SubmissionAcceptedResponse (sub_ID submission) SubmissionQueued).

(** The calls after the slot is given back. *)
Definition stored_calls (ex : Exchange) (path : string) (submission : Submission) : list Call :=
  let location := SetHeader "Location" ("/submissions/" +:+ sub_ID submission) in
  if bool_decide (path = "/submit") then
    location :: match reply ex path submission with
                | None => []
                | Some (status, payload) =>
                    [SetHeader "Content-Type" "application/json"; WriteHeader status; Encode payload]
                end
  else
    [SetHeader "Content-Type" "application/json"; location; WriteHeader StatusAccepted;
     Encode (SubmissionAcceptedResponse (sub_ID submission) (sub_Status submission))].

Definition posting (r : Request) : Prop :=
  rq_Method r = MethodPost /\ rq_Path r ∈ ["/judge"; "/submissions"; "/submit"].

Definition request_id (ex : Exchange) (r : Request) : string :=
  if validRequestID (rq_RequestID r) then rq_RequestID r else hexadecimal (ex_requestNanos ex).

(** The body of both handlers, [after] being what they do with a stored
    submission. *)
Definition post_body (ex : Exchange) (r : Request) (after : Submission -> eff table Call unit) : eff table Call unit :=
  decoded ← decodeAndValidateJudgeJob (ex_busySlots ex) r;
  match decoded with
  | None => mret tt
  | Some job =>
      created ← attempt (createAndQueueSubmission (ex_persistence ex) (ex_submissionNanos ex) job);
      match created with
      | Err e => writeSubmissionAdmissionError e
      | Ok submission => after submission
      end
  end.

Definition post_log (ex : Exchange) (r : Request) (stored : Submission -> result unit) (requestID : string) : list Call :=
  check_calls (ex_busySlots ex) r requestID ++
  match check_job (ex_busySlots ex) r with
  | inl _ => []
  | inr job =>
      match stored (new_submission ex job) with
      | Err e => refusal_calls (admission_refusal e) requestID
      | Ok _ => stored_calls ex (rq_Path r) (new_submission ex job)
      end
  end.

Lemma post_body_runs ex r save after (w : World table Call) :
  st_SaveAdmitted (ex_persistence ex) = Some save ->
  (forall submission, sub_Status submission = SubmissionQueued ->
     makes (after submission) tt (fun _ => stored_calls ex (rq_Path r) submission)) ->
  post_body ex r after w =
    (Ok tt, mkWorld (match check_job (ex_busySlots ex) r with
                     | inl _ => w_state w
                     | inr job => snd (save (new_submission ex job) (w_state w))
                     end)
              (w_log w ++ post_log ex r (fun submission => fst (save submission (w_state w)))
                 (header_of (w_log w) "X-Request-ID"))).
Proof.
  intros Hs Hafter. rewrite /post_body /mbind /eff_bind makes_check /post_log.
  destruct (check_job (ex_busySlots ex) r) as [rf|job] eqn:Hcheck; cbn [job_or_none].
  { by rewrite app_nil_r. }
  rewrite /attempt (create_runs _ _ _ _ _ Hs). cbn [w_state w_log]. fold (new_submission ex job).
  destruct (save (new_submission ex job) (w_state w)) as [[[]|e] t'] eqn:Hsave; cbn [fst snd].
  - rewrite Hafter //. cbn [w_state w_log]. by rewrite app_assoc.
  - rewrite writeSubmissionAdmissionError_makes. cbn [w_state w_log]. by rewrite keeps_check app_assoc.
Qed.

Lemma serve_post ex r save t :
  posting r -> st_SaveAdmitted (ex_persistence ex) = Some save ->
  serve ex r (mkWorld t []) =
    (Ok tt, mkWorld (match check_job (ex_busySlots ex) r with
                     | inl _ => t
                     | inr job => snd (save (new_submission ex job) t)
                     end)
              (SetHeader "X-Request-ID" (request_id ex r) ::
                 post_log ex r (fun submission => fst (save submission t)) (request_id ex r))).
Proof.
  intros [Hm Hp] Hs. rewrite /serve /requestIDMiddleware. fold (request_id ex r).
  set (w1 := mkWorld t [SetHeader "X-Request-ID" (request_id ex r)]).
  change (mux ex r w1 = (Ok tt, mkWorld (match check_job (ex_busySlots ex) r with
                     | inl _ => w_state w1
                     | inr job => snd (save (new_submission ex job) (w_state w1))
                     end) (w_log w1 ++ post_log ex r (fun submission => fst (save submission (w_state w1)))
                 (header_of (w_log w1) "X-Request-ID")))).
  assert (mux ex r = post_body ex r (fun submission =>
    if bool_decide (rq_Path r = "/submit") then
      emit (SetHeader "Location" ("/submissions/" +:+ sub_ID submission));;
      match waitForSubmission (ex_polls ex (sub_ID submission)) with
      | None => mret tt
      | Some (found, completed) =>
          let result := default submission found in
          if negb completed
          then writeJSON StatusAccepted (SubmissionAcceptedResponse (sub_ID submission) (sub_Status result))
          else writeJSON StatusOK (SubmissionResponse (sub_ID result) (sub_Status result) (sub_Result result))
      end
    else
      emit (SetHeader "Content-Type" "application/json");;
      emit (SetHeader "Location" ("/submissions/" +:+ sub_ID submission));;
      emit (WriteHeader StatusAccepted);;
      emit (Encode (SubmissionAcceptedResponse (sub_ID submission) (sub_Status submission))))) as ->.
  { rewrite /mux. apply elem_of_cons in Hp as [->|Hp]; [|apply elem_of_cons in Hp as [->|[->|[]%elem_of_nil]%elem_of_cons]].
    - by rewrite /= /createSubmissionHandler Hm.
    - by rewrite /= /submissionsCollectionHandler /createSubmissionHandler Hm.
    - by rewrite /= /submitHandler Hm. }
  apply post_body_runs; [done|]. intros submission Hq w. rewrite /stored_calls /reply.
  destruct (bool_decide _).
  - destruct (waitForSubmission _) as [[found []]|]; rewrite /writeJSON /mbind /eff_bind /emit; cbn [negb w_state w_log mret eff_ret];
      by rewrite -?app_assoc.
  - rewrite /mbind /eff_bind /emit. cbn [w_state w_log]. by rewrite -!app_assoc.
Qed.

(** ** What is stored *)

(** Everything the answer to a posted submission depends on. *)
Section Admission.
Context (ex : Exchange) (r : Request) (maxQueued now : Z) (reach : Reach) (others : table -> table) (t : table).

Definition queued_row (text : string) : row := mkRow SubmissionQueued text None None 0 None (Some "") now now.
Definition new_id : string := Itoa (ex_submissionNanos ex).
Definition queued : Z := CountQueuedSubmissions SubmissionQueued t.

Inductive admission : Refusal + Submission -> table -> Prop :=
  | admission_refused rf : check_job (ex_busySlots ex) r = inl rf -> admission (inl rf) t
  | admission_unreachable job what :
      check_job (ex_busySlots ex) r = inr job -> reach = Unreachable what -> admission (inl internal_failure) t
  | admission_full job :
      check_job (ex_busySlots ex) r = inr job -> (forall what, reach <> Unreachable what) -> (maxQueued <= queued)%Z ->
      admission (inl queue_full) t
  | admission_unencodable job e :
      check_job (ex_busySlots ex) r = inr job -> (forall what, reach <> Unreachable what) -> (queued < maxQueued)%Z ->
      marshalJob job = Err e -> admission (inl (admission_refusal e)) (others t)
  | admission_duplicate job text :
      check_job (ex_busySlots ex) r = inr job -> (forall what, reach <> Unreachable what) -> (queued < maxQueued)%Z ->
      marshalJob job = Ok text -> is_Some (others t !! new_id) -> admission (inl internal_failure) (others t)
  | admission_lost job text what :
      check_job (ex_busySlots ex) r = inr job -> reach = AnswerLost what -> (queued < maxQueued)%Z ->
      marshalJob job = Ok text -> others t !! new_id = None ->
      admission (inl internal_failure) (<[new_id := queued_row text]> (others t))
  | admission_stored job text :
      check_job (ex_busySlots ex) r = inr job -> reach = Reached -> (queued < maxQueued)%Z ->
      marshalJob job = Ok text -> others t !! new_id = None ->
      admission (inr (new_submission ex job)) (<[new_id := queued_row text]> (others t)).

Definition admitted_save (submission : Submission) : result unit * table :=
  through reach (if is_ok (SaveAdmitted_count maxQueued t) then others else id)
    (SaveAdmitted maxQueued now others submission) t.

Lemma admission_save job :
  check_job (ex_busySlots ex) r = inr job ->
  let '(stored, t') := admitted_save (new_submission ex job) in
  admission (match stored with Ok _ => inr (new_submission ex job) | Err e => inl (admission_refusal e) end) t'.
Proof.
  intros Hjob. rewrite /admitted_save /through /SaveAdmitted /SaveAdmitted_count. cbv beta.
  destruct (Z.leb_spec maxQueued (CountQueuedSubmissions SubmissionQueued t)) as [Hfull|Hroom].
  { destruct reach as [|what|what] eqn:Hreach; cbn; [eapply admission_full; [done|by rewrite Hreach|done]| |
      eapply admission_full; [done|by rewrite Hreach|done]]. by eapply admission_unreachable. }
  cbn [is_ok mbind result_bind]. rewrite /insertSubmission. cbn [sub_Job new_submission sub_Result marshalResult].
  destruct (marshalJob job) as [text|e] eqn:Ht.
  2:{ destruct reach as [|what|what] eqn:Hreach; cbn; [eapply admission_unencodable; by rewrite ?Hreach| |
        eapply admission_unencodable; by rewrite ?Hreach]. by eapply admission_unreachable. }
  cbn [mbind result_bind]. rewrite /InsertSubmission. cbn [ip_ID]. change (sub_ID (new_submission ex job)) with new_id.
  destruct (others t !! new_id) as [old|] eqn:Hold.
  { destruct reach as [|what|what] eqn:Hreach; cbn;
      [eapply admission_duplicate; rewrite ?Hreach //; by eexists| |eapply admission_duplicate; rewrite ?Hreach //; by eexists].
    by eapply admission_unreachable. }
  destruct reach as [|what|what] eqn:Hreach; cbn; [by eapply admission_stored|by eapply admission_unreachable|by eapply admission_lost].
Qed.
End Admission.

(** ** Request identifiers *)

Lemma hex_digit_rune d : (0 <= d < 16)%Z -> request_id_rune (byte_of (GoStrings.hex_digit d)) = true /\ (byte_of (GoStrings.hex_digit d) < 128)%Z.
Proof.
  intros Hd. assert (d ∈ seqZ 0 16) as Hin by (apply elem_of_seqZ; lia).
  clear Hd. revert d Hin. apply Forall_forall. vm_compute. repeat constructor.
Qed.

Lemma hex_digits_runes n z : forallb request_id_rune (runes (hex_digits n z)) = true.
Proof.
  induction n as [|n IH]; [done|]. cbn [hex_digits].
  set (d := Z.land (Z.shiftr z (4 * Z.of_nat n)) 15). assert (0 <= d < 16)%Z as Hd.
  { subst d. rewrite (Z.land_ones _ 4); [lia|]. apply Z.mod_pos_bound. lia. }
  apply hex_digit_rune in Hd as [Hr Hlt]. rewrite runes_ascii //. cbn [forallb]. by rewrite Hr IH.
Qed.

Lemma hex_digits_length n z : String.length (hex_digits n z) = n.
Proof. induction n as [|n IH]; [done|]. cbn. by rewrite IH. Qed.

Lemma trim_zeros_spec s :
  forallb request_id_rune (runes s) = true -> s <> "" ->
  forallb request_id_rune (runes (trim_zeros s)) = true /\ trim_zeros s <> "" /\
  (String.length (trim_zeros s) <= String.length s)%nat.
Proof.
  induction s as [|c s IH]; [done|]. intros Hs _. cbn [trim_zeros]. destruct (_ && _) eqn:E; [|done].
  apply andb_true_iff in E as [->%Ascii.eqb_eq Hne%negb_true_iff]. bool_prop.
  rewrite runes_ascii // in Hs. destruct IH as (? & ? & ?); [done|done|]. split_and!; [done..|]. cbn. lia.
Qed.

Lemma hexadecimal_valid n : validRequestID (hexadecimal n) = true.
Proof.
  destruct (trim_zeros_spec (hex_digits 16 n)) as (Hr & Hne & Hlen); [apply hex_digits_runes|done|].
  rewrite hex_digits_length in Hlen. rewrite /validRequestID /hexadecimal bool_decide_eq_false_2 //.
  destruct (Z.ltb_spec 128 (Z.of_nat (String.length (trim_zeros (hex_digits 16 n))))); [lia|done].
Qed.

Lemma request_id_valid ex r : validRequestID (request_id ex r) = true.
Proof. rewrite /request_id. destruct (validRequestID (rq_RequestID r)) eqn:E; [done|apply hexadecimal_valid]. Qed.

(** ** The theorem *)

Definition slot_opens (call : Call) : option unit := match call with SlotTaken => Some tt | _ => None end.
Definition slot_closes (call : Call) : option unit := match call with SlotFreed => Some tt | _ => None end.

(** The answer that a log sends. *)
Record sends (log : list Call) (requestID : string) (answer : option (Z * Payload)) : Prop := {
  sd_id : header_of log "X-Request-ID" = requestID;
  sd_slots : held_after slot_opens slot_closes [] log = Some [];
  sd_status : status_of log = fst <$> answer;
  sd_payloads : payloads log = match answer with Some (_, payload) => [payload] | None => [] end }.

Definition refusal_payload (rf : Refusal) (requestID : string) : Payload := APIError (rf_code rf) (rf_message rf) requestID.

(** A refusal is sent the same way wherever the slot was given back. *)
Lemma refusal_sent taken freed rf id :
  (taken, freed) ∈ [([], []); ([SlotTaken], [SlotFreed]); ([SlotTaken; SlotFreed], [])] ->
  let log := SetHeader "X-Request-ID" id :: taken ++ refusal_calls rf id ++ freed in
  sends log id (Some (rf_status rf, refusal_payload rf id)) /\ header_of log "Retry-After" = default "" (rf_retry rf).
Proof.
  rewrite !elem_of_cons elem_of_nil. rewrite /refusal_calls.
  intros [[= -> ->]|[[= -> ->]|[[= -> ->]|[]]]]; destruct (rf_retry rf); by repeat split.
Qed.

Lemma stored_sent ex path submission id :
  sub_Status submission = SubmissionQueued ->
  let log := SetHeader "X-Request-ID" id :: [SlotTaken; SlotFreed] ++ stored_calls ex path submission in
  sends log id (reply ex path submission) /\ header_of log "Location" = "/submissions/" +:+ sub_ID submission.
Proof.
  intros Hq. rewrite /stored_calls /reply Hq. destruct (bool_decide _); [|by repeat split].
  destruct (waitForSubmission _) as [[found []]|]; by repeat split.
Qed.

Lemma refusal_logged ex r rf id :
  check_job (ex_busySlots ex) r = inl rf ->
  let log := SetHeader "X-Request-ID" id :: check_calls (ex_busySlots ex) r id in
  sends log id (Some (rf_status rf, refusal_payload rf id)) /\ header_of log "Retry-After" = default "" (rf_retry rf).
Proof.
  rewrite /check_job /check_calls /body_calls. destruct (_ <? _)%nat; intros E.
  - rewrite E. apply (refusal_sent [SlotTaken] [SlotFreed]). by right; left.
  - injection E as <-. pose proof (refusal_sent [] [] validation_busy id) as Hs. rewrite app_nil_r in Hs. apply Hs. by left.
Qed.

Lemma checked_calls ex r job id :
  check_job (ex_busySlots ex) r = inr job -> check_calls (ex_busySlots ex) r id = [SlotTaken; SlotFreed].
Proof. rewrite /check_job /check_calls /body_calls. destruct (_ <? _)%nat; [|done]. by intros ->. Qed.

(** C37 (error): a posted submission gets exactly one answer, and it says what
    happened to the table.  It is refused as busy, too large, malformed or
    invalid before anything is stored; as full when the queue is at its limit;
    as an internal error, without any detail, when the database fails; and
    otherwise the job is stored queued under the id in the answer (202, or for
    /submit the answer of the wait).  A lost commit is the only error after
    which the row is there.  Every answer carries a valid request id, and the
    validation slot is given back. *)
Theorem posted_submission_answered ex r maxQueued now reach others read queue t :
  posting r -> ex_persistence ex = postgres maxQueued now reach others read queue ->
  exists answer t' log, serve ex r (mkWorld t []) = (Ok tt, mkWorld t' log) /\
    admission ex r maxQueued now reach others t answer t' /\ validRequestID (request_id ex r) = true /\
    match answer with
    | inl rf =>
        sends log (request_id ex r) (Some (rf_status rf, refusal_payload rf (request_id ex r))) /\
        header_of log "Retry-After" = default "" (rf_retry rf)
    | inr submission =>
        sends log (request_id ex r) (reply ex (rq_Path r) submission) /\
        header_of log "Location" = "/submissions/" +:+ sub_ID submission
    end.
Proof.
  intros Hpost Hps.
  pose proof (serve_post ex r (fun submission t => admitted_save maxQueued now reach others t submission) t Hpost) as Hserve.
  rewrite Hps in Hserve. specialize (Hserve eq_refl). rewrite /post_log in Hserve.
  destruct (check_job (ex_busySlots ex) r) as [rf|job] eqn:Hjob.
  - rewrite app_nil_r in Hserve. exists (inl rf), t. eexists. split; [exact Hserve|]. split; [by apply admission_refused|].
    split; [apply request_id_valid|by apply refusal_logged].
  - pose proof (admission_save ex r maxQueued now reach others t job Hjob) as Hadm.
    rewrite (checked_calls _ _ _ _ Hjob) in Hserve.
    destruct (admitted_save _ _ _ _ _ _) as [[[]|e] t'] eqn:Hsave; cbn [fst snd] in Hserve.
    + exists (inr (new_submission ex job)), t'. eexists. split; [exact Hserve|]. split; [done|].
      split; [apply request_id_valid|by apply stored_sent].
    + exists (inl (admission_refusal e)), t'. eexists. split; [exact Hserve|]. split; [done|].
      split; [apply request_id_valid|]. pose proof (refusal_sent [SlotTaken; SlotFreed] [] (admission_refusal e) (request_id ex r)) as Hs.
      rewrite app_nil_r in Hs. apply Hs. by right; right; left.
Qed.
End Runs.

(** ** The wait of /submit *)

(** It reports a submission as completed only when a poll saw it settled. *)
Lemma waitForSubmission_completed polls found :
  waitForSubmission polls = Some (found, true) ->
  exists submission p, found = Some submission /\ is_settled submission = true /\ p ∈ polls /\
    sp_answer p = Ok (Some submission).
Proof.
  induction polls as [|p polls IH]; [done|]. cbn. destruct (sp_contextDone p); [done|].
  destruct (sp_answer p) as [answer|] eqn:Ha; [|done]. destruct (match answer with Some s => is_settled s | None => false end) eqn:Hs.
  - intros [= <-]. destruct answer as [submission|]; [|done]. exists submission, p. split_and!; [done..|by left|done].
  - destruct (sp_wake p) as [|[[]|]|]; try done. intros (s & p' & -> & ? & ? & ?)%IH. exists s, p'.
    split_and!; [done..|by right|done].
Qed.

(** It ends at the first poll after which the context is done or the deadline
    passes, at the latest. *)
Lemma waitForSubmission_ends polls :
  Exists (fun p => sp_contextDone p = true \/ sp_wake p <> WakeTick) polls -> waitForSubmission polls <> None.
Proof.
  induction 1 as [p polls [Hc|Hw]|p polls _ IH]; cbn.
  - by rewrite Hc.
  - destruct (sp_contextDone p), (sp_answer p) as [answer|]; try done.
    destruct (match answer with Some s => is_settled s | None => false end); [done|].
    by destruct (sp_wake p) as [|[[]|]|].
  - destruct (sp_contextDone p), (sp_answer p) as [answer|]; try done.
    destruct (match answer with Some s => is_settled s | None => false end); [done|].
    by destruct (sp_wake p) as [|[[]|]|].
Qed.
