(* ===== verification/Config.v ===== *)
(** * Start-up settings: cmd/server/config.go and env.go

    [loadEnvFile] adds the entries of a [.env] file to the process environment
    and [loadConfig] reads the settings from it.  Opening and reading the file
    is an [EnvFile]; the length of a line is limited as [bufio.Scanner]
    documents. *)

From S2P Require Import Prelude GoStrings GoJson Contracts Queries Store Validate Docker.
From Stdlib Require Import Ascii.

(** ** env.go *)

Abbreviation Environ := (gmap string string).

(** The text may be cut short by a read error. *)
Inductive EnvFile :=
  | Missing
  | Unopenable (e : goerr)
  | Opened (text : string) (read : result unit).

(** [bufio.ScanLines]. *)
Fixpoint split_lines (s : string) : list string :=
  match s with
  | EmptyString => []
  | String c s' =>
      if Ascii.eqb c "010"%char then "" :: split_lines s'
      else match split_lines s' with
           | [] => [String c ""]
           | l :: ls => String c l :: ls
           end
  end.

Definition carriage_return : string := String "013"%char "".
Definition MaxScanTokenSize : nat := Z.to_nat 65536.
Definition ErrTooLong : goerr := LibErr "bufio.Scanner: token too long".

(** [strings.Cut] at a byte. *)
Fixpoint Cut (s : string) (sep : ascii) : string * string * bool :=
  match s with
  | EmptyString => ("", "", false)
  | String c s' =>
      if Ascii.eqb c sep then ("", s', true)
      else let '(before, after, found) := Cut s' sep in (String c before, after, found)
  end.

Definition env_key_byte (index : nat) (char : Z) : bool :=
  (65 <=? char)%Z && (char <=? 90)%Z || (char =? 95)%Z ||
  ((0 <? index)%nat && (48 <=? char)%Z && (char <=? 57)%Z).

Definition validEnvKey (key : string) : bool :=
  if bool_decide (key = "") then false
  else forallb (fun b => b) (imap (fun i c => env_key_byte i (byte_of c)) (String.list_ascii_of_string key)).

Definition apostrophe : ascii := "039"%char.

Definition parseEnvValue (value : string) : result string :=
  match value with
  | EmptyString => Ok ""
  | String quote _ =>
      if negb (Ascii.eqb quote apostrophe) && negb (Ascii.eqb quote dq) then Ok value
      else
        let n := String.length value in
        fail_if (n <? 2)%nat || negb (bool_decide (String.get (n - 1) value = Some quote))
          with Errorf "unterminated quoted value" [];;
        Ok (slice_from 1 (slice_to (n - 1) value))
  end.

(** The entry of a line of the file: nothing for a blank line or a comment. *)
Definition env_entry (lineNumber : nat) (text : string) : result (option (string * string)) :=
  let line := TrimSpace text in
  if bool_decide (line = "") || HasPrefix line "#" then Ok None
  else
    let line := if HasPrefix line "export " then TrimSpace (TrimPrefix line "export ") else line in
    let '(key, value, found) := Cut line "="%char in
    let key := TrimSpace key in
    fail_if negb found || negb (validEnvKey key)
      with Errorf "invalid env file entry on line %d" [FInt (Z.of_nat lineNumber)];;
    value ← wrap_err (fun e => Errorf "invalid env file value on line %d: %w" [FInt (Z.of_nat lineNumber); FErr e])
              (parseEnvValue (TrimSpace value));
    Ok (Some (key, value)).

(** [os.Setenv], for a key that [validEnvKey] accepts: no value may hold a NUL
    byte. *)
Fixpoint has_nul (s : string) : bool :=
  match s with
  | EmptyString => false
  | String c s' => Ascii.eqb c "000"%char || has_nul s'
  end.

Definition Setenv (key value : string) (env : Environ) : result Environ :=
  fail_if has_nul value with LibErr "setenv: invalid argument";;
  Ok (<[key := value]> env).

Definition env_line (lineNumber : nat) (text : string) (env : Environ) : result Environ :=
  fail_if (MaxScanTokenSize <=? String.length text)%nat with Errorf "read env file: %w" [FErr ErrTooLong];;
  entry ← env_entry lineNumber (TrimSuffix text carriage_return);
  match entry with
  | None => Ok env
  | Some (key, value) =>
      if env !! key is Some _ then Ok env
      else wrap_err (fun e => Errorf "set %s from env file: %w" [FStr key; FErr e]) (Setenv key value env)
  end.

(** The loop keeps what it set before a line fails. *)
Fixpoint env_lines (lineNumber : nat) (lines : list string) (env : Environ) : result unit * Environ :=
  match lines with
  | [] => (Ok tt, env)
  | text :: lines =>
      match env_line lineNumber text env with
      | Ok env => env_lines (S lineNumber) lines env
      | Err e => (Err e, env)
      end
  end.

Definition loadEnvFile (file : EnvFile) (env : Environ) : result unit * Environ :=
  match file with
  | Missing => (Ok tt, env)
  | Unopenable e => (Err (Errorf "open env file: %w" [FErr e]), env)
  | Opened text read =>
      match env_lines 1 (split_lines text) env with
      | (Ok tt, env) => (wrap_err (fun e => Errorf "read env file: %w" [FErr e]) read, env)
      | failed => failed
      end
  end.

(** ** config.go *)

Definition defaultPort : string := "8080".
Definition defaultWorkerCount : Z := 4.
Definition defaultSandboxPoolSize : Z := 4.
Definition defaultCompileSlots : Z := 2.
Definition defaultQueuePollMs : Z := 500.
Definition defaultQueueLeaseMs : Z := 60000.
Definition defaultQueueRecoveryMs : Z := 1000.
Definition defaultQueueMaxAttempts : Z := 3.
Definition defaultMaxQueued : Z := 100.
Definition maxMaxQueued : Z := 100000.
Definition defaultSubmitTimeoutMs : Z := 10000.
Definition maxSubmitTimeoutMs : Z := 60000.
Definition minWorkerCount : Z := 1.
Definition maxWorkerCount : Z := 64.
Definition minSandboxPoolSize : Z := 1.
Definition maxSandboxPoolSize : Z := 64.
Definition minCompileSlots : Z := 1.
Definition maxCompileSlots : Z := 16.
Definition capacityMemoryBudgetMb : Z := 8192.

Record config := mkConfig {
  cf_port : string;
  cf_workerCount : Z;
  cf_sandboxPoolSize : Z;
  cf_compileSlots : Z;
  cf_databaseURL : string;
  cf_queuePoll : Z;
  cf_queueLease : Z;
  cf_queueRecovery : Z;
  cf_queueMaxAttempts : Z;
  cf_maxQueued : Z;
  cf_submitTimeout : Z }.

Definition Getenv (env : Environ) (key : string) : string := default "" (env !! key).

Definition getEnv (env : Environ) (key fallback : string) : string :=
  let value := Getenv env key in
  if bool_decide (value = "") then fallback else value.

Definition getEnvIntStrict (env : Environ) (key : string) (fallback : Z) : result Z :=
  let value := Getenv env key in
  let invalid := Errorf "%s must be a positive integer, got %q" [FStr key; FStr value] in
  if bool_decide (value = "") then Ok fallback
  else match Atoi value with
       | Ok parsed => fail_if (parsed <=? 0)%Z with invalid;; Ok parsed
       | Err _ => Err invalid
       end.

Definition Millisecond : Z := 1000000.
(** [time.Duration(ms) * time.Millisecond], in 64 bits. *)
Definition milliseconds (ms : Z) : Z := wrap64 (ms * Millisecond).

Definition validateConfig (cfg : config) : result unit :=
  fail_if (cf_workerCount cfg <? minWorkerCount)%Z || (maxWorkerCount <? cf_workerCount cfg)%Z
    with Errorf "WORKER_COUNT must be between %d and %d" [FInt minWorkerCount; FInt maxWorkerCount];;
  fail_if (cf_sandboxPoolSize cfg <? minSandboxPoolSize)%Z || (maxSandboxPoolSize <? cf_sandboxPoolSize cfg)%Z
    with Errorf "SANDBOX_POOL_SIZE must be between %d and %d" [FInt minSandboxPoolSize; FInt maxSandboxPoolSize];;
  fail_if (cf_compileSlots cfg <? minCompileSlots)%Z || (maxCompileSlots <? cf_compileSlots cfg)%Z
    with Errorf "COMPILE_SLOTS must be between %d and %d" [FInt minCompileSlots; FInt maxCompileSlots];;
  fail_if (cf_queueMaxAttempts cfg <? 1)%Z with Errorf "QUEUE_MAX_ATTEMPTS must be at least 1" [];;
  fail_if (cf_maxQueued cfg <? 1)%Z || (maxMaxQueued <? cf_maxQueued cfg)%Z
    with Errorf "MAX_QUEUED must be between 1 and %d" [FInt maxMaxQueued];;
  fail_if (milliseconds maxSubmitTimeoutMs <? cf_submitTimeout cfg)%Z
    with Errorf "SUBMIT_TIMEOUT_MS must not exceed %d" [FInt maxSubmitTimeoutMs];;
  fail_if (cf_queueLease cfg <=? 0)%Z || (cf_queuePoll cfg <=? 0)%Z || (cf_queueRecovery cfg <=? 0)%Z ||
          (cf_submitTimeout cfg <=? 0)%Z
    with Errorf "queue and submit durations must be positive" [];;
  let reservedMemoryMb :=
    wrap64 (cf_sandboxPoolSize cfg * MaxMemoryLimitMb + cf_compileSlots cfg * MinCompileMemoryLimitMb) in
  fail_if (capacityMemoryBudgetMb <? reservedMemoryMb)%Z
    with Errorf "SANDBOX_POOL_SIZE and COMPILE_SLOTS reserve %d MiB, exceeding the %d MiB capacity budget"
      [FInt reservedMemoryMb; FInt capacityMemoryBudgetMb];;
  Ok tt.

Definition loadConfig (env : Environ) : result config :=
  workerCount ← getEnvIntStrict env "WORKER_COUNT" defaultWorkerCount;
  sandboxPoolSize ← getEnvIntStrict env "SANDBOX_POOL_SIZE" defaultSandboxPoolSize;
  compileSlots ← getEnvIntStrict env "COMPILE_SLOTS" defaultCompileSlots;
  queuePollMs ← getEnvIntStrict env "QUEUE_POLL_INTERVAL_MS" defaultQueuePollMs;
  queueLeaseMs ← getEnvIntStrict env "QUEUE_LEASE_MS" defaultQueueLeaseMs;
  queueRecoveryMs ← getEnvIntStrict env "QUEUE_RECOVERY_INTERVAL_MS" defaultQueueRecoveryMs;
  queueMaxAttempts ← getEnvIntStrict env "QUEUE_MAX_ATTEMPTS" defaultQueueMaxAttempts;
  maxQueued ← getEnvIntStrict env "MAX_QUEUED" defaultMaxQueued;
  submitTimeoutMs ← getEnvIntStrict env "SUBMIT_TIMEOUT_MS" defaultSubmitTimeoutMs;
  let cfg := mkConfig (getEnv env "PORT" defaultPort) workerCount sandboxPoolSize compileSlots
    (getEnv env "DATABASE_URL" "") (milliseconds queuePollMs) (milliseconds queueLeaseMs)
    (milliseconds queueRecoveryMs) queueMaxAttempts maxQueued (milliseconds submitTimeoutMs) in
  validateConfig cfg;;
  Ok cfg.

(** The start of [main]: the file, then the settings. *)
Definition startup_config (file : EnvFile) (env : Environ) : result config :=
  let '(loaded, env) := loadEnvFile file env in
  loaded;;
  loadConfig env.

(** ** The file: entries first, then a merge

    [env_entries] reads all the entries of a file, whatever the environment
    holds; [given] is what they say, the first entry of a name counting. *)
Definition env_entries_from (lineNumber : nat) : list string -> result (list (option (string * string))) :=
  imapM_from lineNumber (fun n text =>
    fail_if (MaxScanTokenSize <=? String.length text)%nat with Errorf "read env file: %w" [FErr ErrTooLong];;
    env_entry n (TrimSuffix text carriage_return)).

Definition given (entries : list (option (string * string))) : Environ := list_to_map (omap id entries).

(** The file says [entries] to a process with environment [env]. *)
Inductive file_says (env : Environ) : EnvFile -> Environ -> Prop :=
  | says_nothing : file_says env Missing ∅
  | says_entries text entries :
      env_entries_from 1 (split_lines text) = Ok entries ->
      (forall key value, given entries !! key = Some value -> env !! key = None -> has_nul value = false) ->
      file_says env (Opened text (Ok tt)) (given entries).

Lemma merge_entry_known (env : Environ) key value old :
  env !! key = Some old -> env ∪ {[key := value]} = env.
Proof.
  intros Hk. apply map_eq. intros k. rewrite lookup_union. destruct (decide (k = key)) as [->|Hne].
  - by rewrite Hk lookup_singleton_eq.
  - rewrite lookup_singleton_ne //. by destruct (env !! k).
Qed.

Lemma merge_entry_new (env : Environ) key value :
  env !! key = None -> env ∪ {[key := value]} = <[key := value]> env.
Proof. intros Hk. by rewrite -insert_union_r // map_union_empty. Qed.

Lemma given_cons key value entries : given (Some (key, value) :: entries) = {[key := value]} ∪ given entries.
Proof. rewrite /given. cbn [omap list_omap id]. by rewrite list_to_map_cons insert_union_singleton_l. Qed.

(** One line: the entry is read, and joins the environment unless a variable of
    that name is there. *)
Lemma env_line_Ok n text env env' :
  env_line n text env = Ok env' <->
  (MaxScanTokenSize <=? String.length text)%nat = false /\
  (env_entry n (TrimSuffix text carriage_return) = Ok None /\ env' = env \/
   exists key value, env_entry n (TrimSuffix text carriage_return) = Ok (Some (key, value)) /\
     env' = env ∪ {[key := value]} /\ (env !! key = None -> has_nul value = false)).
Proof.
  rewrite /env_line. destruct (MaxScanTokenSize <=? _)%nat; [by split; [|intros [? _]]|].
  destruct (env_entry _ _) as [[[key value]|]|e]; rewrite ?bind_Ok.
  - split.
    + destruct (env !! key) as [old|] eqn:Hk; intros H; (split; [done|right; exists key, value; split; [done|]]).
      * injection H as <-. rewrite (merge_entry_known env key value old Hk). split; [done|congruence].
      * rewrite /Setenv in H. destruct (has_nul value); cbn in H; [done|]. injection H as <-. by rewrite (merge_entry_new env key value Hk).
    + intros [_ [[? _]|(k & v & [= <- <-] & -> & Hn)]]; [done|].
      destruct (env !! key) as [old|] eqn:Hk; [by rewrite (merge_entry_known env key value old Hk)|].
      by rewrite /Setenv (Hn eq_refl) merge_entry_new.
  - split; [intros [= <-]; by eauto|]. by intros [_ [[_ ->]|(? & ? & ? & _)]].
  - split; [done|]. by intros [_ [[? _]|(? & ? & ? & _)]].
Qed.

(** The loop reads the entries and merges them. *)
Lemma env_lines_Ok n lines env env' :
  env_lines n lines env = (Ok tt, env') <->
  exists entries, env_entries_from n lines = Ok entries /\ env' = env ∪ given entries /\
    (forall key value, given entries !! key = Some value -> env !! key = None -> has_nul value = false).
Proof.
  revert n env env'. induction lines as [|text lines IH]; intros n env env'; cbn [env_lines].
  { split; [intros [= <-]|].
    - exists []. rewrite /given map_union_empty. by split_and!.
    - intros (entries & [= <-] & -> & _). by rewrite /given map_union_empty. }
  rewrite /env_entries_from. cbn [imapM_from]. fold (env_entries_from (S n) lines). split.
  - destruct (env_line n text env) as [env1|] eqn:E; [|done]. intros (entries & Hes & -> & Hnul)%IH.
    apply env_line_Ok in E as [-> [[-> ->]|(key & value & -> & -> & Hn)]]; rewrite bind_Ok Hes /=.
    + by exists (None :: entries).
    + exists (Some (key, value) :: entries). rewrite given_cons map_union_assoc. split_and!; [done..|].
      intros k v. destruct (decide (k = key)) as [->|Hne].
      * rewrite lookup_union lookup_singleton_eq union_Some_l. by intros [= <-].
      * rewrite lookup_union lookup_singleton_ne // (left_id_L None _). intros Hv Hk. apply (Hnul k v Hv).
        by rewrite lookup_union Hk lookup_singleton_ne.
  - intros (entries & (entry & Hen & (rest & Hes & [= <-])%bind_Ok_inv)%bind_Ok_inv & -> & Hnul).
    destruct (MaxScanTokenSize <=? _)%nat eqn:Hlen; [done|]. destruct entry as [[key value]|].
    + rewrite given_cons in Hnul |- *. assert (env_line n text env = Ok (env ∪ {[key := value]})) as ->.
      { apply env_line_Ok. split; [done|right]. exists key, value. split_and!; [done..|]. apply Hnul.
        by rewrite lookup_union lookup_singleton_eq union_Some_l. }
      apply IH. exists rest. rewrite map_union_assoc. split_and!; [done..|]. intros k v Hv.
      rewrite lookup_union_None. intros [Hk Hne]. apply (Hnul k v); [|done].
      by rewrite lookup_union Hne (left_id_L None _).
    + assert (env_line n text env = Ok env) as -> by (apply env_line_Ok; eauto). apply IH. by exists rest.
Qed.

Lemma loadEnvFile_Ok file env env' :
  loadEnvFile file env = (Ok tt, env') <-> exists entries, file_says env file entries /\ env' = env ∪ entries.
Proof.
  destruct file as [|e|text read]; cbn [loadEnvFile].
  - split; [intros [= <-]; exists ∅; split; [constructor|by rewrite (map_union_empty env)]|].
    intros (entries & H & ->). inversion H. by rewrite (map_union_empty env).
  - split; [done|]. intros (entries & H & _). by inversion H.
  - split.
    + destruct (env_lines _ _ _) as [[[]|] env1] eqn:E; [|done]. destruct read as [[]|]; [|done]. intros [= <-].
      apply env_lines_Ok in E as (entries & Hes & -> & Hn).
      exists (given entries). split; [by constructor|done].
    + intros (entries & H & ->). inversion H as [|text' es Hes Hnul]; subst.
      assert (env_lines 1 (split_lines text) env = (Ok tt, env ∪ given es)) as ->; [|done].
      apply env_lines_Ok. by exists es.
Qed.

Lemma file_says_det env file entries entries' : file_says env file entries -> file_says env file entries' -> entries = entries'.
Proof. destruct 1 as [|text es Hes _]; inversion 1 as [|text' es' Hes' _]; [done|congruence]. Qed.

(** ** The settings *)

(** What a variable sets: a positive integer, or the default. *)
Inductive setting (env : Environ) (key : string) (fallback : Z) : Z -> Prop :=
  | unset : Getenv env key = "" -> setting env key fallback fallback
  | set_to v : Getenv env key <> "" -> Atoi (Getenv env key) = Ok v -> (0 < v)%Z -> setting env key fallback v.

Lemma getEnvIntStrict_Ok env key fallback v : getEnvIntStrict env key fallback = Ok v <-> setting env key fallback v.
Proof.
  rewrite /getEnvIntStrict. split.
  - destruct (bool_decide _) eqn:E; bool_prop; [intros [= <-]; by constructor|].
    destruct (Atoi _) as [parsed|] eqn:Ha; [|done]. intros H. ok_inv. bool_prop. by constructor.
  - destruct 1 as [E|v Hne E Hv]; [by rewrite E|]. rewrite bool_decide_eq_false_2 // E.
    by rewrite (proj2 (Z.leb_gt v 0)).
Qed.

(** The configuration that the variables ask for. *)
Inductive configured (env : Environ) : config -> Prop :=
  | configured_by workers pool slots poll lease recovery attempts queued submit :
      setting env "WORKER_COUNT" defaultWorkerCount workers ->
      setting env "SANDBOX_POOL_SIZE" defaultSandboxPoolSize pool ->
      setting env "COMPILE_SLOTS" defaultCompileSlots slots ->
      setting env "QUEUE_POLL_INTERVAL_MS" defaultQueuePollMs poll ->
      setting env "QUEUE_LEASE_MS" defaultQueueLeaseMs lease ->
      setting env "QUEUE_RECOVERY_INTERVAL_MS" defaultQueueRecoveryMs recovery ->
      setting env "QUEUE_MAX_ATTEMPTS" defaultQueueMaxAttempts attempts ->
      setting env "MAX_QUEUED" defaultMaxQueued queued ->
      setting env "SUBMIT_TIMEOUT_MS" defaultSubmitTimeoutMs submit ->
      configured env (mkConfig (getEnv env "PORT" defaultPort) workers pool slots (getEnv env "DATABASE_URL" "")
        (milliseconds poll) (milliseconds lease) (milliseconds recovery) attempts queued (milliseconds submit)).

Lemma setting_positive env key fallback v : (0 < fallback)%Z -> setting env key fallback v -> (0 < v)%Z.
Proof. by destruct 2. Qed.

(** What the rest of the program relies on. *)
Record limited (cfg : config) : Prop := {
  li_workers : (1 <= cf_workerCount cfg <= 64)%Z;
  li_pool : (1 <= cf_sandboxPoolSize cfg)%Z;
  li_slots : (1 <= cf_compileSlots cfg)%Z;
  li_memory : (cf_sandboxPoolSize cfg * MaxMemoryLimitMb + cf_compileSlots cfg * MinCompileMemoryLimitMb <= 8192)%Z;
  li_attempts : (1 <= cf_queueMaxAttempts cfg)%Z;
  li_queued : (1 <= cf_maxQueued cfg <= 100000)%Z;
  li_poll : (0 < cf_queuePoll cfg)%Z;
  li_lease : (0 < cf_queueLease cfg)%Z;
  li_recovery : (0 < cf_queueRecovery cfg)%Z;
  li_submit : (0 < cf_submitTimeout cfg <= 60 * second)%Z }.

Lemma reserved_exact pool slots :
  (1 <= pool <= 64)%Z -> (1 <= slots <= 16)%Z ->
  wrap64 (pool * MaxMemoryLimitMb + slots * MinCompileMemoryLimitMb) =
    (pool * MaxMemoryLimitMb + slots * MinCompileMemoryLimitMb)%Z.
Proof. intros. apply wrap64_id. rewrite /in_int64 /MaxMemoryLimitMb /MinCompileMemoryLimitMb. lia. Qed.

Lemma validateConfig_Ok cfg : validateConfig cfg = Ok tt <-> limited cfg.
Proof.
  assert (milliseconds maxSubmitTimeoutMs = 60 * second)%Z as E60 by done.
  rewrite /validateConfig E60 !fail_if_Ok !orb_false_iff !Z.ltb_ge !Z.leb_gt.
  rewrite /minWorkerCount /maxWorkerCount /minSandboxPoolSize /maxSandboxPoolSize /minCompileSlots /maxCompileSlots
    /maxMaxQueued /capacityMemoryBudgetMb. split.
  - intros ([? ?] & [? ?] & [? ?] & ? & [? ?] & ? & [[[? ?] ?] ?] & Hmem & _).
    by rewrite reserved_exact in Hmem.
  - intros [? ? ? Hmem]. assert (cf_sandboxPoolSize cfg <= 64 /\ cf_compileSlots cfg <= 16)%Z.
    { revert Hmem. rewrite /MaxMemoryLimitMb /MinCompileMemoryLimitMb. lia. }
    rewrite reserved_exact; [lia|lia|]. split_and!; done || lia.
Qed.

Lemma loadConfig_Ok env cfg : loadConfig env = Ok cfg <-> configured env cfg /\ limited cfg.
Proof.
  rewrite /loadConfig. split.
  - intros H. repeat (apply bind_Ok_inv in H as (? & ?%getEnvIntStrict_Ok & H)).
    apply bind_Ok_inv in H as ([] & Hv & [= <-]). split; [by constructor|]. by apply validateConfig_Ok.
  - intros [H Hl%validateConfig_Ok]. destruct H as [????????? H1 H2 H3 H4 H5 H6 H7 H8 H9].
    do 9 (match goal with H : setting _ ?k _ ?v |- context [getEnvIntStrict env ?k ?f] =>
      rewrite (proj2 (getEnvIntStrict_Ok env k f v) H) bind_Ok; clear H end).
    by rewrite Hl.
Qed.

(** A number of milliseconds that fits is kept; a larger one wraps around. *)
Lemma milliseconds_exact ms : (0 < ms <= 9223372036854)%Z -> milliseconds ms = (ms * Millisecond)%Z.
Proof. intros. apply wrap64_id. rewrite /in_int64 /Millisecond. lia. Qed.

(** The limit of SUBMIT_TIMEOUT_MS is checked after the product wrapped: about
    585 years pass for less than half a millisecond. *)
Lemma submit_timeout_wraps :
  exists cfg, loadConfig {["SUBMIT_TIMEOUT_MS" := "18446744073710"]} = Ok cfg /\ cf_submitTimeout cfg = 448384%Z.
Proof. eexists. split; vm_compute; reflexivity. Qed.

(** ** The theorem *)

(** C38 (bounds): the program starts with a configuration exactly when the
    [.env] file can be read, its entries and the process environment, which
    wins, set positive integers, and these are within the limits: together the
    sandboxes and the compilations fit in 8192 MiB, and a submission waits at
    most a minute.  What starts gives the queue and the store the values
    configured, never their defaults, and a time of up to 9223372036854 ms is
    taken as it is. *)
Theorem started_configuration file env cfg :
  (startup_config file env = Ok cfg <->
    exists entries, file_says env file entries /\ configured (env ∪ entries) cfg /\ limited cfg) /\
  (startup_config file env = Ok cfg ->
    NewPostgresSubmissionQueueWithOptions (cf_queuePoll cfg) (cf_queueLease cfg) (cf_queueMaxAttempts cfg) =
      mkQueue (cf_queuePoll cfg) (cf_queueLease cfg) (cf_queueMaxAttempts cfg) false /\
    store_maxQueued (cf_maxQueued cfg) = cf_maxQueued cfg /\
    forall entries ms, file_says env file entries ->
      setting (env ∪ entries) "SUBMIT_TIMEOUT_MS" defaultSubmitTimeoutMs ms -> (ms <= 9223372036854)%Z ->
      cf_submitTimeout cfg = (ms * Millisecond)%Z /\ (ms <= 60000)%Z).
Proof.
  assert (startup_config file env = Ok cfg <->
    exists entries, file_says env file entries /\ configured (env ∪ entries) cfg /\ limited cfg) as Hiff.
  { rewrite /startup_config. pose proof (loadEnvFile_Ok file env) as Hload.
    destruct (loadEnvFile file env) as [[[]|e] env1].
    - rewrite bind_Ok loadConfig_Ok. split.
      + intros [Hc Hl]. destruct (proj1 (Hload env1) eq_refl) as (entries & Hs & ->). by exists entries.
      + intros (entries & Hs & Hc & Hl). assert ((Ok tt, env1) = (Ok tt, env ∪ entries)) as E
          by (apply Hload; by exists entries). by apply pair_equal_spec in E as [_ ->].
    - split; [done|]. intros (entries & Hs & _).
      assert ((Err e, env1) = (Ok tt, env ∪ entries)) as E by (apply Hload; by exists entries).
      by apply pair_equal_spec in E as [? _]. }
  split; [done|]. intros (entries & Hs & Hc & Hl)%Hiff. pose proof Hl as [].
  split_and!.
  - rewrite /NewPostgresSubmissionQueueWithOptions. rewrite !(proj2 (Z.leb_gt _ 0)) //; lia.
  - rewrite /store_maxQueued. rewrite (proj2 (Z.leb_gt _ 0)) //; lia.
  - intros entries' ms Hs' Hms Hle.
    assert (entries' = entries) as -> by by eapply file_says_det.
    destruct Hc as [???????? submit ???????? Hsub]. cbn [cf_submitTimeout] in *. apply getEnvIntStrict_Ok in Hsub, Hms.
    assert (ms = submit) as -> by congruence. apply getEnvIntStrict_Ok, setting_positive in Hms; [|done].
    rewrite (milliseconds_exact submit (conj Hms Hle)) in li_submit0 |- *. split; [done|].
    rewrite /second /Millisecond in li_submit0. lia.
Qed.

(** ** A start with a file *)

Definition sample_env_file : EnvFile :=
  Opened ("# local" +:+ newline +:+ "export WORKER_COUNT = '8'" +:+ newline +:+ "PORT=9090") (Ok tt).

Example sample_start :
  startup_config sample_env_file {["PORT" := "8081"]} =
    Ok (mkConfig "8081" 8 4 2 "" 500000000 60000000000 1000000000 3 100 10000000000).
Proof. vm_compute. reflexivity. Qed.

Example sample_overcommitted :
  is_ok (startup_config Missing {["SANDBOX_POOL_SIZE" := "15"]}) = false /\
  is_ok (startup_config Missing {["SANDBOX_POOL_SIZE" := "14"]}) = true.
Proof. split; vm_compute; reflexivity. Qed.

Lemma started_configuration_witness :
  exists cfg, startup_config sample_env_file {["PORT" := "8081"]} = Ok cfg /\
    store_maxQueued (cf_maxQueued cfg) = cf_maxQueued cfg.
Proof.
  exists (mkConfig "8081" 8 4 2 "" 500000000 60000000000 1000000000 3 100 10000000000).
  split; [exact sample_start|].
  exact (proj1 (proj2 (proj2 (started_configuration _ _ _) sample_start))).
Defined.
