(* ===== verification/Server.v ===== *)
(** * Start-up and shutdown: main of cmd/server/main.go

    What [main] acquires and gives back, as a log.  [log.Fatal] ends the process
    without running the deferred calls: it is an error of [main]. *)

From S2P Require Import Prelude GoStrings GoJson Contracts Queries Store Validate Docker Effects Config.

Inductive ServerAction :=
  | ActStartSandbox (name : string)
  | ActRemoveSandbox (name : string)
  | ActOpenPool (sandboxes : list string)
  | ActClosePool
  | ActOpenDatabase
  | ActCloseDatabase
  | ActOpenService (compileSlots : Z)
  | ActCloseService
  | ActStartRecovery (interval : Z)
  | ActStartWorkers (count : Z)
  | ActCancelWorkers
  | ActListen
  | ActDraining
  | ActShutdownServer
  | ActCloseQueue
  | ActWorkersWaited (stopped : bool).

(** What the machine, the database and the clients answer while the process
    runs.  [bt_listen] is an error of [ListenAndServe] other than
    [ErrServerClosed]; when there is none, a signal shuts the server down. *)
Record Boot := mkBoot {
  bt_file : EnvFile;
  bt_environ : Environ;
  bt_sandbox : nat -> result string;
  bt_connect : result unit;
  bt_ping : result unit;
  bt_migrate : result unit;
  bt_recover : result Z;
  bt_listen : result unit;
  bt_workersStopped : bool }.

Abbreviation process := (eff unit ServerAction).

Definition emits (actions : list ServerAction) : process unit := fun w => (Ok tt, mkWorld tt (w_log w ++ actions)).

Definition cleanupSandboxes (sandboxes : list string) : process unit := emits (map ActRemoveSandbox sandboxes).

(** The loop of [buildSandboxPool], with [count] sandboxes to start. *)
Fixpoint build_loop (start : nat -> result string) (i count : nat) (sandboxes : list string)
    : process (list string) :=
  match count with
  | O => mret sandboxes
  | S count =>
      match start i with
      | Err e => cleanupSandboxes sandboxes;; lift (Err e)
      | Ok sandbox => emit (ActStartSandbox sandbox);; build_loop start (S i) count (sandboxes ++ [sandbox])
      end
  end.

Definition buildSandboxPool (start : nat -> result string) (size : Z) : process (list string) :=
  build_loop start 0 (Z.to_nat size) [].

Definition buildPersistence (bt : Boot) (cfg : config) : process unit :=
  if bool_decide (cf_databaseURL cfg = "") then lift (Err (Errorf "DATABASE_URL is required" []))
  else
    lift (bt_connect bt);;
    emit ActOpenDatabase;;
    on_failure (emit ActCloseDatabase) (lift (bt_ping bt));;
    on_failure (emit ActCloseDatabase) (lift (bt_migrate bt)).

(** The goroutine that waits for a signal, up to [close(shutdownDone)]. *)
Definition shutdown (bt : Boot) : process unit :=
  emits [ActDraining; ActShutdownServer; ActCancelWorkers; ActCloseQueue; ActWorkersWaited (bt_workersStopped bt);
         ActCloseService; ActClosePool].

(** The deferred calls of [main], last one first. *)
Definition deferred : process unit := emits [ActCancelWorkers; ActCloseService; ActCloseDatabase; ActClosePool].

Definition main (bt : Boot) : process unit :=
  let '(loaded, env) := loadEnvFile (bt_file bt) (bt_environ bt) in
  lift loaded;;
  cfg ← lift (loadConfig env);
  sandboxes ← buildSandboxPool (bt_sandbox bt) (cf_sandboxPoolSize cfg);
  emit (ActOpenPool sandboxes);;
  on_failure (emit ActClosePool) (buildPersistence bt cfg);;
  emit (ActOpenService (cf_compileSlots cfg));;
  on_failure (emits [ActCloseDatabase; ActCloseService; ActClosePool]) (lift (bt_recover bt));;
  emit (ActStartRecovery (cf_queueRecovery cfg));;
  emit (ActStartWorkers (cf_workerCount cfg));;
  emit ActListen;;
  lift (bt_listen bt);;
  shutdown bt;;
  deferred.

(** ** What is open *)

Record Open := mkOpen {
  op_sandboxes : list string;
  op_pool : bool;
  op_database : bool;
  op_service : bool;
  op_workers : bool }.

Definition nothing_open : Open := mkOpen [] false false false false.

(** The pool takes over the sandboxes it is built from, and removes them when
    it is closed; closing twice is closing once. *)
Definition open_step (o : Open) (action : ServerAction) : Open :=
  match action with
  | ActStartSandbox name => mkOpen (op_sandboxes o ++ [name]) (op_pool o) (op_database o) (op_service o) (op_workers o)
  | ActRemoveSandbox name =>
      mkOpen (match list_find (eq name) (op_sandboxes o) with Some (i, _) => delete i (op_sandboxes o) | None => op_sandboxes o end)
        (op_pool o) (op_database o) (op_service o) (op_workers o)
  | ActOpenPool sandboxes =>
      mkOpen (drop (length sandboxes) (op_sandboxes o)) true (op_database o) (op_service o) (op_workers o)
  | ActClosePool => mkOpen (op_sandboxes o) false (op_database o) (op_service o) (op_workers o)
  | ActOpenDatabase => mkOpen (op_sandboxes o) (op_pool o) true (op_service o) (op_workers o)
  | ActCloseDatabase => mkOpen (op_sandboxes o) (op_pool o) false (op_service o) (op_workers o)
  | ActOpenService _ => mkOpen (op_sandboxes o) (op_pool o) (op_database o) true (op_workers o)
  | ActCloseService => mkOpen (op_sandboxes o) (op_pool o) (op_database o) false (op_workers o)
  | ActStartWorkers _ => mkOpen (op_sandboxes o) (op_pool o) (op_database o) (op_service o) true
  | ActCancelWorkers => mkOpen (op_sandboxes o) (op_pool o) (op_database o) (op_service o) false
  | _ => o
  end.

Definition open_after (log : list ServerAction) : Open := foldl open_step nothing_open log.

Lemma open_after_app l1 l2 : open_after (l1 ++ l2) = foldl open_step (open_after l1) l2.
Proof. apply foldl_app. Qed.

Lemma removes_all sandboxes rest :
  foldl open_step (mkOpen (sandboxes ++ rest) false false false false) (map ActRemoveSandbox sandboxes) =
  mkOpen rest false false false false.
Proof.
  induction sandboxes as [|s sandboxes IH]; [done|]. cbn [map foldl open_step op_sandboxes app list_find].
  destruct (decide (s = s)) as [_|]; [|done]. cbn [delete list_delete op_pool op_database op_service op_workers]. exact IH.
Qed.

(** Starting the sandboxes leaves what the pool takes over, or nothing. *)
Lemma build_loop_open start i count sandboxes log :
  open_after log = mkOpen sandboxes false false false false ->
  let '(r, w) := build_loop start i count sandboxes (mkWorld tt log) in
  match r with
  | Ok built => open_after (w_log w) = mkOpen built false false false false /\ length built = (length sandboxes + count)%nat
  | Err _ => open_after (w_log w) = nothing_open
  end.
Proof.
  revert i sandboxes log. induction count as [|count IH]; intros i sandboxes log Hopen; cbn [build_loop].
  { cbn. by rewrite Nat.add_0_r. }
  destruct (start i) as [sandbox|e].
  - rewrite /mbind /eff_bind /emit. cbn [w_state w_log].
    specialize (IH (S i) (sandboxes ++ [sandbox]) (log ++ [ActStartSandbox sandbox])).
    rewrite open_after_app Hopen in IH. specialize (IH eq_refl).
    destruct (build_loop _ _ _ _ _) as [[built|e] w]; [|done]. destruct IH as [? Hlen]. split; [done|].
    rewrite Hlen length_app /=. lia.
  - rewrite /mbind /eff_bind /cleanupSandboxes /emits /lift. cbn [w_state w_log]. rewrite open_after_app Hopen.
    pose proof (removes_all sandboxes []) as Hall. by rewrite app_nil_r in Hall.
Qed.

(** ** The theorem *)

Definition serving : Open := mkOpen [] true true true true.

(** C40: however the process ends, no sandbox, pool, worker, service or connection
    is left behind, except when the server cannot listen: then [log.Fatal]
    skips the deferred calls and leaves them all, the sandbox containers
    included. *)
Theorem process_leaves_nothing bt :
  let '(r, w) := main bt (mkWorld tt []) in
  match r with
  | Ok _ => bt_listen bt = Ok tt /\ open_after (w_log w) = nothing_open
  | Err e => open_after (w_log w) = nothing_open \/ (bt_listen bt = Err e /\ open_after (w_log w) = serving)
  end.
Proof.
  rewrite /main. destruct (loadEnvFile _ _) as [[[]|e] env]; [|by left].
  rewrite /mbind /eff_bind /lift. destruct (loadConfig env) as [cfg|e]; [|by left].
  pose proof (build_loop_open (bt_sandbox bt) 0 (Z.to_nat (cf_sandboxPoolSize cfg)) [] [] eq_refl) as Hbuild.
  rewrite /buildSandboxPool. destruct (build_loop _ _ _ _ _) as [[sandboxes|e] [[] log]]; [|by left].
  destruct Hbuild as [Hopen _]. cbn [w_log] in Hopen.
  assert (forall actions, open_after (log ++ ActOpenPool sandboxes :: actions) =
    foldl open_step (mkOpen [] true false false false) actions) as Hafter.
  { intros actions. rewrite open_after_app Hopen. cbn [foldl open_step op_sandboxes]. by rewrite drop_all. }
  rewrite /on_failure /buildPersistence /emits /emit /lift. case_bool_decide; cbn [w_state w_log].
  { left. rewrite -app_assoc. exact (Hafter [ActClosePool]). }
  rewrite /mbind /eff_bind.
  destruct (bt_connect bt) as [[]|e]; cbn [w_state w_log snd].
  2:{ left. rewrite -app_assoc. exact (Hafter [ActClosePool]). }
  destruct (bt_ping bt) as [[]|e]; cbn [w_state w_log snd].
  2:{ left. rewrite -!app_assoc. exact (Hafter [ActOpenDatabase; ActCloseDatabase; ActClosePool]). }
  destruct (bt_migrate bt) as [[]|e]; cbn [w_state w_log snd].
  2:{ left. rewrite -!app_assoc. exact (Hafter [ActOpenDatabase; ActCloseDatabase; ActClosePool]). }
  destruct (bt_recover bt) as [count|e]; cbn [w_state w_log snd].
  2:{ left. rewrite -!app_assoc. exact (Hafter [ActOpenDatabase; ActOpenService _; ActCloseDatabase; ActCloseService; ActClosePool]). }
  destruct (bt_listen bt) as [[]|e]; cbn [w_state w_log snd].
  - split; [done|]. rewrite /shutdown /deferred /emits. cbn [w_log]. rewrite -!app_assoc. by rewrite Hafter.
  - right. split; [done|]. rewrite -!app_assoc. by rewrite Hafter.
Qed.

(** The failure to listen, with the sandboxes it leaves. *)
Example listen_failure :
  let bt := mkBoot Missing {["DATABASE_URL" := "postgres://localhost"]} (fun i => Ok (Itoa (Z.of_nat i))) (Ok tt) (Ok tt) (Ok tt)
    (Ok 0%Z) (Err (LibErr "address already in use")) true in
  open_after (w_log (snd (main bt (mkWorld tt [])))) = serving.
Proof. vm_compute. reflexivity. Qed.
