(* ===== verification/EndToEnd.v ===== *)
(** * From the request to the answer

    The server, the queue, a worker and its environment together: what a client
    that posts a job reads once the job is judged. *)

From S2P Require Import Prelude GoStrings GoJson Contracts Queries Store Adapters Harness CppHarness CppClass PyHarness.
From S2P Require Import Languages Validate Verdict TestCases Observations Effects Paths Workspace WorkspaceLaws Service ServiceLaws Worker Renewal.
From S2P Require Import GoStruct GoScanner JobJson Buffers Pool Metrics Http HttpLaws.

Section Journey.
Context `{Float64} `{UnicodeTables} `{PrintTables} `{ColumnCodec}.

(** A job and a result as they are read back from their columns.  PostgreSQL
    prints a [jsonb] value in its own way, so this need not be the identity. *)
Record columns (stored : Job -> Job) (shown : Result -> Result) : Prop := {
  co_job : forall job text, marshalJob job = Ok text -> unmarshalJob text = Ok (stored job);
  co_result : forall result text, marshalRes result = Ok text -> text <> "" /\ unmarshalRes text = Ok (shown result) }.

(** ** The job column *)

Definition job_text (id text : string) (t : table) : Prop := exists r, t !! id = Some r /\ r_job r = text.

Definition leaves_job (id text : string) (others : table -> table) : Prop :=
  forall t, job_text id text t -> job_text id text (others t).

(** The other clients of the database while the lease is renewed. *)
Definition others_leave_job (id text : string) (turns : nat -> list LeaseTurn) (after : nat -> table -> table) : Prop :=
  forall n, Forall (fun turn => match turn with
    | LeaseTick others _ _ => leaves_job id text others
    | LeaseContextDone => True
    end) (turns n) /\ leaves_job id text (after n).

(** A renewal writes the lease only. *)
Lemma renewal_job_text q claim turns id text (w : World table LeaseAction) :
  Forall (fun turn => match turn with
    | LeaseTick others _ _ => leaves_job id text others
    | LeaseContextDone => True
    end) turns ->
  job_text id text (w_state w) -> job_text id text (w_state (snd (renewal_loop q claim turns w))).
Proof.
  intros Hturns. revert w. induction Hturns as [|turn turns Hturn Hturns IH]; intros w Ht; cbn [renewal_loop]; [done|].
  destruct turn as [|others now reached]; [done|]. apply Hturn in Ht.
  rewrite /mbind /eff_bind /attempt /renew. destruct reached as [[]|e]; [|done]. rewrite bind_Ok.
  destruct (RenewLease q now claim _) as [t'|e] eqn:Hrenew; [|done]. apply IH. cbn.
  apply RenewLease_Ok in Hrenew as (r & l & Hr & _ & _ & _ & _ & ->). destruct Ht as (r' & Hr' & Hj).
  destruct (decide (clm_ID claim = id)) as [<-|Hne].
  - rewrite Hr in Hr'. injection Hr' as <-. eexists. rewrite lookup_insert_eq. by split.
  - exists r'. by rewrite lookup_insert_ne.
Qed.

Lemma database_leaves_job db q claim turns after last id text n :
  ticking db q claim turns after last -> others_leave_job id text turns after -> leaves_job id text (db_others db n).
Proof.
  intros Ht Ho t Hj. rewrite (ti_database _ _ _ _ _ _ Ht). destruct (Ho n) as [Hturns Hafter]. apply Hafter.
  rewrite /renewSubmissionLease /defer. pose proof (renewal_job_text q claim _ id text (mkWorld t []) Hturns Hj) as Hl.
  by destruct (renewal_loop _ _ _ _) as [answer w].
Qed.

Lemma update_job_text db id text sub state state' :
  (forall n, leaves_job id text (db_others db n)) -> job_text id text state.1 ->
  @store_Update _ (pg_store db) sub state = Ok state' -> job_text id text state'.1.
Proof.
  intros Hdb Ht. destruct state as [t n]. rewrite /store_Update /pg_store.
  intros (t' & Hu & [= <-])%bind_Ok_inv. cbn in *. apply (Hdb n) in Ht as (r & Hr & Hj).
  apply UpdateContext_Ok in Hu as (r' & res & Hr' & _ & _ & _ & ->).
  destruct (decide (sub_ID sub = id)) as [E|Hne].
  - rewrite E Hr in Hr'. injection Hr' as <-. eexists. rewrite E lookup_insert_eq. split; [done|]. exact Hj.
  - exists r. by rewrite lookup_insert_ne.
Qed.

Lemma replay_job_text db id text us state state' :
  (forall n, leaves_job id text (db_others db n)) -> job_text id text state.1 ->
  replay (H2 := pg_store db) us state = Ok state' -> job_text id text state'.1.
Proof.
  intros Hdb. rewrite /replay /foldM. generalize O at 1. revert state.
  induction us as [|sub us IH]; intros state i Ht; cbn [foldM_from]; [by intros [= <-]|].
  intros (state1 & Hu & Hus)%bind_Ok_inv. by eapply IH, Hus; eapply update_job_text.
Qed.

(** A turn of the worker leaves it too. *)
Lemma worker_turn_job_text db registry env claim id text (w : World (table * nat) Action) :
  (forall n, leaves_job id text (db_others db n)) -> job_text id text (w_state w).1 ->
  job_text id text (w_state (snd (worker_turn db registry env claim w))).1.
Proof.
  intros Hdb Ht. rewrite /worker_turn. set (st := pg_store db). destruct (store_Get _ _) as [sub|]; [|done].
  destruct (negb _); [done|]. destruct (_ && _); [done|].
  set (m := if is_nil (sub_CreatedAt sub) then mret tt else observe env QueueWaitTiming).
  assert (exists log, m w = (Ok tt, mkWorld (w_state w) log)) as [log Hm].
  { subst m. destruct w as [t log], (is_nil _); by eexists. }
  rewrite /mbind /eff_bind Hm /attempt /emit. cbn [w_state w_log].
  destruct (ProcessSubmission_yields registry env sub (mkWorld (w_state w) (log ++ [ActWorkerStarted]))) as (es & _ & Hr & _).
  destruct (ProcessSubmission registry env sub _) as [answer w']. cbn [fst snd w_state] in *.
  by eapply replay_job_text.
Qed.

(** ** The stages *)

(** The answer 202 of the two asynchronous paths is given for a job that is
    stored. *)
Lemma accepted_is_stored ex r maxQueued now others read queue t t1 log :
  rq_Method r = MethodPost -> rq_Path r ∈ ["/judge"; "/submissions"] ->
  ex_persistence ex = postgres maxQueued now Reached others read queue ->
  serve ex r (mkWorld t []) = (Ok tt, mkWorld t1 log) -> status_of log = Some StatusAccepted ->
  exists job text, job_of_body r = inr job /\ marshalJob job = Ok text /\
    t1 !! new_id ex = Some (queued_row now text) /\
    payloads log = [SubmissionAcceptedResponse (new_id ex) SubmissionQueued].
Proof.
  intros Hm Hp Hps Hserve Hstatus.
  assert (posting r) as Hpost by (split; [done|]; set_solver).
  assert (rq_Path r <> "/submit") as Hpath by (intros E; rewrite E in Hp; set_solver).
  pose proof (serve_post ex r (fun submission t => admitted_save maxQueued now Reached others t submission) t Hpost) as Hlog.
  rewrite Hps in Hlog. specialize (Hlog eq_refl). rewrite Hserve /post_log in Hlog.
  assert (forall rf, rf_status rf <> StatusAccepted -> ~ sends log (request_id ex r) (Some (rf_status rf, refusal_payload rf (request_id ex r))))
    as Hno. { intros rf Hne [_ _ Hs _]. rewrite Hstatus /= in Hs. congruence. }
  destruct (check_job (ex_busySlots ex) r) as [rf|job] eqn:Hjob.
  { rewrite app_nil_r in Hlog. injection Hlog as Et El. destruct (refusal_logged ex r rf (request_id ex r) Hjob) as [Hsends _]. rewrite -El in Hsends.
    destruct (Hno rf); [|done]. revert Hjob. rewrite /check_job /job_of_body.
    destruct (_ <? _)%nat; [|by intros [= <-]]. destruct (decode_body _ _ _) as [err|]; [destruct (is_MaxBytesError err)|destruct (ValidateJob _)];
      by intros [= <-]. }
  pose proof (admission_save ex r maxQueued now Reached others t job Hjob) as Hadm.
  rewrite (checked_calls _ _ _ _ Hjob) in Hlog.
  destruct (admitted_save _ _ _ _ _ _) as [[[]|e] t'] eqn:Hsave; cbn [fst snd] in Hlog; injection Hlog as -> El.
  - inversion Hadm as [| | | | | |job' text Hj _ Hq Ht Hnone]. subst job'. exists job, text.
    rewrite lookup_insert_eq. split_and!; try done.
    + revert Hjob. rewrite /check_job. by destruct (_ <? _)%nat.
    + rewrite El. destruct (stored_sent ex (rq_Path r) (new_submission ex job) (request_id ex r) eq_refl) as [[_ _ _ Hpay] _].
      rewrite Hpay /reply bool_decide_eq_false_2 //.
  - pose proof (refusal_sent [SlotTaken; SlotFreed] [] (admission_refusal e) (request_id ex r)) as Hs.
    rewrite app_nil_r in Hs. rewrite El in Hno. destruct (Hno (admission_refusal e)).
    + rewrite /admission_refusal. by destruct (is_ErrQueueFull e).
    + apply Hs. by right; right; left.
Qed.

(** A claim of a stored job starts its first attempt. *)
Lemma claimed_job stored shown q now claimed locked t c t2 job text :
  columns stored shown -> marshalJob job = Ok text -> t !! clm_ID c = Some (queued_row now text) ->
  claimNextSubmission q claimed locked t = Ok (Some (c, t2)) ->
  clm_Attempt c = 1%Z /\ job_text (clm_ID c) text t2 /\
  exists sub, store_Get (clm_ID c) t2 = Some sub /\ sub_Job sub = stored job /\ sub_Result sub = None.
Proof.
  intros Hco Ht Hrow (r & Hr & _ & _ & _ & Ha & _ & ->)%claimNext_Ok. rewrite Hrow in Hr. injection Hr as <-.
  split; [exact Ha|]. split; [by eexists; rewrite lookup_insert_eq|].
  rewrite /store_Get /GetContext /GetSubmission lookup_insert_eq. cbn [r_job r_result queued_row].
  rewrite (co_job _ _ Hco _ _ Ht) !bind_Ok. by eexists.
Qed.

(** What is read of a settled row. *)
Lemma settled_job stored shown id a status result t job text :
  columns stored shown -> marshalJob job = Ok text -> settled_with id a status result t -> job_text id text t ->
  exists sub, GetContext id t = Ok (Some sub) /\ sub_ID sub = id /\ sub_Status sub = status /\
    sub_Result sub = Some (shown result).
Proof.
  intros Hco Ht (r & res & Hr & Hs & _ & Hres & Er & _) (r' & Hr' & Hj). rewrite Hr in Hr'. injection Hr' as <-.
  rewrite /GetContext /GetSubmission Hr Hj (co_job _ _ Hco _ _ Ht) bind_Ok Er.
  apply (co_result _ _ Hco) in Hres as [Hne Hread]. destruct res as [|b res]; [done|].
  cbn [String.length Nat.ltb Nat.leb]. rewrite Hread !bind_Ok. by eexists.
Qed.

Lemma Itoa_not_empty z : Itoa z <> "".
Proof.
  destruct (Itoa_cases z) as [[_ ->]|[_ ->]]; [|done]. intros E.
  destruct (pretty_N_spec (Z.to_N z)) as (_ & _ & c & rest & E' & _). by rewrite E in E'.
Qed.

Lemma TrimPrefix_append prefix rest : TrimPrefix (prefix +:+ rest) prefix = rest.
Proof.
  rewrite /TrimPrefix HasPrefix_append. induction prefix as [|c prefix IH]; [|exact IH].
  change ("" +:+ rest) with rest. cbn [String.length]. rewrite Nat.sub_0_r.
  induction rest as [|c rest IH]; [done|]. cbn. by rewrite IH.
Qed.

(** What is read of a row that is still running. *)
Lemma unsettled_job stored shown id a time t job text :
  columns stored shown -> marshalJob job = Ok text -> unsettled id a time t -> job_text id text t ->
  exists sub, GetContext id t = Ok (Some sub) /\ sub_ID sub = id /\ sub_Status sub = SubmissionRunning /\
    sub_Result sub = None.
Proof.
  intros Hco Ht (r & l & Hr & Hs & _ & _ & _ & Hempty) (r' & Hr' & Hj). rewrite Hr in Hr'. injection Hr' as <-.
  rewrite /GetContext /GetSubmission Hr Hj (co_job _ _ Hco _ _ Ht) bind_Ok.
  destruct (r_result r) as [text'|]; cbn in Hempty; [subst text'|]; by eexists.
Qed.

(** Asking for a submission. *)
Lemma serve_get ex r id t sub :
  rq_Method r = MethodGet -> rq_Path r = "/submissions/" +:+ id -> id <> "" ->
  st_Get (ex_persistence ex) id t = Ok (Some sub) ->
  exists log, serve ex r (mkWorld t []) = (Ok tt, mkWorld t log) /\ status_of log = Some StatusOK /\
    payloads log = [SubmissionResponse (sub_ID sub) (sub_Status sub) (sub_Result sub)].
Proof.
  intros Hm Hp Hne Hget. eexists.
  assert (mux ex r = submissionHandler ex r) as Hmux.
  { rewrite /mux Hp. rewrite HasPrefix_append !bool_decide_eq_false_2 //. }
  rewrite /serve /requestIDMiddleware {1}/mbind /eff_bind {1}/emit Hmux /submissionHandler Hm Hp TrimPrefix_append.
  rewrite (bool_decide_eq_true_2 (MethodGet = MethodGet)) // bool_decide_eq_false_2 // bool_decide_eq_false_2.
  { intros E. apply (f_equal String.length) in E. rewrite length_append in E. cbn in E. lia. }
  rewrite /getSubmission /mbind /eff_bind. cbn [negb orb w_state w_log]. rewrite Hget /emit. split; [done|]. by split.
Qed.

(** ** The theorem *)

(** C1 (functional, end to end): when a posted job is answered 202 under an id,
    a worker claims that id, renews its lease in time and judges it in a healthy
    environment, then the cases have a verdict: accepted when every case passed,
    and otherwise the first case that did not pass with the status it earns; and
    asking for the id answers 200 with a finished submission and that verdict.
    The exception is a verdict that the result column refuses (a [jsonb] text
    cannot hold U+0000, which a contestant can print): it is not stored, and the
    answer is that the submission is running.  A healthy environment runs every
    case that is reached, under the supervisor or case by case; a supervisor
    stops at the first case that did not end well.  Between the request, the
    claim, the worker's updates and the question any client may change the
    table, except this row. *)
Theorem posted_job_gets_its_verdict stored shown ex r maxQueued now others read queue t t1 log job
    q claimed locked before c t2 db turns after last env spec results wlog ex' r' t4 :
  columns stored shown ->
  (* the request *)
  rq_Method r = MethodPost -> rq_Path r ∈ ["/judge"; "/submissions"] ->
  ex_persistence ex = postgres maxQueued now Reached others read queue ->
  serve ex r (mkWorld t []) = (Ok tt, mkWorld t1 log) -> status_of log = Some StatusAccepted ->
  job_of_body r = inr job ->
  (* the claim *)
  before !! new_id ex = t1 !! new_id ex ->
  claimNextSubmission q claimed locked before = Ok (Some (c, t2)) -> clm_ID c = new_id ex ->
  (* the worker *)
  ticking db q c turns after last -> last O = claimed ->
  (forall text, others_leave_job (new_id ex) text turns after) ->
  ValidateJob (stored job) = Ok tt -> supportedLanguages !! job_Language (stored job) = Some spec ->
  healthy env (stored job) spec results ->
  (* the question *)
  rq_Method r' = MethodGet -> rq_Path r' = "/submissions/" +:+ new_id ex ->
  t4 !! new_id ex = (w_state (snd (worker_turn db supportedLanguages env c (mkWorld (t2, O) wlog)))).1 !! new_id ex ->
  st_Get (ex_persistence ex') = GetContext ->
  payloads log = [SubmissionAcceptedResponse (new_id ex) SubmissionQueued] /\
  exists result log', case_verdict env (stored job) results result /\
    serve ex' r' (mkWorld t4 []) = (Ok tt, mkWorld t4 log') /\ status_of log' = Some StatusOK /\
    payloads log' = [match marshalRes result with
                     | Ok _ => SubmissionResponse (new_id ex) SubmissionFinished (Some (shown result))
                     | Err _ => SubmissionResponse (new_id ex) SubmissionRunning None
                     end].
Proof.
  intros Hco Hm Hp Hps Hserve Hstatus Hjob Hbefore Hclaim Hid Hticking Hlast Hleaves Hv Hspec Hh Hm' Hp' Ht4 Hget.
  destruct (accepted_is_stored _ _ _ _ _ _ _ _ _ _ Hm Hp Hps Hserve Hstatus) as (job' & text & Hjob' & Htext & Hrow & Hpay).
  rewrite Hjob in Hjob'. injection Hjob' as <-. split; [exact Hpay|].
  rewrite -Hbefore -Hid in Hrow.
  destruct (claimed_job _ _ _ _ _ _ _ _ _ _ _ Hco Htext Hrow Hclaim) as (Ha & Htext2 & sub & Hsub & Hsj & Hnone).
  rewrite -Hsj in Hv, Hspec, Hh. rewrite -Hid in Hleaves Hp' Ht4 |- *.
  destruct (accepted_submission_is_judged db q claimed locked before c t2 (fun n => last n + lease_interval q - 1)%Z
    env spec results sub wlog) as (result & Hverdict & Hset); try done.
  { rewrite Hlast. lia. }
  { by rewrite Ha. }
  { eapply ticking_renewed; [|done]. by rewrite Ha. }
  pose proof (worker_turn_job_text db supportedLanguages env c _ _ (mkWorld (t2, O) wlog)
    (fun n => database_leaves_job _ _ _ _ _ _ _ text n Hticking (Hleaves text)) Htext2) as Htext3.
  set (t3 := (w_state _).1) in *. set (asked := match marshalRes result with
    | Ok _ => SubmissionResponse (clm_ID c) SubmissionFinished (Some (shown result))
    | Err _ => SubmissionResponse (clm_ID c) SubmissionRunning None end).
  assert (exists sub', GetContext (clm_ID c) t3 = Ok (Some sub') /\
    SubmissionResponse (sub_ID sub') (sub_Status sub') (sub_Result sub') = asked) as (sub' & Hread & Hasked).
  { subst asked. destruct (marshalRes result).
    - destruct (settled_job _ _ _ _ _ _ _ _ _ Hco Htext Hset Htext3) as (sub' & Hread & E1 & E2 & E3).
      exists sub'. by rewrite E1 E2 E3.
    - destruct (unsettled_job _ _ _ _ _ _ _ _ Hco Htext Hset Htext3) as (sub' & Hread & E1 & E2 & E3).
      exists sub'. by rewrite E1 E2 E3. }
  destruct (serve_get ex' r' (clm_ID c) t4 sub') as (log' & Hserve' & Hst' & Hpay'); [done|done| | |].
  { rewrite Hid. apply Itoa_not_empty. }
  { rewrite Hget -Hread /GetContext /GetSubmission Ht4. done. }
  exists result, log'. rewrite -Hsj. split_and!; [done..|]. by rewrite Hpay' Hasked.
Qed.
End Journey.
