(* ===== verification/Samples.v ===== *)
(** * Concrete jobs

    Jobs on which the theorems about admission and verdicts are applied; the
    numbers and names are those a small problem would use. *)

From S2P Require Import Prelude GoStrings GoJson TypeSyntax Contracts Adapters Resolved Harness.
From S2P Require Import CppHarness CppClass PyHarness Languages Validate Verdict TestCases Observations.
From S2P Require Import GoStruct GoScanner JobJson Buffers Pool Metrics Http HttpLaws.
From S2P Require Import Admission Generation Judging Queries Store Effects Paths Workspace Service ServiceLaws Worker Renewal EndToEnd.
From S2P Require Import Docker Wire Protocol.

#[local] Existing Instance latin1_tables.
#[local] Existing Instance latin1_print.
#[local] Existing Instance two_doubles.

Definition sum_function : FunctionSpec :=
  mkFunctionSpec "sum" "int" [mkFunctionParam "values" "const vector<int>&"; mkFunctionParam "limit" "int"]
    [] [] None.

Definition sum_case (id : Z) (values limit expected : string) : TestCase :=
  mkTestCase id "" "" "" [values; limit] expected [] [].

Definition sum_job (language : string) : Job :=
  mkJob language "" "class Solution {};" (Some sum_function) None
    [sum_case 1 "[1,2,3]" "10" "6"; sum_case 2 "[]" "0" "0"] (mkLimits 1000 256).

Definition counter_class : ClassSpec :=
  mkClassSpec "Counter" [mkFunctionParam "start" "int"]
    [mkClassOperationSpec "add" "void" [mkFunctionParam "amount" "int"];
     mkClassOperationSpec "get" "int" []].

Definition counter_job (language : string) : Job :=
  mkJob language "class" "class Counter: pass" None (Some counter_class)
    [mkTestCase 7 "" "" "" [] "[null,5]" ["2"] [mkOperationCall "add" ["3"]; mkOperationCall "get" []]]
    (mkLimits 2000 128).

Example sum_cpp_accepted : ValidateJob (sum_job "cpp") = Ok tt.
Proof. vm_compute. reflexivity. Qed.
Example sum_python_accepted : ValidateJob (sum_job "python") = Ok tt.
Proof. vm_compute. reflexivity. Qed.
Example counter_cpp_accepted : ValidateJob (counter_job "cpp") = Ok tt.
Proof. vm_compute. reflexivity. Qed.
Example counter_python_accepted : ValidateJob (counter_job "python") = Ok tt.
Proof. vm_compute. reflexivity. Qed.

Lemma accepted_job_ready_witness :
  exists expected, testCaseExpectedOutput (counter_job "python")
    (mkTestCase 7 "" "" "" [] "[null,5]" ["2"] [mkOperationCall "add" ["3"]; mkOperationCall "get" []]) =
    Ok expected.
Proof.
  apply (accepted_job_ready (counter_job "python") counter_python_accepted). by left.
Defined.

Lemma accepted_job_bounds_witness :
  NoDup (map tc_ID (job_TestCases (sum_job "cpp"))).
Proof.
  destruct (accepted_job_bounds (sum_job "cpp") sum_cpp_accepted) as (_ & _ & _ & _ & _ & Hids).
  by apply Hids.
Defined.

(** The second case prints a wrong answer. *)
Definition sample_run (stdout : string) : CaseRun :=
  mkCaseRun (Ok (Some (mkRunResult stdout "" 0 false false 12000000 1048576))) (Ok tt) false.

Definition sample_runs (i : nat) : CaseRun := sample_run (match i with O => "6" | _ => "1" end).

(** A supervisor that stops at the first of the two cases, which ran out of
    time: its output, and the one result that is decoded. *)
Definition stopped_output : string := Encode_result (mkCaseResult "6" "" (-1) 1000 4096 true false).

Definition stopped_results : list RunResult := [mkRunResult "6" "" (-1) true false 1000000000 4194304].

Definition stopped_supervisor : option (result (option (list (option RunResult)))) :=
  Some (Ok (Some (map Some stopped_results))).

Lemma stopped_answered runs : answered (sum_job "cpp") (Some (map Some stopped_results)) false runs 0
  (job_TestCases (sum_job "cpp")).
Proof. apply (decoded_answered _ stopped_output). vm_compute. reflexivity. Qed.

(** The verdict is the time limit of the first case; the second has no result. *)
Lemma run_verdict_witness :
  exists result sandbox', runTestCases stopped_supervisor (sum_job "cpp") sample_runs (mkSandboxFlags false false) =
    (Ok result, sandbox') /\ rs_Status result = TimeLimitExceeded /\
    verdict (sum_job "cpp") (job_TestCases (sum_job "cpp")) 0 (fun i tc done run =>
      done = cn_done (sample_runs i) /\
      case_answer (Some (map Some stopped_results)) false i tc (sample_runs i) = Ok run) result.
Proof.
  destruct (run_verdict (sum_job "cpp") stopped_supervisor (Some (map Some stopped_results)) sample_runs
    (mkSandboxFlags false false)) as (result & sandbox' & Hrun & Hv & _).
  - apply sum_cpp_accepted.
  - reflexivity.
  - apply stopped_answered.
  - exists result, sandbox'. split; [exact Hrun|]. split; [|exact Hv].
    assert ((runTestCases stopped_supervisor (sum_job "cpp") sample_runs (mkSandboxFlags false false)).1 =
      Ok result) as E by by rewrite Hrun.
    vm_compute in E. by injection E as <-.
Defined.

Lemma run_deadlines_witness :
  supervisorTimeout (sum_job "cpp") =
    (Z.of_nat (length (job_TestCases (sum_job "cpp"))) * (perCaseLimit (sum_job "cpp") + 25000000) +
     5000000000)%Z.
Proof. apply (run_deadlines (sum_job "cpp") sum_cpp_accepted). Defined.

(** ** Judging a submission *)

(** A host where every call succeeds, and environments around it. *)
Definition sample_host : Host := mkHost (Ok "/tmp/yexjudge-1") (Ok tt) 1000 (Ok "") (Ok tt) (Ok tt).

Definition clean_compile : RunResult := mkRunResult "" "" 0 false false 900000000 0.

Definition sample_environment (compile : result (option RunResult)) : Environment :=
  mkEnvironment sample_host compile false (Ok ("sandbox-1", mkSandboxFlags false false)) (Ok tt) None sample_runs
    (fun _ => 1000000%Z).

Definition sample_submission : Submission :=
  mkSubmission (Some 5%Z) "s1" (sum_job "cpp") SubmissionRunning None None 1 None "".

#[local] Instance agreeable_store : SubmissionStore unit := fun _ _ => Ok tt.

Definition compiler_error : goerr := Errorf "docker: %s" [FStr "/var/lib/secret"].

Definition faulty_result : Result := no_run InfrastructureError (sum_job "cpp") internal_error.

Lemma faults_are_opaque_witness :
  fault (sample_environment (Err compiler_error)) (sum_job "cpp") language_Cpp /\
  rs_Status faulty_result = InfrastructureError.
Proof.
  assert (fault (sample_environment (Err compiler_error)) (sum_job "cpp") language_Cpp) as Hf.
  { apply (fault_compiler _ _ _ "/tmp/yexjudge-1" compiler_error); vm_compute; reflexivity. }
  split; [exact Hf|].
  apply (faults_are_opaque supportedLanguages (sample_environment (Err compiler_error)) sample_submission
    language_Cpp (mkWorld tt []) faulty_result); [apply sum_cpp_accepted|reflexivity| |exact Hf].
  vm_compute. reflexivity.
Defined.

(** A column encoding that keeps what the samples vary: the language of a job
    and the status of a result. *)
Definition statuses : list Status :=
  [Accepted; WrongAnswer; TimeLimitExceeded; RuntimeError; CompilationError; MemoryLimitExceeded;
   OutputLimitExceeded; InfrastructureError; ValidationError].

Definition summary (status : Status) : Result := mkResult status 0 0 0 0 None "".

Definition status_mark (status : Status) : string :=
  match list_find (eq status) statuses with Some (i, _) => Itoa (Z.of_nat i) | None => "" end.

Definition sample_codec : ColumnCodec := {|
  marshalJob job := Ok (job_Language job);
  unmarshalJob language := Ok (sum_job language);
  marshalRes res := Ok (status_mark (rs_Status res));
  unmarshalRes mark :=
    match list_find (fun status => status_mark status = mark) statuses with
    | Some (_, status) => Ok (summary status)
    | None => Err (LibErr "unknown status")
    end |}.

#[local] Existing Instance sample_codec.

Definition sample_queue : SubmissionQueue := NewPostgresSubmissionQueueWithOptions 0 0 3.

Definition sample_table : table :=
  {[ "s1" := mkRow SubmissionQueued "cpp" None None 0 None None 5 5 ]}.

(** One renewal before each update. *)
Definition sample_claim : SubmissionClaim := mkClaim "s1" 1.
Definition sample_last (n : nat) : Z := match n with O => 50 | S n => 60 + Z.of_nat n end.
Definition sample_turns (n : nat) : list LeaseTurn := [LeaseTick id (sample_last (S n)) (Ok tt)].

Definition renewing_database (claim : SubmissionClaim) : Database :=
  mkDatabase (fun n => 100 + Z.of_nat n)%Z
    (fun n t => w_state (snd (renewSubmissionLease sample_queue claim (sample_turns n) (mkWorld t [])))).

Lemma renewing_ticking claim :
  ticking (renewing_database claim) sample_queue claim sample_turns (fun _ t => t) sample_last.
Proof.
  assert (lease_interval sample_queue = 60000000)%Z as Hlease by reflexivity.
  split; try done.
  - intros n. apply timely_tick; [|by intros t Ht|apply timely_none]. rewrite Hlease. rewrite /sample_last. destruct n; lia.
  - by intros n t Ht.
  - intros n. rewrite Hlease. cbn [db_clock renewing_database sample_last]. lia.
Qed.

Definition sample_database : Database := renewing_database sample_claim.

Definition claimed_table : table :=
  {[ "s1" := mkRow SubmissionRunning "cpp" None (Some 50%Z) 1 (Some (50 + lease_interval sample_queue)%Z) None 5 50 ]}.

Definition claimed_submission : Submission :=
  mkSubmission (Some 5%Z) "s1" (sum_job "cpp") SubmissionRunning None (Some 50%Z) 1
    (Some (50 + lease_interval sample_queue)%Z) "".

(** The compiler of the environment fails. *)
Lemma renewed_claim_settles_witness :
  exists result status, fst (worker_turn sample_database supportedLanguages
      (sample_environment (Err compiler_error)) sample_claim (mkWorld (claimed_table, O) [])) =
      Ok (Some (Ok result)) /\ (status = SubmissionFinished \/ status = SubmissionFailed) /\
    settled_with "s1" 1 status result (w_state (snd (worker_turn sample_database supportedLanguages
      (sample_environment (Err compiler_error)) sample_claim (mkWorld (claimed_table, O) [])))).1.
Proof.
  destruct (renewed_claim_settles sample_database sample_queue 50 ∅ sample_table sample_claim claimed_table sample_turns
    (fun _ t => t) sample_last supportedLanguages (sample_environment (Err compiler_error)) claimed_submission [])
    as (answer & Hturn & Hrow).
  - vm_compute. reflexivity.
  - cbn. lia.
  - reflexivity.
  - vm_compute. reflexivity.
  - apply renewing_ticking.
  - reflexivity.
  - destruct answer as [result|e].
    + destruct Hrow as (status & _ & Hst & Hset). exists result, status. split; [exact Hturn|]. split; [exact Hst|exact Hset].
    + vm_compute in Hturn. discriminate Hturn.
Defined.

(** A result column that refuses what PostgreSQL's [jsonb] refuses: the text
    with a zero byte.  The program prints one, the answer is wrong, the result
    is refused, and the row is still running when the worker is done. *)
Definition zero_byte : string := String Ascii.zero "".

Definition jsonb_codec : ColumnCodec := {|
  marshalJob := marshalJob;
  unmarshalJob := unmarshalJob;
  marshalRes res :=
    if bool_decide (tc_ActualOutput <$> rs_FailedTestCase res = Some zero_byte)
    then Err (LibErr "unsupported Unicode escape sequence") else marshalRes res;
  unmarshalRes := unmarshalRes |}.

Definition zero_byte_environment : Environment :=
  mkEnvironment sample_host (Ok (Some clean_compile)) false (Ok ("sandbox-1", mkSandboxFlags false false)) (Ok tt) None
    (fun _ => sample_run zero_byte) (fun _ => 1000000%Z).

Example zero_byte_left_running :
  let run := worker_turn (H2 := jsonb_codec) sample_database supportedLanguages zero_byte_environment
    sample_claim (mkWorld (claimed_table, O) []) in
  fst run = Ok (Some (Err (LibErr "unsupported Unicode escape sequence"))) /\
  r_status <$> (w_state (snd run)).1 !! "s1" = Some SubmissionRunning.
Proof. vm_compute. by split. Qed.

(** An environment in which the supervisor stopped at the first case. *)
Definition healthy_environment : Environment :=
  mkEnvironment sample_host (Ok (Some clean_compile)) false (Ok ("sandbox-1", mkSandboxFlags false false)) (Ok tt)
    stopped_supervisor sample_runs (fun _ => 1000000%Z).

Lemma sample_healthy : healthy healthy_environment (sum_job "cpp") language_Cpp (Some (map Some stopped_results)).
Proof.
  split; try reflexivity.
  - discriminate.
  - intros _. exists clean_compile. by repeat split.
  - apply stopped_answered.
Qed.

(** ** A request to the server *)

Definition sample_body : string :=
  object_text
    [("language", quoted "python"); ("sourceCode", quoted "print(1)");
     ("testCases", array_text [object_text [("id", "1"); ("expectedOutput", quoted "1")]]);
     ("limits", object_text [("timeLimitMs", "1000"); ("memoryLimitMb", "64")])].

Definition sample_request (body : string) : Request := mkRequest MethodPost "/judge" "client-7" body StreamEOF.

Definition sample_exchange (busy : nat) (reach : Reach) : Exchange :=
  mkExchange 255 busy 1700000000000000000 (postgres 100 7 reach id (Ok tt) sample_queue) (fun _ => []) false None None 4 2 9.

Example sample_answers :
  map (fun '(busy, reach, body) =>
      let w := snd (serve (sample_exchange busy reach) (sample_request body) (mkWorld sample_table [])) in
      (status_of (w_log w), size (w_state w)))
    [(3, Reached, sample_body); (16, Reached, sample_body); (3, Reached, sample_body +:+ sample_body);
     (3, Unreachable "timeout", sample_body); (3, AnswerLost "reset", sample_body); (0, Reached, "{}")] =
  [(Some 202%Z, 2); (Some 503%Z, 1); (Some 400%Z, 1); (Some 500%Z, 1); (Some 500%Z, 2); (Some 400%Z, 1)].
Proof. vm_compute. reflexivity. Qed.

Lemma posted_submission_answered_witness :
  exists answer t' log, serve (sample_exchange 3 Reached) (sample_request sample_body) (mkWorld sample_table []) =
      (Ok tt, mkWorld t' log) /\
    admission (sample_exchange 3 Reached) (sample_request sample_body) 100 7 Reached id sample_table answer t'.
Proof.
  destruct (posted_submission_answered (sample_exchange 3 Reached) (sample_request sample_body) 100 7 Reached id (Ok tt)
    sample_queue sample_table) as (answer & t' & log & Hs & Ha & _).
  - split; [reflexivity|]. left.
  - reflexivity.
  - exists answer, t', log. split; [exact Hs|exact Ha].
Defined.

(** ** From the request to the answer *)

(** The body that a client sends for [sum_job]. *)
Definition sum_body (language : string) : string :=
  object_text
    [("language", quoted language); ("sourceCode", quoted "class Solution {};");
     ("function", object_text
        [("name", quoted "sum"); ("returnType", quoted "int");
         ("params", array_text [object_text [("name", quoted "values"); ("type", quoted "const vector<int>&")];
                                object_text [("name", quoted "limit"); ("type", quoted "int")]])]);
     ("testCases", array_text
        [object_text [("id", "1"); ("args", array_text ["[1,2,3]"; "10"]); ("expected", "6")];
         object_text [("id", "2"); ("args", array_text ["[]"; "0"]); ("expected", "0")]]);
     ("limits", object_text [("timeLimitMs", "1000"); ("memoryLimitMb", "256")])].

Example sum_body_job : job_of_body (sample_request (sum_body "cpp")) = inr (sum_job "cpp").
Proof. vm_compute. reflexivity. Qed.

Definition posted_id : string := "1700000000000000000".

Definition posted_world := snd (serve (sample_exchange 3 Reached) (sample_request (sum_body "cpp")) (mkWorld ∅ [])).

(** The first claim after the request, at time 50. *)
Definition posted_claim : SubmissionClaim := mkClaim posted_id 1.
Definition posted_claimed : table :=
  {[ posted_id := mkRow SubmissionRunning "cpp" None (Some 50%Z) 1 (Some (50 + lease_interval sample_queue)%Z) (Some "") 7 50 ]}.

Definition posted_database : Database := renewing_database posted_claim.

Definition asking_request : Request := mkRequest MethodGet ("/submissions/" +:+ posted_id) "client-8" "" StreamEOF.

Definition judged_world (env : Environment) :=
  snd (worker_turn posted_database supportedLanguages env posted_claim (mkWorld (posted_claimed, O) [])).

(** The client reads the time limit of the first case. *)
Example asked_answer :
  let w := snd (serve (sample_exchange 0 Reached) asking_request (mkWorld (w_state (judged_world healthy_environment)).1 [])) in
  status_of (w_log w) = Some 200%Z /\
  payloads (w_log w) = [SubmissionResponse posted_id SubmissionFinished (Some (summary TimeLimitExceeded))].
Proof. vm_compute. split; reflexivity. Qed.

Lemma sample_columns : columns (fun job => sum_job (job_Language job)) (fun result => summary (rs_Status result)).
Proof. split; [by intros job text [= <-]|]. intros result text [= <-]. by destruct (rs_Status result). Qed.

Lemma sample_leaves_job id text : others_leave_job id text sample_turns (fun _ t => t).
Proof. intros n. split; [|by intros t Ht]. constructor; [|constructor]. by intros t Ht. Qed.

Lemma posted_job_gets_its_verdict_witness :
  payloads (w_log posted_world) = [SubmissionAcceptedResponse posted_id SubmissionQueued] /\
  exists result log', case_verdict healthy_environment (sum_job "cpp") (Some (map Some stopped_results)) result /\
    serve (sample_exchange 0 Reached) asking_request (mkWorld (w_state (judged_world healthy_environment)).1 []) =
      (Ok tt, mkWorld (w_state (judged_world healthy_environment)).1 log') /\
    status_of log' = Some StatusOK /\
    payloads log' = [SubmissionResponse posted_id SubmissionFinished (Some (summary (rs_Status result)))].
Proof.
  destruct (posted_job_gets_its_verdict (fun job => sum_job (job_Language job)) (fun result => summary (rs_Status result))
    (sample_exchange 3 Reached) (sample_request (sum_body "cpp")) 100 7 id (Ok tt) sample_queue ∅ (w_state posted_world)
    (w_log posted_world) (sum_job "cpp") sample_queue 50 ∅ (w_state posted_world) posted_claim posted_claimed posted_database
    sample_turns (fun _ t => t) sample_last healthy_environment language_Cpp (Some (map Some stopped_results)) []
    (sample_exchange 0 Reached) asking_request (w_state (judged_world healthy_environment)).1)
    as (Hpay & result & log' & Hverdict & Hserve & Hstatus & Hanswer).
  - apply sample_columns.
  - reflexivity.
  - left.
  - reflexivity.
  - vm_compute. reflexivity.
  - vm_compute. reflexivity.
  - apply sum_body_job.
  - reflexivity.
  - vm_compute. reflexivity.
  - reflexivity.
  - apply renewing_ticking.
  - reflexivity.
  - intros text. apply sample_leaves_job.
  - apply sum_cpp_accepted.
  - reflexivity.
  - apply sample_healthy.
  - reflexivity.
  - reflexivity.
  - reflexivity.
  - reflexivity.
  - split; [exact Hpay|]. exists result, log'. split; [exact Hverdict|]. split; [exact Hserve|].
    split; [exact Hstatus|]. rewrite Hanswer. reflexivity.
Defined.
